(** * The WAL sender (src/backend/replication/walsender.c)

    A shallow embedding of the walsender process: the shared slot table
    with its acquisition, release, initialisation and wake-up, the
    segment reader [XLogRead], the framer [XLogSend], the signal handlers,
    the handshake dispatcher [WalSndHandshake], the streaming loop
    [WalSndLoop] and the statistics view [pg_stat_get_wal_senders].

    Conventions.
    - C's [uint32] values are integers in [Z]; every [uint32] operation of
      the source that can leave the range is wrapped with [uint32].
    - Global variables of the process live in the record [Sender]; the
      shared-memory array [WalSndCtl->walsnds] is a list inside it.
    - Calls into the rest of the server (the WAL writer, the file system,
      libpq, the postmaster) take their answers from an environment record
      that is an argument of the function making the call.
    - The answers of the file system depend on the system calls issued
      before them: the kernel, not the caller, keeps the file offset of a
      descriptor.
    - [ereport(ERROR)], [ereport(FATAL)], [proc_exit] and [exit] leave the
      function: they are constructors of [outcome]. The state they carry is
      the one at that point; the callbacks of the exit run after it.
    - Everything the process does that another process or the client can
      observe is appended to [trace]. *)

From Stdlib Require Import ZArith Lia Bool String Ascii.
From stdpp Require Import base list.

Local Open Scope Z_scope.

(** ** Machine integers *)

Definition uint32 (z : Z) : Z := z mod 4294967296.

Definition EOF : Z := -1.
Definition ENOENT : Z := 2.

(** ** Log positions (XLogRecPtr) *)

Record XLogRecPtr : Type := mkXLogRecPtr { xlogid : Z; xrecoff : Z }.

Definition InvalidXLogRecPtr : XLogRecPtr := {| xlogid := 0; xrecoff := 0 |}.

(** Modelled from the spec: the configuration constants of
    access/xlog_internal.h, pg_config.h and replication/walprotocol.h
    ([PAGE_SIZE], [SEG_SIZE], [FILE_SIZE], [MAX_FRAME] in the spec) are
    not part of the source file; they are parameters of the development. *)
Class XLogParams : Type := {
  XLOG_BLCKSZ : Z;
  XLogSegSize : Z;
  XLogFileSize : Z;
  MAX_SEND_SIZE : Z
}.

(** What the code relies on: a page divides a segment, a segment divides
    a log file, a frame holds at least a page, and the constants fit the
    machine type they are computed in ([XLByteAdvance] adds [MAX_SEND_SIZE]
    to an offset below [XLogFileSize] in [uint32]). *)
Record XLogParamsOk `{XLogParams} : Prop := {
  blcksz_pos : 0 < XLOG_BLCKSZ;
  seg_pos : 0 < XLogSegSize;
  seg_blcksz : XLogSegSize mod XLOG_BLCKSZ = 0;
  file_seg : XLogFileSize mod XLogSegSize = 0;
  file_pos : 0 < XLogFileSize;
  send_blcksz : XLOG_BLCKSZ <= MAX_SEND_SIZE;
  send_nowrap : XLogFileSize + MAX_SEND_SIZE <= 4294967296
}.

(** The values of a default build: 8 kB pages, 16 MB segments,
    [XLogFileSize = (0xffffffff / XLogSegSize) * XLogSegSize] and
    [MAX_SEND_SIZE = XLOG_BLCKSZ * 16]. *)
Definition default_params : XLogParams := {|
  XLOG_BLCKSZ := 8192;
  XLogSegSize := 16777216;
  XLogFileSize := 4278190080;
  MAX_SEND_SIZE := 131072
|}.

Section Positions.
Context `{XLogParams}.

(** A position a process can hold in an [XLogRecPtr]. *)
Definition is_recptr (p : XLogRecPtr) : Prop :=
  0 <= xlogid p < 4294967296 /\ 0 <= xrecoff p < 4294967296.

(** A position the WAL writer hands out: the offset never passes the end
    of the log file. *)
Definition valid_recptr (p : XLogRecPtr) : Prop :=
  0 <= xlogid p < 4294967296 /\ 0 <= xrecoff p <= XLogFileSize.

(** Modelled from the spec: the position macros of access/xlog_internal.h
    (not part of the source file). Ordering is lexicographic on
    [(xlogid, xrecoff)]. *)
Definition XLByteLT (a b : XLogRecPtr) : bool :=
  (xlogid a <? xlogid b) || ((xlogid a =? xlogid b) && (xrecoff a <? xrecoff b)).

Definition XLByteLE (a b : XLogRecPtr) : bool :=
  (xlogid a <? xlogid b) || ((xlogid a =? xlogid b) && (xrecoff a <=? xrecoff b)).

(** Modelled from the spec: [XLByteAdvance(recptr, nbytes)]; when the
    offset reaches [XLogFileSize] the position moves to the next log id. *)
Definition XLByteAdvance (recptr : XLogRecPtr) (nbytes : Z) : XLogRecPtr :=
  if XLogFileSize <=? uint32 (xrecoff recptr + nbytes) then
    {| xlogid := uint32 (xlogid recptr + 1);
       xrecoff := uint32 (xrecoff recptr + nbytes - XLogFileSize) |}
  else
    {| xlogid := xlogid recptr;
       xrecoff := uint32 (xrecoff recptr + nbytes) |}.

(** Modelled from the spec: [XLByteToSeg(xlrp, logId, logSeg)] and
    [XLByteInSeg(xlrp, logId, logSeg)]; the segment of a position is
    [xrecoff / XLogSegSize] within its log id. *)
Definition XLByteToSeg (xlrp : XLogRecPtr) : Z * Z :=
  (xlogid xlrp, xrecoff xlrp / XLogSegSize).

Definition XLByteInSeg (xlrp : XLogRecPtr) (logId logSeg : Z) : bool :=
  (xlogid xlrp =? logId) && (xrecoff xlrp / XLogSegSize =? logSeg).

End Positions.

(** ** Error reports

    One constructor per [errmsg] of the source file. *)

Inductive ErrLevel : Type := COMMERROR | ERROR | FATAL.

Inductive Report : Type :=
| RecoveryInProgressReport
| UnexpectedEOF
| InvalidHandshakeMessageType (firstchar : Z)
| InvalidClosingMessageType (firstchar : Z)
| WalLevelMinimal
| ParserReturned (parse_rc : Z)
| InvalidQueryString
| TooManyStandbyConnections (max : Z)
| SegmentAlreadyRemoved (log seg : Z)
| CouldNotOpenFile (log seg errno : Z)
| CouldNotSeek (log seg startoff : Z)
| CouldNotRead (log seg off len : Z).

(** The error kinds of the design (section 7 of the specification). *)
Inductive ErrKind : Type :=
| CANNOT_CONNECT_NOW
| TOO_MANY_SENDERS
| PROTOCOL_VIOLATION
| SYNTAX_ERROR
| WAL_REMOVED
| IO_ERROR.

Definition kind_of (r : Report) : ErrKind :=
  match r with
  | RecoveryInProgressReport => CANNOT_CONNECT_NOW
  | WalLevelMinimal => CANNOT_CONNECT_NOW
  | UnexpectedEOF => PROTOCOL_VIOLATION
  | InvalidHandshakeMessageType _ => PROTOCOL_VIOLATION
  | InvalidClosingMessageType _ => PROTOCOL_VIOLATION
  | InvalidQueryString => PROTOCOL_VIOLATION
  | ParserReturned _ => SYNTAX_ERROR
  | TooManyStandbyConnections _ => TOO_MANY_SENDERS
  | SegmentAlreadyRemoved _ _ => WAL_REMOVED
  | CouldNotOpenFile _ _ _ => IO_ERROR
  | CouldNotSeek _ _ _ => IO_ERROR
  | CouldNotRead _ _ _ _ => IO_ERROR
  end.

(** ** The log reader: XLogRead *)

(** [sendFile], [sendId], [sendSeg], [sendOff]. *)
Record SendCursor : Type := {
  sendFile : Z;
  sendId : Z;
  sendSeg : Z;
  sendOff : Z
}.

Definition initial_cursor : SendCursor :=
  {| sendFile := -1; sendId := 0; sendSeg := 0; sendOff := 0 |}.

(** The system calls issued by [XLogRead], with their answers: the
    segment opened with the descriptor and [errno] it gave; the seek with
    its result; the read with the position of the reader, the bytes still
    wanted, the bytes asked for and the bytes delivered; the descriptor
    closed. *)
Inductive SysCall : Type :=
| sys_open (log seg fd errno : Z)
| sys_lseek (fd startoff result : Z)
| sys_read (fd : Z) (recptr : XLogRecPtr) (wanted count got : Z)
| sys_close (fd : Z).

(** The answers of the file system during one call of [XLogRead].
    [BasicOpenFile] gives the descriptor (negative on failure) and
    [errno]; [lseek] gives its return value; [read] gives the bytes the
    kernel delivers, or fails. The kernel keeps the file offset of a
    descriptor: [read(fd, buf, count)] is not told where to read. So each
    answer is a function of the arguments of the call and of the system
    calls the process has issued before it since [XLogRead] was entered. *)
Inductive read_reply : Type :=
| ReadFails
| ReadGives (data : list Byte.byte).

Record FileSys : Type := {
  ThisTimeLineID : Z;
  BasicOpenFile : list SysCall -> Z -> Z -> Z -> Z * Z;
  lseek : list SysCall -> Z -> Z -> Z;
  read : list SysCall -> Z -> Z -> read_reply;
  XLogGetLastRemoved : Z * Z
}.

(** [read(fd, buf, count)] never delivers more than [count] bytes. *)
Definition read_call (fs : FileSys) (calls : list SysCall) (fd count : Z) :
    Z * list Byte.byte :=
  match read fs calls fd count with
  | ReadFails => (-1, [])
  | ReadGives data =>
      let got := take (Z.to_nat count) data in
      (Z.of_nat (length got), got)
  end.

Inductive read_result : Type :=
| ReadOk (buf : list Byte.byte) (c : SendCursor) (calls : list SysCall)
| ReadErr (e : Report) (c : SendCursor) (calls : list SysCall)
| ReadOutOfFuel.

Definition calls_of (r : read_result) : list SysCall :=
  match r with
  | ReadOk _ _ calls => calls
  | ReadErr _ _ calls => calls
  | ReadOutOfFuel => []
  end.

Section Reader.
Context `{XLogParams}.

(** The [while (nbytes > 0)] loop of [XLogRead]. Each turn consumes at
    least one byte, so [nbytes] turns are enough: [fuel] bounds the
    turns. *)
Fixpoint XLogRead_loop (fuel : nat) (fs : FileSys) (c : SendCursor)
    (buf : list Byte.byte) (calls : list SysCall)
    (recptr : XLogRecPtr) (nbytes : Z) : read_result :=
  if nbytes >? 0 then
    match fuel with
    | O => ReadOutOfFuel
    | S fuel' =>
        let startoff := xrecoff recptr mod XLogSegSize in
        let opened :=
          if (sendFile c <? 0) || negb (XLByteInSeg recptr (sendId c) (sendSeg c)) then
            (* Switch to another logfile segment *)
            let calls0 :=
              if 0 <=? sendFile c then calls ++ [sys_close (sendFile c)] else calls in
            let '(id, seg) := XLByteToSeg recptr in
            let '(fd, errno) := BasicOpenFile fs calls0 (ThisTimeLineID fs) id seg in
            let c1 := {| sendFile := fd; sendId := id; sendSeg := seg; sendOff := sendOff c |} in
            let calls1 := calls0 ++ [sys_open id seg fd errno] in
            if fd <? 0 then
              if errno =? ENOENT then inl (SegmentAlreadyRemoved id seg, c1, calls1)
              else inl (CouldNotOpenFile id seg errno, c1, calls1)
            else inr ({| sendFile := fd; sendId := id; sendSeg := seg; sendOff := 0 |}, calls1)
          else inr (c, calls) in
        match opened with
        | inl (e, c1, calls1) => ReadErr e c1 calls1
        | inr (c1, calls1) =>
            (* Need to seek in the file? *)
            let sought :=
              if negb (sendOff c1 =? startoff) then
                let result := lseek fs calls1 (sendFile c1) startoff in
                let calls2 := calls1 ++ [sys_lseek (sendFile c1) startoff result] in
                if result <? 0 then
                  inl (CouldNotSeek (sendId c1) (sendSeg c1) startoff, calls2)
                else inr ({| sendFile := sendFile c1; sendId := sendId c1;
                             sendSeg := sendSeg c1; sendOff := startoff |}, calls2)
              else inr (c1, calls1) in
            match sought with
            | inl (e, calls2) => ReadErr e c1 calls2
            | inr (c2, calls2) =>
                (* How many bytes are within this segment? *)
                let segbytes :=
                  if nbytes >? XLogSegSize - startoff then XLogSegSize - startoff
                  else nbytes in
                let '(readbytes, data) := read_call fs calls2 (sendFile c2) segbytes in
                let calls3 := calls2 ++ [sys_read (sendFile c2) recptr nbytes segbytes readbytes] in
                if readbytes <=? 0 then
                  ReadErr (CouldNotRead (sendId c2) (sendSeg c2) (sendOff c2) segbytes) c2 calls3
                else
                  (* Update state for read *)
                  XLogRead_loop fuel' fs
                    {| sendFile := sendFile c2; sendId := sendId c2; sendSeg := sendSeg c2;
                       sendOff := uint32 (sendOff c2 + readbytes) |}
                    (buf ++ data) calls3
                    (XLByteAdvance recptr readbytes) (nbytes - readbytes)
            end
        end
    end
  else ReadOk buf c calls.

(** [XLogRead(buf, recptr, nbytes)]: the loop, then the check of the
    segment of [startRecPtr] against the last removed segment. *)
Definition XLogRead (fs : FileSys) (c : SendCursor)
    (recptr : XLogRecPtr) (nbytes : Z) : read_result :=
  let startRecPtr := recptr in
  match XLogRead_loop (Z.to_nat nbytes) fs c [] [] recptr nbytes with
  | ReadOk buf c' calls =>
      let '(lastRemovedLog, lastRemovedSeg) := XLogGetLastRemoved fs in
      let '(log, seg) := XLByteToSeg startRecPtr in
      if (log <? lastRemovedLog) || ((log =? lastRemovedLog) && (seg <=? lastRemovedSeg)) then
        ReadErr (SegmentAlreadyRemoved log seg) c' calls
      else ReadOk buf c' calls
  | r => r
  end.

End Reader.

(** ** The shared slot table and the state of one walsender *)

Inductive WalSndState : Type :=
| WALSNDSTATE_STARTUP
| WALSNDSTATE_BACKUP
| WALSNDSTATE_CATCHUP
| WALSNDSTATE_STREAMING.

Definition WalSndState_eqb (a b : WalSndState) : bool :=
  match a, b with
  | WALSNDSTATE_STARTUP, WALSNDSTATE_STARTUP
  | WALSNDSTATE_BACKUP, WALSNDSTATE_BACKUP
  | WALSNDSTATE_CATCHUP, WALSNDSTATE_CATCHUP
  | WALSNDSTATE_STREAMING, WALSNDSTATE_STREAMING => true
  | _, _ => false
  end.

(** Modelled from the spec: a latch (storage/latch.h is not part of the
    source file) is a set-bit with an owner; attaching a process to it
    records the owner. *)
Record Latch : Type := { is_set : bool; owner_pid : Z }.

(** One entry of [WalSndCtl->walsnds]; the fields [pid], [state],
    [sentPtr] and [latch] of [WalSnd]. The spinlock [mutex] shows in the
    trace. *)
Record WalSnd : Type := {
  ws_pid : Z;
  ws_state : WalSndState;
  ws_sentPtr : XLogRecPtr;
  ws_latch : Latch
}.

Record WalDataMessageHeader : Type := {
  dataStart : XLogRecPtr;
  walEnd : XLogRecPtr;
  sendTime : Z
}.

(** The payload of a protocol message. A WAL data message is the byte
    ['w'], the header and the WAL bytes. *)
Inductive MsgBody : Type :=
| WalDataBody (tag : ascii) (hdr : WalDataMessageHeader) (data : list Byte.byte)
| TextBody (s : string)
| CopyBothBody (format natts : Z)
| RowDescriptionBody (columns : list string)
| DataRowBody (sysid tli : Z).

(** What the process does that others can observe: the spinlock and the
    latch of slot [i], the stores into the fields [sentPtr] and [state] of
    slot [i], the messages put and the flushes with their result, the
    reports logged without leaving the function, and the calls into the
    rest of the server. *)
Inductive Event : Type :=
| SpinLockAcquire (i : nat)
| SpinLockRelease (i : nat)
| OwnLatch (i : nat)
| ResetLatch (i : nat)
| WaitLatchOrSocket (i : nat) (timeout : Z)
| StoreSentPtr (i : nat) (p : XLogRecPtr)
| StoreState (i : nat) (st : WalSndState)
| pq_putmessage (msgtype : ascii) (body : MsgBody)
| pq_flush_called (result : Z)
| ReadyForQuery
| LogReport (lvl : ErrLevel) (e : Report)
| ProcessConfigFile
| SendBaseBackup
| MarkPostmasterChildWalSender
| set_ps_display_streaming (p : XLogRecPtr)
| set_ps_display_idle
| on_shmem_exit_WalSndKill
| SuppressOutput.

Record Sender : Type := {
  WalSndCtl : list WalSnd;
  MyWalSnd : option nat;
  MyProcPid : Z;
  sentPtr : XLogRecPtr;
  cursor : SendCursor;
  got_SIGHUP : bool;
  walsender_shutdown_requested : bool;
  walsender_ready_to_stop : bool;
  trace : list Event
}.

Definition emit (e : Event) (s : Sender) : Sender :=
  {| WalSndCtl := WalSndCtl s; MyWalSnd := MyWalSnd s; MyProcPid := MyProcPid s;
     sentPtr := sentPtr s; cursor := cursor s; got_SIGHUP := got_SIGHUP s;
     walsender_shutdown_requested := walsender_shutdown_requested s;
     walsender_ready_to_stop := walsender_ready_to_stop s;
     trace := trace s ++ [e] |}.

Definition set_WalSndCtl (t : list WalSnd) (s : Sender) : Sender :=
  {| WalSndCtl := t; MyWalSnd := MyWalSnd s; MyProcPid := MyProcPid s;
     sentPtr := sentPtr s; cursor := cursor s; got_SIGHUP := got_SIGHUP s;
     walsender_shutdown_requested := walsender_shutdown_requested s;
     walsender_ready_to_stop := walsender_ready_to_stop s;
     trace := trace s |}.

Definition set_MyWalSnd (m : option nat) (s : Sender) : Sender :=
  {| WalSndCtl := WalSndCtl s; MyWalSnd := m; MyProcPid := MyProcPid s;
     sentPtr := sentPtr s; cursor := cursor s; got_SIGHUP := got_SIGHUP s;
     walsender_shutdown_requested := walsender_shutdown_requested s;
     walsender_ready_to_stop := walsender_ready_to_stop s;
     trace := trace s |}.

Definition set_sentPtr (p : XLogRecPtr) (s : Sender) : Sender :=
  {| WalSndCtl := WalSndCtl s; MyWalSnd := MyWalSnd s; MyProcPid := MyProcPid s;
     sentPtr := p; cursor := cursor s; got_SIGHUP := got_SIGHUP s;
     walsender_shutdown_requested := walsender_shutdown_requested s;
     walsender_ready_to_stop := walsender_ready_to_stop s;
     trace := trace s |}.

Definition set_cursor (c : SendCursor) (s : Sender) : Sender :=
  {| WalSndCtl := WalSndCtl s; MyWalSnd := MyWalSnd s; MyProcPid := MyProcPid s;
     sentPtr := sentPtr s; cursor := c; got_SIGHUP := got_SIGHUP s;
     walsender_shutdown_requested := walsender_shutdown_requested s;
     walsender_ready_to_stop := walsender_ready_to_stop s;
     trace := trace s |}.

Definition set_got_SIGHUP (b : bool) (s : Sender) : Sender :=
  {| WalSndCtl := WalSndCtl s; MyWalSnd := MyWalSnd s; MyProcPid := MyProcPid s;
     sentPtr := sentPtr s; cursor := cursor s; got_SIGHUP := b;
     walsender_shutdown_requested := walsender_shutdown_requested s;
     walsender_ready_to_stop := walsender_ready_to_stop s;
     trace := trace s |}.

Definition set_shutdown_requested (b : bool) (s : Sender) : Sender :=
  {| WalSndCtl := WalSndCtl s; MyWalSnd := MyWalSnd s; MyProcPid := MyProcPid s;
     sentPtr := sentPtr s; cursor := cursor s; got_SIGHUP := got_SIGHUP s;
     walsender_shutdown_requested := b;
     walsender_ready_to_stop := walsender_ready_to_stop s;
     trace := trace s |}.

Definition set_ready_to_stop (b : bool) (s : Sender) : Sender :=
  {| WalSndCtl := WalSndCtl s; MyWalSnd := MyWalSnd s; MyProcPid := MyProcPid s;
     sentPtr := sentPtr s; cursor := cursor s; got_SIGHUP := got_SIGHUP s;
     walsender_shutdown_requested := walsender_shutdown_requested s;
     walsender_ready_to_stop := b;
     trace := trace s |}.

(** The process as the postmaster forks it: no slot, nothing sent, no
    segment open, no signal seen. *)
Definition fresh_sender (pid : Z) (table : list WalSnd) : Sender :=
  {| WalSndCtl := table; MyWalSnd := None; MyProcPid := pid;
     sentPtr := InvalidXLogRecPtr; cursor := initial_cursor;
     got_SIGHUP := false; walsender_shutdown_requested := false;
     walsender_ready_to_stop := false; trace := [] |}.

(** How a function of the walsender ends: it returns, it reports an
    [ERROR] or [FATAL] (the walsender attempts no error recovery), or it
    exits the process. [OutOfFuel] is not an ending: the process is still
    running in the state given, and the model has no fuel or no
    environment left to go on. *)
Inductive outcome (A : Type) : Type :=
| Return (a : A) (s : Sender)
| Raise (lvl : ErrLevel) (e : Report) (s : Sender)
| Exit (code : Z) (s : Sender)
| OutOfFuel (s : Sender).

Arguments Return {A} a s.
Arguments Raise {A} lvl e s.
Arguments Exit {A} code s.
Arguments OutOfFuel {A} s.

Definition bind {A B : Type} (m : outcome A) (k : A -> Sender -> outcome B) : outcome B :=
  match m with
  | Return a s => k a s
  | Raise lvl e s => Raise lvl e s
  | Exit code s => Exit code s
  | OutOfFuel s => OutOfFuel s
  end.

(** The slot [MyWalSnd] points to. Every function below that reads or
    writes through [MyWalSnd] runs after [InitWalSnd] has set it. *)
Definition my_slot (s : Sender) : option WalSnd :=
  match MyWalSnd s with
  | Some i => WalSndCtl s !! i
  | None => None
  end.

(** [walsnd->sentPtr = p] and [walsnd->state = st]. *)
Definition store_sentPtr (w : WalSnd) (p : XLogRecPtr) : WalSnd :=
  {| ws_pid := ws_pid w; ws_state := ws_state w; ws_sentPtr := p; ws_latch := ws_latch w |}.

Definition store_state (w : WalSnd) (st : WalSndState) : WalSnd :=
  {| ws_pid := ws_pid w; ws_state := st; ws_sentPtr := ws_sentPtr w; ws_latch := ws_latch w |}.

(** [SpinLockAcquire(&walsnd->mutex); walsnd->sentPtr = sentPtr;
    SpinLockRelease(&walsnd->mutex);] on [MyWalSnd]. *)
Definition publish_sentPtr (s : Sender) : Sender :=
  match MyWalSnd s with
  | Some i =>
      let s1 := emit (SpinLockAcquire i) s in
      let s2 := set_WalSndCtl (alter (fun w => store_sentPtr w (sentPtr s1)) i (WalSndCtl s1)) s1 in
      let s3 := emit (StoreSentPtr i (sentPtr s2)) s2 in
      emit (SpinLockRelease i) s3
  | None => s
  end.

(** ** The framer: XLogSend *)

(** What one call of [XLogSend] observes of the rest of the system. *)
Record SendEnv : Type := {
  GetFlushRecPtr : XLogRecPtr;
  filesys : FileSys;
  GetCurrentTimestamp : Z;
  pq_flush : Z;
  update_process_title : bool
}.

Section Framer.
Context `{XLogParams}.

(** The slice [startptr, endptr) that [XLogSend] picks once the quick
    exit is passed (from [startptr = sentPtr] down to the choice of
    [*caughtup]), as a function of [sentPtr] and [SendRqstPtr]. *)
Definition XLogSend_slice (sentPtr SendRqstPtr : XLogRecPtr) : XLogRecPtr * XLogRecPtr * bool :=
  let startptr := sentPtr in
  let startptr :=
    if XLogFileSize <=? xrecoff startptr then
      (* crossing a logid boundary, skip the non-existent last log segment
         in previous logical log file. *)
      {| xlogid := uint32 (xlogid startptr + 1); xrecoff := 0 |}
    else startptr in
  let endptr := XLByteAdvance startptr MAX_SEND_SIZE in
  let endptr :=
    if negb (xlogid endptr =? xlogid startptr) then
      (* Don't cross a logfile boundary within one message *)
      {| xlogid := xlogid startptr; xrecoff := XLogFileSize |}
    else endptr in
  (* if we went beyond SendRqstPtr, back off *)
  if XLByteLE SendRqstPtr endptr then (startptr, SendRqstPtr, true)
  else
    (* round down to page boundary. *)
    (startptr,
     {| xlogid := xlogid endptr;
        xrecoff := uint32 (xrecoff endptr - xrecoff endptr mod XLOG_BLCKSZ) |},
     false).

(** [XLogSend(msgbuf, &caughtup)]; the result is the pair of the
    returned flag and [*caughtup]. *)
Definition XLogSend (env : SendEnv) (s : Sender) : outcome (bool * bool) :=
  let SendRqstPtr := GetFlushRecPtr env in
  (* Quick exit if nothing to do *)
  if XLByteLE SendRqstPtr (sentPtr s) then Return (true, true) s
  else
    let '(startptr, endptr, caughtup) := XLogSend_slice (sentPtr s) SendRqstPtr in
    let nbytes := uint32 (xrecoff endptr - xrecoff startptr) in
    (* Read the log directly into the output buffer *)
    match XLogRead (filesys env) (cursor s) startptr nbytes with
    | ReadOutOfFuel => OutOfFuel s
    | ReadErr e c _ => Raise ERROR e (set_cursor c s)
    | ReadOk data c _ =>
        let s := set_cursor c s in
        (* We fill the message header last *)
        let msghdr := {| dataStart := startptr; walEnd := SendRqstPtr;
                         sendTime := GetCurrentTimestamp env |} in
        let s := emit (pq_putmessage "d" (WalDataBody "w" msghdr data)) s in
        (* Flush pending output to the client *)
        let s := emit (pq_flush_called (pq_flush env)) s in
        if negb (pq_flush env =? 0) then Return (false, caughtup) s
        else
          let s := set_sentPtr endptr s in
          (* Update shared memory status *)
          let s := publish_sentPtr s in
          (* Report progress of XLOG streaming in PS display *)
          let s := if update_process_title env
                   then emit (set_ps_display_streaming (sentPtr s)) s else s in
          Return (true, caughtup) s
    end.

End Framer.

(** ** Slot acquisition: InitWalSnd *)

(** [max_wal_senders]: [WalSndShmemInit] allocates the table with that
    many entries. *)
Definition max_wal_senders (s : Sender) : Z := Z.of_nat (length (WalSndCtl s)).

(** [walsnd->pid = MyProcPid; MemSet(&walsnd->sentPtr, 0, ...);
    walsnd->state = WALSNDSTATE_STARTUP;] *)
Definition reserve_slot (pid : Z) (w : WalSnd) : WalSnd :=
  {| ws_pid := pid; ws_state := WALSNDSTATE_STARTUP;
     ws_sentPtr := {| xlogid := 0; xrecoff := 0 |}; ws_latch := ws_latch w |}.

Definition own_latch (pid : Z) (w : WalSnd) : WalSnd :=
  {| ws_pid := ws_pid w; ws_state := ws_state w; ws_sentPtr := ws_sentPtr w;
     ws_latch := {| is_set := is_set (ws_latch w); owner_pid := pid |} |}.

Definition set_latch (b : bool) (w : WalSnd) : WalSnd :=
  {| ws_pid := ws_pid w; ws_state := ws_state w; ws_sentPtr := ws_sentPtr w;
     ws_latch := {| is_set := b; owner_pid := owner_pid (ws_latch w) |} |}.

(** [for (i = 0; i < max_wal_senders; i++)], with [n] entries left to
    look at from index [i] on. *)
Fixpoint InitWalSnd_scan (n : nat) (i : nat) (s : Sender) : Sender :=
  match n with
  | O => s
  | S n' =>
      match WalSndCtl s !! i with
      | None => s
      | Some walsnd =>
          let s := emit (SpinLockAcquire i) s in
          if negb (ws_pid walsnd =? 0) then
            InitWalSnd_scan n' (S i) (emit (SpinLockRelease i) s)
          else
            (* Found a free slot. Reserve it for us. *)
            let s := set_WalSndCtl (alter (reserve_slot (MyProcPid s)) i (WalSndCtl s)) s in
            let s := emit (StoreSentPtr i {| xlogid := 0; xrecoff := 0 |}) s in
            let s := emit (StoreState i WALSNDSTATE_STARTUP) s in
            let s := emit (SpinLockRelease i) s in
            (* don't need the lock anymore *)
            let s := set_WalSndCtl (alter (own_latch (MyProcPid s)) i (WalSndCtl s)) s in
            let s := emit (OwnLatch i) s in
            set_MyWalSnd (Some i) s
      end
  end.

Definition InitWalSnd (s : Sender) : outcome unit :=
  let s := InitWalSnd_scan (length (WalSndCtl s)) 0 s in
  match MyWalSnd s with
  | None => Raise FATAL (TooManyStandbyConnections (max_wal_senders s)) s
  | Some _ =>
      (* Arrange to clean up at walsender exit *)
      Return tt (emit on_shmem_exit_WalSndKill s)
  end.

(** [WalSndSetState(state)] *)
Definition WalSndSetState (state : WalSndState) (s : Sender) : Sender :=
  match MyWalSnd s, my_slot s with
  | Some i, Some walsnd =>
      if WalSndState_eqb (ws_state walsnd) state then s
      else
        let s := emit (SpinLockAcquire i) s in
        let s := set_WalSndCtl (alter (fun w => store_state w state) i (WalSndCtl s)) s in
        let s := emit (StoreState i state) s in
        emit (SpinLockRelease i) s
  | _, _ => s
  end.

(** ** Signals *)

Inductive Signal : Type := SIGHUP | SIGTERM | SIGQUIT | SIGUSR1 | SIGUSR2.

(** [if (MyWalSnd) SetLatch(&MyWalSnd->latch);] *)
Definition SetLatch_mine (s : Sender) : Sender :=
  match MyWalSnd s with
  | Some i => set_WalSndCtl (alter (set_latch true) i (WalSndCtl s)) s
  | None => s
  end.

(** The handlers installed by [WalSndSignals]. *)
Definition handle_signal (sig : Signal) (s : Sender) : outcome unit :=
  match sig with
  | SIGHUP => Return tt (SetLatch_mine (set_got_SIGHUP true s))
  | SIGTERM => Return tt (SetLatch_mine (set_shutdown_requested true s))
  | SIGQUIT => Exit 2 s
  | SIGUSR1 => Return tt (SetLatch_mine s)
  | SIGUSR2 => Return tt (SetLatch_mine (set_ready_to_stop true s))
  end.

Fixpoint deliver (sigs : list Signal) (s : Sender) : outcome unit :=
  match sigs with
  | [] => Return tt s
  | sig :: rest => bind (handle_signal sig s) (fun _ s' => deliver rest s')
  end.

(** ** The handshake: WalSndHandshake *)

Inductive ReplicationCmd : Type :=
| T_IdentifySystemCmd
| T_StartReplicationCmd (startpoint : XLogRecPtr)
| T_BaseBackupCmd (label : string) (progress fastcheckpoint : bool)
| T_Other.

(** What one turn of the handshake loop observes: the client's next
    byte and message, the postmaster, the parser and the configuration. *)
Record HandshakeEnv : Type := {
  pq_getbyte : Z;
  hs_PostmasterIsAlive : bool;
  pq_getmessage : Z;
  replication_yyparse : Z;
  replication_parse_result : ReplicationCmd;
  GetSystemIdentifier : Z;
  hs_ThisTimeLineID : Z;
  wal_level_is_minimal : bool;
  hs_pq_flush : Z;
  hs_signals : list Signal
}.

Definition IdentifySystem (env : HandshakeEnv) (s : Sender) : Sender :=
  let s := emit (pq_putmessage "T" (RowDescriptionBody ["systemid"%string; "timeline"%string])) s in
  let s := emit (pq_putmessage "D" (DataRowBody (GetSystemIdentifier env) (hs_ThisTimeLineID env))) s in
  (* Send CommandComplete and ReadyForQuery messages *)
  let s := emit (pq_putmessage "C" (TextBody "SELECT")) s in
  emit ReadyForQuery s.

Definition StartReplication (env : HandshakeEnv) (startpoint : XLogRecPtr)
    (s : Sender) : outcome unit :=
  let s := emit MarkPostmasterChildWalSender s in
  if wal_level_is_minimal env then Raise FATAL WalLevelMinimal s
  else
    (* Send a CopyBothResponse message, and start streaming *)
    let s := emit (pq_putmessage "W" (CopyBothBody 0 0)) s in
    let s := emit (pq_flush_called (hs_pq_flush env)) s in
    (* Initialize position to the received one *)
    Return tt (set_sentPtr startpoint s).

Definition HandleReplicationCommand (env : HandshakeEnv) (s : Sender) : outcome bool :=
  if negb (replication_yyparse env =? 0) then
    Raise ERROR (ParserReturned (replication_yyparse env)) s
  else
    match replication_parse_result env with
    | T_IdentifySystemCmd => Return false (IdentifySystem env s)
    | T_StartReplicationCmd startpoint =>
        bind (StartReplication env startpoint s) (fun _ s' => Return true s')
    | T_BaseBackupCmd label progress fastcheckpoint =>
        let s := emit SendBaseBackup s in
        let s := emit (pq_putmessage "C" (TextBody "SELECT")) s in
        Return false (emit ReadyForQuery s)
    | T_Other => Raise FATAL InvalidQueryString s
    end.

(** The [switch (firstchar)] of the handshake. *)
Definition handshake_dispatch (env : HandshakeEnv) (firstchar : Z) (s : Sender) : outcome bool :=
  if firstchar =? 81 then (* 'Q' *)
    HandleReplicationCommand env s
  else if firstchar =? 88 then (* 'X' *)
    (* standby is closing the connection *)
    Exit 0 s
  else if firstchar =? EOF then
    (* standby disconnected unexpectedly *)
    Exit 0 (emit (LogReport COMMERROR UnexpectedEOF) s)
  else
    Raise FATAL (InvalidHandshakeMessageType firstchar) s.

(** One turn of [while (!replication_started)]; the result is the new
    value of [replication_started]. *)
Definition WalSndHandshake_turn (env : HandshakeEnv) (s : Sender) : outcome bool :=
  let s := WalSndSetState WALSNDSTATE_STARTUP s in
  let s := emit set_ps_display_idle s in
  (* Wait for a command to arrive *)
  let firstchar := pq_getbyte env in
  bind (deliver (hs_signals env) s) (fun _ s =>
  if negb (hs_PostmasterIsAlive env) then Exit 1 s
  else
    let s := if got_SIGHUP s then emit ProcessConfigFile (set_got_SIGHUP false s) else s in
    let firstchar :=
      if negb (firstchar =? EOF) then
        if negb (pq_getmessage env =? 0) then EOF else firstchar
      else firstchar in
    handshake_dispatch env firstchar s).

(** The loop runs on the client's commands, one environment a turn; past
    the last one the process is still waiting for a byte. *)
Fixpoint WalSndHandshake (envs : list HandshakeEnv) (s : Sender) : outcome unit :=
  match envs with
  | [] => OutOfFuel s
  | env :: rest =>
      bind (WalSndHandshake_turn env s) (fun replication_started s' =>
        if replication_started then Return tt s' else WalSndHandshake rest s')
  end.

(** ** The streaming loop: WalSndLoop *)

(** [CheckClosedConnection()]; [r] and [firstchar] are the answer of
    [pq_getbyte_if_available]. *)
Definition CheckClosedConnection (r firstchar : Z) (s : Sender) : outcome unit :=
  if r <? 0 then
    (* unexpected error or EOF *)
    Exit 0 (emit (LogReport COMMERROR UnexpectedEOF) s)
  else if r =? 0 then
    (* no data available without blocking *)
    Return tt s
  else if firstchar =? 88 then Exit 0 s
  else Raise FATAL (InvalidClosingMessageType firstchar) s.

(** What one turn of the streaming loop observes. Signals are delivered
    where the process can be interrupted: before the turn and during the
    calls of [XLogSend] and the sleep. *)
Record LoopEnv : Type := {
  PostmasterIsAlive : bool;
  signals_before : list Signal;
  final_send : SendEnv;
  signals_in_final_send : list Signal;
  copy_done_flush : Z;
  send : SendEnv;
  signals_in_send : list Signal;
  signals_in_sleep : list Signal;
  WalSndDelay : Z;
  pq_getbyte_if_available : Z * Z
}.

(** The two ways a turn hands control back to the loop. *)
Inductive LoopStep : Type :=
| Continue (caughtup : bool)
| Break.

Section Loop.
Context `{XLogParams}.

(** The body of [for (;;)] in [WalSndLoop], from the value of [caughtup]
    left by the previous turn. *)
Definition WalSndLoop_turn (env : LoopEnv) (caughtup : bool) (s : Sender) : outcome LoopStep :=
  bind (deliver (signals_before env) s) (fun _ s =>
  (* Emergency bailout if postmaster has died. *)
  if negb (PostmasterIsAlive env) then Exit 1 s
  else
    (* Process any requests or signals received recently *)
    let s := if got_SIGHUP s then emit ProcessConfigFile (set_got_SIGHUP false s) else s in
    (* When SIGUSR2 arrives, we send all outstanding logs and exit. *)
    let final : outcome LoopStep :=
      if walsender_ready_to_stop s then
        bind (XLogSend (final_send env) s) (fun r s =>
          bind (deliver (signals_in_final_send env) s) (fun _ s =>
            if negb (fst r) then Return Break s
            else if snd r then Return (Continue true) (set_shutdown_requested true s)
            else Return (Continue false) s))
      else Return (Continue caughtup) s in
    bind final (fun step s =>
      match step with
      | Break => Return Break s
      | Continue caughtup =>
          (* Normal exit from the walsender is here *)
          if walsender_shutdown_requested s then
            (* Inform the standby that XLOG streaming was done *)
            let s := emit (pq_putmessage "C" (TextBody "COPY 0")) s in
            let s := emit (pq_flush_called (copy_done_flush env)) s in
            Exit 0 s
          else
            let sent : outcome LoopStep :=
              if caughtup then
                let s := match MyWalSnd s with
                         | Some i => emit (ResetLatch i)
                                       (set_WalSndCtl (alter (set_latch false) i (WalSndCtl s)) s)
                         | None => s
                         end in
                bind (XLogSend (send env) s) (fun r s =>
                  bind (deliver (signals_in_send env) s) (fun _ s =>
                    if negb (fst r) then Return Break s
                    else
                      let caughtup := snd r in
                      let slept : outcome unit :=
                        if caughtup && negb (got_SIGHUP s) && negb (walsender_ready_to_stop s)
                           && negb (walsender_shutdown_requested s) then
                          (* Sleep *)
                          let s := match MyWalSnd s with
                                   | Some i => emit (WaitLatchOrSocket i (WalSndDelay env * 1000)) s
                                   | None => s
                                   end in
                          deliver (signals_in_sleep env) s
                        else Return tt s in
                      bind slept (fun _ s =>
                        (* Check if the connection was closed *)
                        bind (CheckClosedConnection (fst (pq_getbyte_if_available env))
                                (snd (pq_getbyte_if_available env)) s)
                             (fun _ s => Return (Continue caughtup) s))))
              else
                (* Attempt to send the log once every loop *)
                bind (XLogSend (send env) s) (fun r s =>
                  bind (deliver (signals_in_send env) s) (fun _ s =>
                    if negb (fst r) then Return Break s
                    else Return (Continue (snd r)) s)) in
            bind sent (fun step s =>
              match step with
              | Break => Return Break s
              | Continue caughtup =>
                  (* Update our state to indicate if we're behind or not *)
                  Return (Continue caughtup)
                    (WalSndSetState (if caughtup then WALSNDSTATE_STREAMING
                                     else WALSNDSTATE_CATCHUP) s)
              end)
      end)).

(** [WalSndLoop()]: the turns, one environment each, until the process
    exits; on [break] the output is suppressed and the process exits
    with status 0. Past the last environment the loop is still running. *)
Fixpoint WalSndLoop_from (envs : list LoopEnv) (caughtup : bool) (s : Sender) : outcome unit :=
  match envs with
  | [] => OutOfFuel s
  | env :: rest =>
      bind (WalSndLoop_turn env caughtup s) (fun step s' =>
        match step with
        | Break => Exit 0 (emit SuppressOutput s')
        | Continue caughtup' => WalSndLoop_from rest caughtup' s'
        end)
  end.

Definition WalSndLoop (envs : list LoopEnv) (s : Sender) : outcome unit :=
  WalSndLoop_from envs false s.

(** ** The entry point: WalSenderMain *)

Record MainEnv : Type := {
  RecoveryInProgress : bool;
  handshake : list HandshakeEnv;
  streaming : list LoopEnv
}.

Definition WalSenderMain (env : MainEnv) (s : Sender) : outcome unit :=
  if RecoveryInProgress env then Raise FATAL RecoveryInProgressReport s
  else
    (* Create a per-walsender data structure in shared memory *)
    bind (InitWalSnd s) (fun _ s =>
    (* Tell the standby that walsender is ready for receiving commands *)
    let s := emit ReadyForQuery s in
    (* Handle handshake messages before streaming *)
    bind (WalSndHandshake (handshake env) s) (fun _ s =>
    (* Initialize shared memory status *)
    let s := publish_sentPtr s in
    (* Main loop of walsender *)
    WalSndLoop (streaming env) s)).

End Loop.

(** ** Release, initialisation and wake-up of the slots *)

(** [MyWalSnd->pid = 0; DisownLatch(&MyWalSnd->latch);]. Modelled from
    the spec: [DisownLatch] (storage/latch.h is not part of the source
    file) detaches the process, the latch has no owner afterwards. *)
Definition release_slot (w : WalSnd) : WalSnd :=
  {| ws_pid := 0; ws_state := ws_state w; ws_sentPtr := ws_sentPtr w;
     ws_latch := {| is_set := is_set (ws_latch w); owner_pid := 0 |} |}.

(** [WalSndKill(code, arg)], the exit hook registered by [InitWalSnd]:
    the slot is marked free without taking its spinlock, the latch is
    disowned and [MyWalSnd] is reset. The hook asserts that [MyWalSnd] is
    set. *)
Definition WalSndKill (s : Sender) : Sender :=
  match MyWalSnd s with
  | Some i => set_MyWalSnd None (set_WalSndCtl (alter release_slot i (WalSndCtl s)) s)
  | None => s
  end.

(** A slot after [MemSet(WalSndCtl, 0, WalSndShmemSize())]: every field
    is zero, and zero is the first state of the enumeration. *)
Definition zeroed_slot : WalSnd :=
  {| ws_pid := 0; ws_state := WALSNDSTATE_STARTUP;
     ws_sentPtr := {| xlogid := 0; xrecoff := 0 |};
     ws_latch := {| is_set := false; owner_pid := 0 |} |}.

(** Modelled from the spec: [InitSharedLatch] (storage/latch.h is not
    part of the source file) leaves the latch reset and without owner. *)
Definition init_latch (w : WalSnd) : WalSnd :=
  {| ws_pid := ws_pid w; ws_state := ws_state w; ws_sentPtr := ws_sentPtr w;
     ws_latch := {| is_set := false; owner_pid := 0 |} |}.

(** [for (i = 0; i < max_wal_senders; i++) { SpinLockInit(...);
    InitSharedLatch(...); }], with [n] slots left from index [i] on. *)
Fixpoint WalSndShmemInit_loop (n i : nat) (table : list WalSnd) : list WalSnd :=
  match n with
  | O => table
  | S n' => WalSndShmemInit_loop n' (S i) (alter init_latch i table)
  end.

(** [WalSndShmemInit()], for [nslots = max_wal_senders]: [found] is the
    answer of [ShmemInitStruct] and [region] the table already there when
    it is true. *)
Definition WalSndShmemInit (found : bool) (nslots : nat) (region : list WalSnd) : list WalSnd :=
  if found then region
  else
    (* First time through, so initialize *)
    WalSndShmemInit_loop nslots 0 (replicate nslots zeroed_slot).

(** [WalSndWakeup()]: [SetLatch] on every slot of the table. *)
Fixpoint WalSndWakeup_loop (n i : nat) (table : list WalSnd) : list WalSnd :=
  match n with
  | O => table
  | S n' => WalSndWakeup_loop n' (S i) (alter (set_latch true) i table)
  end.

Definition WalSndWakeup (table : list WalSnd) : list WalSnd :=
  WalSndWakeup_loop (length table) 0 table.

(** Processes with the given pids start one after the other on the same
    table and each calls [InitWalSnd]: the slot each one gets, or [None]
    when its call fails. *)
Fixpoint acquire_all (pids : list Z) (table : list WalSnd) : list (option nat) :=
  match pids with
  | [] => []
  | pid :: rest =>
      match InitWalSnd (fresh_sender pid table) with
      | Return _ s' => MyWalSnd s' :: acquire_all rest (WalSndCtl s')
      | _ => None :: acquire_all rest table
      end
  end.

(** ** The statistics view: pg_stat_get_wal_senders *)

(** [WalSndGetStateString(state)]; the [return "UNKNOWN"] after the
    [switch] is for values outside the enumeration, of which the type has
    none. *)
Definition WalSndGetStateString (state : WalSndState) : string :=
  match state with
  | WALSNDSTATE_STARTUP => "STARTUP"
  | WALSNDSTATE_BACKUP => "BACKUP"
  | WALSNDSTATE_CATCHUP => "CATCHUP"
  | WALSNDSTATE_STREAMING => "STREAMING"
  end.

(** The conversion [%X] of [snprintf] on an [unsigned int]: upper-case
    hexadecimal digits, most significant first, no leading zero, one
    digit for 0. A [uint32] has at most 8 digits. *)
Definition hex_alphabet : list ascii :=
  ["0"; "1"; "2"; "3"; "4"; "5"; "6"; "7"; "8"; "9"; "A"; "B"; "C"; "D"; "E"; "F"]%char.

Definition hex_digit (d : Z) : ascii := nth (Z.to_nat d) hex_alphabet "0"%char.

Fixpoint format_X_digits (fuel : nat) (value : Z) (acc : list ascii) : list ascii :=
  match fuel with
  | O => acc
  | S fuel' =>
      let acc := hex_digit (value mod 16) :: acc in
      if value / 16 =? 0 then acc else format_X_digits fuel' (value / 16) acc
  end.

Definition format_X (value : Z) : list ascii := format_X_digits 8 (uint32 value) [].

(** [snprintf(sent_location, sizeof(sent_location), "%X/%X",
    sentPtr.xlogid, sentPtr.xrecoff)]; the 17 characters at most fit the
    buffer. *)
Definition format_sent_location (sentPtr : XLogRecPtr) : string :=
  string_of_list_ascii (format_X (xlogid sentPtr) ++ "/"%char :: format_X (xrecoff sentPtr)).

(** The three columns of a row of the view. *)
Record StatRow : Type := {
  row_pid : Z;
  row_state : string;
  row_sent_location : string
}.

(** What the function checks of its call: [rsinfo] is a
    [ReturnSetInfo], its [allowedModes] hold [SFRM_Materialize], and the
    result type is a row type. *)
Record FunctionCallInfo : Type := {
  rsinfo_is_ReturnSetInfo : bool;
  allows_SFRM_Materialize : bool;
  result_type_is_composite : bool
}.

(** One constructor per [errmsg] of the function. *)
Inductive StatReport : Type :=
| SetValuedFunctionInWrongContext
| MaterializeModeRequired
| ReturnTypeMustBeRowType.

(** [for (i = 0; i < max_wal_senders; i++)], with [n] slots left from
    index [i] on, the spinlock events so far and the rows put into the
    tuple store so far. *)
Fixpoint pg_stat_get_wal_senders_loop (n i : nat) (table : list WalSnd)
    (evs : list Event) (tupstore : list StatRow) : list Event * list StatRow :=
  match n with
  | O => (evs, tupstore)
  | S n' =>
      match table !! i with
      | None => (evs, tupstore)
      | Some walsnd =>
          if ws_pid walsnd =? 0 then pg_stat_get_wal_senders_loop n' (S i) table evs tupstore
          else
            let evs := evs ++ [SpinLockAcquire i] in
            let sentPtr := ws_sentPtr walsnd in
            let state := ws_state walsnd in
            let evs := evs ++ [SpinLockRelease i] in
            let sent_location := format_sent_location sentPtr in
            let values := {| row_pid := ws_pid walsnd;
                             row_state := WalSndGetStateString state;
                             row_sent_location := sent_location |} in
            pg_stat_get_wal_senders_loop n' (S i) table evs (tupstore ++ [values])
      end
  end.

Definition pg_stat_get_wal_senders (fcinfo : FunctionCallInfo) (table : list WalSnd) :
    StatReport + list Event * list StatRow :=
  (* check to see if caller supports us returning a tuplestore *)
  if negb (rsinfo_is_ReturnSetInfo fcinfo) then inl SetValuedFunctionInWrongContext
  else if negb (allows_SFRM_Materialize fcinfo) then inl MaterializeModeRequired
  (* Build a tuple descriptor for our result type *)
  else if negb (result_type_is_composite fcinfo) then inl ReturnTypeMustBeRowType
  else inr (pg_stat_get_wal_senders_loop (length table) 0 table [] []).

(** Reading a row of the view back: the state by its name, the location
    by its two hexadecimal numbers. *)
Definition parse_state (name : string) : option WalSndState :=
  if String.eqb name "STARTUP" then Some WALSNDSTATE_STARTUP
  else if String.eqb name "BACKUP" then Some WALSNDSTATE_BACKUP
  else if String.eqb name "CATCHUP" then Some WALSNDSTATE_CATCHUP
  else if String.eqb name "STREAMING" then Some WALSNDSTATE_STREAMING
  else None.

Fixpoint index_of (c : ascii) (l : list ascii) : option nat :=
  match l with
  | [] => None
  | x :: rest => if Ascii.eqb c x then Some O else S <$> index_of c rest
  end.

Definition hex_value (c : ascii) : option Z := Z.of_nat <$> index_of c hex_alphabet.

Fixpoint parse_X_from (value : Z) (digits : list ascii) : option Z :=
  match digits with
  | [] => Some value
  | c :: rest =>
      match hex_value c with
      | Some d => parse_X_from (value * 16 + d) rest
      | None => None
      end
  end.

Definition parse_X (digits : list ascii) : option Z :=
  match digits with
  | [] => None
  | _ => parse_X_from 0 digits
  end.

Fixpoint split_slash (l : list ascii) : list ascii * list ascii :=
  match l with
  | [] => ([], [])
  | c :: rest =>
      if Ascii.eqb c "/" then ([], rest)
      else let '(before, after) := split_slash rest in (c :: before, after)
  end.

Definition parse_sent_location (location : string) : option XLogRecPtr :=
  let '(before, after) := split_slash (list_ascii_of_string location) in
  match parse_X before, parse_X after with
  | Some log, Some off => Some {| xlogid := log; xrecoff := off |}
  | _, _ => None
  end.

(** The row of a slot, and what a reader gets back from a row. *)
Definition stat_row (w : WalSnd) : StatRow :=
  {| row_pid := ws_pid w; row_state := WalSndGetStateString (ws_state w);
     row_sent_location := format_sent_location (ws_sentPtr w) |}.

Definition parse_row (row : StatRow) : option (Z * WalSndState * XLogRecPtr) :=
  match parse_state (row_state row), parse_sent_location (row_sent_location row) with
  | Some state, Some p => Some (row_pid row, state, p)
  | _, _ => None
  end.

(** The spinlock events of a pass over the slots [l], the first of them
    at index [i]: one lock and release per slot in use. *)
Fixpoint stat_locks (i : nat) (l : list WalSnd) : list Event :=
  match l with
  | [] => []
  | w :: rest =>
      (if ws_pid w =? 0 then [] else [SpinLockAcquire i; SpinLockRelease i])
      ++ stat_locks (S i) rest
  end.

(** ** Vocabulary of the statements *)

(** A system call that did not fail: a descriptor, a seek result that
    is not negative, at least one byte read. The result of [close] is not
    looked at. *)
Definition syscall_ok (sc : SysCall) : bool :=
  match sc with
  | sys_open _ _ fd _ => 0 <=? fd
  | sys_lseek _ _ result => 0 <=? result
  | sys_read _ _ _ _ got => 0 <? got
  | sys_close _ => true
  end.

Definition bytes_read (calls : list SysCall) : Z :=
  foldr (fun sc acc => match sc with sys_read _ _ _ _ got => got + acc | _ => acc end) 0 calls.

(** The report a failed system call leads to. *)
Definition fails_with (sc : SysCall) (e : Report) : Prop :=
  match sc with
  | sys_open log seg fd errno =>
      fd < 0 /\ e = (if errno =? ENOENT then SegmentAlreadyRemoved log seg
                     else CouldNotOpenFile log seg errno)
  | sys_lseek _ startoff result =>
      result < 0 /\ exists log seg, e = CouldNotSeek log seg startoff
  | sys_read _ _ _ count got =>
      got <= 0 /\ exists log seg off, e = CouldNotRead log seg off count
  | sys_close _ => False
  end.

(** [read] is asked for the bytes still wanted, cut at the end of the
    segment. *)
Definition read_request_ok `{XLogParams} (sc : SysCall) : Prop :=
  match sc with
  | sys_read _ recptr wanted count _ =>
      count = Z.min wanted (XLogSegSize - xrecoff recptr mod XLogSegSize)
  | _ => True
  end.

(** The reads of a call follow one another: the first one is at
    [recptr] with [wanted] bytes wanted, and the read after one that
    delivered [got] bytes is [got] bytes further, with [got] bytes fewer
    wanted. *)
Fixpoint reads_follow `{XLogParams} (recptr : XLogRecPtr) (wanted : Z)
    (calls : list SysCall) : Prop :=
  match calls with
  | [] => True
  | sys_read _ rp w _ got :: rest =>
      rp = recptr /\ w = wanted /\
      reads_follow (XLByteAdvance recptr got) (wanted - got) rest
  | _ :: rest => reads_follow recptr wanted rest
  end.

(** The test that ends [XLogRead]: the segment [(log, seg)] is not after
    the last removed one. *)
Definition segment_removed (segment lastRemoved : Z * Z) : bool :=
  (fst segment <? fst lastRemoved) ||
  ((fst segment =? fst lastRemoved) && (snd segment <=? snd lastRemoved)).

Definition failed_with_kind (r : read_result) (k : ErrKind) : Prop :=
  exists e c calls, r = ReadErr e c calls /\ kind_of e = k.

(** The reading of the specification under which every read that
    delivers fewer bytes than asked for makes [XLogRead] fail. *)
Definition short_read_is_fatal `{XLogParams} : Prop :=
  forall fs c recptr nbytes fd rp wanted count got,
    sys_read fd rp wanted count got ∈ calls_of (XLogRead fs c recptr nbytes) ->
    got < count ->
    failed_with_kind (XLogRead fs c recptr nbytes) IO_ERROR.

(** A file system in which every segment opens and every read delivers
    one byte. *)
Definition one_byte_fs : FileSys := {|
  ThisTimeLineID := 1;
  BasicOpenFile := fun _ _ _ _ => (3, 0);
  lseek := fun _ _ startoff => startoff;
  read := fun _ _ _ => ReadGives [Byte.x00];
  XLogGetLastRemoved := (0, 0)
|}.

(** The events a step from [s] to [s'] appended to the trace. *)
Definition events_since (s s' : Sender) : list Event :=
  drop (length (trace s)) (trace s').

(** The positions stored into the [sentPtr] field of slot [i], in the
    order of the stores. *)
Fixpoint stores_of (i : nat) (evs : list Event) : list XLogRecPtr :=
  match evs with
  | [] => []
  | StoreSentPtr j p :: rest =>
      if Nat.eqb i j then p :: stores_of i rest else stores_of i rest
  | _ :: rest => stores_of i rest
  end.

(** The [sentPtr] fields of the slots after the stores of a list of
    events, from the fields before: a store into slot [i] sets field [i],
    and nothing else touches a field. *)
Fixpoint after_stores (evs : list Event) (fields : list XLogRecPtr) : list XLogRecPtr :=
  match evs with
  | [] => fields
  | StoreSentPtr i p :: rest => after_stores rest (<[i := p]> fields)
  | _ :: rest => after_stores rest fields
  end.

(** A step of which the stores are what happens to the [sentPtr] fields
    of the slot table. *)
Definition stores_step (s s' : Sender) : Prop :=
  exists evs, trace s' = trace s ++ evs /\
    ws_sentPtr <$> WalSndCtl s' = after_stores evs (ws_sentPtr <$> WalSndCtl s).

(** The end of the byte range of a WAL data message: [dataStart] plus
    the length of the payload, within the log id of [dataStart]. *)
Definition frame_end (hdr : WalDataMessageHeader) (data : list Byte.byte) : XLogRecPtr :=
  {| xlogid := xlogid (dataStart hdr);
     xrecoff := xrecoff (dataStart hdr) + Z.of_nat (length data) |}.

(** The state in which [XLogSend] calls [pq_flush]: the cursor moved by
    [XLogRead], the message put. *)
Definition frame_put (env : SendEnv) (startptr : XLogRecPtr) (data : list Byte.byte)
    (c : SendCursor) (s : Sender) : Sender :=
  emit (pq_flush_called (pq_flush env))
    (emit (pq_putmessage "d"
             (WalDataBody "w" {| dataStart := startptr; walEnd := GetFlushRecPtr env;
                                 sendTime := GetCurrentTimestamp env |} data))
       (set_cursor c s)).

(** The state in which [XLogSend] returns after a flush that went well. *)
Definition frame_sent (env : SendEnv) (startptr endptr : XLogRecPtr)
    (data : list Byte.byte) (c : SendCursor) (s : Sender) : Sender :=
  let s2 := publish_sentPtr (set_sentPtr endptr (frame_put env startptr data c s)) in
  if update_process_title env then emit (set_ps_display_streaming (sentPtr s2)) s2 else s2.

(** The slots [from], ..., [from + count - 1] locked, found taken and
    unlocked, one after the other. *)
Definition locked_and_skipped (from count : nat) : list Event :=
  flat_map (fun j => [SpinLockAcquire j; SpinLockRelease j]) (seq from count).

(** [s] with another slot table, another [MyWalSnd] and more events. *)
Definition with_slots (table : list WalSnd) (mine : option nat) (evs : list Event)
    (s : Sender) : Sender :=
  {| WalSndCtl := table; MyWalSnd := mine; MyProcPid := MyProcPid s;
     sentPtr := sentPtr s; cursor := cursor s; got_SIGHUP := got_SIGHUP s;
     walsender_shutdown_requested := walsender_shutdown_requested s;
     walsender_ready_to_stop := walsender_ready_to_stop s;
     trace := trace s ++ evs |}.

(** The slot [InitWalSnd] leaves behind when it takes the free slot [w]. *)
Definition acquired_slot (pid : Z) (w : WalSnd) : WalSnd :=
  {| ws_pid := pid; ws_state := WALSNDSTATE_STARTUP;
     ws_sentPtr := {| xlogid := 0; xrecoff := 0 |};
     ws_latch := {| is_set := is_set (ws_latch w); owner_pid := pid |} |}.

(** The state of the process at the point where a function ends,
    however it ends: when it returns, at its [ereport], or at its call of
    [proc_exit] or [exit], before the callbacks of the exit
    ([end_state] below) have run. *)
Definition final_state {A : Type} (o : outcome A) : Sender :=
  match o with
  | Return _ s => s
  | Raise _ _ s => s
  | Exit _ s => s
  | OutOfFuel s => s
  end.

(** Each position is not after the next one, in the order of
    [XLByteLE]. *)
Fixpoint nondecreasing (l : list XLogRecPtr) : bool :=
  match l with
  | [] => true
  | a :: rest =>
      match rest with
      | [] => true
      | b :: _ => XLByteLE a b && nondecreasing rest
      end
  end.

(** The environments the claims about a whole run are stated for: every
    start point a client asks for is a pair of [uint32], and every flush
    position is one the WAL writer hands out. *)
Definition startpoints_ok (envs : list HandshakeEnv) : Prop :=
  forall env p, env ∈ envs -> replication_parse_result env = T_StartReplicationCmd p ->
                is_recptr p.

Definition flush_positions_ok `{XLogParams} (envs : list LoopEnv) : Prop :=
  forall env, env ∈ envs ->
    valid_recptr (GetFlushRecPtr (final_send env)) /\ valid_recptr (GetFlushRecPtr (send env)).

(** The reading of the specification under which a sender that has seen
    [SIGUSR2] never exits before [sentPtr] has reached the flush position
    its framer read. *)
Definition final_flush_reaches_flush_position `{XLogParams} : Prop :=
  forall env caughtup s code s',
    walsender_ready_to_stop s = true ->
    WalSndLoop_turn env caughtup s = Exit code s' ->
    XLByteLE (GetFlushRecPtr (final_send env)) (sentPtr s') = true.

(** ** Concrete environments

    A build with small constants, a file system whose reads deliver all
    the bytes asked for, a sender that owns the only slot and the
    environments of its calls. *)
Definition small_params : XLogParams := {|
  XLOG_BLCKSZ := 8;
  XLogSegSize := 64;
  XLogFileSize := 1024;
  MAX_SEND_SIZE := 16
|}.

Definition full_read_fs : FileSys := {|
  ThisTimeLineID := 1;
  BasicOpenFile := fun _ _ _ _ => (3, 0);
  lseek := fun _ _ startoff => startoff;
  read := fun _ _ count => ReadGives (repeat Byte.x00 (Z.to_nat count));
  XLogGetLastRemoved := (0, 0)
|}.

Definition sender_at (p : XLogRecPtr) : Sender := {|
  WalSndCtl := [{| ws_pid := 4242; ws_state := WALSNDSTATE_CATCHUP; ws_sentPtr := p;
                   ws_latch := {| is_set := false; owner_pid := 4242 |} |}];
  MyWalSnd := Some 0%nat;
  MyProcPid := 4242;
  sentPtr := p;
  cursor := initial_cursor;
  got_SIGHUP := false;
  walsender_shutdown_requested := false;
  walsender_ready_to_stop := false;
  trace := []
|}.

Definition send_env (flushed : XLogRecPtr) (flush_result : Z) : SendEnv := {|
  GetFlushRecPtr := flushed;
  filesys := full_read_fs;
  GetCurrentTimestamp := 0;
  pq_flush := flush_result;
  update_process_title := false
|}.

Definition loop_env (flushed : XLogRecPtr) : LoopEnv := {|
  PostmasterIsAlive := true;
  signals_before := [];
  final_send := send_env flushed 0;
  signals_in_final_send := [];
  copy_done_flush := 0;
  send := send_env flushed 0;
  signals_in_send := [];
  signals_in_sleep := [];
  WalSndDelay := 200;
  pq_getbyte_if_available := (0, 0)
|}.

Definition free_slot : WalSnd := {|
  ws_pid := 0; ws_state := WALSNDSTATE_STARTUP;
  ws_sentPtr := {| xlogid := 0; xrecoff := 0 |};
  ws_latch := {| is_set := false; owner_pid := 0 |}
|}.

Definition taken_slot : WalSnd := {|
  ws_pid := 77; ws_state := WALSNDSTATE_STREAMING;
  ws_sentPtr := {| xlogid := 0; xrecoff := 512 |};
  ws_latch := {| is_set := false; owner_pid := 77 |}
|}.

Definition start_replication (p : XLogRecPtr) : HandshakeEnv := {|
  pq_getbyte := 81;
  hs_PostmasterIsAlive := true;
  pq_getmessage := 0;
  replication_yyparse := 0;
  replication_parse_result := T_StartReplicationCmd p;
  GetSystemIdentifier := 1;
  hs_ThisTimeLineID := 1;
  wal_level_is_minimal := false;
  hs_pq_flush := 0;
  hs_signals := []
|}.

(** A client that closes the connection during the handshake: its
    first byte is ['X']. *)
Definition closing_client : HandshakeEnv := {|
  pq_getbyte := 88;
  hs_PostmasterIsAlive := true;
  pq_getmessage := 0;
  replication_yyparse := 0;
  replication_parse_result := T_IdentifySystemCmd;
  GetSystemIdentifier := 1;
  hs_ThisTimeLineID := 1;
  wal_level_is_minimal := false;
  hs_pq_flush := 0;
  hs_signals := []
|}.

(** ** The WAL behind the file system *)

(** The content of the WAL: the byte at an offset of a segment of a log
    id. *)
Definition WalContent : Type := Z -> Z -> Z -> Byte.byte.

(** [n] bytes of the file of a segment, from offset [off] on. *)
Fixpoint file_bytes (wal : WalContent) (segment : Z * Z) (off : Z) (n : nat) : list Byte.byte :=
  match n with
  | O => []
  | S n' => wal (fst segment) (snd segment) off :: file_bytes wal segment (off + 1) n'
  end.

Definition is_read (sc : SysCall) : bool :=
  match sc with
  | sys_read _ _ _ _ _ => true
  | _ => false
  end.

(** The kernel's side of a descriptor: the segment file it is open on
    and the file offset. The descriptors of the process. *)
Record OpenFile : Type := { of_log : Z; of_seg : Z; of_pos : Z }.

Definition Kernel : Type := Z -> option OpenFile.

Definition no_files : Kernel := fun _ => None.

Definition set_file (k : Kernel) (fd : Z) (f : option OpenFile) : Kernel :=
  fun fd' => if fd' =? fd then f else k fd'.

(** What a system call does to the descriptors: an open that went well
    leaves the descriptor it returned on the file, at offset 0; a seek
    that went well leaves the offset at its result; a read moves the
    offset by the bytes delivered; a close frees the descriptor. A call
    that failed, or on a descriptor that is not open, changes nothing. *)
Definition kernel_step (k : Kernel) (sc : SysCall) : Kernel :=
  match sc with
  | sys_open log seg fd _ =>
      if fd <? 0 then k
      else set_file k fd (Some {| of_log := log; of_seg := seg; of_pos := 0 |})
  | sys_lseek fd _ result =>
      match k fd with
      | Some f =>
          if result <? 0 then k
          else set_file k fd (Some {| of_log := of_log f; of_seg := of_seg f;
                                      of_pos := result |})
      | None => k
      end
  | sys_read fd _ _ _ got =>
      match k fd with
      | Some f =>
          if got <=? 0 then k
          else set_file k fd (Some {| of_log := of_log f; of_seg := of_seg f;
                                      of_pos := of_pos f + got |})
      | None => k
      end
  | sys_close fd => set_file k fd None
  end.

Definition kernel_after (k : Kernel) (calls : list SysCall) : Kernel :=
  fold_left kernel_step calls k.

(** The process and the kernel agree about the descriptor of the
    cursor: when the cursor holds one, it is open on the segment the
    cursor names, and its file offset is [sendOff]. *)
Definition cursor_agrees (k : Kernel) (c : SendCursor) : Prop :=
  sendFile c < 0 \/
  k (sendFile c) = Some {| of_log := sendId c; of_seg := sendSeg c; of_pos := sendOff c |}.

Section WalFiles.
Context `{XLogParams}.

(** A position at which [XLogSend] starts a read: inside a log file. *)
Definition readable_recptr (p : XLogRecPtr) : Prop :=
  0 <= xlogid p < 4294967296 /\ 0 <= xrecoff p < XLogFileSize.

(** [n] bytes of the WAL from position [recptr] on, byte after byte. *)
Fixpoint wal_range (wal : WalContent) (recptr : XLogRecPtr) (n : nat) : list Byte.byte :=
  match n with
  | O => []
  | S n' =>
      wal (xlogid recptr) (xrecoff recptr / XLogSegSize) (xrecoff recptr mod XLogSegSize)
      :: wal_range wal (XLByteAdvance recptr 1) n'
  end.

(** A file system that holds the WAL, for a call of [XLogRead] entered
    with the descriptors [k0]: whatever the process has done since, every
    segment opens, on any descriptor the kernel likes; a seek inside the
    segment of an open descriptor returns the offset asked for; a read on
    an open descriptor that stays inside the segment delivers at least one
    byte, as many as the kernel likes, and the bytes are those of the file
    from the file offset of the descriptor on. *)
Record serves_wal (fs : FileSys) (wal : WalContent) (k0 : Kernel) : Prop := {
  sw_open : forall calls log seg,
    0 <= log < 4294967296 -> 0 <= seg < 4294967296 ->
    0 <= fst (BasicOpenFile fs calls (ThisTimeLineID fs) log seg);
  sw_lseek : forall calls fd f off,
    kernel_after k0 calls fd = Some f -> 0 <= off < XLogSegSize ->
    lseek fs calls fd off = off;
  sw_read : forall calls fd f count,
    kernel_after k0 calls fd = Some f ->
    0 <= of_pos f -> 0 < count -> of_pos f + count <= XLogSegSize ->
    exists n, (0 < n)%nat /\
      read fs calls fd count =
        ReadGives (file_bytes wal (of_log f, of_seg f) (of_pos f) n)
}.

(** The cursor holds the segment of [recptr] open, at the offset of
    [recptr]. *)
Definition positioned (c : SendCursor) (recptr : XLogRecPtr) : Prop :=
  0 <= sendFile c /\ XLByteInSeg recptr (sendId c) (sendSeg c) = true /\
  sendOff c = xrecoff recptr mod XLogSegSize.

End WalFiles.

(** A WAL of which the bytes differ from one offset to the next, and a
    file system that serves it five bytes at a time, from the descriptors
    [k0] on; every open gives descriptor 3, which the walsender has closed
    by then. *)
Definition sample_wal : WalContent :=
  fun log seg off => if Z.even (log + seg + off) then Byte.x00 else Byte.x01.

Definition wal_fs (k0 : Kernel) : FileSys := {|
  ThisTimeLineID := 1;
  BasicOpenFile := fun _ _ _ _ => (3, 0);
  lseek := fun calls fd startoff =>
    match kernel_after k0 calls fd with
    | Some _ => startoff
    | None => -1
    end;
  read := fun calls fd count =>
    match kernel_after k0 calls fd with
    | Some f =>
        ReadGives (file_bytes sample_wal (of_log f, of_seg f) (of_pos f)
                     (Z.to_nat (Z.min count 5)))
    | None => ReadFails
    end;
  XLogGetLastRemoved := (0, 0)
|}.

(** A flush position, the WAL file system of a process that holds no
    descriptor yet, a flush that goes well. *)
Definition wal_send_env (flushed : XLogRecPtr) : SendEnv := {|
  GetFlushRecPtr := flushed;
  filesys := wal_fs no_files;
  GetCurrentTimestamp := 0;
  pq_flush := 0;
  update_process_title := false
|}.

(** A turn of the streaming loop in which [SIGTERM] arrives. *)
Definition sigterm_env (flushed : XLogRecPtr) : LoopEnv := {|
  PostmasterIsAlive := true;
  signals_before := [SIGTERM];
  final_send := send_env flushed 0;
  signals_in_final_send := [];
  copy_done_flush := 0;
  send := send_env flushed 0;
  signals_in_send := [];
  signals_in_sleep := [];
  WalSndDelay := 200;
  pq_getbyte_if_available := (0, 0)
|}.

(** A turn of the streaming loop in which the flush of the frame
    fails. *)
Definition lost_connection_env (flushed : XLogRecPtr) : LoopEnv := {|
  PostmasterIsAlive := true;
  signals_before := [];
  final_send := send_env flushed (-1);
  signals_in_final_send := [];
  copy_done_flush := -1;
  send := send_env flushed (-1);
  signals_in_send := [];
  signals_in_sleep := [];
  WalSndDelay := 200;
  pq_getbyte_if_available := (0, 0)
|}.

(** ** Slots, spinlocks and the trace *)

(** The events that are neither a spinlock operation nor a store into a
    slot: messages, flushes, latch operations, waits, calls into the rest
    of the server. *)
Definition plain_event (e : Event) : bool :=
  match e with
  | SpinLockAcquire _ | SpinLockRelease _ | StoreSentPtr _ _ | StoreState _ _ => false
  | _ => true
  end.

(** The spinlock discipline along a list of events, from the lock held
    at its start to the lock held at its end: a lock is taken only when
    none is held and released only by its holder; a store into slot [i]
    is made under the spinlock of slot [i]; everything else happens while
    no spinlock is held. [None] is a breach. *)
Fixpoint lock_scan (held : option nat) (evs : list Event) : option (option nat) :=
  match evs with
  | [] => Some held
  | e :: rest =>
      match e with
      | SpinLockAcquire i =>
          match held with
          | None => lock_scan (Some i) rest
          | Some _ => None
          end
      | SpinLockRelease i =>
          match held with
          | Some j => if Nat.eqb i j then lock_scan None rest else None
          | None => None
          end
      | StoreSentPtr i _ | StoreState i _ =>
          match held with
          | Some j => if Nat.eqb i j then lock_scan held rest else None
          | None => None
          end
      | _ =>
          match held with
          | None => lock_scan None rest
          | Some _ => None
          end
      end
  end.

(** A step that keeps the discipline and ends with no lock held. *)
Definition lock_step (s s' : Sender) : Prop :=
  exists evs, trace s' = trace s ++ evs /\ lock_scan None evs = Some None.

(** The slot [MyWalSnd] points to, if any, exists and carries the pid of
    the process, in [pid] and as owner of the latch. *)
Definition owned (s : Sender) : Prop :=
  forall i, MyWalSnd s = Some i ->
    exists w, WalSndCtl s !! i = Some w /\
      ws_pid w = MyProcPid s /\ owner_pid (ws_latch w) = MyProcPid s.

(** A step that writes no slot but the own one: the table keeps its
    size, [MyWalSnd] stays (or is set, when it was not), every other slot
    is as before, and the own slot stays the own one. *)
Record own_step (s s' : Sender) : Prop := {
  os_pid : MyProcPid s' = MyProcPid s;
  os_len : length (WalSndCtl s') = length (WalSndCtl s);
  os_mine : MyWalSnd s' = MyWalSnd s \/ MyWalSnd s = None;
  os_others : forall j, MyWalSnd s' <> Some j -> WalSndCtl s' !! j = WalSndCtl s !! j;
  os_owned : owned s -> owned s'
}.

(** ** The order of the messages *)

(** A WAL data message, and the CopyBothResponse that opens the
    stream. *)
Definition is_wal_data (e : Event) : bool :=
  match e with
  | pq_putmessage msgtype _ => Ascii.eqb msgtype "d"
  | _ => false
  end.

Definition is_copy_both (e : Event) : bool :=
  match e with
  | pq_putmessage msgtype (CopyBothBody _ _) => Ascii.eqb msgtype "W"
  | _ => false
  end.

(** Along a list of events, from whether the stream was opened at its
    start to whether it is at its end: a WAL data message is put only once
    a CopyBothResponse was. [None] is a breach. *)
Fixpoint copy_scan (started : bool) (evs : list Event) : option bool :=
  match evs with
  | [] => Some started
  | e :: rest =>
      if is_copy_both e then copy_scan true rest
      else if is_wal_data e then (if started then copy_scan true rest else None)
      else copy_scan started rest
  end.

(** What the client sees of the handshake: a message put, or
    ReadyForQuery. A mute step shows the client nothing. *)
Definition is_reply (e : Event) : bool :=
  match e with
  | pq_putmessage _ _ | ReadyForQuery => true
  | _ => false
  end.

Definition mute_step (s s' : Sender) : Prop :=
  exists evs, trace s' = trace s ++ evs /\ forallb (fun e => negb (is_reply e)) evs = true.

(** A step that puts no WAL data message, and a step of an opened
    stream. *)
Definition handshake_step (s s' : Sender) : Prop :=
  exists evs, trace s' = trace s ++ evs /\ forallb (fun e => negb (is_wal_data e)) evs = true.

Definition streaming_step (s s' : Sender) : Prop :=
  exists evs, trace s' = trace s ++ evs /\ copy_scan true evs = Some true.

(** ** The ways the process ends *)

(** The postmaster was found dead in a turn of the handshake or of the
    streaming loop; [SIGQUIT] was delivered in one. *)
Definition postmaster_died (env : MainEnv) : Prop :=
  (exists h, h ∈ handshake env /\ hs_PostmasterIsAlive h = false) \/
  (exists l, l ∈ streaming env /\ PostmasterIsAlive l = false).

Definition signals_of (l : LoopEnv) : list Signal :=
  signals_before l ++ signals_in_final_send l ++ signals_in_send l ++ signals_in_sleep l.

Definition quit_signalled (env : MainEnv) : Prop :=
  (exists h, h ∈ handshake env /\ SIGQUIT ∈ hs_signals h) \/
  (exists l, l ∈ streaming env /\ SIGQUIT ∈ signals_of l).

(** An ending that is an exit with status 0, an exit with status 1 when
    [died] holds, an exit with status 2 when [quit] holds, or an [ERROR]
    or [FATAL] report; or no ending at all. *)
Definition exits_for {A : Type} (died quit : Prop) (o : outcome A) : Prop :=
  match o with
  | Exit code _ => code = 0 \/ (code = 1 /\ died) \/ (code = 2 /\ quit)
  | Raise lvl _ _ => lvl = ERROR \/ lvl = FATAL
  | Return _ _ | OutOfFuel _ => True
  end.

Definition never_returns {A : Type} (o : outcome A) : Prop :=
  match o with
  | Return _ _ => False
  | _ => True
  end.

(** Modelled from the spec: the callbacks registered with
    [on_shmem_exit] (storage/ipc.c is not part of the source file) run
    when the process ends, through [proc_exit], through [exit] or after an
    [ERROR] or [FATAL] report; the handler of [SIGQUIT] disables them
    ([on_exit_reset]) before its [exit(2)], the only exit with status 2
    in the source file. The one callback of the walsender is [WalSndKill],
    registered at the end of [InitWalSnd]. *)
Definition is_on_shmem_exit (e : Event) : bool :=
  match e with
  | on_shmem_exit_WalSndKill => true
  | _ => false
  end.

Definition shmem_exit (s : Sender) : Sender :=
  if existsb is_on_shmem_exit (trace s) then WalSndKill s else s.

Definition callbacks_run {A : Type} (o : outcome A) : bool :=
  match o with
  | Exit code _ => negb (code =? 2)
  | Raise _ _ _ => true
  | Return _ _ | OutOfFuel _ => false
  end.

(** The state the process leaves behind: the state at the point where
    the function ended, after the callbacks when they run. *)
Definition end_state {A : Type} (o : outcome A) : Sender :=
  if callbacks_run o then shmem_exit (final_state o) else final_state o.

(** Once [MyWalSnd] is set, the callback is registered. *)
Definition registered (s : Sender) : Prop :=
  MyWalSnd s <> None -> existsb is_on_shmem_exit (trace s) = true.

Definition registered_step (s s' : Sender) : Prop := registered s -> registered s'.

(** ** Invariants and postconditions used in the proofs *)

Section Invariants.
Context `{P : XLogParams}.

(** The facts about the slice on which the claims about frames rest. *)
Record slice_facts (sentPtr SendRqstPtr startptr endptr : XLogRecPtr) (caughtup : bool) : Prop := {
  sf_start_after : XLByteLE sentPtr startptr = true;
  sf_start_range : 0 <= xlogid startptr < 4294967296 /\ 0 <= xrecoff startptr < XLogFileSize;
  sf_same_log : xlogid endptr = xlogid startptr;
  sf_order : xrecoff startptr <= xrecoff endptr <= XLogFileSize;
  sf_size : xrecoff endptr - xrecoff startptr <= MAX_SEND_SIZE;
  sf_below_request : XLByteLE endptr SendRqstPtr = true;
  sf_caughtup : caughtup = true -> endptr = SendRqstPtr;
  sf_behind : caughtup = false ->
    xrecoff endptr mod XLOG_BLCKSZ = 0 /\ xrecoff startptr < xrecoff endptr /\
    XLByteLE SendRqstPtr endptr = false /\
    xrecoff endptr =
      Z.min (xrecoff startptr + MAX_SEND_SIZE) XLogFileSize
      - Z.min (xrecoff startptr + MAX_SEND_SIZE) XLogFileSize mod XLOG_BLCKSZ
}.

(** What a run of the loop adds to the trace of system calls. *)
Definition loop_post (buf : list Byte.byte) (calls : list SysCall) (nbytes : Z)
    (r : read_result) : Prop :=
  match r with
  | ReadOk buf' _ calls' =>
      exists new, calls' = calls ++ new /\ forallb syscall_ok new = true /\
        Forall read_request_ok new /\ bytes_read new = Z.max 0 nbytes /\
        Z.of_nat (length buf') = Z.of_nat (length buf) + Z.max 0 nbytes
  | ReadErr e _ calls' =>
      exists new last, calls' = calls ++ new ++ [last] /\ forallb syscall_ok new = true /\
        Forall read_request_ok (new ++ [last]) /\ fails_with last e
  | ReadOutOfFuel => False
  end.

(** The calls made so far in a turn: all went well and none was a read. *)
Definition turn_prefix (pre : list SysCall) : Prop :=
  forallb syscall_ok pre = true /\ Forall read_request_ok pre /\ bytes_read pre = 0.

(** What a call of [XLogRead] leaves: it always ends; when it returns,
    every system call went well, [nbytes] bytes were read and the first
    segment is after the last removed one; when it fails, either the
    last system call failed (and none before), or everything was read
    and the first segment is not after the last removed one. *)
Definition XLogRead_post (fs : FileSys) (recptr : XLogRecPtr) (nbytes : Z)
    (r : read_result) : Prop :=
  match r with
  | ReadOk buf _ calls =>
      forallb syscall_ok calls = true /\ Forall read_request_ok calls /\
      bytes_read calls = Z.max 0 nbytes /\ Z.of_nat (length buf) = Z.max 0 nbytes /\
      segment_removed (XLByteToSeg recptr) (XLogGetLastRemoved fs) = false
  | ReadErr e _ calls =>
      (exists new last, calls = new ++ [last] /\ forallb syscall_ok new = true /\
         Forall read_request_ok calls /\ fails_with last e) \/
      (forallb syscall_ok calls = true /\ Forall read_request_ok calls /\
       bytes_read calls = Z.max 0 nbytes /\
       segment_removed (XLByteToSeg recptr) (XLogGetLastRemoved fs) = true /\
       e = SegmentAlreadyRemoved (fst (XLByteToSeg recptr)) (snd (XLByteToSeg recptr)))
  | ReadOutOfFuel => False
  end.

(** A step that publishes nothing: [MyWalSnd] and [sentPtr] are as
    before and no position is stored into a slot. *)
Definition quiet (s s' : Sender) : Prop :=
  MyWalSnd s' = MyWalSnd s /\ sentPtr s' = sentPtr s /\
  forall i, stores_of i (trace s') = stores_of i (trace s).

(** What holds of a streaming sender that owns slot [i]: the positions
    stored into the slot so far begin with [pre], never decrease and end
    with [sentPtr]; no position was stored into another slot. *)
Record streaming_inv (i : nat) (pre : list XLogRecPtr) (s : Sender) : Prop := {
  si_mine : MyWalSnd s = Some i;
  si_recptr : is_recptr (sentPtr s);
  si_prefix : exists l, stores_of i (trace s) = pre ++ l;
  si_last : exists l, stores_of i (trace s) = l ++ [sentPtr s];
  si_sorted : nondecreasing (stores_of i (trace s)) = true;
  si_others : forall j, j <> i -> stores_of j (trace s) = []
}.

(** A function keeps the invariant when the state it leaves, however it
    ends, satisfies it. *)
Definition keeps {A : Type} (i : nat) (pre : list XLogRecPtr) (o : outcome A) : Prop :=
  streaming_inv i pre (final_state o).

(** A step of the handshake: nothing is stored into a slot; [sentPtr]
    stays, or becomes a start point. *)
Definition silent (s s' : Sender) : Prop :=
  MyWalSnd s' = MyWalSnd s /\
  (forall i, stores_of i (trace s') = stores_of i (trace s)) /\
  (sentPtr s' = sentPtr s \/ is_recptr (sentPtr s')).

End Invariants.

(** * Properties *)

(** ** Arithmetic of positions *)

Lemma uint32_small (z : Z) : 0 <= z < 4294967296 -> uint32 z = z.
Proof. intros Hz. unfold uint32. apply Z.mod_small. exact Hz. Qed.

Lemma uint32_range (z : Z) : 0 <= uint32 z < 4294967296.
Proof. unfold uint32. apply Z.mod_pos_bound. lia. Qed.

Lemma uint32_succ_neq (l : Z) : 0 <= l < 4294967296 -> uint32 (l + 1) <> l.
Proof.
  intros Hl. destruct (Z.eq_dec (l + 1) 4294967296) as [E | NE].
  - rewrite E. unfold uint32. rewrite Z.mod_same by lia. lia.
  - rewrite uint32_small by lia. lia.
Qed.

Lemma round_down_multiple (x p : Z) : 0 < p -> (x - x mod p) mod p = 0.
Proof.
  intros Hp. rewrite Zminus_mod, Z.mod_mod by lia.
  rewrite Z.sub_diag. apply Z.mod_0_l. lia.
Qed.

Lemma round_down_bounds (x p : Z) : 0 < p -> 0 <= x -> x - p < x - x mod p <= x.
Proof. intros Hp Hx. pose proof (Z.mod_pos_bound x p Hp). lia. Qed.

Lemma round_down_nonneg (x p : Z) : 0 < p -> 0 <= x -> 0 <= x - x mod p.
Proof. intros Hp Hx. pose proof (Z.mod_le x p Hx Hp). lia. Qed.

Lemma mod_0_trans (a b c : Z) : 0 < b -> 0 < c -> a mod b = 0 -> b mod c = 0 -> a mod c = 0.
Proof.
  intros Hb Hc Hab Hbc.
  apply Z.mod_divide in Hab; [| lia]. apply Z.mod_divide in Hbc; [| lia].
  apply Z.mod_divide; [lia |]. eapply Z.divide_trans; eassumption.
Qed.

Section PositionFacts.
Context `{P : XLogParams}.
Hypothesis params_ok : XLogParamsOk.

Lemma file_blcksz : XLogFileSize mod XLOG_BLCKSZ = 0.
Proof.
  destruct params_ok.
  apply (mod_0_trans XLogFileSize XLogSegSize XLOG_BLCKSZ); assumption.
Qed.

Lemma XLByteLE_true (a b : XLogRecPtr) :
  XLByteLE a b = true <->
  xlogid a < xlogid b \/ (xlogid a = xlogid b /\ xrecoff a <= xrecoff b).
Proof. unfold XLByteLE. rewrite orb_true_iff, andb_true_iff. lia. Qed.

Lemma XLByteLE_false (a b : XLogRecPtr) :
  XLByteLE a b = false <->
  xlogid b < xlogid a \/ (xlogid a = xlogid b /\ xrecoff b < xrecoff a).
Proof. unfold XLByteLE. rewrite orb_false_iff, andb_false_iff. lia. Qed.

Lemma XLByteLE_refl (a : XLogRecPtr) : XLByteLE a a = true.
Proof. apply XLByteLE_true. lia. Qed.

Lemma XLByteLE_trans (a b c : XLogRecPtr) :
  XLByteLE a b = true -> XLByteLE b c = true -> XLByteLE a c = true.
Proof. rewrite !XLByteLE_true. lia. Qed.

Lemma XLogSend_slice_facts (sentPtr SendRqstPtr : XLogRecPtr) :
  is_recptr sentPtr -> valid_recptr SendRqstPtr ->
  XLByteLE SendRqstPtr sentPtr = false ->
  forall startptr endptr caughtup,
    XLogSend_slice sentPtr SendRqstPtr = (startptr, endptr, caughtup) ->
    slice_facts sentPtr SendRqstPtr startptr endptr caughtup.
Proof.
  intros [Hl Ho] [Hrl Hro] Hlt startptr endptr caughtup.
  pose proof file_blcksz as Hfb. destruct params_ok.
  apply XLByteLE_false in Hlt.
  unfold XLogSend_slice.
  set (st := if XLogFileSize <=? xrecoff sentPtr then _ else _).
  assert (Hst : 0 <= xlogid st < 4294967296 /\ 0 <= xrecoff st < XLogFileSize /\
                XLByteLE sentPtr st = true /\
                (xlogid st < xlogid SendRqstPtr \/
                 xlogid st = xlogid SendRqstPtr /\ xrecoff st <= xrecoff SendRqstPtr) /\
                (xlogid st = xlogid SendRqstPtr -> xrecoff st = xrecoff SendRqstPtr ->
                 False \/ xlogid sentPtr < xlogid st)).
  { subst st. destruct (Z.leb_spec XLogFileSize (xrecoff sentPtr)); cbn.
    - rewrite uint32_small by lia. rewrite XLByteLE_true. cbn. lia.
    - rewrite XLByteLE_true. lia. }
  destruct Hst as (Hsl & Hso & Hafter & Hreq & _).
  set (en0 := XLByteAdvance st MAX_SEND_SIZE).
  set (en := if negb (xlogid en0 =? xlogid st) then _ else en0).
  assert (Hen : xlogid en = xlogid st /\ xrecoff st < xrecoff en <= XLogFileSize /\
                xrecoff en <= xrecoff st + MAX_SEND_SIZE /\
                (xrecoff en = XLogFileSize \/ xrecoff en = xrecoff st + MAX_SEND_SIZE) /\
                xrecoff en = Z.min (xrecoff st + MAX_SEND_SIZE) XLogFileSize).
  { subst en en0. unfold XLByteAdvance.
    rewrite (uint32_small (xrecoff st + MAX_SEND_SIZE)) by lia.
    destruct (Z.leb_spec XLogFileSize (xrecoff st + MAX_SEND_SIZE)); cbn.
    - pose proof (uint32_succ_neq (xlogid st) Hsl) as Hne.
      destruct (Z.eqb_spec (uint32 (xlogid st + 1)) (xlogid st)); [contradiction |].
      cbn. lia.
    - rewrite Z.eqb_refl. cbn. lia. }
  clearbody en st. clear en0.
  destruct Hen as (Hel & Heo & Hes & Hcases & Hmin).
  destruct (XLByteLE SendRqstPtr en) eqn:Hle; intros Heq; inversion Heq; subst; clear Heq.
  - apply XLByteLE_true in Hle.
    constructor.
    + assumption.
    + lia.
    + lia.
    + lia.
    + lia.
    + apply XLByteLE_refl.
    + reflexivity.
    + discriminate.
  - pose proof Hle as Hle'. apply XLByteLE_false in Hle.
    pose proof (round_down_bounds (xrecoff en) XLOG_BLCKSZ blcksz_pos0 ltac:(lia)) as Hb.
    pose proof (round_down_multiple (xrecoff en) XLOG_BLCKSZ blcksz_pos0) as Hm.
    assert (Hfix : xrecoff en = XLogFileSize -> xrecoff en - xrecoff en mod XLOG_BLCKSZ = XLogFileSize).
    { intros E. rewrite E, Hfb. lia. }
    constructor; cbn;
      rewrite ?(uint32_small (xrecoff en - xrecoff en mod XLOG_BLCKSZ)) by lia.
    + assumption.
    + lia.
    + lia.
    + lia.
    + lia.
    + apply XLByteLE_true. cbn. lia.
    + discriminate.
    + intros _. split; [exact Hm |]. split; [lia |].
      split; [apply XLByteLE_false; cbn; lia |].
      rewrite <- Hmin. reflexivity.
Qed.

(** The slice, in closed form: where it starts, when the sender has
    caught up, and where it ends. *)
Lemma XLogSend_slice_exact (sentPtr SendRqstPtr : XLogRecPtr) :
  is_recptr sentPtr -> valid_recptr SendRqstPtr ->
  XLByteLE SendRqstPtr sentPtr = false ->
  forall startptr endptr caughtup,
    XLogSend_slice sentPtr SendRqstPtr = (startptr, endptr, caughtup) ->
    let bound := Z.min (xrecoff startptr + MAX_SEND_SIZE) XLogFileSize in
    startptr = (if XLogFileSize <=? xrecoff sentPtr
                then {| xlogid := xlogid sentPtr + 1; xrecoff := 0 |}
                else sentPtr) /\
    caughtup = XLByteLE SendRqstPtr {| xlogid := xlogid startptr; xrecoff := bound |} /\
    (caughtup = false -> xrecoff endptr = bound - bound mod XLOG_BLCKSZ).
Proof.
  intros [Hl Ho] [Hrl Hro] Hlt startptr endptr caughtup.
  destruct params_ok.
  apply XLByteLE_false in Hlt.
  unfold XLogSend_slice.
  set (st := if XLogFileSize <=? xrecoff sentPtr then _ else _).
  assert (Hst : st = (if XLogFileSize <=? xrecoff sentPtr
                      then {| xlogid := xlogid sentPtr + 1; xrecoff := 0 |}
                      else sentPtr) /\
                0 <= xlogid st < 4294967296 /\ 0 <= xrecoff st < XLogFileSize).
  { subst st. destruct (Z.leb_spec XLogFileSize (xrecoff sentPtr)); cbn.
    - rewrite uint32_small by lia. split; [reflexivity | lia].
    - split; [reflexivity | lia]. }
  destruct Hst as (Hform & Hsl & Hso).
  set (en0 := XLByteAdvance st MAX_SEND_SIZE).
  set (en := if negb (xlogid en0 =? xlogid st) then _ else en0).
  assert (Hen : en = {| xlogid := xlogid st;
                        xrecoff := Z.min (xrecoff st + MAX_SEND_SIZE) XLogFileSize |}).
  { subst en en0. unfold XLByteAdvance.
    rewrite (uint32_small (xrecoff st + MAX_SEND_SIZE)) by lia.
    destruct (Z.leb_spec XLogFileSize (xrecoff st + MAX_SEND_SIZE)); cbn.
    - pose proof (uint32_succ_neq (xlogid st) Hsl) as Hne.
      destruct (Z.eqb_spec (uint32 (xlogid st + 1)) (xlogid st)); [contradiction |].
      cbn. f_equal. lia.
    - rewrite Z.eqb_refl. cbn. f_equal. lia. }
  clearbody en st. clear en0. subst en.
  destruct (XLByteLE SendRqstPtr _) eqn:Hle; intros Heq; inversion Heq; subst startptr endptr caughtup;
    clear Heq; cbv zeta.
  - split; [exact Hform |]. split; [symmetry; exact Hle | discriminate].
  - split; [exact Hform |]. split; [symmetry; exact Hle |]. intros _. cbn [xrecoff].
    assert (Hmin : 0 <= Z.min (xrecoff st + MAX_SEND_SIZE) XLogFileSize) by lia.
    pose proof (round_down_bounds _ XLOG_BLCKSZ blcksz_pos0 Hmin) as Hb.
    pose proof (round_down_nonneg _ XLOG_BLCKSZ blcksz_pos0 Hmin) as Hnn.
    apply uint32_small. lia.
Qed.

End PositionFacts.

(** ** The log reader *)

Section ReaderFacts.
Context `{P : XLogParams}.

Lemma bytes_read_app (l1 l2 : list SysCall) :
  bytes_read (l1 ++ l2) = bytes_read l1 + bytes_read l2.
Proof.
  unfold bytes_read. induction l1 as [| sc l1 IH]; [reflexivity |].
  cbn [app foldr]. destruct sc; rewrite IH; lia.
Qed.

Lemma read_call_length (fs : FileSys) (calls : list SysCall) (fd count : Z) :
  0 <= fst (read_call fs calls fd count) ->
  fst (read_call fs calls fd count) = Z.of_nat (length (snd (read_call fs calls fd count))).
Proof. unfold read_call. destruct (read fs calls fd count); cbn; lia. Qed.

Lemma read_call_bound (fs : FileSys) (calls : list SysCall) (fd count : Z) :
  0 < count -> fst (read_call fs calls fd count) <= count.
Proof.
  intros Hc. unfold read_call. destruct (read fs calls fd count); cbn [fst]; [lia |].
  rewrite length_take. lia.
Qed.

(** One turn of the loop of [XLogRead], call by call. *)
Lemma XLogRead_loop_turn (fuel : nat) (fs : FileSys) (c : SendCursor) (buf : list Byte.byte)
    (calls : list SysCall) (recptr : XLogRecPtr) (nbytes : Z) :
  0 < nbytes ->
  let log := xlogid recptr in
  let seg := xrecoff recptr / XLogSegSize in
  let startoff := xrecoff recptr mod XLogSegSize in
  let reopen := (sendFile c <? 0) || negb (XLByteInSeg recptr (sendId c) (sendSeg c)) in
  let calls0 :=
    calls ++ (if reopen && (0 <=? sendFile c) then [sys_close (sendFile c)] else []) in
  let ofd := fst (BasicOpenFile fs calls0 (ThisTimeLineID fs) log seg) in
  let errno := snd (BasicOpenFile fs calls0 (ThisTimeLineID fs) log seg) in
  let fd := if reopen then ofd else sendFile c in
  let off0 := if reopen then 0 else sendOff c in
  let calls1 := calls0 ++ (if reopen then [sys_open log seg ofd errno] else []) in
  let seek := negb (off0 =? startoff) in
  let calls2 :=
    calls1 ++ (if seek then [sys_lseek fd startoff (lseek fs calls1 fd startoff)] else []) in
  let segbytes := Z.min nbytes (XLogSegSize - startoff) in
  let readbytes := fst (read_call fs calls2 fd segbytes) in
  let data := snd (read_call fs calls2 fd segbytes) in
  let calls3 := calls2 ++ [sys_read fd recptr nbytes segbytes readbytes] in
  XLogRead_loop (S fuel) fs c buf calls recptr nbytes =
  if reopen && (ofd <? 0) then
    ReadErr (if errno =? ENOENT then SegmentAlreadyRemoved log seg
             else CouldNotOpenFile log seg errno)
      {| sendFile := ofd; sendId := log; sendSeg := seg; sendOff := sendOff c |} calls1
  else if seek && (lseek fs calls1 fd startoff <? 0) then
    ReadErr (CouldNotSeek log seg startoff)
      {| sendFile := fd; sendId := log; sendSeg := seg; sendOff := off0 |} calls2
  else if readbytes <=? 0 then
    ReadErr (CouldNotRead log seg startoff segbytes)
      {| sendFile := fd; sendId := log; sendSeg := seg; sendOff := startoff |} calls3
  else
    XLogRead_loop fuel fs
      {| sendFile := fd; sendId := log; sendSeg := seg; sendOff := uint32 (startoff + readbytes) |}
      (buf ++ data) calls3 (XLByteAdvance recptr readbytes) (nbytes - readbytes).
Proof.
  intros Hpos log seg startoff reopen calls0 ofd errno fd off0 calls1 seek calls2 segbytes
    readbytes data calls3.
  cbn [XLogRead_loop].
  destruct (Z.gtb_spec nbytes 0) as [_ | Hneg]; [| lia].
  fold startoff.
  replace (if nbytes >? XLogSegSize - startoff then XLogSegSize - startoff else nbytes)
    with segbytes.
  2: { subst segbytes. destruct (Z.gtb_spec nbytes (XLogSegSize - startoff)); lia. }
  unfold XLByteToSeg. fold log seg reopen.
  subst calls3 calls2 calls1 readbytes data seek fd off0 ofd errno calls0.
  destruct reopen eqn:Hre; cbn [andb].
  - replace (if 0 <=? sendFile c then calls ++ [sys_close (sendFile c)] else calls)
      with (calls ++ (if 0 <=? sendFile c then [sys_close (sendFile c)] else [])).
    2: { destruct (0 <=? sendFile c); [reflexivity | apply app_nil_r]. }
    set (calls0 := calls ++ _).
    destruct (BasicOpenFile fs calls0 (ThisTimeLineID fs) log seg) as [ofd errno]. cbn [fst snd].
    destruct (ofd <? 0); [destruct (errno =? ENOENT); reflexivity |].
    cbn [sendOff sendFile sendId sendSeg].
    destruct (Z.eqb_spec 0 startoff) as [E | E]; cbn [negb andb].
    + rewrite app_nil_r. rewrite <- E. cbn [sendOff sendFile sendId sendSeg].
      destruct (read_call fs _ ofd segbytes) as [readbytes data]. cbn [fst snd].
      destruct (readbytes <=? 0); reflexivity.
    + destruct (lseek fs _ ofd startoff <? 0); [reflexivity |].
      cbn [sendOff sendFile sendId sendSeg].
      destruct (read_call fs _ ofd segbytes) as [readbytes data]. cbn [fst snd].
      destruct (readbytes <=? 0); reflexivity.
  - subst reopen. apply orb_false_iff in Hre. destruct Hre as [_ Hin].
    apply negb_false_iff in Hin. unfold XLByteInSeg in Hin.
    apply andb_true_iff in Hin. destruct Hin as [Hid Hsg].
    apply Z.eqb_eq in Hid, Hsg. fold log in Hid. fold seg in Hsg.
    destruct c as [f i sg o]. cbn [sendOff sendFile sendId sendSeg] in *. subst i sg.
    rewrite !app_nil_r.
    destruct (Z.eqb_spec o startoff) as [E | E]; cbn [negb andb].
    + rewrite app_nil_r. cbn [sendOff sendFile sendId sendSeg]. rewrite E.
      destruct (read_call fs calls f segbytes) as [readbytes data]. cbn [fst snd].
      destruct (readbytes <=? 0); reflexivity.
    + destruct (lseek fs calls f startoff <? 0); [reflexivity |].
      cbn [sendOff sendFile sendId sendSeg].
      destruct (read_call fs _ f segbytes) as [readbytes data]. cbn [fst snd].
      destruct (readbytes <=? 0); reflexivity.
Qed.


Lemma loop_post_extend (buf buf0 : list Byte.byte) (calls pre : list SysCall)
    (nbytes got : Z) (r : read_result) :
  forallb syscall_ok pre = true -> Forall read_request_ok pre ->
  bytes_read pre = got -> 0 < got -> got <= nbytes ->
  Z.of_nat (length buf0) = Z.of_nat (length buf) + got ->
  loop_post buf0 (calls ++ pre) (nbytes - got) r ->
  loop_post buf calls nbytes r.
Proof.
  intros Hok Hreq Hsum Hpos Hle Hlen Hpost.
  destruct r as [buf' c' calls' | e c' calls' |]; cbn in *; [| | exact Hpost].
  - destruct Hpost as (new & -> & Hnew & Hrq & Hb & Hl).
    exists (pre ++ new). rewrite app_assoc. split; [reflexivity |].
    rewrite forallb_app, Hok, Hnew. split; [reflexivity |].
    split; [apply Forall_app; auto |].
    rewrite bytes_read_app. lia.
  - destruct Hpost as (new & last & -> & Hnew & Hrq & Hf).
    exists (pre ++ new), last. rewrite <- !app_assoc. split; [reflexivity |].
    rewrite forallb_app, Hok, Hnew. split; [reflexivity |].
    split; [| exact Hf].
    apply Forall_app; auto.
Qed.

Lemma loop_post_done (buf : list Byte.byte) (c : SendCursor) (calls : list SysCall) (nbytes : Z) :
  nbytes <= 0 -> loop_post buf calls nbytes (ReadOk buf c calls).
Proof.
  intros Hn. exists []. rewrite app_nil_r.
  split; [reflexivity |]. split; [reflexivity |]. split; [constructor |].
  split; [cbn; lia | lia].
Qed.

Lemma loop_post_fail (buf : list Byte.byte) (calls pre : list SysCall) (nbytes : Z)
    (last : SysCall) (e : Report) (c : SendCursor) :
  forallb syscall_ok pre = true -> Forall read_request_ok pre ->
  read_request_ok last -> fails_with last e ->
  loop_post buf calls nbytes (ReadErr e c ((calls ++ pre) ++ [last])).
Proof.
  intros Hok Hreq Hlast Hf. exists pre, last. rewrite <- app_assoc.
  split; [reflexivity |]. split; [exact Hok |]. split; [| exact Hf].
  apply Forall_app. split; [exact Hreq | repeat constructor; exact Hlast].
Qed.

Lemma turn_prefix_snoc (pre : list SysCall) (sc : SysCall) :
  turn_prefix pre -> syscall_ok sc = true -> read_request_ok sc -> bytes_read [sc] = 0 ->
  turn_prefix (pre ++ [sc]).
Proof.
  intros (Hok & Hreq & Hb) Hsc Hr Hz. split; [| split].
  - rewrite forallb_app, Hok. cbn. rewrite Hsc. reflexivity.
  - apply Forall_app. split; [exact Hreq | repeat constructor; exact Hr].
  - rewrite bytes_read_app. lia.
Qed.

Lemma XLogRead_loop_post (fuel : nat) :
  forall (fs : FileSys) (c : SendCursor) (buf : list Byte.byte) (calls : list SysCall)
         (recptr : XLogRecPtr) (nbytes : Z),
    (Z.to_nat nbytes <= fuel)%nat ->
    loop_post buf calls nbytes (XLogRead_loop fuel fs c buf calls recptr nbytes).
Proof.
  induction fuel as [| fuel IH]; intros fs c buf calls recptr nbytes Hfuel.
  - cbn. destruct (Z.gtb_spec nbytes 0) as [Hpos | Hneg]; [lia |].
    apply loop_post_done. lia.
  - destruct (Z.le_gt_cases nbytes 0) as [Hle | Hpos].
    { cbn [XLogRead_loop]. destruct (Z.gtb_spec nbytes 0) as [Hp | _]; [lia |].
      apply loop_post_done. exact Hle. }
    pose proof (XLogRead_loop_turn fuel fs c buf calls recptr nbytes Hpos) as Hturn.
    cbv zeta in Hturn. rewrite Hturn. clear Hturn.
    set (log := xlogid recptr). set (seg := xrecoff recptr / XLogSegSize).
    set (startoff := xrecoff recptr mod XLogSegSize).
    set (reopen := (sendFile c <? 0) || negb (XLByteInSeg recptr (sendId c) (sendSeg c))).
    set (pre0 := if reopen && (0 <=? sendFile c) then [sys_close (sendFile c)] else []).
    assert (H0 : turn_prefix pre0).
    { subst pre0. destruct (reopen && (0 <=? sendFile c)); repeat split; repeat constructor. }
    set (ofd := fst (BasicOpenFile fs (calls ++ pre0) (ThisTimeLineID fs) log seg)).
    set (errno := snd (BasicOpenFile fs (calls ++ pre0) (ThisTimeLineID fs) log seg)).
    set (fd := if reopen then ofd else sendFile c).
    set (off0 := if reopen then 0 else sendOff c).
    destruct (reopen && (ofd <? 0)) eqn:Hopen.
    { apply andb_true_iff in Hopen. destruct Hopen as [-> Hfd]. apply Z.ltb_lt in Hfd.
      destruct H0 as (Hok0 & Hreq0 & _).
      apply loop_post_fail; [exact Hok0 | exact Hreq0 | exact I |].
      split; [exact Hfd | reflexivity]. }
    set (pre1 := pre0 ++ (if reopen then [sys_open log seg ofd errno] else [])).
    assert (H1 : turn_prefix pre1).
    { subst pre1. destruct reopen; [| rewrite app_nil_r; exact H0].
      cbn [andb] in Hopen. apply Z.ltb_ge in Hopen.
      apply turn_prefix_snoc; [exact H0 | cbn; lia | exact I | reflexivity]. }
    replace ((calls ++ pre0) ++ (if reopen then [sys_open log seg ofd errno] else []))
      with (calls ++ pre1) by (subst pre1; apply app_assoc).
    set (seek := negb (off0 =? startoff)).
    destruct (seek && (lseek fs (calls ++ pre1) fd startoff <? 0)) eqn:Hseek.
    { apply andb_true_iff in Hseek. destruct Hseek as [-> Hlk]. apply Z.ltb_lt in Hlk.
      destruct H1 as (Hok1 & Hreq1 & _).
      apply loop_post_fail; [exact Hok1 | exact Hreq1 | exact I |].
      split; [exact Hlk | eauto]. }
    set (pre2 := pre1 ++ (if seek then [sys_lseek fd startoff
                                          (lseek fs (calls ++ pre1) fd startoff)] else [])).
    assert (H2 : turn_prefix pre2).
    { subst pre2. destruct seek; [| rewrite app_nil_r; exact H1].
      cbn [andb] in Hseek. apply Z.ltb_ge in Hseek.
      apply turn_prefix_snoc; [exact H1 | cbn; lia | exact I | reflexivity]. }
    replace ((calls ++ pre1) ++
             (if seek then [sys_lseek fd startoff (lseek fs (calls ++ pre1) fd startoff)]
              else []))
      with (calls ++ pre2) by (subst pre2; apply app_assoc).
    destruct H2 as (Hok2 & Hreq2 & Hb2).
    (* the read *)
    set (segbytes := Z.min nbytes (XLogSegSize - startoff)).
    pose proof (read_call_length fs (calls ++ pre2) fd segbytes) as Hrl.
    assert (Hgot : fst (read_call fs (calls ++ pre2) fd segbytes) <= Z.max 0 segbytes).
    { unfold read_call. destruct (read fs (calls ++ pre2) fd segbytes); cbn; [lia |].
      rewrite length_take. lia. }
    destruct (read_call fs (calls ++ pre2) fd segbytes) as [readbytes data].
    cbn [fst snd] in *.
    assert (Hrq : read_request_ok (sys_read fd recptr nbytes segbytes readbytes))
      by reflexivity.
    destruct (Z.leb_spec readbytes 0) as [Hz | Hz].
    + apply loop_post_fail; [exact Hok2 | exact Hreq2 | exact Hrq |].
      split; [exact Hz | eauto].
    + eapply (loop_post_extend buf (buf ++ data) calls
                (pre2 ++ [sys_read fd recptr nbytes segbytes readbytes])
                nbytes readbytes).
      * rewrite forallb_app, Hok2. cbn. apply Z.ltb_lt in Hz. rewrite Hz. reflexivity.
      * apply Forall_app. split; [exact Hreq2 | repeat constructor; exact Hrq].
      * rewrite bytes_read_app, Hb2. cbn. lia.
      * exact Hz.
      * subst segbytes. lia.
      * rewrite length_app. lia.
      * rewrite app_assoc. apply IH. lia.
Qed.

Lemma XLogRead_cases (fs : FileSys) (c : SendCursor) (recptr : XLogRecPtr) (nbytes : Z) :
  XLogRead_post fs recptr nbytes (XLogRead fs c recptr nbytes).
Proof.
  unfold XLogRead, XLogRead_post.
  pose proof (XLogRead_loop_post (Z.to_nat nbytes) fs c [] [] recptr nbytes (le_n _)) as Hpost.
  destruct (XLogRead_loop (Z.to_nat nbytes) fs c [] [] recptr nbytes)
    as [buf c' calls | e c' calls |]; cbn in Hpost.
  - destruct Hpost as (new & -> & Hok & Hreq & Hb & Hl). cbn [app].
    assert (Hrm : segment_removed (XLByteToSeg recptr) (XLogGetLastRemoved fs) =
                  let '(lastRemovedLog, lastRemovedSeg) := XLogGetLastRemoved fs in
                  (xlogid recptr <? lastRemovedLog) ||
                  ((xlogid recptr =? lastRemovedLog) &&
                   (xrecoff recptr / XLogSegSize <=? lastRemovedSeg))).
    { unfold segment_removed, XLByteToSeg. destruct (XLogGetLastRemoved fs). reflexivity. }
    unfold XLByteToSeg in *.
    destruct (XLogGetLastRemoved fs) as [lastRemovedLog lastRemovedSeg].
    rewrite <- Hrm.
    destruct (segment_removed _ _); cbn.
    + right. repeat split; auto.
    + cbn in Hl. repeat split; auto.
  - destruct Hpost as (new & last & -> & Hok & Hreq & Hf). cbn.
    left. exists new, last. repeat split; auto.
  - contradiction.
Qed.

(** [XLogRead] always ends. *)
Lemma XLogRead_total (fs : FileSys) (c : SendCursor) (recptr : XLogRecPtr) (nbytes : Z) :
  XLogRead fs c recptr nbytes <> ReadOutOfFuel.
Proof.
  pose proof (XLogRead_cases fs c recptr nbytes) as Hc. intros E. rewrite E in Hc. exact Hc.
Qed.

(** A failed system call in a list of which all but the last went well
    is the last. *)
Lemma failed_call_is_last (new : list SysCall) (last sc : SysCall) :
  forallb syscall_ok new = true -> sc ∈ new ++ [last] -> syscall_ok sc = false -> sc = last.
Proof.
  intros Hok Hin Hbad. apply elem_of_app in Hin. destruct Hin as [Hin | Hin].
  - rewrite forallb_forall in Hok. apply list_elem_of_In in Hin.
    rewrite (Hok sc Hin) in Hbad. discriminate.
  - apply list_elem_of_singleton in Hin. exact Hin.
Qed.

Lemma no_failed_call (calls : list SysCall) (sc : SysCall) :
  forallb syscall_ok calls = true -> sc ∈ calls -> syscall_ok sc = true.
Proof.
  intros Hok Hin. rewrite forallb_forall in Hok. apply Hok, list_elem_of_In, Hin.
Qed.

(** The reads of the loop follow one another. *)
Lemma reads_follow_skip (recptr : XLogRecPtr) (wanted : Z) (pre rest : list SysCall) :
  forallb (fun sc => negb (is_read sc)) pre = true ->
  reads_follow recptr wanted rest -> reads_follow recptr wanted (pre ++ rest).
Proof.
  intros Hpre Hrest. induction pre as [| sc pre IH]; [exact Hrest |].
  cbn [forallb] in Hpre. apply andb_true_iff in Hpre. destruct Hpre as [Hsc Hpre].
  destruct sc; cbn in Hsc; try discriminate; cbn [app reads_follow]; apply IH; exact Hpre.
Qed.

Lemma XLogRead_loop_reads (fuel : nat) :
  forall (fs : FileSys) (c : SendCursor) (buf : list Byte.byte) (calls : list SysCall)
         (recptr : XLogRecPtr) (nbytes : Z),
    (Z.to_nat nbytes <= fuel)%nat ->
    exists new,
      calls_of (XLogRead_loop fuel fs c buf calls recptr nbytes) = calls ++ new /\
      reads_follow recptr nbytes new.
Proof.
  induction fuel as [| fuel IH]; intros fs c buf calls recptr nbytes Hfuel.
  - cbn. destruct (Z.gtb_spec nbytes 0) as [Hpos | Hneg]; [lia |].
    exists []. rewrite app_nil_r. split; [reflexivity | exact I].
  - destruct (Z.le_gt_cases nbytes 0) as [Hle | Hpos].
    { cbn [XLogRead_loop]. destruct (Z.gtb_spec nbytes 0) as [Hp | _]; [lia |].
      exists []. rewrite app_nil_r. split; [reflexivity | exact I]. }
    pose proof (XLogRead_loop_turn fuel fs c buf calls recptr nbytes Hpos) as Hturn.
    cbv zeta in Hturn. rewrite Hturn. clear Hturn.
    set (log := xlogid recptr). set (seg := xrecoff recptr / XLogSegSize).
    set (startoff := xrecoff recptr mod XLogSegSize).
    set (reopen := (sendFile c <? 0) || negb (XLByteInSeg recptr (sendId c) (sendSeg c))).
    set (pre0 := if reopen && (0 <=? sendFile c) then [sys_close (sendFile c)] else []).
    set (ofd := fst (BasicOpenFile fs (calls ++ pre0) (ThisTimeLineID fs) log seg)).
    set (errno := snd (BasicOpenFile fs (calls ++ pre0) (ThisTimeLineID fs) log seg)).
    set (fd := if reopen then ofd else sendFile c).
    set (off0 := if reopen then 0 else sendOff c).
    set (pre1 := pre0 ++ (if reopen then [sys_open log seg ofd errno] else [])).
    replace ((calls ++ pre0) ++ (if reopen then [sys_open log seg ofd errno] else []))
      with (calls ++ pre1) by (subst pre1; apply app_assoc).
    set (seek := negb (off0 =? startoff)).
    set (pre2 := pre1 ++ (if seek then [sys_lseek fd startoff
                                          (lseek fs (calls ++ pre1) fd startoff)] else [])).
    replace ((calls ++ pre1) ++
             (if seek then [sys_lseek fd startoff (lseek fs (calls ++ pre1) fd startoff)]
              else []))
      with (calls ++ pre2) by (subst pre2; apply app_assoc).
    assert (H1 : forallb (fun sc => negb (is_read sc)) pre1 = true).
    { subst pre1 pre0. destruct (reopen && (0 <=? sendFile c)); destruct reopen; reflexivity. }
    assert (H2 : forallb (fun sc => negb (is_read sc)) pre2 = true).
    { subst pre2. rewrite forallb_app, H1. destruct seek; reflexivity. }
    set (segbytes := Z.min nbytes (XLogSegSize - startoff)).
    pose proof (read_call_bound fs (calls ++ pre2) fd segbytes) as Hbound.
    destruct (read_call fs (calls ++ pre2) fd segbytes) as [readbytes data].
    cbn [fst snd] in *.
    destruct (reopen && (ofd <? 0)).
    { exists pre1. split; [reflexivity |].
      rewrite <- (app_nil_r pre1). apply reads_follow_skip; [exact H1 | exact I]. }
    destruct (seek && (lseek fs (calls ++ pre1) fd startoff <? 0)).
    { exists pre2. split; [reflexivity |].
      rewrite <- (app_nil_r pre2). apply reads_follow_skip; [exact H2 | exact I]. }
    destruct (Z.leb_spec readbytes 0) as [Hz | Hz].
    + exists (pre2 ++ [sys_read fd recptr nbytes segbytes readbytes]).
      rewrite app_assoc. split; [reflexivity |].
      apply reads_follow_skip; [exact H2 |]. cbn. auto.
    + destruct (IH fs {| sendFile := fd; sendId := log; sendSeg := seg;
                         sendOff := uint32 (startoff + readbytes) |}
                  (buf ++ data) ((calls ++ pre2) ++ [sys_read fd recptr nbytes segbytes readbytes])
                  (XLByteAdvance recptr readbytes) (nbytes - readbytes))
        as (new & Hcalls & Hnew); [lia |].
      exists (pre2 ++ sys_read fd recptr nbytes segbytes readbytes :: new).
      rewrite Hcalls, <- !app_assoc. split; [reflexivity |].
      apply reads_follow_skip; [exact H2 |]. cbn. auto.
Qed.

Lemma XLogRead_calls_of_loop (fs : FileSys) (c : SendCursor) (recptr : XLogRecPtr) (nbytes : Z) :
  calls_of (XLogRead fs c recptr nbytes) =
  calls_of (XLogRead_loop (Z.to_nat nbytes) fs c [] [] recptr nbytes).
Proof.
  unfold XLogRead.
  destruct (XLogRead_loop (Z.to_nat nbytes) fs c [] [] recptr nbytes)
    as [buf0 c0 calls0 | |]; try reflexivity.
  destruct (XLogGetLastRemoved fs) as [lastRemovedLog lastRemovedSeg].
  destruct (XLByteToSeg recptr) as [log seg].
  destruct ((log <? lastRemovedLog) || ((log =? lastRemovedLog) && (seg <=? lastRemovedSeg)));
    reflexivity.
Qed.

End ReaderFacts.

Section ReaderClaims.
Context `{P : XLogParams}.

(** C4 (amended). Every [read] issued by [XLogRead] asks for
    [min(n, XLogSegSize - startoff)] bytes, [n] being the bytes still
    wanted; a read that fails or delivers no byte makes the whole call fail
    with an I/O error, and a read error is reported only then; a read that
    delivers fewer bytes than asked for but at least one is not an error:
    the reader advances by the bytes delivered and reads the rest. The
    first read is at [recptr] with [nbytes] bytes wanted, the read after
    one that delivered [got] bytes is at the position [got] bytes further
    with [got] bytes fewer wanted, and the call returns once the reads
    have delivered [nbytes] bytes in total. *)
Theorem XLogRead_read_discipline (fs : FileSys) (c : SendCursor)
    (recptr : XLogRecPtr) (nbytes : Z) :
  let r := XLogRead fs c recptr nbytes in
  (forall fd rp wanted count got,
      sys_read fd rp wanted count got ∈ calls_of r ->
      count = Z.min wanted (XLogSegSize - xrecoff rp mod XLogSegSize) /\
      (got <= 0 -> failed_with_kind r IO_ERROR)) /\
  (forall log seg off len c' calls,
      r = ReadErr (CouldNotRead log seg off len) c' calls ->
      exists pre fd rp wanted got,
        calls = pre ++ [sys_read fd rp wanted len got] /\ got <= 0) /\
  (forall buf c' calls,
      r = ReadOk buf c' calls ->
      forallb syscall_ok calls = true /\ bytes_read calls = Z.max 0 nbytes /\
      Z.of_nat (length buf) = Z.max 0 nbytes) /\
  reads_follow recptr nbytes (calls_of r).
Proof.
  intros r. pose proof (XLogRead_cases fs c recptr nbytes) as Hc. fold r in Hc.
  split; [| split; [| split]].
  - intros fd rp wanted count got Hin. split.
    + assert (Hall : Forall read_request_ok (calls_of r)).
      { destruct r as [buf c' calls | e c' calls |]; cbn in *; [tauto | | contradiction].
        destruct Hc as [(new & last & _ & _ & Hreq & _) | (_ & Hreq & _)]; exact Hreq. }
      rewrite Forall_forall in Hall. exact (Hall _ Hin).
    + intros Hgot.
      assert (Hbad : syscall_ok (sys_read fd rp wanted count got) = false) by (cbn; lia).
      destruct r as [buf c' calls | e c' calls |]; cbn in Hin, Hc.
      * destruct Hc as (Hok & _). rewrite (no_failed_call _ _ Hok Hin) in Hbad. discriminate.
      * destruct Hc as [(new & last & -> & Hok & _ & Hf) | (Hok & _)].
        -- pose proof (failed_call_is_last _ _ _ Hok Hin Hbad) as <-.
           destruct Hf as (_ & log & seg & off & ->).
           exists (CouldNotRead log seg off count), c', (new ++ [sys_read fd rp wanted count got]).
           split; reflexivity.
        -- rewrite (no_failed_call _ _ Hok Hin) in Hbad. discriminate.
      * contradiction.
  - intros log seg off len c' calls Hr. rewrite Hr in Hc. cbn in Hc.
    destruct Hc as [(new & last & -> & _ & _ & Hf) | (_ & _ & _ & _ & He)]; [| discriminate].
    destruct last as [l s fd errno | fd so res | fd rp wanted count got | fd]; cbn in Hf.
    + destruct Hf as (_ & He). destruct (errno =? ENOENT); discriminate.
    + destruct Hf as (_ & l & s & He). discriminate.
    + destruct Hf as (Hgot & l & s & o & He). inversion He; subst.
      exists new, fd, rp, wanted, got. split; [reflexivity | exact Hgot].
    + contradiction.
  - intros buf c' calls Hr. rewrite Hr in Hc. cbn in Hc. tauto.
  - subst r. rewrite XLogRead_calls_of_loop.
    destruct (XLogRead_loop_reads (Z.to_nat nbytes) fs c [] [] recptr nbytes (le_n _))
      as (new & -> & Hnew).
    exact Hnew.
Qed.

(** C5. [XLogRead] fails with [WAL_REMOVED] in exactly two situations:
    an open fails with [ENOENT], or every system call went well, all
    [nbytes] bytes were read and the segment of the position the read
    started at is not after the last removed segment. An open that fails
    with another [errno] makes the call fail with an I/O error. The test
    looks at the start position only. *)
Theorem XLogRead_wal_removed (fs : FileSys) (c : SendCursor)
    (recptr : XLogRecPtr) (nbytes : Z) :
  let r := XLogRead fs c recptr nbytes in
  (failed_with_kind r WAL_REMOVED <->
     (exists log seg fd, sys_open log seg fd ENOENT ∈ calls_of r /\ fd < 0) \/
     (forallb syscall_ok (calls_of r) = true /\ bytes_read (calls_of r) = Z.max 0 nbytes /\
      segment_removed (xlogid recptr, xrecoff recptr / XLogSegSize)
                      (XLogGetLastRemoved fs) = true)) /\
  (forall log seg fd errno,
      sys_open log seg fd errno ∈ calls_of r -> fd < 0 -> errno <> ENOENT ->
      failed_with_kind r IO_ERROR).
Proof.
  intros r. pose proof (XLogRead_cases fs c recptr nbytes) as Hc. fold r in Hc.
  change (xlogid recptr, xrecoff recptr / XLogSegSize) with (XLByteToSeg recptr).
  assert (Hopen : forall log seg fd errno,
             sys_open log seg fd errno ∈ calls_of r -> fd < 0 ->
             exists c' calls,
               r = ReadErr (if errno =? ENOENT then SegmentAlreadyRemoved log seg
                            else CouldNotOpenFile log seg errno) c' calls).
  { intros log seg fd errno Hin Hfd.
    assert (Hbad : syscall_ok (sys_open log seg fd errno) = false) by (cbn; lia).
    destruct r as [buf c' calls | e c' calls |]; cbn in Hin, Hc.
    - destruct Hc as (Hok & _). rewrite (no_failed_call _ _ Hok Hin) in Hbad. discriminate.
    - destruct Hc as [(new & last & -> & Hok & _ & Hf) | (Hok & _)].
      + pose proof (failed_call_is_last _ _ _ Hok Hin Hbad) as <-.
        destruct Hf as (_ & ->). eauto.
      + rewrite (no_failed_call _ _ Hok Hin) in Hbad. discriminate.
    - contradiction. }
  split; [split |].
  - intros (e & c' & calls & Hr & Hk). rewrite Hr in Hc. cbn in Hc. rewrite Hr. cbn.
    destruct Hc as [(new & last & -> & Hok & _ & Hf) | (Hok & _ & Hb & Hrm & _)].
    + left. destruct last as [l s fd errno | fd so res | fd rp wanted count got | fd];
        cbn in Hf.
      * destruct Hf as (Hfd & ->). destruct (Z.eqb_spec errno ENOENT) as [-> | Hne];
          [| discriminate].
        exists l, s, fd. split; [| exact Hfd].
        apply elem_of_app. right. apply list_elem_of_singleton. reflexivity.
      * destruct Hf as (_ & l & s & ->). discriminate.
      * destruct Hf as (_ & l & s & o & ->). discriminate.
      * contradiction.
    + right. auto.
  - intros [(log & seg & fd & Hin & Hfd) | (Hok & Hb & Hrm)].
    + destruct (Hopen log seg fd ENOENT Hin Hfd) as (c' & calls & Hr).
      rewrite Hr. exists (SegmentAlreadyRemoved log seg), c', calls. split; reflexivity.
    + destruct r as [buf c' calls | e c' calls |]; cbn in Hok, Hb, Hc.
      * destruct Hc as (_ & _ & _ & _ & Hno). rewrite Hno in Hrm. discriminate.
      * destruct Hc as [(new & last & -> & _ & _ & Hf) | (_ & _ & _ & _ & ->)].
        -- exfalso. rewrite forallb_app in Hok. apply andb_true_iff in Hok.
           destruct Hok as (_ & Hlast). cbn in Hlast. rewrite andb_true_r in Hlast.
           destruct last; cbn in Hf, Hlast; lia.
        -- eexists _, c', calls. split; reflexivity.
      * contradiction.
  - intros log seg fd errno Hin Hfd Hne.
    destruct (Hopen log seg fd errno Hin Hfd) as (c' & calls & Hr).
    destruct (Z.eqb_spec errno ENOENT) as [E | _]; [contradiction |].
    rewrite Hr. exists (CouldNotOpenFile log seg errno), c', calls. split; reflexivity.
Qed.

End ReaderClaims.

(** C4, as stated, fails: with 16 MB segments, two bytes wanted at the
    start of segment 1 and a kernel that delivers one byte a read, the
    first read asks for 2 bytes and gets 1, the second reads the rest,
    and [XLogRead] returns. *)
Lemma short_read_is_not_fatal : ~ @short_read_is_fatal default_params.
Proof.
  intros Hclaim.
  pose (start := {| xlogid := 0; xrecoff := 16777216 |}).
  specialize (Hclaim one_byte_fs initial_cursor start 2 3 start 2 2 1).
  assert (Hrun : @XLogRead default_params one_byte_fs initial_cursor start 2 =
                 ReadOk [Byte.x00; Byte.x00]
                   {| sendFile := 3; sendId := 0; sendSeg := 1; sendOff := 2 |}
                   [sys_open 0 1 3 0; sys_read 3 start 2 2 1;
                    sys_read 3 {| xlogid := 0; xrecoff := 16777217 |} 1 1 1])
    by (vm_compute; reflexivity).
  rewrite Hrun in Hclaim. cbn [calls_of] in Hclaim.
  destruct Hclaim as (e & c' & calls & Hr & _).
  - apply list_elem_of_In. cbn. auto.
  - lia.
  - discriminate.
Qed.

(** ** The framer *)

(** Membership in a list given by its elements. *)
Ltac elem_cases H :=
  repeat match type of H with
         | _ ∈ _ ++ _ => apply elem_of_app in H; destruct H as [H | H]
         | _ ∈ _ :: _ => apply elem_of_cons in H; destruct H as [H | H]
         | _ ∈ [] => apply not_elem_of_nil in H; contradiction
         | _ ∈ match ?o with Some _ => _ | None => _ end => destruct o
         | _ ∈ (if ?b then _ else _) => destruct b
         end.

Section FramerFacts.
Context `{P : XLogParams}.

(** The ways [XLogSend] returns. *)
Lemma XLogSend_Return_inv (env : SendEnv) (s : Sender) (r : bool * bool) (s' : Sender) :
  XLogSend env s = Return r s' ->
  (XLByteLE (GetFlushRecPtr env) (sentPtr s) = true /\ r = (true, true) /\ s' = s) \/
  (XLByteLE (GetFlushRecPtr env) (sentPtr s) = false /\
   exists startptr endptr caughtup data c calls,
     XLogSend_slice (sentPtr s) (GetFlushRecPtr env) = (startptr, endptr, caughtup) /\
     XLogRead (filesys env) (cursor s) startptr (uint32 (xrecoff endptr - xrecoff startptr))
       = ReadOk data c calls /\
     ((pq_flush env <> 0 /\ r = (false, caughtup) /\ s' = frame_put env startptr data c s) \/
      (pq_flush env = 0 /\ r = (true, caughtup) /\
       s' = frame_sent env startptr endptr data c s))).
Proof.
  unfold XLogSend.
  destruct (XLByteLE (GetFlushRecPtr env) (sentPtr s)) eqn:Hle.
  - intros Hr. inversion Hr. left. auto.
  - destruct (XLogSend_slice (sentPtr s) (GetFlushRecPtr env)) as [[startptr endptr] caughtup].
    destruct (XLogRead (filesys env) (cursor s) startptr (uint32 (xrecoff endptr - xrecoff startptr)))
      as [data c calls | e c calls |] eqn:Hread; try discriminate.
    destruct (Z.eqb_spec (pq_flush env) 0) as [Hz | Hnz]; cbn [negb];
      intros Hr; inversion Hr; right; (split; [reflexivity |]);
      exists startptr, endptr, caughtup, data, c, calls;
      (split; [reflexivity |]); (split; [exact Hread |]).
    + right. auto.
    + left. auto.
Qed.

(** [XLogSend] always ends: it returns or reports an error of
    [XLogRead]. *)
Lemma XLogSend_total (env : SendEnv) (s : Sender) :
  (exists r s', XLogSend env s = Return r s') \/
  (exists e s', XLogSend env s = Raise ERROR e s').
Proof.
  unfold XLogSend.
  destruct (XLByteLE (GetFlushRecPtr env) (sentPtr s)); [left; eauto |].
  destruct (XLogSend_slice (sentPtr s) (GetFlushRecPtr env)) as [[startptr endptr] caughtup].
  pose proof (XLogRead_total (filesys env) (cursor s) startptr
                (uint32 (xrecoff endptr - xrecoff startptr))) as Htotal.
  destruct (XLogRead _ _ _ _) as [data c calls | e c calls |]; [| right; eauto | contradiction].
  destruct (negb (pq_flush env =? 0)); left; eauto.
Qed.

Lemma trace_publish_sentPtr (s : Sender) :
  trace (publish_sentPtr s) =
  trace s ++ match MyWalSnd s with
             | Some i => [SpinLockAcquire i; StoreSentPtr i (sentPtr s); SpinLockRelease i]
             | None => []
             end.
Proof.
  unfold publish_sentPtr. destruct (MyWalSnd s); cbn.
  - rewrite <- !app_assoc. reflexivity.
  - rewrite app_nil_r. reflexivity.
Qed.

Lemma sentPtr_publish_sentPtr (s : Sender) : sentPtr (publish_sentPtr s) = sentPtr s.
Proof. unfold publish_sentPtr. destruct (MyWalSnd s); reflexivity. Qed.

Lemma MyWalSnd_publish_sentPtr (s : Sender) : MyWalSnd (publish_sentPtr s) = MyWalSnd s.
Proof. unfold publish_sentPtr. destruct (MyWalSnd s) eqn:E; [exact E | exact E]. Qed.

Lemma trace_frame_put (env : SendEnv) (startptr : XLogRecPtr) (data : list Byte.byte)
    (c : SendCursor) (s : Sender) :
  trace (frame_put env startptr data c s) =
  trace s ++ [pq_putmessage "d"
                (WalDataBody "w" {| dataStart := startptr; walEnd := GetFlushRecPtr env;
                                    sendTime := GetCurrentTimestamp env |} data);
              pq_flush_called (pq_flush env)].
Proof. cbn. rewrite <- app_assoc. reflexivity. Qed.

Lemma trace_frame_sent (env : SendEnv) (startptr endptr : XLogRecPtr) (data : list Byte.byte)
    (c : SendCursor) (s : Sender) :
  trace (frame_sent env startptr endptr data c s) =
  trace s ++ [pq_putmessage "d"
                (WalDataBody "w" {| dataStart := startptr; walEnd := GetFlushRecPtr env;
                                    sendTime := GetCurrentTimestamp env |} data);
              pq_flush_called (pq_flush env)]
          ++ match MyWalSnd s with
             | Some i => [SpinLockAcquire i; StoreSentPtr i endptr; SpinLockRelease i]
             | None => []
             end
          ++ (if update_process_title env then [set_ps_display_streaming endptr] else []).
Proof.
  unfold frame_sent.
  assert (Hp : trace (publish_sentPtr (set_sentPtr endptr (frame_put env startptr data c s))) =
               trace s ++ [pq_putmessage "d"
                (WalDataBody "w" {| dataStart := startptr; walEnd := GetFlushRecPtr env;
                                    sendTime := GetCurrentTimestamp env |} data);
                 pq_flush_called (pq_flush env)]
               ++ match MyWalSnd s with
                  | Some i => [SpinLockAcquire i; StoreSentPtr i endptr; SpinLockRelease i]
                  | None => []
                  end).
  { rewrite trace_publish_sentPtr. cbn [trace set_sentPtr MyWalSnd sentPtr].
    change (trace (frame_put env startptr data c s) ++ ?x) with
      (trace (frame_put env startptr data c s) ++ x).
    rewrite trace_frame_put. rewrite <- app_assoc. reflexivity. }
  destruct (update_process_title env).
  - cbn [trace emit]. rewrite Hp, sentPtr_publish_sentPtr. cbn [sentPtr set_sentPtr].
    rewrite <- !app_assoc. reflexivity.
  - rewrite Hp, app_nil_r. reflexivity.
Qed.

Lemma sentPtr_frame_sent (env : SendEnv) (startptr endptr : XLogRecPtr) (data : list Byte.byte)
    (c : SendCursor) (s : Sender) :
  sentPtr (frame_sent env startptr endptr data c s) = endptr.
Proof.
  unfold frame_sent. destruct (update_process_title env); cbn [sentPtr emit];
    rewrite sentPtr_publish_sentPtr; reflexivity.
Qed.

Lemma events_since_app (s s' : Sender) (evs : list Event) :
  trace s' = trace s ++ evs -> events_since s s' = evs.
Proof. intros E. unfold events_since. rewrite E. apply drop_app_length. Qed.

Lemma events_since_refl (s : Sender) : events_since s s = [].
Proof. unfold events_since. apply drop_all. Qed.

Hypothesis params_ok : XLogParamsOk.

(** The frame a call of [XLogSend] puts is the slice it computed. *)
Lemma XLogSend_frame (env : SendEnv) (s : Sender) (r : bool * bool) (s' : Sender)
    (hdr : WalDataMessageHeader) (data : list Byte.byte) :
  is_recptr (sentPtr s) -> valid_recptr (GetFlushRecPtr env) ->
  XLogSend env s = Return r s' ->
  pq_putmessage "d" (WalDataBody "w" hdr data) ∈ events_since s s' ->
  exists startptr endptr,
    XLByteLE (GetFlushRecPtr env) (sentPtr s) = false /\
    XLogSend_slice (sentPtr s) (GetFlushRecPtr env) = (startptr, endptr, snd r) /\
    slice_facts (sentPtr s) (GetFlushRecPtr env) startptr endptr (snd r) /\
    hdr = {| dataStart := startptr; walEnd := GetFlushRecPtr env;
             sendTime := GetCurrentTimestamp env |} /\
    Z.of_nat (length data) = xrecoff endptr - xrecoff startptr /\
    frame_end hdr data = endptr /\
    (fst r = true -> sentPtr s' = endptr).
Proof.
  intros Hsent Hreq Hrun Hin.
  apply XLogSend_Return_inv in Hrun.
  destruct Hrun as [(_ & _ & ->) | (Hle & startptr & endptr & caughtup & data' & c & calls
                                     & Hslice & Hread & Hflush)].
  { rewrite events_since_refl in Hin. apply not_elem_of_nil in Hin. contradiction. }
  pose proof (XLogSend_slice_facts params_ok _ _ Hsent Hreq Hle _ _ _ Hslice) as Hf.
  pose proof (XLogRead_cases (filesys env) (cursor s) startptr
                (uint32 (xrecoff endptr - xrecoff startptr))) as Hc.
  rewrite Hread in Hc. cbn in Hc. destruct Hc as (_ & _ & _ & Hlen & _).
  assert (Hsmall : 0 <= xrecoff endptr - xrecoff startptr < 4294967296).
  { destruct Hf, params_ok. lia. }
  rewrite uint32_small in Hlen by exact Hsmall.
  rewrite Z.max_r in Hlen by lia.
  assert (Hput : hdr = {| dataStart := startptr; walEnd := GetFlushRecPtr env;
                          sendTime := GetCurrentTimestamp env |} /\ data = data').
  { destruct Hflush as [(_ & _ & ->) | (_ & _ & ->)].
    - rewrite (events_since_app _ _ _ (trace_frame_put env startptr data' c s)) in Hin.
      elem_cases Hin; inversion Hin; auto.
    - rewrite (events_since_app _ _ _ (trace_frame_sent env startptr endptr data' c s)) in Hin.
      elem_cases Hin; inversion Hin; auto. }
  destruct Hput as (-> & ->).
  exists startptr, endptr.
  assert (Hr : snd r = caughtup) by (destruct Hflush as [(_ & -> & _) | (_ & -> & _)]; reflexivity).
  rewrite Hr.
  split; [exact Hle |]. split; [exact Hslice |]. split; [exact Hf |].
  split; [reflexivity |]. split; [exact Hlen |]. split.
  - unfold frame_end. cbn. rewrite Hlen. destruct Hf. destruct endptr as [l o]. cbn in *.
    f_equal; [congruence | lia].
  - intros Hok. destruct Hflush as [(_ & -> & _) | (_ & _ & ->)]; [discriminate |].
    apply sentPtr_frame_sent.
Qed.

End FramerFacts.

Section FramerClaims.
Context `{P : XLogParams}.
Hypothesis params_ok : XLogParamsOk.

(** C1. A data frame built by [XLogSend] covers the slice
    [startptr, endptr) the code computed. It starts at [sentPtr], or at
    offset 0 of the next log id when [sentPtr] is at the end of a log file.
    It ends in the log id it starts in, at an offset no greater than
    [XLogFileSize]: the bound of the frame is [startptr + MAX_SEND_SIZE],
    clamped to offset [XLogFileSize] of the log id of [startptr] when that
    would cross the log id boundary. [*caughtup] is true exactly when the
    flush position is not beyond the bound, and then the frame ends at the
    flush position. Whenever [*caughtup] is false the frame ends at the
    bound rounded down to a multiple of [XLOG_BLCKSZ], which is
    [XLogFileSize] itself when the bound was clamped. The sender holds any
    position; the flush position is one the WAL writer hands out. *)
Theorem XLogSend_frame_range (env : SendEnv) (s : Sender) (r : bool * bool) (s' : Sender)
    (hdr : WalDataMessageHeader) (data : list Byte.byte) :
  is_recptr (sentPtr s) -> valid_recptr (GetFlushRecPtr env) ->
  XLogSend env s = Return r s' ->
  pq_putmessage "d" (WalDataBody "w" hdr data) ∈ events_since s s' ->
  let startptr := dataStart hdr in
  let endptr := frame_end hdr data in
  let bound := Z.min (xrecoff startptr + MAX_SEND_SIZE) XLogFileSize in
  XLogSend_slice (sentPtr s) (GetFlushRecPtr env) = (startptr, endptr, snd r) /\
  xlogid endptr = xlogid startptr /\
  xrecoff startptr <= xrecoff endptr <= XLogFileSize /\
  (XLogFileSize <= xrecoff startptr + MAX_SEND_SIZE -> snd r = false ->
   xrecoff endptr = XLogFileSize) /\
  (snd r = false -> xrecoff endptr mod XLOG_BLCKSZ = 0) /\
  (snd r = true -> endptr = GetFlushRecPtr env) /\
  startptr = (if XLogFileSize <=? xrecoff (sentPtr s)
              then {| xlogid := xlogid (sentPtr s) + 1; xrecoff := 0 |}
              else sentPtr s) /\
  snd r = XLByteLE (GetFlushRecPtr env) {| xlogid := xlogid startptr; xrecoff := bound |} /\
  (snd r = false -> xrecoff endptr = bound - bound mod XLOG_BLCKSZ).
Proof.
  intros Hsent Hreq Hrun Hin startptr endptr bound.
  destruct (XLogSend_frame params_ok env s r s' hdr data Hsent Hreq Hrun Hin)
    as (st & en & Hle & Hslice & Hf & Hhdr & Hlen & Hend & _).
  assert (Hst : startptr = st) by (subst startptr; rewrite Hhdr; reflexivity).
  fold endptr in Hend. subst bound. rewrite Hst, Hend. clear Hst Hend.
  destruct (XLogSend_slice_exact params_ok _ _ Hsent Hreq Hle _ _ _ Hslice)
    as (Hstart & Hcaught & Hround).
  destruct Hf. split; [exact Hslice |]. split; [assumption |]. split; [assumption |].
  split; [| split; [| split; [| split; [| split]]]].
  - intros Hcross Hbehind. destruct (sf_behind0 Hbehind) as (_ & _ & _ & Hform).
    rewrite Hform, Z.min_r by lia. rewrite (file_blcksz params_ok). lia.
  - intros Hbehind. apply (sf_behind0 Hbehind).
  - exact sf_caughtup0.
  - exact Hstart.
  - exact Hcaught.
  - exact Hround.
Qed.

(** C2. Given the arithmetic the code relies on (a page divides a
    segment, a segment divides a log file, a page fits a frame, no
    [uint32] overflow), for every frame [XLogSend] emits: the flush
    position is after [sentPtr]; the payload length is
    [endptr.xrecoff - startptr.xrecoff], at most [MAX_SEND_SIZE], and not
    zero when [*caughtup] is false; [walEnd] is the flush position read at
    the start of the call, and [dataStart] plus the payload length is not
    after it. *)
Theorem XLogSend_frame_size (env : SendEnv) (s : Sender) (r : bool * bool) (s' : Sender)
    (hdr : WalDataMessageHeader) (data : list Byte.byte) :
  is_recptr (sentPtr s) -> valid_recptr (GetFlushRecPtr env) ->
  XLogSend env s = Return r s' ->
  pq_putmessage "d" (WalDataBody "w" hdr data) ∈ events_since s s' ->
  let nbytes := Z.of_nat (length data) in
  XLByteLT (sentPtr s) (GetFlushRecPtr env) = true /\
  (exists startptr endptr,
     XLogSend_slice (sentPtr s) (GetFlushRecPtr env) = (startptr, endptr, snd r) /\
     dataStart hdr = startptr /\ nbytes = xrecoff endptr - xrecoff startptr) /\
  nbytes <= MAX_SEND_SIZE /\
  (snd r = false -> 0 < nbytes) /\
  walEnd hdr = GetFlushRecPtr env /\
  XLByteLE (frame_end hdr data) (walEnd hdr) = true.
Proof.
  intros Hsent Hreq Hrun Hin nbytes.
  destruct (XLogSend_frame params_ok env s r s' hdr data Hsent Hreq Hrun Hin)
    as (st & en & Hle & Hslice & Hf & Hhdr & Hlen & Hend & _).
  fold nbytes in Hlen. rewrite Hend. destruct Hf.
  split; [| split; [| split; [| split; [| split]]]].
  - apply XLByteLE_false in Hle. unfold XLByteLT.
    rewrite orb_true_iff, andb_true_iff. lia.
  - exists st, en. rewrite Hhdr. auto.
  - lia.
  - intros Hbehind. destruct (sf_behind0 Hbehind) as (_ & Hlt & _). lia.
  - rewrite Hhdr. reflexivity.
  - rewrite Hhdr. exact sf_below_request0.
Qed.

Lemma stores_of_app (i : nat) (l1 l2 : list Event) :
  stores_of i (l1 ++ l2) = stores_of i l1 ++ stores_of i l2.
Proof.
  induction l1 as [| e l1 IH]; [reflexivity |].
  destruct e; cbn; try exact IH.
  destruct (Nat.eqb i i0); cbn; rewrite IH; reflexivity.
Qed.

Lemma stores_of_frame_sent (i : nat) (env : SendEnv) (startptr endptr : XLogRecPtr)
    (data : list Byte.byte) (c : SendCursor) (s : Sender) :
  stores_of i (events_since s (frame_sent env startptr endptr data c s)) =
  match MyWalSnd s with
  | Some j => if Nat.eqb i j then [endptr] else []
  | None => []
  end.
Proof.
  rewrite (events_since_app _ _ _ (trace_frame_sent env startptr endptr data c s)).
  cbn [app stores_of]. rewrite stores_of_app.
  destruct (MyWalSnd s) as [j |]; cbn [stores_of].
  - destruct (Nat.eqb i j); destruct (update_process_title env); reflexivity.
  - destruct (update_process_title env); reflexivity.
Qed.

(** C6. When the flush that follows the frame fails, [XLogSend] returns
    false and updates nothing: [sentPtr], the slot table and the
    positions stored into the slots are as before the call. Whenever a
    call changes [sentPtr] or the slot table, or stores a position into a
    slot, the flush went well; and the position stored is the end of the
    frame that was put just before that flush. *)
Theorem XLogSend_flush_failure (env : SendEnv) (s : Sender) (r : bool * bool) (s' : Sender) :
  XLogSend env s = Return r s' ->
  (pq_flush env <> 0 ->
   (exists hdr data, pq_putmessage "d" (WalDataBody "w" hdr data) ∈ events_since s s') ->
   fst r = false /\ sentPtr s' = sentPtr s /\ WalSndCtl s' = WalSndCtl s /\
   forall i, stores_of i (events_since s s') = []) /\
  (sentPtr s' <> sentPtr s \/ WalSndCtl s' <> WalSndCtl s \/
   (exists i, stores_of i (events_since s s') <> []) ->
   pq_flush env = 0 /\ fst r = true /\
   exists hdr data rest,
     events_since s s' =
       pq_putmessage "d" (WalDataBody "w" hdr data) :: pq_flush_called 0 :: rest /\
     (forall i p, p ∈ stores_of i (events_since s s') -> p = sentPtr s') /\
     (is_recptr (sentPtr s) -> valid_recptr (GetFlushRecPtr env) ->
      frame_end hdr data = sentPtr s')).
Proof.
  intros Hrun. pose proof Hrun as Hinv. apply XLogSend_Return_inv in Hinv.
  destruct Hinv as [(_ & -> & ->) | (Hle & startptr & endptr & caughtup & data & c & calls
                                     & Hslice & Hread & Hflush)].
  { split.
    - intros _ (hdr & data & Hin). rewrite events_since_refl in Hin.
      apply not_elem_of_nil in Hin. contradiction.
    - rewrite events_since_refl. intros [H | [H | (i & H)]]; contradiction. }
  destruct Hflush as [(Hnz & -> & ->) | (Hz & -> & ->)].
  - rewrite (events_since_app _ _ _ (trace_frame_put env startptr data c s)). split.
    + intros _ _. repeat split; reflexivity.
    + intros [H | [H | (i & H)]]; exfalso; apply H; reflexivity.
  - split; [intros Hnz; contradiction |]. intros _.
    split; [exact Hz |]. split; [reflexivity |].
    exists {| dataStart := startptr; walEnd := GetFlushRecPtr env;
              sendTime := GetCurrentTimestamp env |}, data.
    eexists. split; [| split].
    + rewrite (events_since_app _ _ _ (trace_frame_sent env startptr endptr data c s)).
      rewrite Hz. reflexivity.
    + intros i p Hp. rewrite stores_of_frame_sent in Hp. rewrite sentPtr_frame_sent.
      destruct (MyWalSnd s) as [j |]; [destruct (Nat.eqb i j) |];
        elem_cases Hp; exact Hp.
    + intros Hsent Hreq.
      destruct (XLogSend_frame params_ok env s _ _
                  {| dataStart := startptr; walEnd := GetFlushRecPtr env;
                     sendTime := GetCurrentTimestamp env |} data Hsent Hreq Hrun)
        as (st & en & _ & _ & _ & _ & _ & Hend & Hptr).
      * rewrite (events_since_app _ _ _ (trace_frame_sent env startptr endptr data c s)).
        apply list_elem_of_here.
      * rewrite Hend. symmetry. apply Hptr. reflexivity.
Qed.

(** C10. With [sentPtr = (L, XLogFileSize)] and the flush position at
    [(L+1, 0)], the quick exit is not taken: the comparison sees
    [sentPtr] as it is, before the skip of the last segment. When the
    check of the removed segments passes and the flush goes well,
    [XLogSend] puts a data frame with [dataStart = walEnd = (L+1, 0)] and
    no WAL byte, flushes, sets [sentPtr] to [(L+1, 0)], stores it in the
    slot and returns with [*caughtup] true. *)
Theorem XLogSend_at_logid_boundary (env : SendEnv) (s : Sender) (L : Z) (i : nat) :
  0 <= L -> L + 1 < 4294967296 ->
  sentPtr s = {| xlogid := L; xrecoff := XLogFileSize |} ->
  GetFlushRecPtr env = {| xlogid := L + 1; xrecoff := 0 |} ->
  segment_removed (L + 1, 0) (XLogGetLastRemoved (filesys env)) = false ->
  pq_flush env = 0 ->
  MyWalSnd s = Some i ->
  let next := {| xlogid := L + 1; xrecoff := 0 |} in
  let hdr := {| dataStart := next; walEnd := next; sendTime := GetCurrentTimestamp env |} in
  XLByteLE (GetFlushRecPtr env) (sentPtr s) = false /\
  exists s',
    XLogSend env s = Return (true, true) s' /\
    events_since s s' =
      [pq_putmessage "d" (WalDataBody "w" hdr []); pq_flush_called 0;
       SpinLockAcquire i; StoreSentPtr i next; SpinLockRelease i]
      ++ (if update_process_title env then [set_ps_display_streaming next] else []) /\
    sentPtr s' = next /\
    WalSndCtl s' = alter (fun w => store_sentPtr w next) i (WalSndCtl s).
Proof.
  intros HL0 HL1 Hsent Hreq Hkeep Hflush Hmine next hdr.
  destruct params_ok.
  assert (Hle : XLByteLE (GetFlushRecPtr env) (sentPtr s) = false).
  { rewrite Hsent, Hreq. apply XLByteLE_false. cbn. lia. }
  split; [exact Hle |].
  assert (Hslice : XLogSend_slice (sentPtr s) (GetFlushRecPtr env) = (next, next, true)).
  { rewrite Hsent, Hreq. unfold XLogSend_slice. cbn [xrecoff xlogid].
    rewrite Z.leb_refl. rewrite (uint32_small (L + 1)) by lia.
    fold next.
    set (en0 := XLByteAdvance next MAX_SEND_SIZE).
    set (en := if negb (xlogid en0 =? xlogid next) then _ else en0).
    assert (Hen : XLByteLE next en = true).
    { apply XLByteLE_true. right. subst en en0. unfold XLByteAdvance. cbn [xrecoff xlogid next].
      destruct (XLogFileSize <=? uint32 (0 + MAX_SEND_SIZE)); cbn [xlogid xrecoff].
      - pose proof (uint32_succ_neq (L + 1) ltac:(lia)) as Hne.
        destruct (Z.eqb_spec (uint32 (L + 1 + 1)) (L + 1)); [contradiction |].
        cbn. lia.
      - rewrite Z.eqb_refl. cbn. pose proof (uint32_range (0 + MAX_SEND_SIZE)). lia. }
    rewrite Hen. reflexivity. }
  assert (Hread : XLogRead (filesys env) (cursor s) next (uint32 (xrecoff next - xrecoff next))
                  = ReadOk [] (cursor s) []).
  { rewrite Z.sub_diag. unfold XLogRead. cbn -[XLogSegSize].
    change (xlogid next) with (L + 1). change (xrecoff next) with 0.
    unfold segment_removed in Hkeep. cbn [fst snd] in Hkeep.
    destruct (XLogGetLastRemoved (filesys env)) as [lastRemovedLog lastRemovedSeg].
    cbn [fst snd] in Hkeep. rewrite Zdiv_0_l. rewrite Hkeep. reflexivity. }
  exists (frame_sent env next next [] (cursor s) s).
  split; [| split; [| split]].
  - unfold XLogSend. rewrite Hle, Hslice, Hread, Hflush. cbn [negb Z.eqb].
    unfold frame_sent, frame_put. rewrite Hreq, Hflush. fold next.
    destruct s; reflexivity.
  - rewrite (events_since_app _ _ _ (trace_frame_sent env next next [] (cursor s) s)).
    rewrite Hmine, Hreq, Hflush. reflexivity.
  - apply sentPtr_frame_sent.
  - unfold frame_sent, publish_sentPtr, frame_put. cbn [MyWalSnd emit set_sentPtr set_cursor].
    rewrite Hmine. destruct (update_process_title env); reflexivity.
Qed.

End FramerClaims.

(** ** Slot acquisition *)

(** Evaluation of the updates of a state, field by field. *)
Ltac state_compute :=
  lazy beta iota delta
    [with_slots emit set_WalSndCtl set_MyWalSnd set_sentPtr set_cursor set_got_SIGHUP
     set_shutdown_requested set_ready_to_stop WalSndCtl MyWalSnd MyProcPid sentPtr cursor
     got_SIGHUP walsender_shutdown_requested walsender_ready_to_stop trace].

Lemma with_slots_compose (t1 t2 : list WalSnd) (m1 m2 : option nat) (e1 e2 : list Event)
    (s : Sender) :
  with_slots t2 m2 e2 (with_slots t1 m1 e1 s) = with_slots t2 m2 (e1 ++ e2) s.
Proof. unfold with_slots. cbn. rewrite <- app_assoc. reflexivity. Qed.

Lemma locked_and_skipped_S (from count : nat) :
  locked_and_skipped from (S count) =
  [SpinLockAcquire from; SpinLockRelease from] ++ locked_and_skipped (S from) count.
Proof. reflexivity. Qed.

Lemma alter_alter_insert {A : Type} (f g : A -> A) (l : list A) :
  forall (k : nat) (x : A),
    l !! k = Some x -> alter g k (alter f k l) = <[k := g (f x)]> l.
Proof.
  induction l as [| a l IH]; intros [| k] x Hk; try discriminate.
  - inversion Hk; subst. reflexivity.
  - cbn in *. f_equal. apply IH. exact Hk.
Qed.

Lemma InitWalSnd_scan_found (n : nat) :
  forall (i : nat) (s : Sender) (k : nat) (w : WalSnd),
    length (WalSndCtl s) = (i + n)%nat -> (i <= k)%nat ->
    WalSndCtl s !! k = Some w -> ws_pid w = 0 ->
    (forall j w', (i <= j < k)%nat -> WalSndCtl s !! j = Some w' -> ws_pid w' <> 0) ->
    InitWalSnd_scan n i s =
    with_slots (<[k := acquired_slot (MyProcPid s) w]> (WalSndCtl s)) (Some k)
      (locked_and_skipped i (k - i) ++
       [SpinLockAcquire k; StoreSentPtr k {| xlogid := 0; xrecoff := 0 |};
        StoreState k WALSNDSTATE_STARTUP; SpinLockRelease k; OwnLatch k]) s.
Proof.
  induction n as [| n IH]; intros i s k w Hlen Hik Hk Hfree Hbefore.
  - apply lookup_lt_Some in Hk. lia.
  - cbn [InitWalSnd_scan].
    destruct (WalSndCtl s !! i) as [walsnd |] eqn:Hi.
    2: { apply lookup_ge_None in Hi. lia. }
    destruct (Nat.eq_dec i k) as [-> | Hne].
    + rewrite Hk in Hi. inversion Hi; subst walsnd. rewrite Hfree. cbn [Z.eqb negb].
      rewrite Nat.sub_diag. cbn [locked_and_skipped seq flat_map app].
      destruct s as [table mine pid sp cur hup shut stop tr].
      cbn in Hk. state_compute. f_equal.
      * apply (alter_alter_insert (reserve_slot pid) (own_latch pid) table k w Hk).
      * rewrite <- !app_assoc. reflexivity.
    + assert (Hpid : ws_pid walsnd <> 0) by (apply (Hbefore i walsnd); [lia | exact Hi]).
      destruct (Z.eqb_spec (ws_pid walsnd) 0) as [E | _]; [contradiction |]. cbn [negb].
      assert (Hs1 : emit (SpinLockRelease i) (emit (SpinLockAcquire i) s) =
                    with_slots (WalSndCtl s) (MyWalSnd s)
                      [SpinLockAcquire i; SpinLockRelease i] s).
      { destruct s. state_compute. rewrite <- app_assoc. reflexivity. }
      rewrite Hs1.
      rewrite (IH (S i) _ k w); cbn [WalSndCtl with_slots MyProcPid]; try assumption; try lia.
      * rewrite with_slots_compose. f_equal.
        replace (k - i)%nat with (S (k - S i)) by lia.
        rewrite locked_and_skipped_S, <- !app_assoc. reflexivity.
      * intros j w' Hj. apply Hbefore. lia.
Qed.

Lemma InitWalSnd_scan_full (n : nat) :
  forall (i : nat) (s : Sender),
    length (WalSndCtl s) = (i + n)%nat ->
    (forall j w', (i <= j)%nat -> WalSndCtl s !! j = Some w' -> ws_pid w' <> 0) ->
    InitWalSnd_scan n i s =
    with_slots (WalSndCtl s) (MyWalSnd s) (locked_and_skipped i n) s.
Proof.
  induction n as [| n IH]; intros i s Hlen Hall.
  - cbn. unfold with_slots. rewrite app_nil_r. destruct s; reflexivity.
  - cbn [InitWalSnd_scan].
    destruct (WalSndCtl s !! i) as [walsnd |] eqn:Hi.
    2: { apply lookup_ge_None in Hi. lia. }
    assert (Hpid : ws_pid walsnd <> 0) by (apply (Hall i walsnd); [lia | exact Hi]).
    destruct (Z.eqb_spec (ws_pid walsnd) 0) as [E | _]; [contradiction |]. cbn [negb].
    assert (Hs1 : emit (SpinLockRelease i) (emit (SpinLockAcquire i) s) =
                  with_slots (WalSndCtl s) (MyWalSnd s)
                    [SpinLockAcquire i; SpinLockRelease i] s).
    { destruct s. state_compute. rewrite <- app_assoc. reflexivity. }
    rewrite Hs1.
    rewrite (IH (S i)); cbn [WalSndCtl with_slots MyWalSnd]; try lia.
    + rewrite with_slots_compose, locked_and_skipped_S. reflexivity.
    + intros j w' Hj. apply Hall. lia.
Qed.

(** C8. [InitWalSnd] looks at the slots in index order, each under its
    spinlock. With [k] the first slot whose [pid] is 0, the slots before
    it are locked and unlocked unchanged; slot [k] is locked, gets
    [pid = MyProcPid], [sentPtr = (0,0)] and [state = STARTUP], is
    unlocked, and then its latch is owned; [MyWalSnd] points to it and the
    exit hook is registered. When no slot has [pid = 0] (so whenever the
    table is empty), the call fails with [TOO_MANY_SENDERS], fatally, and
    changes no slot. *)
Theorem InitWalSnd_acquires_first_free (s : Sender) :
  MyWalSnd s = None ->
  (forall k w,
      WalSndCtl s !! k = Some w -> ws_pid w = 0 ->
      (forall j w', (j < k)%nat -> WalSndCtl s !! j = Some w' -> ws_pid w' <> 0) ->
      InitWalSnd s =
      Return tt
        (with_slots (<[k := acquired_slot (MyProcPid s) w]> (WalSndCtl s)) (Some k)
           (locked_and_skipped 0 k ++
            [SpinLockAcquire k; StoreSentPtr k {| xlogid := 0; xrecoff := 0 |};
             StoreState k WALSNDSTATE_STARTUP; SpinLockRelease k; OwnLatch k;
             on_shmem_exit_WalSndKill]) s)) /\
  ((forall w, w ∈ WalSndCtl s -> ws_pid w <> 0) ->
   kind_of (TooManyStandbyConnections (max_wal_senders s)) = TOO_MANY_SENDERS /\
   InitWalSnd s =
   Raise FATAL (TooManyStandbyConnections (max_wal_senders s))
     (with_slots (WalSndCtl s) None (locked_and_skipped 0 (length (WalSndCtl s))) s)) /\
  (max_wal_senders s = 0 ->
   InitWalSnd s = Raise FATAL (TooManyStandbyConnections 0) s).
Proof.
  intros Hnone. split; [| split].
  - intros k w Hk Hfree Hbefore. unfold InitWalSnd.
    rewrite (InitWalSnd_scan_found _ 0 s k w); try assumption; try lia.
    + cbn [MyWalSnd with_slots]. rewrite Nat.sub_0_r. destruct s. state_compute.
      rewrite <- !app_assoc. reflexivity.
    + intros j w' Hj. apply Hbefore. lia.
  - intros Hall. split; [reflexivity |]. unfold InitWalSnd.
    rewrite (InitWalSnd_scan_full _ 0 s); try lia.
    + cbn [MyWalSnd with_slots]. rewrite Hnone. reflexivity.
    + intros j w' _ Hj. apply Hall. apply list_elem_of_lookup. eauto.
  - intros Hmax. unfold max_wal_senders in *.
    destruct (WalSndCtl s) as [| w table] eqn:Htable; [| cbn in Hmax; lia].
    unfold InitWalSnd. rewrite Htable. cbn. rewrite Hnone.
    unfold max_wal_senders. rewrite Htable. reflexivity.
Qed.

(** ** The positions published over a run *)

Lemma final_state_bind {A B : Type} (m : outcome A) (k : A -> Sender -> outcome B) :
  final_state (bind m k) =
  match m with
  | Return a s => final_state (k a s)
  | _ => final_state m
  end.
Proof. destruct m; reflexivity. Qed.

Lemma nondecreasing_snoc (l : list XLogRecPtr) (p q : XLogRecPtr) :
  nondecreasing (l ++ [p]) = true -> XLByteLE p q = true ->
  nondecreasing ((l ++ [p]) ++ [q]) = true.
Proof.
  induction l as [| a l IH]; intros Hl Hpq.
  - cbn. rewrite Hpq. reflexivity.
  - cbn [app] in *. destruct (l ++ [p]) as [| b rest] eqn:E.
    { destruct l; discriminate. }
    cbn [app nondecreasing] in *. apply andb_true_iff in Hl. destruct Hl as (Hab & Hrest).
    rewrite Hab. cbn. apply IH; assumption.
Qed.

Lemma quiet_refl (s : Sender) : quiet s s.
Proof. repeat split. Qed.

Lemma quiet_trans (s1 s2 s3 : Sender) : quiet s1 s2 -> quiet s2 s3 -> quiet s1 s3.
Proof.
  intros (Hm1 & Hp1 & Ht1) (Hm2 & Hp2 & Ht2).
  split; [congruence |]. split; [congruence |].
  intros i. rewrite Ht2. apply Ht1.
Qed.

Lemma quiet_emit (e : Event) (s : Sender) :
  (forall i, stores_of i [e] = []) -> quiet s (emit e s).
Proof.
  intros He. repeat split. intros i. cbn [trace emit].
  rewrite stores_of_app, He, app_nil_r. reflexivity.
Qed.

Lemma quiet_set_WalSndCtl (t : list WalSnd) (s : Sender) : quiet s (set_WalSndCtl t s).
Proof. repeat split. Qed.

Lemma quiet_set_cursor (c : SendCursor) (s : Sender) : quiet s (set_cursor c s).
Proof. repeat split. Qed.

Lemma quiet_set_got_SIGHUP (b : bool) (s : Sender) : quiet s (set_got_SIGHUP b s).
Proof. repeat split. Qed.

Lemma quiet_set_shutdown_requested (b : bool) (s : Sender) :
  quiet s (set_shutdown_requested b s).
Proof. repeat split. Qed.

Lemma quiet_set_ready_to_stop (b : bool) (s : Sender) : quiet s (set_ready_to_stop b s).
Proof. repeat split. Qed.

Lemma quiet_SetLatch_mine (s : Sender) : quiet s (SetLatch_mine s).
Proof. unfold SetLatch_mine. destruct (MyWalSnd s); repeat split. Qed.

(** Chains of quiet steps. *)
Ltac quiet_chain :=
  repeat first
    [ apply quiet_refl
    | eapply quiet_trans; [| apply quiet_emit; intros; reflexivity]
    | eapply quiet_trans; [| apply quiet_set_WalSndCtl]
    | eapply quiet_trans; [| apply quiet_set_cursor]
    | eapply quiet_trans; [| apply quiet_set_got_SIGHUP]
    | eapply quiet_trans; [| apply quiet_set_shutdown_requested]
    | eapply quiet_trans; [| apply quiet_set_ready_to_stop]
    | eapply quiet_trans; [| apply quiet_SetLatch_mine] ].

Lemma quiet_WalSndSetState (st : WalSndState) (s : Sender) : quiet s (WalSndSetState st s).
Proof.
  unfold WalSndSetState. destruct (MyWalSnd s) as [i |]; [| apply quiet_refl].
  destruct (my_slot s) as [w |]; [| apply quiet_refl].
  destruct (WalSndState_eqb (ws_state w) st); quiet_chain.
Qed.

Lemma quiet_handle_signal (sig : Signal) (s : Sender) :
  quiet s (final_state (handle_signal sig s)).
Proof. destruct sig; cbn [handle_signal final_state]; quiet_chain. Qed.

Lemma quiet_deliver (sigs : list Signal) :
  forall s, quiet s (final_state (deliver sigs s)).
Proof.
  induction sigs as [| sig sigs IH]; intros s; cbn [deliver].
  - apply quiet_refl.
  - rewrite final_state_bind. pose proof (quiet_handle_signal sig s) as Hq.
    destruct (handle_signal sig s) as [[] s1 | | |]; cbn [final_state] in *; try exact Hq.
    eapply quiet_trans; [exact Hq | apply IH].
Qed.

Lemma quiet_CheckClosedConnection (r firstchar : Z) (s : Sender) :
  quiet s (final_state (CheckClosedConnection r firstchar s)).
Proof.
  unfold CheckClosedConnection.
  destruct (r <? 0); [cbn; quiet_chain |].
  destruct (r =? 0); [cbn; quiet_chain |].
  destruct (firstchar =? 88); cbn; quiet_chain.
Qed.

Section RunFacts.
Context `{P : XLogParams}.
Hypothesis params_ok : XLogParamsOk.

Lemma streaming_inv_quiet (i : nat) (pre : list XLogRecPtr) (s s' : Sender) :
  streaming_inv i pre s -> quiet s s' -> streaming_inv i pre s'.
Proof.
  intros [Hm Hr Hp Hl Hs Ho] (Hm' & Hp' & Ht').
  constructor; rewrite ?Hm', ?Hp', ?Ht'; auto.
  intros j Hj. rewrite Ht'. auto.
Qed.

(** The state [XLogSend] leaves: nothing published, or the frame sent
    and its end published. *)
Lemma XLogSend_final (env : SendEnv) (s : Sender) :
  quiet s (final_state (XLogSend env s)) \/
  (XLByteLE (GetFlushRecPtr env) (sentPtr s) = false /\
   exists startptr endptr caughtup data c,
     XLogSend_slice (sentPtr s) (GetFlushRecPtr env) = (startptr, endptr, caughtup) /\
     final_state (XLogSend env s) = frame_sent env startptr endptr data c s).
Proof.
  destruct (XLogSend env s) as [r s' | lvl e s' | code s' | s'] eqn:Hrun.
  - apply XLogSend_Return_inv in Hrun.
    destruct Hrun as [(_ & _ & ->) | (Hle & startptr & endptr & caughtup & data & c & calls
                                      & Hslice & _ & [(_ & _ & ->) | (_ & _ & ->)])].
    + left. apply quiet_refl.
    + left. unfold frame_put. cbn [final_state]. quiet_chain.
    + right. split; [exact Hle |]. exists startptr, endptr, caughtup, data, c. auto.
  - left. unfold XLogSend in Hrun.
    destruct (XLByteLE (GetFlushRecPtr env) (sentPtr s)); [discriminate |].
    destruct (XLogSend_slice _ _) as [[startptr endptr] caughtup].
    destruct (XLogRead _ _ _ _); [destruct (negb _) | |]; inversion Hrun.
    cbn. quiet_chain.
  - exfalso. unfold XLogSend in Hrun.
    destruct (XLByteLE (GetFlushRecPtr env) (sentPtr s)); [discriminate |].
    destruct (XLogSend_slice _ _) as [[startptr endptr] caughtup].
    destruct (XLogRead _ _ _ _); [destruct (negb _) | |]; discriminate.
  - left. unfold XLogSend in Hrun.
    destruct (XLByteLE (GetFlushRecPtr env) (sentPtr s)); [discriminate |].
    destruct (XLogSend_slice _ _) as [[startptr endptr] caughtup].
    destruct (XLogRead _ _ _ _); [destruct (negb _) | |]; inversion Hrun.
    apply quiet_refl.
Qed.

Lemma streaming_inv_XLogSend (i : nat) (pre : list XLogRecPtr) (env : SendEnv) (s : Sender) :
  valid_recptr (GetFlushRecPtr env) ->
  streaming_inv i pre s -> streaming_inv i pre (final_state (XLogSend env s)).
Proof.
  intros Hreq Hinv.
  destruct (XLogSend_final env s) as [Hq | (Hle & startptr & endptr & caughtup & data & c
                                            & Hslice & ->)].
  { eapply streaming_inv_quiet; eassumption. }
  destruct Hinv as [Hm Hr (l0 & Hp) (l1 & Hl) Hs Ho].
  pose proof (XLogSend_slice_facts params_ok _ _ Hr Hreq Hle _ _ _ Hslice) as Hf.
  assert (Hstores : forall j, stores_of j (trace (frame_sent env startptr endptr data c s)) =
                              stores_of j (trace s) ++ if Nat.eqb j i then [endptr] else []).
  { intros j. rewrite trace_frame_sent, Hm. rewrite !stores_of_app. cbn [stores_of].
    destruct (Nat.eqb j i); destruct (update_process_title env); cbn;
      rewrite ?app_nil_r; reflexivity. }
  destruct Hf. destruct params_ok.
  constructor.
  - unfold frame_sent. destruct (update_process_title env); cbn [MyWalSnd emit];
      rewrite MyWalSnd_publish_sentPtr; exact Hm.
  - rewrite sentPtr_frame_sent. unfold is_recptr. lia.
  - rewrite Hstores, Nat.eqb_refl, Hp. exists (l0 ++ [endptr]). rewrite app_assoc. reflexivity.
  - rewrite Hstores, Nat.eqb_refl, sentPtr_frame_sent. eauto.
  - rewrite Hstores, Nat.eqb_refl, Hl. apply nondecreasing_snoc.
    + rewrite <- Hl. exact Hs.
    + apply (XLByteLE_trans _ startptr); [exact sf_start_after0 |].
      apply XLByteLE_true. lia.
  - intros j Hj. rewrite Hstores, (Ho j Hj). apply Nat.eqb_neq in Hj. rewrite Hj. reflexivity.
Qed.

Lemma keeps_bind {A B : Type} (i : nat) (pre : list XLogRecPtr)
    (m : outcome A) (k : A -> Sender -> outcome B) :
  keeps i pre m -> (forall a s, streaming_inv i pre s -> keeps i pre (k a s)) ->
  keeps i pre (bind m k).
Proof.
  unfold keeps. intros Hm Hk. rewrite final_state_bind.
  destruct m; cbn [final_state] in *; auto.
Qed.

Lemma keeps_quiet {A : Type} (i : nat) (pre : list XLogRecPtr) (s : Sender) (o : outcome A) :
  streaming_inv i pre s -> quiet s (final_state o) -> keeps i pre o.
Proof. intros Hinv Hq. unfold keeps. eapply streaming_inv_quiet; eassumption. Qed.

Lemma keeps_XLogSend (i : nat) (pre : list XLogRecPtr) (env : SendEnv) (s : Sender) :
  valid_recptr (GetFlushRecPtr env) -> streaming_inv i pre s ->
  keeps i pre (XLogSend env s).
Proof. intros. apply streaming_inv_XLogSend; assumption. Qed.

Lemma keeps_deliver (i : nat) (pre : list XLogRecPtr) (sigs : list Signal) (s : Sender) :
  streaming_inv i pre s -> keeps i pre (deliver sigs s).
Proof. intros Hinv. eapply keeps_quiet; [exact Hinv | apply quiet_deliver]. Qed.

Lemma streaming_inv_turn (i : nat) (pre : list XLogRecPtr) (env : LoopEnv)
    (caughtup : bool) (s : Sender) :
  valid_recptr (GetFlushRecPtr (final_send env)) ->
  valid_recptr (GetFlushRecPtr (send env)) ->
  streaming_inv i pre s -> keeps i pre (WalSndLoop_turn env caughtup s).
Proof.
  intros Hfinal Hsend Hinv. unfold WalSndLoop_turn.
  apply keeps_bind; [apply keeps_deliver; exact Hinv |]. intros _ s1 H1.
  destruct (negb (PostmasterIsAlive env)); [exact H1 |].
  set (s2 := if got_SIGHUP s1 then _ else s1).
  assert (H2 : streaming_inv i pre s2).
  { subst s2. destruct (got_SIGHUP s1); [| exact H1].
    eapply streaming_inv_quiet; [exact H1 | quiet_chain]. }
  clearbody s2. clear s1 H1 s Hinv.
  apply keeps_bind.
  - destruct (walsender_ready_to_stop s2); [| exact H2].
    apply keeps_bind; [apply keeps_XLogSend; assumption |]. intros r s3 H3.
    apply keeps_bind; [apply keeps_deliver; exact H3 |]. intros _ s4 H4.
    destruct (negb (fst r)); [exact H4 |].
    destruct (snd r); [| exact H4].
    eapply keeps_quiet; [exact H4 | cbn; quiet_chain].
  - intros step s3 H3. destruct step as [caughtup' |]; [| exact H3].
    destruct (walsender_shutdown_requested s3).
    { eapply keeps_quiet; [exact H3 | cbn; quiet_chain]. }
    apply keeps_bind.
    + destruct caughtup'.
      * set (s4 := match MyWalSnd s3 with Some _ => _ | None => s3 end).
        assert (H4 : streaming_inv i pre s4).
        { subst s4. destruct (MyWalSnd s3); [| exact H3].
          eapply streaming_inv_quiet; [exact H3 | quiet_chain]. }
        clearbody s4.
        apply keeps_bind; [apply keeps_XLogSend; assumption |]. intros r s5 H5.
        apply keeps_bind; [apply keeps_deliver; exact H5 |]. intros _ s6 H6.
        destruct (negb (fst r)); [exact H6 |].
        apply keeps_bind.
        -- destruct (snd r && negb (got_SIGHUP s6) && negb (walsender_ready_to_stop s6)
                     && negb (walsender_shutdown_requested s6)); [| exact H6].
           apply keeps_deliver. destruct (MyWalSnd s6); [| exact H6].
           eapply streaming_inv_quiet; [exact H6 | quiet_chain].
        -- intros _ s7 H7.
           apply keeps_bind; [| intros _ s8 H8; exact H8].
           eapply keeps_quiet; [exact H7 | apply quiet_CheckClosedConnection].
      * apply keeps_bind; [apply keeps_XLogSend; assumption |]. intros r s5 H5.
        apply keeps_bind; [apply keeps_deliver; exact H5 |]. intros _ s6 H6.
        destruct (negb (fst r)); exact H6.
    + intros step s4 H4. destruct step as [caughtup'' |]; [| exact H4].
      eapply keeps_quiet; [exact H4 | cbn; apply quiet_WalSndSetState].
Qed.

Lemma streaming_inv_loop (i : nat) (pre : list XLogRecPtr) (envs : list LoopEnv) :
  flush_positions_ok envs ->
  forall caughtup s, streaming_inv i pre s -> keeps i pre (WalSndLoop_from envs caughtup s).
Proof.
  induction envs as [| env envs IH]; intros Hok caughtup s Hinv; cbn [WalSndLoop_from].
  - exact Hinv.
  - destruct (Hok env (list_elem_of_here _ _)) as (Hfinal & Hsend).
    apply keeps_bind; [apply streaming_inv_turn; assumption |].
    intros step s' H'. destruct step as [caughtup' |].
    + apply IH; [| exact H'].
      intros env' Hin. apply Hok. apply list_elem_of_further. exact Hin.
    + eapply keeps_quiet; [exact H' | cbn; quiet_chain].
Qed.

End RunFacts.

(** ** Steps of a run

    A relation between states that contains the elementary steps of the
    walsender contains the step from the start to the end of each of its
    functions, however the function ends. *)

Lemma bind_Return_inv {A B : Type} (m : outcome A) (k : A -> Sender -> outcome B)
    (b : B) (s' : Sender) :
  bind m k = Return b s' -> exists a s1, m = Return a s1 /\ k a s1 = Return b s'.
Proof. destruct m as [a s1 | | |]; cbn [bind]; intros E; try discriminate. eauto. Qed.

Section Steps.
Context `{P : XLogParams}.
Variable R : Sender -> Sender -> Prop.
Hypothesis R_refl : forall s, R s s.
Hypothesis R_trans : forall s1 s2 s3, R s1 s2 -> R s2 s3 -> R s1 s3.
Hypothesis R_emit : forall e s,
  plain_event e = true -> is_wal_data e = false -> R s (emit e s).
Hypothesis R_emit_data : forall e s, is_wal_data e = true -> R s (emit e s).
Hypothesis R_set_got_SIGHUP : forall b s, R s (set_got_SIGHUP b s).
Hypothesis R_set_shutdown_requested : forall b s, R s (set_shutdown_requested b s).
Hypothesis R_set_ready_to_stop : forall b s, R s (set_ready_to_stop b s).
Hypothesis R_set_cursor : forall c s, R s (set_cursor c s).
Hypothesis R_set_sentPtr : forall p s, R s (set_sentPtr p s).
Hypothesis R_set_latch : forall b i s,
  MyWalSnd s = Some i -> R s (set_WalSndCtl (alter (set_latch b) i (WalSndCtl s)) s).
Hypothesis R_WalSndSetState : forall st s, R s (WalSndSetState st s).
Hypothesis R_publish_sentPtr : forall s, R s (publish_sentPtr s).
Hypothesis R_InitWalSnd : forall s, MyWalSnd s = None -> R s (final_state (InitWalSnd s)).

Ltac step_chain :=
  repeat first
    [ apply R_refl
    | eapply R_trans; [| apply R_emit; reflexivity]
    | eapply R_trans; [| apply R_emit_data; reflexivity]
    | eapply R_trans; [| apply R_set_got_SIGHUP]
    | eapply R_trans; [| apply R_set_shutdown_requested]
    | eapply R_trans; [| apply R_set_ready_to_stop]
    | eapply R_trans; [| apply R_set_cursor]
    | eapply R_trans; [| apply R_set_sentPtr]
    | eapply R_trans; [| apply R_WalSndSetState]
    | eapply R_trans; [| apply R_publish_sentPtr] ].

Lemma R_bind {A B : Type} (s : Sender) (m : outcome A) (k : A -> Sender -> outcome B) :
  R s (final_state m) -> (forall a s1, m = Return a s1 -> R s1 (final_state (k a s1))) ->
  R s (final_state (bind m k)).
Proof.
  intros Hm Hk. rewrite final_state_bind. destruct m as [a s1 | | |]; try exact Hm.
  cbn [final_state] in Hm. eapply R_trans; [exact Hm | apply Hk; reflexivity].
Qed.

Lemma R_SetLatch_mine (s : Sender) : R s (SetLatch_mine s).
Proof.
  unfold SetLatch_mine. destruct (MyWalSnd s) as [i |] eqn:Hm; [| apply R_refl].
  apply R_set_latch. exact Hm.
Qed.

Lemma R_handle_signal (sig : Signal) (s : Sender) : R s (final_state (handle_signal sig s)).
Proof.
  destruct sig; cbn [handle_signal final_state]; try apply R_refl;
    (eapply R_trans; [| apply R_SetLatch_mine]); step_chain.
Qed.

Lemma R_deliver (sigs : list Signal) : forall s, R s (final_state (deliver sigs s)).
Proof.
  induction sigs as [| sig sigs IH]; intros s; cbn [deliver]; [apply R_refl |].
  apply R_bind; [apply R_handle_signal |]. intros _ s1 _. apply IH.
Qed.

Lemma R_XLogSend (env : SendEnv) (s : Sender) : R s (final_state (XLogSend env s)).
Proof.
  unfold XLogSend.
  destruct (XLByteLE (GetFlushRecPtr env) (sentPtr s)); [apply R_refl |].
  destruct (XLogSend_slice (sentPtr s) (GetFlushRecPtr env)) as [[startptr endptr] caughtup].
  destruct (XLogRead (filesys env) (cursor s) startptr (uint32 (xrecoff endptr - xrecoff startptr)))
    as [data c calls | e c calls |]; cbn [final_state]; [| step_chain | apply R_refl].
  destruct (negb (pq_flush env =? 0)); cbn [final_state]; [step_chain |].
  destruct (update_process_title env); cbn [final_state]; step_chain.
Qed.

Lemma R_CheckClosedConnection (r firstchar : Z) (s : Sender) :
  R s (final_state (CheckClosedConnection r firstchar s)).
Proof.
  unfold CheckClosedConnection.
  destruct (r <? 0); [cbn; step_chain |].
  destruct (r =? 0); [cbn; step_chain |].
  destruct (firstchar =? 88); cbn; step_chain.
Qed.

Lemma R_HandleReplicationCommand (env : HandshakeEnv) (s : Sender) :
  R s (final_state (HandleReplicationCommand env s)).
Proof.
  unfold HandleReplicationCommand.
  destruct (negb (replication_yyparse env =? 0)); [cbn; step_chain |].
  destruct (replication_parse_result env) as [| startpoint | label progress fast |].
  - unfold IdentifySystem. cbn. step_chain.
  - unfold StartReplication. destruct (wal_level_is_minimal env); cbn; step_chain.
  - cbn. step_chain.
  - cbn. step_chain.
Qed.

Lemma R_WalSndHandshake_turn (env : HandshakeEnv) (s : Sender) :
  R s (final_state (WalSndHandshake_turn env s)).
Proof.
  unfold WalSndHandshake_turn.
  apply (R_trans _ (WalSndSetState WALSNDSTATE_STARTUP s)); [apply R_WalSndSetState |].
  apply (R_trans _ (emit set_ps_display_idle (WalSndSetState WALSNDSTATE_STARTUP s)));
    [apply R_emit; reflexivity |].
  apply R_bind; [apply R_deliver |]. intros _ s1 _.
  destruct (negb (hs_PostmasterIsAlive env)); [apply R_refl |].
  eapply (R_trans _ (if got_SIGHUP s1 then emit ProcessConfigFile (set_got_SIGHUP false s1)
                     else s1)).
  { destruct (got_SIGHUP s1); step_chain. }
  unfold handshake_dispatch.
  match goal with |- context [if ?fc =? 81 then _ else _] => destruct (fc =? 81) end.
  { apply R_HandleReplicationCommand. }
  match goal with |- context [if ?fc =? 88 then _ else _] => destruct (fc =? 88) end.
  { apply R_refl. }
  match goal with |- context [if ?fc =? EOF then _ else _] => destruct (fc =? EOF) end;
    cbn; step_chain.
Qed.

Lemma R_WalSndHandshake (envs : list HandshakeEnv) :
  forall s, R s (final_state (WalSndHandshake envs s)).
Proof.
  induction envs as [| env envs IH]; intros s; cbn [WalSndHandshake]; [apply R_refl |].
  apply R_bind; [apply R_WalSndHandshake_turn |]. intros started s1 _.
  destruct started; [apply R_refl | apply IH].
Qed.

(** A turn of the streaming loop is a step. When the loop goes on, the
    turn ends with a call of [XLogSend] on [send env] that returned true,
    steps that publish nothing, and [WalSndSetState]. *)
Lemma R_WalSndLoop_turn (env : LoopEnv) (caughtup : bool) (s : Sender) :
  R s (final_state (WalSndLoop_turn env caughtup s)) /\
  (forall caughtup' s',
     WalSndLoop_turn env caughtup s = Return (Continue caughtup') s' ->
     exists sa sb s4,
       R s sa /\ XLogSend (send env) sa = Return (true, caughtup') sb /\
       R sb s4 /\ quiet sb s4 /\
       s' = WalSndSetState (if caughtup' then WALSNDSTATE_STREAMING
                            else WALSNDSTATE_CATCHUP) s4).
Proof.
  unfold WalSndLoop_turn.
  pose proof (R_deliver (signals_before env) s) as Hd.
  destruct (deliver (signals_before env) s) as [[] s1 | | |]; cbn [bind final_state] in *;
    try (split; [exact Hd | intros ? ? E; discriminate]).
  destruct (negb (PostmasterIsAlive env)).
  { split; [exact Hd | intros ? ? E; discriminate]. }
  set (s2 := if got_SIGHUP s1 then _ else s1).
  assert (H2 : R s s2).
  { eapply R_trans; [exact Hd |]. subst s2. destruct (got_SIGHUP s1); step_chain. }
  clearbody s2. clear Hd s1.
  match goal with |- context [bind ?f _] => set (final := f) end.
  assert (Hfinal : R s2 (final_state final)).
  { subst final. destruct (walsender_ready_to_stop s2); [| apply R_refl].
    apply R_bind; [apply R_XLogSend |]. intros r s3 _.
    apply R_bind; [apply R_deliver |]. intros _ s4 _.
    destruct (negb (fst r)); [apply R_refl |].
    destruct (snd r); cbn; step_chain. }
  clearbody final.
  destruct final as [step s3 | | |]; cbn [bind final_state] in *;
    try (split; [eapply R_trans; eassumption | intros ? ? E; discriminate]).
  assert (H3 : R s s3) by (eapply R_trans; eassumption). clear Hfinal H2 s2.
  destruct step as [caughtup1 |].
  2: { split; [exact H3 | intros ? ? E; discriminate]. }
  destruct (walsender_shutdown_requested s3).
  { split; [cbn; eapply R_trans; [exact H3 | step_chain] | intros ? ? E; discriminate]. }
  match goal with |- context [bind ?f _] => set (sent := f) end.
  assert (Hsent : R s3 (final_state sent) /\
                  (forall c2 s_end, sent = Return (Continue c2) s_end ->
                     exists sa sb, R s3 sa /\ XLogSend (send env) sa = Return (true, c2) sb /\
                                   R sb s_end /\ quiet sb s_end)).
  { subst sent. destruct caughtup1.
    - match goal with |- context [XLogSend (send env) ?x] => set (s4 := x) end.
      assert (H4 : R s3 s4).
      { subst s4. destruct (MyWalSnd s3) as [i |] eqn:Hm; [| apply R_refl].
        eapply R_trans; [apply (R_set_latch false i s3 Hm) | apply R_emit; reflexivity]. }
      clearbody s4.
      assert (Hslept : forall (b : bool) s6,
                R s6 (final_state
                        (if b then
                           deliver (signals_in_sleep env)
                             match MyWalSnd s6 with
                             | Some i => emit (WaitLatchOrSocket i (WalSndDelay env * 1000)) s6
                             | None => s6
                             end
                         else Return tt s6)) /\
                quiet s6 (final_state
                        (if b then
                           deliver (signals_in_sleep env)
                             match MyWalSnd s6 with
                             | Some i => emit (WaitLatchOrSocket i (WalSndDelay env * 1000)) s6
                             | None => s6
                             end
                         else Return tt s6))).
      { intros b s6. destruct b; [| split; [apply R_refl | apply quiet_refl]].
        destruct (MyWalSnd s6) as [i |].
        - split.
          + apply (R_trans _ (emit (WaitLatchOrSocket i (WalSndDelay env * 1000)) s6));
              [apply R_emit; reflexivity | apply R_deliver].
          + apply (quiet_trans _ (emit (WaitLatchOrSocket i (WalSndDelay env * 1000)) s6));
              [apply quiet_emit; intros; reflexivity | apply quiet_deliver].
        - split; [apply R_deliver | apply quiet_deliver]. }
      split.
      + eapply R_trans; [exact H4 |].
        apply R_bind; [apply R_XLogSend |]. intros r s5 _.
        apply R_bind; [apply R_deliver |]. intros _ s6 _.
        destruct (negb (fst r)); [apply R_refl |].
        apply R_bind; [apply Hslept |].
        intros _ s7 _. apply R_bind; [apply R_CheckClosedConnection |].
        intros _ s8 _. apply R_refl.
      + intros c2 s_end E.
        apply bind_Return_inv in E. destruct E as (r & s5 & Hsend & E).
        apply bind_Return_inv in E. destruct E as ([] & s6 & Hdel & E).
        destruct r as [ok cu]. cbn [fst snd] in E.
        destruct ok; cbn [negb] in E; [| discriminate].
        apply bind_Return_inv in E. destruct E as ([] & s7 & Hsl & E).
        apply bind_Return_inv in E. destruct E as ([] & s8 & Hcc & E).
        inversion E; subst c2 s_end.
        exists s4, s5. split; [exact H4 |]. split; [exact Hsend |].
        pose proof (R_deliver (signals_in_send env) s5) as Hr1.
        pose proof (quiet_deliver (signals_in_send env) s5) as Hq1.
        rewrite Hdel in Hr1, Hq1. cbn [final_state] in Hr1, Hq1.
        destruct (Hslept (cu && negb (got_SIGHUP s6) && negb (walsender_ready_to_stop s6)
                          && negb (walsender_shutdown_requested s6)) s6) as [Hr2 Hq2].
        rewrite Hsl in Hr2, Hq2. cbn [final_state] in Hr2, Hq2.
        pose proof (R_CheckClosedConnection (fst (pq_getbyte_if_available env))
                      (snd (pq_getbyte_if_available env)) s7) as Hr3.
        pose proof (quiet_CheckClosedConnection (fst (pq_getbyte_if_available env))
                      (snd (pq_getbyte_if_available env)) s7) as Hq3.
        rewrite Hcc in Hr3, Hq3. cbn [final_state] in Hr3, Hq3.
        split.
        * eapply R_trans; [exact Hr1 |]. eapply R_trans; [exact Hr2 | exact Hr3].
        * eapply quiet_trans; [exact Hq1 |]. eapply quiet_trans; [exact Hq2 | exact Hq3].
    - split.
      + apply R_bind; [apply R_XLogSend |]. intros r s5 _.
        apply R_bind; [apply R_deliver |]. intros _ s6 _.
        destruct (negb (fst r)); apply R_refl.
      + intros c2 s_end E.
        apply bind_Return_inv in E. destruct E as (r & s5 & Hsend & E).
        apply bind_Return_inv in E. destruct E as ([] & s6 & Hdel & E).
        destruct r as [ok cu]. cbn [fst snd] in E.
        destruct ok; cbn [negb] in E; [| discriminate].
        inversion E; subst c2 s_end.
        exists s3, s5. split; [apply R_refl |]. split; [exact Hsend |].
        pose proof (R_deliver (signals_in_send env) s5) as Hr1.
        pose proof (quiet_deliver (signals_in_send env) s5) as Hq1.
        rewrite Hdel in Hr1, Hq1. cbn [final_state] in Hr1, Hq1.
        split; assumption. }
  clearbody sent. destruct Hsent as [Hsent Hinv].
  destruct sent as [step s4 | | |]; cbn [bind final_state] in *;
    try (split; [eapply R_trans; eassumption | intros ? ? E; discriminate]).
  assert (H4 : R s s4) by (eapply R_trans; eassumption).
  destruct step as [caughtup2 |]; cbn [final_state].
  - split; [eapply R_trans; [exact H4 | apply R_WalSndSetState] |].
    intros caughtup' s' E. inversion E; subst.
    destruct (Hinv caughtup' s4 eq_refl) as (sa & sb & Ha & Hsend & Hb & Hq).
    exists sa, sb, s4. split; [apply (R_trans _ s3); [exact H3 | exact Ha] |].
    split; [exact Hsend |]. split; [exact Hb |]. split; [exact Hq | reflexivity].
  - split; [exact H4 | intros ? ? E; discriminate].
Qed.

Lemma R_WalSndLoop_from (envs : list LoopEnv) :
  forall caughtup s, R s (final_state (WalSndLoop_from envs caughtup s)).
Proof.
  induction envs as [| env envs IH]; intros caughtup s; cbn [WalSndLoop_from]; [apply R_refl |].
  apply R_bind; [apply R_WalSndLoop_turn |]. intros step s1 _.
  destruct step as [caughtup' |]; [apply IH | cbn; step_chain].
Qed.

Lemma R_WalSenderMain (env : MainEnv) (s : Sender) :
  MyWalSnd s = None -> R s (final_state (WalSenderMain env s)).
Proof.
  intros Hnone. unfold WalSenderMain.
  destruct (RecoveryInProgress env); [apply R_refl |].
  apply R_bind; [apply R_InitWalSnd; exact Hnone |]. intros _ s1 _.
  apply (R_trans _ (emit ReadyForQuery s1)); [apply R_emit; reflexivity |].
  apply R_bind; [apply R_WalSndHandshake |]. intros _ s2 _.
  apply (R_trans _ (publish_sentPtr s2)); [apply R_publish_sentPtr |].
  apply R_WalSndLoop_from.
Qed.

End Steps.

(** ** The handshake and the whole run *)

Lemma stores_of_locked_and_skipped (i from count : nat) :
  stores_of i (locked_and_skipped from count) = [].
Proof.
  revert from. induction count as [| count IH]; intros from; [reflexivity |].
  rewrite locked_and_skipped_S, stores_of_app, IH. reflexivity.
Qed.

(** The two ways [InitWalSnd] ends. *)
Lemma InitWalSnd_cases (s : Sender) :
  MyWalSnd s = None ->
  (exists k w,
      InitWalSnd s =
      Return tt
        (with_slots (<[k := acquired_slot (MyProcPid s) w]> (WalSndCtl s)) (Some k)
           (locked_and_skipped 0 k ++
            [SpinLockAcquire k; StoreSentPtr k {| xlogid := 0; xrecoff := 0 |};
             StoreState k WALSNDSTATE_STARTUP; SpinLockRelease k; OwnLatch k;
             on_shmem_exit_WalSndKill]) s)) \/
  InitWalSnd s =
  Raise FATAL (TooManyStandbyConnections (max_wal_senders s))
    (with_slots (WalSndCtl s) None (locked_and_skipped 0 (length (WalSndCtl s))) s).
Proof.
  intros Hnone. unfold InitWalSnd.
  destruct (list_find (fun w => ws_pid w = 0) (WalSndCtl s)) as [[k w] |] eqn:Hfind.
  - apply list_find_Some in Hfind. destruct Hfind as (Hk & Hfree & Hbefore).
    left. exists k, w.
    rewrite (InitWalSnd_scan_found _ 0 s k w); try assumption; try lia.
    + cbn [MyWalSnd with_slots]. rewrite Nat.sub_0_r. destruct s. state_compute.
      rewrite <- !app_assoc. reflexivity.
    + intros j w' Hj Hlook. apply (Hbefore j w' Hlook). lia.
  - apply list_find_None in Hfind. rewrite Forall_forall in Hfind.
    right. rewrite (InitWalSnd_scan_full _ 0 s); try lia.
    + cbn [MyWalSnd with_slots]. rewrite Hnone. reflexivity.
    + intros j w' _ Hj. apply Hfind. apply list_elem_of_lookup. eauto.
Qed.

Lemma silent_quiet (s s' : Sender) : quiet s s' -> silent s s'.
Proof. intros (Hm & Hp & Ht). repeat split; auto. Qed.

Lemma silent_trans (s1 s2 s3 : Sender) : silent s1 s2 -> silent s2 s3 -> silent s1 s3.
Proof.
  intros (Hm1 & Ht1 & Hp1) (Hm2 & Ht2 & Hp2). split; [congruence |]. split.
  - intros i. rewrite Ht2. apply Ht1.
  - destruct Hp2 as [E | Hr]; [| right; exact Hr].
    rewrite E. exact Hp1.
Qed.

Lemma silent_HandleReplicationCommand (env : HandshakeEnv) (s : Sender) :
  (forall p, replication_parse_result env = T_StartReplicationCmd p -> is_recptr p) ->
  silent s (final_state (HandleReplicationCommand env s)).
Proof.
  intros Hstart. unfold HandleReplicationCommand.
  destruct (negb (replication_yyparse env =? 0)); [apply silent_quiet; cbn; quiet_chain |].
  destruct (replication_parse_result env) as [| startpoint | label progress fast |] eqn:Hcmd.
  - apply silent_quiet. unfold IdentifySystem. cbn. quiet_chain.
  - unfold StartReplication.
    destruct (wal_level_is_minimal env); cbn [bind final_state].
    + apply silent_quiet. quiet_chain.
    + split; [reflexivity |]. split.
      * intros i. cbn [trace set_sentPtr emit]. rewrite !stores_of_app. cbn.
        rewrite !app_nil_r. reflexivity.
      * right. apply Hstart. reflexivity.
  - apply silent_quiet. cbn. quiet_chain.
  - apply silent_quiet. cbn. quiet_chain.
Qed.

Lemma silent_turn (env : HandshakeEnv) (s : Sender) :
  (forall p, replication_parse_result env = T_StartReplicationCmd p -> is_recptr p) ->
  silent s (final_state (WalSndHandshake_turn env s)).
Proof.
  intros Hstart. unfold WalSndHandshake_turn.
  set (s0 := emit set_ps_display_idle (WalSndSetState WALSNDSTATE_STARTUP s)).
  assert (H0 : quiet s s0).
  { subst s0. eapply quiet_trans; [apply quiet_WalSndSetState | quiet_chain]. }
  clearbody s0. rewrite final_state_bind.
  pose proof (quiet_deliver (hs_signals env) s0) as Hd.
  destruct (deliver (hs_signals env) s0) as [[] s1 | | |]; cbn [final_state] in Hd;
    try (apply silent_quiet; eapply quiet_trans; eassumption).
  assert (H1 : quiet s s1) by (eapply quiet_trans; eassumption).
  clear Hd H0 s0.
  destruct (negb (hs_PostmasterIsAlive env)); [apply silent_quiet; exact H1 |].
  set (s2 := if got_SIGHUP s1 then _ else s1).
  assert (H2 : quiet s s2).
  { subst s2. destruct (got_SIGHUP s1); [| exact H1].
    eapply quiet_trans; [exact H1 | quiet_chain]. }
  clearbody s2.
  set (firstchar := if negb (pq_getbyte env =? EOF) then _ else pq_getbyte env).
  clearbody firstchar.
  eapply silent_trans; [apply silent_quiet; exact H2 |].
  unfold handshake_dispatch.
  destruct (firstchar =? 81); [apply silent_HandleReplicationCommand; exact Hstart |].
  destruct (firstchar =? 88); [apply silent_quiet; apply quiet_refl |].
  destruct (firstchar =? EOF); apply silent_quiet; cbn; quiet_chain.
Qed.

(** The handshake ends only on a [START_REPLICATION] command, with
    [sentPtr] at its start point. *)
Lemma WalSndHandshake_turn_started (env : HandshakeEnv) (s s' : Sender) :
  WalSndHandshake_turn env s = Return true s' ->
  replication_parse_result env = T_StartReplicationCmd (sentPtr s').
Proof.
  unfold WalSndHandshake_turn.
  destruct (deliver _ _) as [[] s1 | | |]; cbn [bind]; try discriminate.
  destruct (negb (hs_PostmasterIsAlive env)); [discriminate |].
  set (s2 := if got_SIGHUP s1 then _ else s1). clearbody s2.
  set (firstchar := if negb (pq_getbyte env =? EOF) then _ else pq_getbyte env).
  clearbody firstchar.
  unfold handshake_dispatch.
  destruct (firstchar =? 81).
  - unfold HandleReplicationCommand.
    destruct (negb (replication_yyparse env =? 0)); [discriminate |].
    destruct (replication_parse_result env) as [| startpoint | label progress fast |];
      try discriminate.
    unfold StartReplication. destruct (wal_level_is_minimal env); [discriminate |].
    cbn. intros Hr. inversion Hr. reflexivity.
  - destruct (firstchar =? 88); [discriminate |].
    destruct (firstchar =? EOF); discriminate.
Qed.

Lemma silent_handshake (envs : list HandshakeEnv) :
  startpoints_ok envs ->
  forall s, silent s (final_state (WalSndHandshake envs s)).
Proof.
  induction envs as [| env envs IH]; intros Hok s; cbn [WalSndHandshake].
  - apply silent_quiet, quiet_refl.
  - rewrite final_state_bind.
    assert (Hstart : forall p, replication_parse_result env = T_StartReplicationCmd p ->
                               is_recptr p).
    { intros p Hp. apply (Hok env p); [apply list_elem_of_here | exact Hp]. }
    pose proof (silent_turn env s Hstart) as Hturn.
    destruct (WalSndHandshake_turn env s) as [started s1 | | |]; cbn [final_state] in *;
      try exact Hturn.
    destruct started; [exact Hturn |].
    eapply silent_trans; [exact Hturn |]. apply IH.
    intros env' p Hin. apply Hok. apply list_elem_of_further. exact Hin.
Qed.

Lemma WalSndHandshake_started (envs : list HandshakeEnv) :
  forall s s', WalSndHandshake envs s = Return tt s' ->
               exists env, env ∈ envs /\
                 replication_parse_result env = T_StartReplicationCmd (sentPtr s').
Proof.
  induction envs as [| env envs IH]; intros s s'; cbn [WalSndHandshake]; [discriminate |].
  destruct (WalSndHandshake_turn env s) as [started s1 | | |] eqn:Hturn; cbn [bind];
    try discriminate.
  destruct started.
  - intros Hr. inversion Hr; subst. exists env. split; [apply list_elem_of_here |].
    apply (WalSndHandshake_turn_started env s). exact Hturn.
  - intros Hr. destruct (IH _ _ Hr) as (env' & Hin & Hcmd).
    exists env'. split; [apply list_elem_of_further; exact Hin | exact Hcmd].
Qed.

(** The way [InitWalSnd] returns: it took the first free slot. *)
Lemma InitWalSnd_Return_inv (s s1 : Sender) :
  MyWalSnd s = None -> InitWalSnd s = Return tt s1 ->
  exists k w,
    WalSndCtl s !! k = Some w /\ ws_pid w = 0 /\
    (forall j w', (j < k)%nat -> WalSndCtl s !! j = Some w' -> ws_pid w' <> 0) /\
    s1 = with_slots (<[k := acquired_slot (MyProcPid s) w]> (WalSndCtl s)) (Some k)
           (locked_and_skipped 0 k ++
            [SpinLockAcquire k; StoreSentPtr k {| xlogid := 0; xrecoff := 0 |};
             StoreState k WALSNDSTATE_STARTUP; SpinLockRelease k; OwnLatch k;
             on_shmem_exit_WalSndKill]) s.
Proof.
  intros Hnone Hrun.
  destruct (list_find (fun w => ws_pid w = 0) (WalSndCtl s)) as [[k w] |] eqn:Hfind.
  - apply list_find_Some in Hfind. destruct Hfind as (Hk & Hfree & Hbefore).
    assert (Hb : forall j w', (j < k)%nat -> WalSndCtl s !! j = Some w' -> ws_pid w' <> 0).
    { intros j w' Hj Hlook. apply (Hbefore j w' Hlook). exact Hj. }
    exists k, w. split; [exact Hk |]. split; [exact Hfree |]. split; [exact Hb |].
    unfold InitWalSnd in Hrun.
    rewrite (InitWalSnd_scan_found _ 0 s k w) in Hrun; try assumption; try lia.
    + cbn [MyWalSnd with_slots] in Hrun. inversion Hrun.
      rewrite Nat.sub_0_r. destruct s. state_compute.
      rewrite <- !app_assoc. reflexivity.
    + intros j w' Hj. apply Hb. lia.
  - apply list_find_None in Hfind. rewrite Forall_forall in Hfind.
    unfold InitWalSnd in Hrun.
    rewrite (InitWalSnd_scan_full _ 0 s) in Hrun; try lia.
    + cbn [MyWalSnd with_slots] in Hrun. rewrite Hnone in Hrun. discriminate.
    + intros j w' _ Hj. apply Hfind. apply list_elem_of_lookup. eauto.
Qed.

(** *** The slot of the process and the other slots *)

Lemma own_step_same (s s' : Sender) :
  WalSndCtl s' = WalSndCtl s -> MyWalSnd s' = MyWalSnd s -> MyProcPid s' = MyProcPid s ->
  own_step s s'.
Proof.
  intros Ht Hm Hp. split.
  - exact Hp.
  - rewrite Ht. reflexivity.
  - left. exact Hm.
  - intros j _. rewrite Ht. reflexivity.
  - unfold owned. rewrite Ht, Hm, Hp. auto.
Qed.

Lemma own_step_emit (e : Event) (s : Sender) : own_step s (emit e s).
Proof. apply own_step_same; reflexivity. Qed.

Lemma own_step_refl (s : Sender) : own_step s s.
Proof. apply own_step_same; reflexivity. Qed.

Lemma own_step_trans (s1 s2 s3 : Sender) : own_step s1 s2 -> own_step s2 s3 -> own_step s1 s3.
Proof.
  intros [Hp1 Hl1 Hm1 Ho1 Hw1] [Hp2 Hl2 Hm2 Ho2 Hw2]. split.
  - congruence.
  - congruence.
  - destruct Hm1 as [Hm1 | Hm1], Hm2 as [Hm2 | Hm2]; [left | right | right | right]; congruence.
  - intros j Hj. rewrite Ho2 by exact Hj. apply Ho1.
    destruct Hm2 as [Hm2 | Hm2]; congruence.
  - auto.
Qed.

(** A write into the own slot that leaves [pid] and the owner of the
    latch alone. *)
Lemma own_step_alter (f : WalSnd -> WalSnd) (i : nat) (s : Sender) :
  (forall w, ws_pid (f w) = ws_pid w /\
             owner_pid (ws_latch (f w)) = owner_pid (ws_latch w)) ->
  MyWalSnd s = Some i ->
  own_step s (set_WalSndCtl (alter f i (WalSndCtl s)) s).
Proof.
  intros Hf Hm. split; cbn [MyProcPid MyWalSnd WalSndCtl set_WalSndCtl].
  - reflexivity.
  - apply length_alter.
  - left. reflexivity.
  - intros j Hj. apply list_lookup_alter_ne. congruence.
  - unfold owned. cbn [MyProcPid MyWalSnd WalSndCtl set_WalSndCtl].
    intros Hown k Hk. destruct (Hown k Hk) as (w & Hw & Hpid & Hlatch).
    exists (f w). assert (k = i) by congruence. subst k.
    rewrite list_lookup_alter_eq, Hw. destruct (Hf w) as [Hfp Hfl].
    split; [reflexivity |]. split; congruence.
Qed.

Lemma own_step_WalSndSetState (st : WalSndState) (s : Sender) :
  own_step s (WalSndSetState st s).
Proof.
  unfold WalSndSetState. destruct (MyWalSnd s) as [i |] eqn:Hm; [| apply own_step_refl].
  destruct (my_slot s) as [w |]; [| apply own_step_refl].
  destruct (WalSndState_eqb (ws_state w) st); [apply own_step_refl |].
  eapply own_step_trans; [| apply own_step_emit].
  eapply own_step_trans; [| apply own_step_emit].
  eapply own_step_trans; [apply (own_step_emit (SpinLockAcquire i) s) |].
  apply (own_step_alter (fun w0 => store_state w0 st) i (emit (SpinLockAcquire i) s)).
  - intros w0. split; reflexivity.
  - exact Hm.
Qed.

Lemma own_step_publish_sentPtr (s : Sender) : own_step s (publish_sentPtr s).
Proof.
  unfold publish_sentPtr. destruct (MyWalSnd s) as [i |] eqn:Hm; [| apply own_step_refl].
  cbv zeta.
  eapply own_step_trans; [| apply own_step_emit].
  eapply own_step_trans; [| apply own_step_emit].
  eapply own_step_trans; [apply (own_step_emit (SpinLockAcquire i) s) |].
  apply (own_step_alter (fun w0 => store_sentPtr w0 (sentPtr (emit (SpinLockAcquire i) s))) i
           (emit (SpinLockAcquire i) s)).
  - intros w0. split; reflexivity.
  - exact Hm.
Qed.

Lemma own_step_InitWalSnd (s : Sender) :
  MyWalSnd s = None -> own_step s (final_state (InitWalSnd s)).
Proof.
  intros Hnone.
  destruct (InitWalSnd s) as [[] s1 | lvl e s1 | code s1 | s1] eqn:Hrun; cbn [final_state].
  - destruct (InitWalSnd_Return_inv s s1 Hnone Hrun) as (k & w & Hk & _ & _ & ->).
    split; cbn [MyProcPid MyWalSnd WalSndCtl with_slots].
    + reflexivity.
    + apply length_insert.
    + right. exact Hnone.
    + intros j Hj. apply list_lookup_insert_ne. congruence.
    + unfold owned. cbn [MyProcPid MyWalSnd WalSndCtl with_slots].
      intros _ i Hi. inversion Hi; subst i. exists (acquired_slot (MyProcPid s) w).
      split; [| split; reflexivity].
      apply list_lookup_insert_eq. eapply lookup_lt_Some. exact Hk.
  - destruct (InitWalSnd_cases s Hnone) as [(k & w & E) | E]; rewrite E in Hrun;
      inversion Hrun. apply own_step_same; [reflexivity | | reflexivity].
    cbn [MyWalSnd with_slots]. symmetry. exact Hnone.
  - destruct (InitWalSnd_cases s Hnone) as [(k & w & E) | E]; rewrite E in Hrun;
      discriminate.
  - destruct (InitWalSnd_cases s Hnone) as [(k & w & E) | E]; rewrite E in Hrun;
      discriminate.
Qed.

(** The elementary steps are own steps. *)
Ltac own_step_basics :=
  first [ exact own_step_refl | exact own_step_trans
        | exact own_step_WalSndSetState | exact own_step_publish_sentPtr
        | exact own_step_InitWalSnd
        | intros b i s0 Hm; apply (own_step_alter (set_latch b) i s0);
            [intros w; split; reflexivity | exact Hm]
        | intros; apply own_step_same; reflexivity ].

Lemma own_step_WalSenderMain `{P : XLogParams} (env : MainEnv) (s : Sender) :
  MyWalSnd s = None -> own_step s (final_state (WalSenderMain env s)).
Proof. intros Hnone. apply (R_WalSenderMain own_step); try exact Hnone; own_step_basics. Qed.

Lemma own_step_XLogSend `{P : XLogParams} (env : SendEnv) (s : Sender) :
  own_step s (final_state (XLogSend env s)).
Proof. apply (R_XLogSend own_step); own_step_basics. Qed.

Lemma own_step_WalSndLoop_turn `{P : XLogParams} (env : LoopEnv) (caughtup : bool)
    (s : Sender) (caughtup' : bool) (s' : Sender) :
  WalSndLoop_turn env caughtup s = Return (Continue caughtup') s' ->
  exists sa sb s4,
    own_step s sa /\ XLogSend (send env) sa = Return (true, caughtup') sb /\
    own_step sb s4 /\ quiet sb s4 /\
    s' = WalSndSetState (if caughtup' then WALSNDSTATE_STREAMING
                         else WALSNDSTATE_CATCHUP) s4.
Proof.
  apply (R_WalSndLoop_turn own_step); own_step_basics.
Qed.

(** *** The stores and the slot table *)

Lemma after_stores_app (evs1 evs2 : list Event) :
  forall fields, after_stores (evs1 ++ evs2) fields = after_stores evs2 (after_stores evs1 fields).
Proof.
  induction evs1 as [| e evs1 IH]; intros fields; [reflexivity |].
  destruct e; cbn [app after_stores]; apply IH.
Qed.

Lemma after_stores_length (evs : list Event) :
  forall fields, length (after_stores evs fields) = length fields.
Proof.
  induction evs as [| e evs IH]; intros fields; [reflexivity |].
  destruct e; cbn [after_stores]; rewrite IH; try reflexivity. apply length_insert.
Qed.

Lemma after_stores_none (evs : list Event) (fields : list XLogRecPtr) :
  (forall i, stores_of i evs = []) -> after_stores evs fields = fields.
Proof.
  induction evs as [| e evs IH]; intros Hno; [reflexivity |].
  destruct e; cbn [after_stores]; try (apply IH; intros j; exact (Hno j)).
  specialize (Hno i). cbn [stores_of] in Hno. rewrite Nat.eqb_refl in Hno. discriminate.
Qed.

(** After the stores, a field holds the position stored last into it,
    or what it held before when nothing was stored into it. *)
Lemma after_stores_lookup (evs : list Event) (j : nat) :
  forall fields, (j < length fields)%nat ->
    after_stores evs fields !! j =
    match last (stores_of j evs) with
    | Some p => Some p
    | None => fields !! j
    end.
Proof.
  induction evs as [| e evs IH]; intros fields Hj; [reflexivity |].
  destruct e; cbn [after_stores stores_of]; try (apply IH; exact Hj).
  rewrite IH by (rewrite length_insert; exact Hj).
  destruct (Nat.eqb_spec j i) as [-> | Hne].
  - rewrite last_cons. destruct (last (stores_of i evs)); [reflexivity |].
    apply list_lookup_insert_eq. exact Hj.
  - destruct (last (stores_of j evs)); [reflexivity |].
    apply list_lookup_insert_ne. congruence.
Qed.

Lemma fmap_alter_same {A B : Type} (g : A -> B) (f : A -> A) (l : list A) (i : nat) :
  (forall x, g (f x) = g x) -> g <$> alter f i l = g <$> l.
Proof.
  intros Hf. revert i. induction l as [| x l IH]; intros [| i]; cbn; try reflexivity.
  - rewrite Hf. reflexivity.
  - f_equal. apply IH.
Qed.

Lemma fmap_alter_insert {A B : Type} (g : A -> B) (f : A -> A) (b : B) (l : list A) (i : nat) :
  (forall x, g (f x) = b) -> g <$> alter f i l = <[i := b]> (g <$> l).
Proof.
  intros Hf. revert i. induction l as [| x l IH]; intros [| i]; cbn; try reflexivity.
  - rewrite Hf. reflexivity.
  - f_equal. apply IH.
Qed.

Lemma stores_step_same (s s' : Sender) :
  trace s' = trace s -> WalSndCtl s' = WalSndCtl s -> stores_step s s'.
Proof. intros Ht Hw. exists []. rewrite app_nil_r, Hw. split; [exact Ht | reflexivity]. Qed.

Lemma stores_step_refl (s : Sender) : stores_step s s.
Proof. apply stores_step_same; reflexivity. Qed.

Lemma stores_step_trans (s1 s2 s3 : Sender) :
  stores_step s1 s2 -> stores_step s2 s3 -> stores_step s1 s3.
Proof.
  intros (e1 & E1 & H1) (e2 & E2 & H2). exists (e1 ++ e2). split.
  - rewrite E2, E1, app_assoc. reflexivity.
  - rewrite H2, H1, after_stores_app. reflexivity.
Qed.

Lemma stores_step_emit (e : Event) (s : Sender) :
  (forall i, stores_of i [e] = []) -> stores_step s (emit e s).
Proof.
  intros He. exists [e]. split; [reflexivity |].
  cbn [WalSndCtl emit]. symmetry. apply after_stores_none. exact He.
Qed.

Lemma stores_step_alter (f : WalSnd -> WalSnd) (i : nat) (s : Sender) :
  (forall w, ws_sentPtr (f w) = ws_sentPtr w) ->
  stores_step s (set_WalSndCtl (alter f i (WalSndCtl s)) s).
Proof.
  intros Hf. exists []. rewrite app_nil_r. split; [reflexivity |].
  cbn [WalSndCtl set_WalSndCtl after_stores]. apply fmap_alter_same. exact Hf.
Qed.

Lemma stores_step_WalSndSetState (st : WalSndState) (s : Sender) :
  stores_step s (WalSndSetState st s).
Proof.
  unfold WalSndSetState. destruct (MyWalSnd s) as [i |]; [| apply stores_step_refl].
  destruct (my_slot s) as [w |]; [| apply stores_step_refl].
  destruct (WalSndState_eqb (ws_state w) st); [apply stores_step_refl |].
  exists [SpinLockAcquire i; StoreState i st; SpinLockRelease i]. split.
  - cbn [trace emit set_WalSndCtl]. rewrite <- !app_assoc. reflexivity.
  - cbn [WalSndCtl emit set_WalSndCtl after_stores]. apply fmap_alter_same. reflexivity.
Qed.

(** The store of [publish_sentPtr] is a write into the slot. *)
Lemma stores_step_publish_sentPtr (s : Sender) : stores_step s (publish_sentPtr s).
Proof.
  unfold publish_sentPtr. destruct (MyWalSnd s) as [i |]; [| apply stores_step_refl].
  exists [SpinLockAcquire i; StoreSentPtr i (sentPtr s); SpinLockRelease i]. split.
  - cbn [trace emit set_WalSndCtl sentPtr]. rewrite <- !app_assoc. reflexivity.
  - cbn [WalSndCtl emit set_WalSndCtl after_stores sentPtr].
    apply fmap_alter_insert. reflexivity.
Qed.

Lemma stores_step_InitWalSnd (s : Sender) :
  MyWalSnd s = None -> stores_step s (final_state (InitWalSnd s)).
Proof.
  intros Hnone. destruct (InitWalSnd_cases s Hnone) as [(k & w & ->) | ->];
    cbn [final_state]; eexists; (split; [reflexivity |]);
    cbn [WalSndCtl with_slots]; rewrite ?after_stores_app;
    rewrite (after_stores_none (locked_and_skipped _ _))
      by (intros i; apply stores_of_locked_and_skipped).
  - cbn [after_stores]. rewrite list_fmap_insert. reflexivity.
  - reflexivity.
Qed.

(** The elementary steps are steps of which the stores are the writes. *)
Ltac stores_step_basics :=
  first [ exact stores_step_refl | exact stores_step_trans
        | exact stores_step_WalSndSetState | exact stores_step_publish_sentPtr
        | exact stores_step_InitWalSnd
        | intros b i s0 _; apply (stores_step_alter (set_latch b) i s0); reflexivity
        | intros e s0 He _; apply stores_step_emit; intros i; destruct e; try discriminate;
            reflexivity
        | intros e s0 He; apply stores_step_emit; intros i; destruct e; try discriminate;
            reflexivity
        | intros; apply stores_step_same; reflexivity ].

Lemma stores_step_WalSenderMain `{P : XLogParams} (env : MainEnv) (s : Sender) :
  MyWalSnd s = None -> stores_step s (final_state (WalSenderMain env s)).
Proof. intros Hnone. apply (R_WalSenderMain stores_step); try exact Hnone; stores_step_basics. Qed.

Section RunClaims.
Context `{P : XLogParams}.
Hypothesis params_ok : XLogParamsOk.

(** C3. Over a run of [WalSenderMain], however it ends or however far
    it got: the positions stored into the [sentPtr] field of a slot never
    decrease in the order of [XLByteLE]; only the slot of the sender is
    written, and the first position stored is [(0,0)], at acquisition.
    When the handshake ends, the second position stored is the start
    point of the [START_REPLICATION] command, and the last one is the
    [sentPtr] of the process: every later store is the end of a frame
    [XLogSend] sent, not before the one stored last; and the slot of the
    sender holds that position. The stores are the writes into the shared
    table: the [sentPtr] fields of the table the
    run leaves are those of the table it started on with the positions
    stored, in the order of the stores, so a slot into which a position was
    stored holds the position stored last. *)
Theorem published_sentPtr_nondecreasing (env : MainEnv) (pid : Z) (table : list WalSnd) :
  startpoints_ok (handshake env) -> flush_positions_ok (streaming env) ->
  let s := final_state (WalSenderMain env (fresh_sender pid table)) in
  (forall j, nondecreasing (stores_of j (trace s)) = true) /\
  (forall j p rest, stores_of j (trace s) = p :: rest ->
                    MyWalSnd s = Some j /\ p = {| xlogid := 0; xrecoff := 0 |}) /\
  (forall s1 s2,
      RecoveryInProgress env = false ->
      InitWalSnd (fresh_sender pid table) = Return tt s1 ->
      WalSndHandshake (handshake env) (emit ReadyForQuery s1) = Return tt s2 ->
      exists j rest h,
        MyWalSnd s = Some j /\
        stores_of j (trace s) = {| xlogid := 0; xrecoff := 0 |} :: sentPtr s2 :: rest /\
        h ∈ handshake env /\
        replication_parse_result h = T_StartReplicationCmd (sentPtr s2) /\
        last (stores_of j (trace s)) = Some (sentPtr s) /\
        exists w, WalSndCtl s !! j = Some w /\ ws_sentPtr w = sentPtr s) /\
  ws_sentPtr <$> WalSndCtl s = after_stores (trace s) (ws_sentPtr <$> table) /\
  (forall j w, WalSndCtl s !! j = Some w -> stores_of j (trace s) <> [] ->
               last (stores_of j (trace s)) = Some (ws_sentPtr w)).
Proof.
  intros Hstart Hflush s.
  assert (Hfields : ws_sentPtr <$> WalSndCtl s = after_stores (trace s) (ws_sentPtr <$> table)).
  { destruct (stores_step_WalSenderMain env (fresh_sender pid table) eq_refl)
      as (evs & E & Hcol).
    fold s in E, Hcol. cbn [trace WalSndCtl fresh_sender app] in E, Hcol.
    rewrite E. exact Hcol. }
  assert (Hlast : forall j w, WalSndCtl s !! j = Some w -> stores_of j (trace s) <> [] ->
                              last (stores_of j (trace s)) = Some (ws_sentPtr w)).
  { intros j w Hw Hne.
    assert (Hj : (j < length (ws_sentPtr <$> table))%nat).
    { rewrite <- (after_stores_length (trace s)), <- Hfields, length_fmap.
      eapply lookup_lt_Some. exact Hw. }
    pose proof (after_stores_lookup (trace s) j _ Hj) as Hlook.
    rewrite <- Hfields, list_lookup_fmap, Hw in Hlook. cbn in Hlook.
    destruct (last (stores_of j (trace s))) as [p |] eqn:El.
    - congruence.
    - apply last_None in El. contradiction. }
  assert (Hslot : forall j, MyWalSnd s = Some j -> exists w, WalSndCtl s !! j = Some w).
  { intros j Hj.
    destruct (own_step_WalSenderMain env (fresh_sender pid table) eq_refl) as [_ _ _ _ Hown].
    fold s in Hown.
    destruct (Hown ltac:(intros k Hk; discriminate) j Hj) as (w & Hw & _). eauto. }
  cut ((forall j, nondecreasing (stores_of j (trace s)) = true) /\
       (forall j p rest, stores_of j (trace s) = p :: rest ->
                         MyWalSnd s = Some j /\ p = {| xlogid := 0; xrecoff := 0 |}) /\
       (forall s1 s2,
           RecoveryInProgress env = false ->
           InitWalSnd (fresh_sender pid table) = Return tt s1 ->
           WalSndHandshake (handshake env) (emit ReadyForQuery s1) = Return tt s2 ->
           exists j rest h,
             MyWalSnd s = Some j /\
             stores_of j (trace s) = {| xlogid := 0; xrecoff := 0 |} :: sentPtr s2 :: rest /\
             h ∈ handshake env /\
             replication_parse_result h = T_StartReplicationCmd (sentPtr s2) /\
             last (stores_of j (trace s)) = Some (sentPtr s))).
  { intros (HA & HB & HC).
    split; [exact HA |]. split; [exact HB |]. split; [| split; [exact Hfields | exact Hlast]].
    intros s1 s2 Hrec Hi Hhs.
    destruct (HC s1 s2 Hrec Hi Hhs) as (j & rest & h & Hm & Hst & Hin & Hcmd & Hl).
    exists j, rest, h. split; [exact Hm |]. split; [exact Hst |]. split; [exact Hin |].
    split; [exact Hcmd |]. split; [exact Hl |].
    destruct (Hslot j Hm) as (w & Hw). exists w. split; [exact Hw |].
    assert (Hne : stores_of j (trace s) <> []) by (rewrite Hst; discriminate).
    pose proof (Hlast j w Hw Hne) as Hw'. congruence. }
  clear Hfields Hlast Hslot.
  subst s. unfold WalSenderMain.
  destruct (RecoveryInProgress env) eqn:Hrec.
  { cbn. repeat split; try discriminate. }
  destruct (InitWalSnd_cases (fresh_sender pid table) eq_refl) as [(k & w & Hinit) | Hinit];
    rewrite Hinit; cbn [bind final_state].
  2: { cbn [trace with_slots fresh_sender app].
       split; [| split].
       - intros j. rewrite stores_of_locked_and_skipped. reflexivity.
       - intros j p rest. rewrite stores_of_locked_and_skipped. discriminate.
       - intros s1 s2 _ Hr. discriminate. }
  set (zero := {| xlogid := 0; xrecoff := 0 |}).
  set (s1 := with_slots _ (Some k) _ (fresh_sender pid table)) in *.
  assert (Hs1 : MyWalSnd s1 = Some k /\ sentPtr s1 = zero /\
                stores_of k (trace s1) = [zero] /\
                forall j, j <> k -> stores_of j (trace s1) = []).
  { subst s1. cbn [MyWalSnd sentPtr trace with_slots fresh_sender app].
    split; [reflexivity |]. split; [reflexivity |].
    split; [| intros j Hj]; rewrite stores_of_app, stores_of_locked_and_skipped; cbn.
    - rewrite Nat.eqb_refl. reflexivity.
    - apply Nat.eqb_neq in Hj. rewrite Hj. reflexivity. }
  clearbody s1. destruct Hs1 as (Hm1 & Hp1 & Hst1 & Hot1).
  (* the handshake *)
  pose proof (silent_handshake (handshake env) Hstart (emit ReadyForQuery s1)) as Hsil.
  assert (Hsil1 : silent s1 (final_state (WalSndHandshake (handshake env) (emit ReadyForQuery s1)))).
  { apply (silent_trans _ (emit ReadyForQuery s1)); [apply silent_quiet; quiet_chain | exact Hsil]. }
  clear Hsil.
  destruct (WalSndHandshake (handshake env) (emit ReadyForQuery s1)) as [[] s2 | | |] eqn:Hhs;
    cbn [bind final_state] in *.
  2-4: destruct Hsil1 as (Hm & Ht & _); split; [| split];
       [ intros j; rewrite Ht; destruct (Nat.eq_dec j k) as [-> | Hj];
           [rewrite Hst1 | rewrite (Hot1 j Hj)]; reflexivity
       | intros j p rest; rewrite Ht, Hm; destruct (Nat.eq_dec j k) as [-> | Hj];
           [rewrite Hst1; intros E; inversion E; auto | rewrite (Hot1 j Hj); discriminate]
       | intros s1' s2' _ Hi Hr; inversion Hi; subst s1'; rewrite Hhs in Hr; discriminate ].
  destruct Hsil1 as (Hm2 & Ht2 & Hp2).
  destruct (WalSndHandshake_started _ _ _ Hhs) as (h & Hin & Hcmd).
  assert (Hr2 : is_recptr (sentPtr s2)) by (apply (Hstart h _ Hin Hcmd)).
  (* the first store of the streaming phase *)
  assert (Hinv : streaming_inv k [zero; sentPtr s2] (publish_sentPtr s2)).
  { assert (Hstores : forall j, stores_of j (trace (publish_sentPtr s2)) =
                                stores_of j (trace s2) ++ if Nat.eqb j k then [sentPtr s2] else []).
    { intros j. rewrite trace_publish_sentPtr, stores_of_app, Hm2, Hm1. cbn.
      destruct (Nat.eqb j k); reflexivity. }
    constructor.
    - rewrite MyWalSnd_publish_sentPtr. congruence.
    - rewrite sentPtr_publish_sentPtr. exact Hr2.
    - rewrite Hstores, Nat.eqb_refl, Ht2, Hst1. exists []. reflexivity.
    - rewrite Hstores, Nat.eqb_refl, Ht2, Hst1, sentPtr_publish_sentPtr. exists [zero]. reflexivity.
    - rewrite Hstores, Nat.eqb_refl, Ht2, Hst1. cbn.
      rewrite andb_true_r. apply XLByteLE_true. cbn. destruct Hr2. lia.
    - intros j Hj. rewrite Hstores, Ht2, (Hot1 j Hj). apply Nat.eqb_neq in Hj. rewrite Hj.
      reflexivity. }
  pose proof (streaming_inv_loop params_ok k _ (streaming env) Hflush false _ Hinv) as Hend.
  unfold keeps in Hend. unfold WalSndLoop.
  destruct Hend as [Hm Hr (l0 & Hpre) (l1 & Hlast) Hsorted Hothers].
  split; [| split].
  - intros j. destruct (Nat.eq_dec j k) as [-> | Hj]; [exact Hsorted |].
    rewrite (Hothers j Hj). reflexivity.
  - intros j p rest. destruct (Nat.eq_dec j k) as [-> | Hj].
    + rewrite Hpre. intros E. inversion E. auto.
    + rewrite (Hothers j Hj). discriminate.
  - intros s1' s2' _ Hi Hr'. inversion Hi; subst s1'. rewrite Hhs in Hr'.
    inversion Hr'; subst s2'.
    exists k, l0, h. split; [exact Hm |]. split; [exact Hpre |].
    split; [exact Hin |]. split; [exact Hcmd |].
    rewrite Hlast. apply last_snoc.
Qed.

End RunClaims.

(** ** The handshake dispatch *)

Lemma HandleReplicationCommand_no_exit (env : HandshakeEnv) (s : Sender) :
  (forall code s', HandleReplicationCommand env s <> Exit code s') /\
  (forall c s', HandleReplicationCommand env s <> Raise FATAL (InvalidHandshakeMessageType c) s').
Proof.
  unfold HandleReplicationCommand, StartReplication.
  destruct (negb (replication_yyparse env =? 0)); [split; intros; discriminate |].
  destruct (replication_parse_result env); try (split; intros; discriminate).
  destruct (wal_level_is_minimal env); split; intros; discriminate.
Qed.

(** C9. The [switch (firstchar)] of the handshake covers every value:
    ['X'] exits with status 0 and nothing else; [EOF] logs the protocol
    violation "unexpected EOF" and exits with status 0; ['Q'] runs the
    command; every other value is the fatal protocol violation "invalid
    standby handshake message type". Conversely the process exits there
    only on ['X'] or [EOF], and that fatal error is raised only on a value
    other than ['Q'], ['X'] and [EOF]. In a turn of the loop with the
    postmaster alive, the value dispatched is the byte read, or [EOF] when
    the message that follows the byte cannot be read. *)
Theorem handshake_dispatch_exact (env : HandshakeEnv) (s : Sender) (firstchar : Z) :
  (firstchar = 88 -> handshake_dispatch env firstchar s = Exit 0 s) /\
  (firstchar = EOF ->
   handshake_dispatch env firstchar s = Exit 0 (emit (LogReport COMMERROR UnexpectedEOF) s) /\
   kind_of UnexpectedEOF = PROTOCOL_VIOLATION) /\
  (firstchar = 81 -> handshake_dispatch env firstchar s = HandleReplicationCommand env s) /\
  (firstchar <> 81 -> firstchar <> 88 -> firstchar <> EOF ->
   handshake_dispatch env firstchar s =
     Raise FATAL (InvalidHandshakeMessageType firstchar) s /\
   kind_of (InvalidHandshakeMessageType firstchar) = PROTOCOL_VIOLATION) /\
  (forall code s', handshake_dispatch env firstchar s = Exit code s' ->
                   code = 0 /\ (firstchar = 88 \/ firstchar = EOF)) /\
  (forall c s', handshake_dispatch env firstchar s =
                  Raise FATAL (InvalidHandshakeMessageType c) s' ->
                c = firstchar /\ firstchar <> 81 /\ firstchar <> 88 /\ firstchar <> EOF) /\
  (forall s1,
      hs_PostmasterIsAlive env = true ->
      deliver (hs_signals env)
        (emit set_ps_display_idle (WalSndSetState WALSNDSTATE_STARTUP s)) = Return tt s1 ->
      WalSndHandshake_turn env s =
      handshake_dispatch env
        (if negb (pq_getbyte env =? EOF)
         then if negb (pq_getmessage env =? 0) then EOF else pq_getbyte env
         else pq_getbyte env)
        (if got_SIGHUP s1 then emit ProcessConfigFile (set_got_SIGHUP false s1) else s1)).
Proof.
  pose proof (HandleReplicationCommand_no_exit env s) as (Hnoexit & Hnofatal).
  unfold handshake_dispatch, EOF.
  split; [| split; [| split; [| split; [| split; [| split]]]]].
  - intros ->. reflexivity.
  - intros ->. split; reflexivity.
  - intros ->. reflexivity.
  - intros HQ HX HE.
    destruct (Z.eqb_spec firstchar 81); [contradiction |].
    destruct (Z.eqb_spec firstchar 88); [contradiction |].
    destruct (Z.eqb_spec firstchar (-1)); [contradiction |].
    split; reflexivity.
  - intros code s'.
    destruct (Z.eqb_spec firstchar 81); [intros Hr; exfalso; exact (Hnoexit _ _ Hr) |].
    destruct (Z.eqb_spec firstchar 88); [intros Hr; inversion Hr; auto |].
    destruct (Z.eqb_spec firstchar (-1)); intros Hr; inversion Hr; auto.
  - intros c s'.
    destruct (Z.eqb_spec firstchar 81); [intros Hr; exfalso; exact (Hnofatal _ _ Hr) |].
    destruct (Z.eqb_spec firstchar 88); [discriminate |].
    destruct (Z.eqb_spec firstchar (-1)); [discriminate |].
    intros Hr. inversion Hr. subst. auto.
  - intros s1 Halive Hsig. unfold WalSndHandshake_turn.
    rewrite Hsig. cbn [bind]. rewrite Halive. reflexivity.
Qed.

(** ** The streaming loop *)

Section LoopClaims.
Context `{P : XLogParams}.

Lemma XLogSend_slice_caughtup (sentPtr SendRqstPtr startptr endptr : XLogRecPtr) :
  XLogSend_slice sentPtr SendRqstPtr = (startptr, endptr, true) -> endptr = SendRqstPtr.
Proof.
  unfold XLogSend_slice.
  match goal with |- context [XLByteLE SendRqstPtr ?e] => destruct (XLByteLE SendRqstPtr e) end;
    intros E; inversion E; reflexivity.
Qed.

(** When [XLogSend] returns true with [*caughtup] true, [sentPtr] is not
    before the flush position the call read. *)
Lemma XLogSend_caughtup (env : SendEnv) (s s' : Sender) :
  XLogSend env s = Return (true, true) s' ->
  XLByteLE (GetFlushRecPtr env) (sentPtr s') = true.
Proof.
  intros Hrun. apply XLogSend_Return_inv in Hrun.
  destruct Hrun as [(Hle & _ & ->) | (_ & startptr & endptr & caughtup & data & c & calls
                                      & Hslice & _ & [(_ & Hr & _) | (_ & Hr & ->)])].
  - exact Hle.
  - discriminate.
  - inversion Hr; subst caughtup. apply XLogSend_slice_caughtup in Hslice.
    rewrite sentPtr_frame_sent, Hslice. unfold XLByteLE.
    rewrite Z.eqb_refl, Z.leb_refl. apply orb_true_r.
Qed.

(** C7 (amended). In a turn of the streaming loop with the postmaster
    alive: when [walsender_shutdown_requested] is seen set, the sender puts
    the message ['C'] "COPY 0", flushes and exits with status 0. With
    [walsender_ready_to_stop] set, the framer is called first: when it
    reports a send failure the loop is left; when it reports [caughtup],
    [sentPtr] has reached the flush position the framer read,
    [walsender_shutdown_requested] is set and the sender exits as above;
    when it does not report [caughtup], this path does not set
    [walsender_shutdown_requested], and unless [SIGTERM] has set it the
    turn goes on with the next call of the framer instead of exiting.
    So the final flush alone never leads to the exit before the flush
    position is reached; a [SIGTERM], a send failure or the death of the
    postmaster can still end the sender earlier. *)
Theorem WalSndLoop_final_flush (env : LoopEnv) (caughtup : bool) (s0 s : Sender) :
  deliver (signals_before env) s0 = Return tt s ->
  PostmasterIsAlive env = true ->
  let sa := if got_SIGHUP s then emit ProcessConfigFile (set_got_SIGHUP false s) else s in
  let copy_done st :=
    emit (pq_flush_called (copy_done_flush env))
      (emit (pq_putmessage "C" (TextBody "COPY 0")) st) in
  (walsender_ready_to_stop sa = false -> walsender_shutdown_requested sa = true ->
   WalSndLoop_turn env caughtup s0 = Exit 0 (copy_done sa)) /\
  (walsender_ready_to_stop sa = true ->
   forall r s1 s2,
     XLogSend (final_send env) sa = Return r s1 ->
     deliver (signals_in_final_send env) s1 = Return tt s2 ->
     (fst r = false -> WalSndLoop_turn env caughtup s0 = Return Break s2) /\
     (fst r = true -> snd r = true ->
      XLByteLE (GetFlushRecPtr (final_send env)) (sentPtr s1) = true /\
      WalSndLoop_turn env caughtup s0 = Exit 0 (copy_done (set_shutdown_requested true s2))) /\
     (fst r = true -> snd r = false -> walsender_shutdown_requested s2 = true ->
      WalSndLoop_turn env caughtup s0 = Exit 0 (copy_done s2)) /\
     (fst r = true -> snd r = false -> walsender_shutdown_requested s2 = false ->
      WalSndLoop_turn env caughtup s0 =
      bind (XLogSend (send env) s2) (fun r' s3 =>
        bind (deliver (signals_in_send env) s3) (fun _ s4 =>
          if negb (fst r') then Return Break s4
          else Return (Continue (snd r'))
                 (WalSndSetState (if snd r' then WALSNDSTATE_STREAMING
                                  else WALSNDSTATE_CATCHUP) s4))))).
Proof.
  intros Hbefore Halive sa copy_done. unfold WalSndLoop_turn.
  rewrite Hbefore. cbn [bind]. rewrite Halive. cbn [negb]. fold sa.
  split.
  - intros Hstop Hshut. rewrite Hstop. cbn [bind]. rewrite Hshut. reflexivity.
  - intros Hstop [ok caught] s1 s2 Hsend Hsig. rewrite Hstop, Hsend. cbn [bind].
    rewrite Hsig. cbn [bind fst snd].
    split; [| split; [| split]].
    + intros ->. reflexivity.
    + intros -> ->. split; [apply (XLogSend_caughtup _ _ _ Hsend) |]. reflexivity.
    + intros -> -> Hshut. cbn [negb bind]. rewrite Hshut. reflexivity.
    + intros -> -> Hshut. cbn [negb bind]. rewrite Hshut.
      destruct (XLogSend (send env) s2) as [r' s3 | | |]; cbn [bind]; try reflexivity.
      destruct (deliver (signals_in_send env) s3) as [[] s4 | | |]; cbn [bind]; try reflexivity.
      destruct (negb (fst r')); reflexivity.
Qed.

End LoopClaims.

(** C7, as stated, fails: with a default build, a sender at the start
    of segment 1 that has seen both [SIGUSR2] and [SIGTERM], and 200000
    bytes flushed beyond [sentPtr], sends one frame of 131072 bytes, then
    puts "COPY 0" and exits with status 0, 68928 bytes before the flush
    position. *)
Lemma final_flush_exits_early : ~ @final_flush_reaches_flush_position default_params.
Proof.
  intros Hclaim.
  pose (start := {| xlogid := 0; xrecoff := 16777216 |}).
  pose (flushed := {| xlogid := 0; xrecoff := 16977216 |}).
  pose (s := set_shutdown_requested true (set_ready_to_stop true (sender_at start))).
  assert (Hrun : match @WalSndLoop_turn default_params (loop_env flushed) false s with
                 | Exit code s' =>
                     (code =? 0) && (xlogid (sentPtr s') =? 0) &&
                     (xrecoff (sentPtr s') =? 16908288)
                 | _ => false
                 end = true)
    by (vm_compute; reflexivity).
  specialize (Hclaim (loop_env flushed) false s).
  destruct (@WalSndLoop_turn default_params (loop_env flushed) false s)
    as [step s' | lvl e s' | code s' | s']; try discriminate.
  specialize (Hclaim code s' eq_refl eq_refl).
  apply andb_true_iff in Hrun. destruct Hrun as (Hrun & Hoff).
  apply andb_true_iff in Hrun. destruct Hrun as (_ & Hlog).
  apply Z.eqb_eq in Hoff, Hlog.
  apply XLByteLE_true in Hclaim. cbn in Hclaim. lia.
Qed.

(** * The claims at concrete inputs *)

Lemma default_params_ok : @XLogParamsOk default_params.
Proof. constructor; vm_compute; first [reflexivity | discriminate]. Qed.

Lemma small_params_ok : @XLogParamsOk small_params.
Proof. constructor; vm_compute; first [reflexivity | discriminate]. Qed.

(** C1 at two inputs, on a build with 8-byte pages, 64-byte segments,
    log files of 1024 bytes and 16-byte frames. A sender at offset 1013
    of log id 0, with the flush position in log id 1: the bound
    1013 + 16 crosses the end of the log file and is clamped to 1024, and
    the frame carries the 11 bytes up to there and leaves the sender
    behind. A sender at offset 67 with 100 bytes flushed beyond it: the
    bound 83 is rounded down to the page boundary 80. *)
Lemma XLogSend_frame_range_witness :
  let start := {| xlogid := 0; xrecoff := 1013 |} in
  let flushed := {| xlogid := 1; xrecoff := 100 |} in
  let hdr := {| dataStart := start; walEnd := flushed; sendTime := 0 |} in
  let data := repeat Byte.x00 11 in
  let start2 := {| xlogid := 0; xrecoff := 67 |} in
  let flushed2 := {| xlogid := 0; xrecoff := 167 |} in
  let hdr2 := {| dataStart := start2; walEnd := flushed2; sendTime := 0 |} in
  let data2 := repeat Byte.x00 13 in
  (xlogid (frame_end hdr data) = 0 /\
   xrecoff (frame_end hdr data) = @XLogFileSize small_params /\
   xrecoff (frame_end hdr data) mod @XLOG_BLCKSZ small_params = 0 /\
   @XLByteLE flushed {| xlogid := 0; xrecoff := 1024 |} = false) /\
  (xrecoff (frame_end hdr2 data2) = 83 - 83 mod @XLOG_BLCKSZ small_params /\
   xrecoff (frame_end hdr2 data2) mod @XLOG_BLCKSZ small_params = 0 /\
   @XLByteLE flushed2 {| xlogid := 0; xrecoff := 83 |} = false).
Proof.
  intros start flushed hdr data start2 flushed2 hdr2 data2.
  pose (c := {| sendFile := 3; sendId := 0; sendSeg := 15; sendOff := 64 |}).
  pose (c2 := {| sendFile := 3; sendId := 0; sendSeg := 1; sendOff := 16 |}).
  split.
  - destruct (@XLogSend_frame_range small_params small_params_ok
                (send_env flushed 0) (sender_at start) (true, false)
                (@frame_sent (send_env flushed 0) start {| xlogid := 0; xrecoff := 1024 |}
                   data c (sender_at start))
                hdr data) as (_ & Hlog & _ & Hclamp & Hpage & _ & _ & Hbehind & _).
    + split; cbn; lia.
    + split; cbn; lia.
    + vm_compute. reflexivity.
    + vm_compute. apply list_elem_of_here.
    + split; [exact Hlog |].
      split; [apply Hclamp; [vm_compute; discriminate | reflexivity] |].
      split; [exact (Hpage eq_refl) |]. symmetry. exact Hbehind.
  - destruct (@XLogSend_frame_range small_params small_params_ok
                (send_env flushed2 0) (sender_at start2) (true, false)
                (@frame_sent (send_env flushed2 0) start2 {| xlogid := 0; xrecoff := 80 |}
                   data2 c2 (sender_at start2))
                hdr2 data2) as (_ & _ & _ & _ & Hpage & _ & _ & Hbehind & Hround).
    + split; cbn; lia.
    + split; cbn; lia.
    + vm_compute. reflexivity.
    + vm_compute. apply list_elem_of_here.
    + split; [exact (Hround eq_refl) |]. split; [exact (Hpage eq_refl) |].
      symmetry. exact Hbehind.
Defined.

(** C2 at an input: a build with 8-byte pages, 64-byte segments and
    16-byte frames, a sender at offset 67 (3 bytes into segment 1) and 100
    bytes flushed beyond it; the first frame carries the 13 bytes up to
    the page boundary at offset 80 and leaves the sender behind. *)
Lemma XLogSend_frame_size_witness :
  let start := {| xlogid := 0; xrecoff := 67 |} in
  let flushed := {| xlogid := 0; xrecoff := 167 |} in
  let hdr := {| dataStart := start; walEnd := flushed; sendTime := 0 |} in
  let data := repeat Byte.x00 13 in
  Z.of_nat (length data) <= @MAX_SEND_SIZE small_params /\
  0 < Z.of_nat (length data) /\
  @XLByteLE (frame_end hdr data) (walEnd hdr) = true.
Proof.
  intros start flushed hdr data.
  pose (c := {| sendFile := 3; sendId := 0; sendSeg := 1; sendOff := 16 |}).
  destruct (@XLogSend_frame_size small_params small_params_ok
              (send_env flushed 0) (sender_at start) (true, false)
              (@frame_sent (send_env flushed 0) start {| xlogid := 0; xrecoff := 80 |}
                 data c (sender_at start))
              hdr data) as (_ & _ & Hmax & Hpos & _ & Hend).
  - split; cbn; lia.
  - split; cbn; lia.
  - vm_compute. reflexivity.
  - vm_compute. apply list_elem_of_here.
  - split; [exact Hmax |]. split; [exact (Hpos eq_refl) | exact Hend].
Defined.

(** C6 at an input: the same frame of 300 bytes with a flush that
    fails; the call returns false and [sentPtr] and the slot keep the
    start of segment 1. *)
Lemma XLogSend_flush_failure_witness :
  let start := {| xlogid := 0; xrecoff := 16777216 |} in
  let flushed := {| xlogid := 0; xrecoff := 16777516 |} in
  let env := send_env flushed EOF in
  let c := {| sendFile := 3; sendId := 0; sendSeg := 1; sendOff := 300 |} in
  let s' := frame_put env start (repeat Byte.x00 300) c (sender_at start) in
  @XLogSend default_params env (sender_at start) = Return (false, true) s' /\
  sentPtr s' = start /\ WalSndCtl s' = WalSndCtl (sender_at start) /\
  stores_of 0 (events_since (sender_at start) s') = [].
Proof.
  intros start flushed env c s'.
  assert (Hrun : @XLogSend default_params env (sender_at start) = Return (false, true) s')
    by (vm_compute; reflexivity).
  split; [exact Hrun |].
  destruct (@XLogSend_flush_failure default_params default_params_ok env (sender_at start)
              (false, true) s' Hrun) as (Hfail & _).
  destruct Hfail as (_ & Hsent & Htable & Hstores).
  - vm_compute. discriminate.
  - eexists _, _. vm_compute. apply list_elem_of_here.
  - split; [exact Hsent |]. split; [exact Htable | apply Hstores].
Defined.

(** C10 at an input: a default build, [sentPtr] at the end of log file
    0 and the flush position at the start of log file 1. *)
Lemma XLogSend_at_logid_boundary_witness :
  let next := {| xlogid := 1; xrecoff := 0 |} in
  let s := sender_at {| xlogid := 0; xrecoff := 4278190080 |} in
  exists s',
    @XLogSend default_params (send_env next 0) s = Return (true, true) s' /\
    events_since s s' =
      [pq_putmessage "d" (WalDataBody "w" {| dataStart := next; walEnd := next; sendTime := 0 |} []);
       pq_flush_called 0; SpinLockAcquire 0; StoreSentPtr 0 next; SpinLockRelease 0] /\
    sentPtr s' = next.
Proof.
  intros next s.
  destruct (@XLogSend_at_logid_boundary default_params default_params_ok
              (send_env next 0) s 0 0%nat) as (_ & s' & Hrun & Hevents & Hsent & _).
  - lia.
  - lia.
  - reflexivity.
  - reflexivity.
  - reflexivity.
  - reflexivity.
  - reflexivity.
  - exists s'. split; [exact Hrun |]. split; [| exact Hsent].
    rewrite Hevents. reflexivity.
Defined.

(** C8 at an input: a table of three slots of which the first is
    taken; the second is acquired. *)
Lemma InitWalSnd_acquires_first_free_witness :
  let s := fresh_sender 4242 [taken_slot; free_slot; free_slot] in
  InitWalSnd s =
  Return tt
    (with_slots [taken_slot; acquired_slot 4242 free_slot; free_slot] (Some 1%nat)
       [SpinLockAcquire 0; SpinLockRelease 0;
        SpinLockAcquire 1; StoreSentPtr 1 {| xlogid := 0; xrecoff := 0 |};
        StoreState 1 WALSNDSTATE_STARTUP; SpinLockRelease 1; OwnLatch 1;
        on_shmem_exit_WalSndKill] s).
Proof.
  intros s.
  destruct (InitWalSnd_acquires_first_free s eq_refl) as (Hfound & _).
  apply (Hfound 1%nat free_slot).
  - reflexivity.
  - reflexivity.
  - intros j w' Hj Hlook. destruct j as [| j]; [| lia].
    inversion Hlook. vm_compute. discriminate.
Defined.

(** C7 (amended) at an input: a default build, a sender that has seen
    [SIGUSR2], 300 bytes behind; the framer sends them and reports
    [caughtup], and the turn ends with "COPY 0" and status 0. *)
Lemma WalSndLoop_final_flush_witness :
  let start := {| xlogid := 0; xrecoff := 16777216 |} in
  let flushed := {| xlogid := 0; xrecoff := 16777516 |} in
  let s := set_ready_to_stop true (sender_at start) in
  let c := {| sendFile := 3; sendId := 0; sendSeg := 1; sendOff := 300 |} in
  let s1 := frame_sent (send_env flushed 0) start flushed (repeat Byte.x00 300) c s in
  @WalSndLoop_turn default_params (loop_env flushed) false s =
  Exit 0 (emit (pq_flush_called 0)
            (emit (pq_putmessage "C" (TextBody "COPY 0"))
               (set_shutdown_requested true s1))) /\
  sentPtr s1 = flushed.
Proof.
  intros start flushed s c s1.
  destruct (@WalSndLoop_final_flush default_params (loop_env flushed) false s s
              eq_refl eq_refl) as (_ & Hstop).
  destruct (Hstop eq_refl (true, true) s1 s1) as (_ & Hcaught & _).
  - vm_compute. reflexivity.
  - reflexivity.
  - destruct (Hcaught eq_refl eq_refl) as (_ & Hturn).
    split; [exact Hturn | reflexivity].
Defined.

(** C3 at an input: a default build, one free slot, a client that asks
    for replication from the start of segment 1, and one turn of the loop
    with 300 bytes flushed beyond it; the slot ends up holding the flush
    position. *)
Lemma published_sentPtr_nondecreasing_witness :
  let start := {| xlogid := 0; xrecoff := 16777216 |} in
  let flushed := {| xlogid := 0; xrecoff := 16777516 |} in
  let env := {| RecoveryInProgress := false;
                handshake := [start_replication start];
                streaming := [loop_env flushed] |} in
  let s := final_state (@WalSenderMain default_params env (fresh_sender 4242 [free_slot])) in
  stores_of 0 (trace s) = [{| xlogid := 0; xrecoff := 0 |}; start; flushed] /\
  nondecreasing (stores_of 0 (trace s)) = true /\
  ws_sentPtr <$> WalSndCtl s = [flushed].
Proof.
  intros start flushed env s.
  destruct (@published_sentPtr_nondecreasing default_params default_params_ok env 4242
              [free_slot]) as (Hsorted & _ & _ & Hfields & _).
  - intros h p Hin Hcmd. apply list_elem_of_singleton in Hin. subst h.
    inversion Hcmd. split; cbn; lia.
  - intros e Hin. apply list_elem_of_singleton in Hin. subst e.
    split; split; cbn; lia.
  - split; [vm_compute; reflexivity |]. split; [apply Hsorted |].
    fold s in Hfields. rewrite Hfields. vm_compute. reflexivity.
Defined.

(** ** The scenarios of the specification, on a default build *)

(** A large batch: 200000 bytes pending give a frame of 131072 bytes,
    then the tail of 68928 bytes. *)
Example slice_large_batch :
  @XLogSend_slice default_params
    {| xlogid := 0; xrecoff := 16777216 |} {| xlogid := 0; xrecoff := 16977216 |} =
  ({| xlogid := 0; xrecoff := 16777216 |}, {| xlogid := 0; xrecoff := 16908288 |}, false).
Proof. vm_compute. reflexivity. Qed.

Example slice_tail :
  @XLogSend_slice default_params
    {| xlogid := 0; xrecoff := 16908288 |} {| xlogid := 0; xrecoff := 16977216 |} =
  ({| xlogid := 0; xrecoff := 16908288 |}, {| xlogid := 0; xrecoff := 16977216 |}, true).
Proof. vm_compute. reflexivity. Qed.

(** The log id boundary: 1000 bytes before the end of log file 5 the
    frame is cut at [XLogFileSize]; from there the next frame starts at
    [(6, 0)]. *)
Example slice_before_logid_boundary :
  @XLogSend_slice default_params
    {| xlogid := 5; xrecoff := 4278189080 |} {| xlogid := 6; xrecoff := 5000 |} =
  ({| xlogid := 5; xrecoff := 4278189080 |}, {| xlogid := 5; xrecoff := 4278190080 |}, false).
Proof. vm_compute. reflexivity. Qed.

Example slice_after_logid_boundary :
  @XLogSend_slice default_params
    {| xlogid := 5; xrecoff := 4278190080 |} {| xlogid := 6; xrecoff := 5000 |} =
  ({| xlogid := 6; xrecoff := 0 |}, {| xlogid := 6; xrecoff := 5000 |}, true).
Proof. vm_compute. reflexivity. Qed.

(** A segment recycled while it is read: every system call goes well
    and the last removed segment has caught up with the segment read. *)
Example read_of_recycled_segment :
  exists c calls,
    @XLogRead default_params
      {| ThisTimeLineID := 1; BasicOpenFile := fun _ _ _ _ => (3, 0);
         lseek := fun _ _ startoff => startoff;
         read := fun _ _ count => ReadGives (repeat Byte.x00 (Z.to_nat count));
         XLogGetLastRemoved := (0, 1) |}
      initial_cursor {| xlogid := 0; xrecoff := 16777216 |} 300 =
    ReadErr (SegmentAlreadyRemoved 0 1) c calls /\
    forallb syscall_ok calls = true.
Proof. eexists _, _. split; vm_compute; reflexivity. Qed.

(** * Further properties of the code *)

(** ** The slot table *)

Lemma WalSndState_eqb_eq (a b : WalSndState) : WalSndState_eqb a b = true <-> a = b.
Proof. destruct a, b; cbn; split; intros E; try reflexivity; discriminate. Qed.

Lemma alter_as_insert {A : Type} (f : A -> A) (l : list A) :
  forall (k : nat) (x : A), l !! k = Some x -> alter f k l = <[k := f x]> l.
Proof.
  induction l as [| a l IH]; intros [| k] x Hk; try discriminate.
  - inversion Hk; subst. reflexivity.
  - cbn in *. f_equal. apply IH. exact Hk.
Qed.

(** X1. [WalSndSetState] leaves the slot of the sender in the state
    asked for and touches no other field and no other slot. When the
    slot is already in that state nothing happens at all, the spinlock is
    not taken; otherwise the store is made under the spinlock of the slot.
    Setting the same state again changes nothing. *)
Theorem WalSndSetState_spec (state : WalSndState) (s : Sender) (i : nat) (w : WalSnd) :
  MyWalSnd s = Some i -> WalSndCtl s !! i = Some w ->
  let s' := WalSndSetState state s in
  WalSndCtl s' = <[i := store_state w state]> (WalSndCtl s) /\
  (ws_state w = state -> s' = s) /\
  (ws_state w <> state ->
   events_since s s' = [SpinLockAcquire i; StoreState i state; SpinLockRelease i]) /\
  WalSndSetState state s' = s'.
Proof.
  intros Hm Hi s'.
  assert (Hlt : (i < length (WalSndCtl s))%nat) by (eapply lookup_lt_Some; exact Hi).
  assert (Hs' : s' = if WalSndState_eqb (ws_state w) state then s
                     else with_slots (<[i := store_state w state]> (WalSndCtl s)) (Some i)
                            [SpinLockAcquire i; StoreState i state; SpinLockRelease i] s).
  { subst s'. unfold WalSndSetState, my_slot. rewrite Hm, Hi.
    destruct (WalSndState_eqb (ws_state w) state); [reflexivity |].
    destruct s as [table mine pid sp cur hup shut stop tr]. cbn in Hm, Hi. subst mine.
    state_compute. f_equal.
    - apply (alter_as_insert (fun w0 => store_state w0 state) table i w Hi).
    - rewrite <- !app_assoc. reflexivity. }
  clearbody s'.
  destruct (WalSndState_eqb (ws_state w) state) eqn:Heq.
  - apply WalSndState_eqb_eq in Heq. rewrite Hs'. clear Hs' s'.
    split; [| split; [| split]].
    + symmetry. apply list_insert_id. rewrite Hi. f_equal.
      destruct w. cbn in *. subst. reflexivity.
    + reflexivity.
    + intros Hne. contradiction.
    + unfold WalSndSetState, my_slot. rewrite Hm, Hi.
      apply WalSndState_eqb_eq in Heq. rewrite Heq. reflexivity.
  - rewrite Hs'. split; [reflexivity |]. split; [| split].
    + intros E. apply WalSndState_eqb_eq in E. congruence.
    + intros _. apply events_since_app. reflexivity.
    + unfold WalSndSetState, my_slot. cbn [MyWalSnd WalSndCtl with_slots].
      rewrite list_lookup_insert_eq by exact Hlt. cbn [ws_state store_state].
      assert (Hrefl : WalSndState_eqb state state = true) by (apply WalSndState_eqb_eq; reflexivity).
      rewrite Hrefl. reflexivity.
Qed.

(** The way [InitWalSnd] goes when slot [k] is the first free one. *)
Lemma InitWalSnd_first_free (s : Sender) (k : nat) (w : WalSnd) :
  MyWalSnd s = None -> WalSndCtl s !! k = Some w -> ws_pid w = 0 ->
  (forall j w', (j < k)%nat -> WalSndCtl s !! j = Some w' -> ws_pid w' <> 0) ->
  exists s1, InitWalSnd s = Return tt s1 /\ MyWalSnd s1 = Some k /\
             WalSndCtl s1 = <[k := acquired_slot (MyProcPid s) w]> (WalSndCtl s).
Proof.
  intros Hnone Hk Hfree Hbefore. unfold InitWalSnd.
  rewrite (InitWalSnd_scan_found _ 0 s k w); try assumption; try lia.
  - cbn [MyWalSnd with_slots]. eexists. split; [reflexivity |]. split; reflexivity.
  - intros j w' Hj. apply Hbefore. lia.
Qed.

(** X2. Acquire, then release: after [InitWalSnd] and the exit hook
    [WalSndKill], the [pid] fields of the table are what they were,
    [MyWalSnd] is reset, and a new [InitWalSnd] gets the same slot
    again. *)
Theorem InitWalSnd_WalSndKill_round_trip (s s1 : Sender) :
  MyWalSnd s = None -> InitWalSnd s = Return tt s1 ->
  let s2 := WalSndKill s1 in
  MyWalSnd s2 = None /\
  ws_pid <$> WalSndCtl s2 = ws_pid <$> WalSndCtl s /\
  exists s3, InitWalSnd s2 = Return tt s3 /\ MyWalSnd s3 = MyWalSnd s1.
Proof.
  intros Hnone Hrun s2.
  destruct (InitWalSnd_Return_inv s s1 Hnone Hrun) as (k & w & Hk & Hfree & Hbefore & ->).
  assert (Hlt : (k < length (WalSndCtl s))%nat) by (eapply lookup_lt_Some; exact Hk).
  assert (Htable : WalSndCtl s2 =
                   <[k := release_slot (acquired_slot (MyProcPid s) w)]> (WalSndCtl s)).
  { subst s2. unfold WalSndKill. cbn [MyWalSnd WalSndCtl with_slots set_MyWalSnd set_WalSndCtl].
    rewrite (alter_as_insert release_slot _ k (acquired_slot (MyProcPid s) w)).
    - apply list_insert_insert_eq.
    - apply list_lookup_insert_eq. exact Hlt. }
  assert (Hmine : MyWalSnd s2 = None) by reflexivity.
  split; [exact Hmine |]. split.
  - rewrite Htable, list_fmap_insert. cbn [ws_pid release_slot].
    apply list_insert_id. rewrite list_lookup_fmap, Hk. cbn. rewrite Hfree. reflexivity.
  - destruct (InitWalSnd_first_free s2 k (release_slot (acquired_slot (MyProcPid s) w)))
      as (s3 & Hrun3 & Hm3 & _).
    + exact Hmine.
    + rewrite Htable. apply list_lookup_insert_eq. exact Hlt.
    + reflexivity.
    + intros j w' Hj. rewrite Htable, list_lookup_insert_ne by lia. apply Hbefore. exact Hj.
    + exists s3. split; [exact Hrun3 |]. rewrite Hm3. reflexivity.
Qed.

(** X3. Two senders never share a slot: when a process with a pid other
    than 0 has acquired a slot and another process then runs
    [InitWalSnd] on the table, it gets another slot, and the slot of the
    first is left as it was. *)
Theorem InitWalSnd_distinct_slots (sA sA' sB sB' : Sender) :
  MyWalSnd sA = None -> MyProcPid sA <> 0 -> InitWalSnd sA = Return tt sA' ->
  MyWalSnd sB = None -> WalSndCtl sB = WalSndCtl sA' -> InitWalSnd sB = Return tt sB' ->
  exists a b,
    MyWalSnd sA' = Some a /\ MyWalSnd sB' = Some b /\ a <> b /\
    WalSndCtl sB' !! a = WalSndCtl sA' !! a /\
    (ws_pid <$> WalSndCtl sB' !! a) = Some (MyProcPid sA) /\
    (ws_pid <$> WalSndCtl sB' !! b) = Some (MyProcPid sB).
Proof.
  intros HnA HpidA HrunA HnB Htable HrunB.
  destruct (InitWalSnd_Return_inv sA sA' HnA HrunA) as (a & wa & Ha & _ & _ & ->).
  destruct (InitWalSnd_Return_inv sB sB' HnB HrunB) as (b & wb & Hb & Hfreeb & _ & ->).
  cbn [WalSndCtl with_slots] in Htable.
  assert (Hlta : (a < length (WalSndCtl sA))%nat) by (eapply lookup_lt_Some; exact Ha).
  assert (Hltb : (b < length (WalSndCtl sB))%nat) by (eapply lookup_lt_Some; exact Hb).
  assert (Hne : a <> b).
  { intros ->. rewrite Htable, list_lookup_insert_eq in Hb by exact Hlta.
    inversion Hb; subst wb. cbn in Hfreeb. contradiction. }
  exists a, b. cbn [MyWalSnd WalSndCtl with_slots].
  split; [reflexivity |]. split; [reflexivity |]. split; [exact Hne |].
  rewrite list_lookup_insert_ne by (intros E; apply Hne; symmetry; exact E).
  rewrite Htable. rewrite Htable, length_insert in Hltb. split; [reflexivity |].
  split.
  - rewrite list_lookup_insert_eq by exact Hlta. reflexivity.
  - rewrite list_lookup_insert_eq by (rewrite length_insert; exact Hltb). reflexivity.
Qed.

Lemma alter_fixed {A : Type} (f : A -> A) (l : list A) :
  (forall x, x ∈ l -> f x = x) -> forall i : nat, alter f i l = l.
Proof.
  induction l as [| a l IH]; intros Hfix [| i]; try reflexivity.
  - cbn. f_equal. apply Hfix. left.
  - cbn. f_equal. apply IH. intros x Hx. apply Hfix. right. exact Hx.
Qed.

Lemma WalSndShmemInit_loop_fixed (n : nat) :
  forall (i : nat) (table : list WalSnd),
    (forall w, w ∈ table -> init_latch w = w) -> WalSndShmemInit_loop n i table = table.
Proof.
  induction n as [| n IH]; intros i table Hfix; [reflexivity |].
  cbn [WalSndShmemInit_loop]. rewrite (alter_fixed init_latch table Hfix). apply IH. exact Hfix.
Qed.

Lemma WalSndShmemInit_first_time (n : nat) (region : list WalSnd) :
  WalSndShmemInit false n region = replicate n zeroed_slot.
Proof.
  unfold WalSndShmemInit. apply WalSndShmemInit_loop_fixed.
  intros w Hw. apply elem_of_replicate in Hw. destruct Hw as [-> _]. reflexivity.
Qed.

(** The way [InitWalSnd] fails: no slot is free. *)
Lemma InitWalSnd_full (s : Sender) :
  MyWalSnd s = None ->
  (forall w, w ∈ WalSndCtl s -> ws_pid w <> 0) ->
  exists r s1, InitWalSnd s = Raise FATAL r s1.
Proof.
  intros Hnone Hall. unfold InitWalSnd.
  rewrite (InitWalSnd_scan_full _ 0 s); try lia.
  - cbn [MyWalSnd with_slots]. rewrite Hnone. eexists _, _. reflexivity.
  - intros j w' _ Hj. apply Hall. apply list_elem_of_lookup. eauto.
Qed.

Lemma acquire_all_from (pids : list Z) :
  Forall (fun pid => pid <> 0) pids ->
  forall (taken : list WalSnd) (m : nat),
    Forall (fun w => ws_pid w <> 0) taken ->
    acquire_all pids (taken ++ replicate m zeroed_slot) =
    (Some <$> seq (length taken) (min m (length pids))) ++
    replicate (length pids - m) None.
Proof.
  induction 1 as [| pid rest Hpid Hrest IH]; intros taken m Htaken.
  - rewrite Nat.min_0_r. reflexivity.
  - cbn [acquire_all length]. destruct m as [| m].
    + cbn [replicate]. rewrite app_nil_r.
      destruct (InitWalSnd_full (fresh_sender pid taken)) as (r & s1 & ->).
      * reflexivity.
      * intros w Hw. rewrite Forall_forall in Htaken. apply Htaken. exact Hw.
      * specialize (IH taken 0%nat Htaken). cbn [replicate] in IH. rewrite app_nil_r in IH.
        rewrite IH. cbn. rewrite Nat.sub_0_r. reflexivity.
    + destruct (InitWalSnd_first_free (fresh_sender pid (taken ++ replicate (S m) zeroed_slot))
                  (length taken) zeroed_slot) as (s1 & -> & -> & ->).
      * reflexivity.
      * cbn [WalSndCtl fresh_sender]. rewrite lookup_app_r by lia.
        rewrite Nat.sub_diag. reflexivity.
      * reflexivity.
      * intros j w' Hj. cbn [WalSndCtl fresh_sender]. rewrite lookup_app_l by exact Hj.
        intros Hlook. rewrite Forall_forall in Htaken. apply Htaken.
        apply list_elem_of_lookup. eauto.
      * cbn [WalSndCtl MyProcPid fresh_sender replicate].
        replace (<[length taken := acquired_slot pid zeroed_slot]>
                   (taken ++ zeroed_slot :: replicate m zeroed_slot))
          with ((taken ++ [acquired_slot pid zeroed_slot]) ++ replicate m zeroed_slot).
        2: { rewrite insert_app_r_alt by lia. rewrite Nat.sub_diag, <- app_assoc. reflexivity. }
        rewrite IH.
        -- rewrite length_app. cbn [length]. rewrite Nat.add_1_r. reflexivity.
        -- apply Forall_app. split; [exact Htaken |]. constructor; [exact Hpid | constructor].
Qed.

(** X4. The table made by [WalSndShmemInit] serves exactly
    [max_wal_senders] walsenders: of the processes that call
    [InitWalSnd] one after the other on a table just initialised with [n]
    slots, the first [n] get the slots 0, 1, ..., n-1 in that order, and
    every later one is refused. *)
Theorem WalSndShmemInit_capacity (n : nat) (region : list WalSnd) (pids : list Z) :
  Forall (fun pid => pid <> 0) pids ->
  acquire_all pids (WalSndShmemInit false n region) =
  (Some <$> seq 0 (min n (length pids))) ++ replicate (length pids - n) None.
Proof.
  intros Hpids. rewrite WalSndShmemInit_first_time.
  apply (acquire_all_from pids Hpids [] n). constructor.
Qed.

Lemma WalSndWakeup_loop_spec (n : nat) :
  forall (done rest : list WalSnd),
    length rest = n ->
    WalSndWakeup_loop n (length done) (done ++ rest) = done ++ (set_latch true <$> rest).
Proof.
  induction n as [| n IH]; intros done rest Hlen.
  - destruct rest; [reflexivity | discriminate].
  - destruct rest as [| w rest]; [discriminate |]. cbn [WalSndWakeup_loop].
    replace (alter (set_latch true) (length done) (done ++ w :: rest))
      with ((done ++ [set_latch true w]) ++ rest).
    2: { rewrite <- app_assoc. symmetry.
         rewrite (alter_as_insert _ _ (length done) w).
         - rewrite insert_app_r_alt by lia. rewrite Nat.sub_diag. reflexivity.
         - rewrite lookup_app_r by lia. rewrite Nat.sub_diag. reflexivity. }
    replace (S (length done)) with (length (done ++ [set_latch true w])).
    2: { rewrite length_app. cbn. lia. }
    rewrite IH by (cbn in Hlen; lia).
    rewrite <- app_assoc. reflexivity.
Qed.

(** X5. [WalSndWakeup] sets the latch of every slot of the table, of
    the slots not in use too, and changes nothing else: no pid, state,
    sent position or latch owner, and not the size of the table. A second
    wake-up changes nothing more. *)
Theorem WalSndWakeup_sets_every_latch (table : list WalSnd) :
  let table' := WalSndWakeup table in
  length table' = length table /\
  (forall (i : nat) (w : WalSnd),
     table !! i = Some w ->
     exists w', table' !! i = Some w' /\
       is_set (ws_latch w') = true /\
       owner_pid (ws_latch w') = owner_pid (ws_latch w) /\
       ws_pid w' = ws_pid w /\ ws_state w' = ws_state w /\ ws_sentPtr w' = ws_sentPtr w) /\
  WalSndWakeup table' = table'.
Proof.
  assert (Hmap : forall t, WalSndWakeup t = set_latch true <$> t).
  { intros t. unfold WalSndWakeup. apply (WalSndWakeup_loop_spec (length t) [] t). reflexivity. }
  cbn zeta. rewrite !Hmap. split; [apply length_fmap |]. split.
  - intros i w Hi. exists (set_latch true w). rewrite list_lookup_fmap, Hi.
    repeat split; reflexivity.
  - rewrite <- list_fmap_compose. apply list_fmap_ext. intros i w _. reflexivity.
Qed.

(** ** The framer across calls *)

Section FramerProgress.
Context `{P : XLogParams}.
Hypothesis params_ok : XLogParamsOk.

Lemma XLByteLT_true (a b : XLogRecPtr) :
  XLByteLT a b = true <->
  xlogid a < xlogid b \/ (xlogid a = xlogid b /\ xrecoff a < xrecoff b).
Proof. unfold XLByteLT. rewrite orb_true_iff, andb_true_iff. lia. Qed.

(** The start of the slice: [sentPtr], or the start of the next log id
    when [sentPtr] is at the end of a log file. *)
Lemma XLogSend_slice_start (sent SendRqstPtr startptr endptr : XLogRecPtr) (caughtup : bool) :
  XLogSend_slice sent SendRqstPtr = (startptr, endptr, caughtup) ->
  startptr = if XLogFileSize <=? xrecoff sent
             then {| xlogid := uint32 (xlogid sent + 1); xrecoff := 0 |} else sent.
Proof.
  unfold XLogSend_slice.
  match goal with |- context [XLByteLE SendRqstPtr ?e] => destruct (XLByteLE SendRqstPtr e) end;
    intros E; inversion E; reflexivity.
Qed.

(** X6. [XLogSend] makes progress and keeps its precondition: whenever
    it returns, [sentPtr] is again a position a process can hold; when the
    flush position is not after [sentPtr] the call does nothing at all;
    and when it is, a call that returns true has moved [sentPtr] strictly
    forward, and never beyond the flush position. *)
Theorem XLogSend_progress (env : SendEnv) (s : Sender) (r : bool * bool) (s' : Sender) :
  is_recptr (sentPtr s) -> valid_recptr (GetFlushRecPtr env) ->
  XLogSend env s = Return r s' ->
  is_recptr (sentPtr s') /\
  (XLByteLE (GetFlushRecPtr env) (sentPtr s) = true -> r = (true, true) /\ s' = s) /\
  (XLByteLE (GetFlushRecPtr env) (sentPtr s) = false -> fst r = true ->
   XLByteLT (sentPtr s) (sentPtr s') = true /\
   XLByteLE (sentPtr s') (GetFlushRecPtr env) = true).
Proof.
  intros Hsent Hreq Hrun. apply XLogSend_Return_inv in Hrun.
  destruct Hrun as [(Hle & -> & ->) | (Hle & startptr & endptr & caughtup & data & c & calls
                                        & Hslice & _ & Hflush)].
  - split; [exact Hsent |]. split; [auto |]. intros Hlt. congruence.
  - pose proof (XLogSend_slice_facts params_ok _ _ Hsent Hreq Hle _ _ _ Hslice) as Hf.
    destruct Hflush as [(_ & -> & ->) | (_ & -> & ->)].
    + split; [exact Hsent |]. split; [intros E; congruence |]. intros _ E. discriminate.
    + rewrite sentPtr_frame_sent. destruct Hf. destruct params_ok.
      split; [| split].
      * unfold is_recptr. lia.
      * intros E. congruence.
      * intros _ _. split; [| exact sf_below_request0].
        apply XLByteLT_true. apply XLByteLE_true in sf_start_after0.
        destruct caughtup.
        -- rewrite (sf_caughtup0 eq_refl). apply XLByteLE_false in Hle. lia.
        -- destruct (sf_behind0 eq_refl) as (_ & Hlt & _). lia.
Qed.

(** X7. Successive frames are contiguous: when a call of [XLogSend]
    has sent a frame and returned true, the frame of the next call that
    sends one starts where the first ended; or, when the first ended at the
    very end of a log file, at offset 0 of the next log id (the number of
    which wraps at 32 bits). No byte is sent twice and none is left out. *)
Theorem XLogSend_frames_contiguous (env1 env2 : SendEnv) (s s1 s2 : Sender)
    (caughtup1 : bool) (r2 : bool * bool)
    (hdr1 hdr2 : WalDataMessageHeader) (data1 data2 : list Byte.byte) :
  is_recptr (sentPtr s) ->
  valid_recptr (GetFlushRecPtr env1) -> valid_recptr (GetFlushRecPtr env2) ->
  XLogSend env1 s = Return (true, caughtup1) s1 ->
  pq_putmessage "d" (WalDataBody "w" hdr1 data1) ∈ events_since s s1 ->
  XLogSend env2 s1 = Return r2 s2 ->
  pq_putmessage "d" (WalDataBody "w" hdr2 data2) ∈ events_since s1 s2 ->
  let end1 := frame_end hdr1 data1 in
  (xrecoff end1 < XLogFileSize /\ dataStart hdr2 = end1) \/
  (xrecoff end1 = XLogFileSize /\
   dataStart hdr2 = {| xlogid := uint32 (xlogid end1 + 1); xrecoff := 0 |}).
Proof.
  intros Hsent Hreq1 Hreq2 Hrun1 Hin1 Hrun2 Hin2 end1.
  destruct (XLogSend_frame params_ok env1 s _ s1 hdr1 data1 Hsent Hreq1 Hrun1 Hin1)
    as (st1 & en1 & _ & _ & Hf1 & _ & _ & Hend1 & Hs1).
  specialize (Hs1 eq_refl). fold end1 in Hend1.
  assert (Hsent1 : is_recptr (sentPtr s1)).
  { rewrite Hs1. destruct Hf1, params_ok. unfold is_recptr. lia. }
  destruct (XLogSend_frame params_ok env2 s1 r2 s2 hdr2 data2 Hsent1 Hreq2 Hrun2 Hin2)
    as (st2 & en2 & _ & Hslice2 & _ & Hhdr2 & _).
  apply XLogSend_slice_start in Hslice2.
  rewrite Hhdr2. cbn [dataStart]. rewrite Hslice2, Hs1, Hend1.
  destruct (Z.leb_spec XLogFileSize (xrecoff en1)) as [Hge | Hlt].
  - right. destruct Hf1. split; [lia | reflexivity].
  - left. split; [exact Hlt | reflexivity].
Qed.

(** X8. A sender that has caught up stays so: after a call of
    [XLogSend] that returned true with [*caughtup] true, a further call
    made while the flush position has not advanced returns at once with the
    same answer: nothing is read, nothing is sent, the state is as it
    was. *)
Theorem XLogSend_caught_up_is_stable (env env' : SendEnv) (s s' : Sender) :
  XLogSend env s = Return (true, true) s' ->
  XLByteLE (GetFlushRecPtr env') (GetFlushRecPtr env) = true ->
  XLogSend env' s' = Return (true, true) s'.
Proof.
  intros Hrun Hflush. apply XLogSend_caughtup in Hrun.
  unfold XLogSend.
  rewrite (XLByteLE_trans _ _ _ Hflush Hrun). reflexivity.
Qed.

End FramerProgress.

(** ** The log reader and the content of the WAL *)

Section ReaderContent.
Context `{P : XLogParams}.
Hypothesis params_ok : XLogParamsOk.

Lemma file_size_small : 0 < XLogFileSize < 4294967296.
Proof. destruct params_ok. lia. Qed.

Lemma seg_step (o k : Z) :
  0 <= o -> 0 <= k -> o mod XLogSegSize + k < XLogSegSize ->
  (o + k) / XLogSegSize = o / XLogSegSize /\
  (o + k) mod XLogSegSize = o mod XLogSegSize + k.
Proof.
  intros Ho Hk Hlt. destruct params_ok.
  pose proof (Z_div_mod_eq_full o XLogSegSize) as Hdm.
  pose proof (Z.mod_pos_bound o XLogSegSize seg_pos0) as Hb.
  assert (E : o + k = XLogSegSize * (o / XLogSegSize) + (o mod XLogSegSize + k)) by lia.
  split; symmetry.
  - apply (Z.div_unique_pos (o + k) XLogSegSize (o / XLogSegSize) (o mod XLogSegSize + k));
      [lia | exact E].
  - apply (Z.mod_unique_pos (o + k) XLogSegSize (o / XLogSegSize) (o mod XLogSegSize + k));
      [lia | exact E].
Qed.

(** The segment of a position inside a log file ends inside it. *)
Lemma seg_end_in_file (o : Z) :
  0 <= o < XLogFileSize -> o - o mod XLogSegSize + XLogSegSize <= XLogFileSize.
Proof.
  intros Ho. destruct params_ok.
  pose proof (Z_div_mod_eq_full o XLogSegSize) as Hdm.
  pose proof (Z.mod_pos_bound o XLogSegSize seg_pos0) as Hb.
  pose proof (Z_div_mod_eq_full XLogFileSize XLogSegSize) as Hf.
  rewrite file_seg0 in Hf.
  assert (Hq : o / XLogSegSize < XLogFileSize / XLogSegSize).
  { apply Z.div_lt_upper_bound; lia. }
  nia.
Qed.

Lemma seg_size_le_file : XLogSegSize <= XLogFileSize.
Proof.
  pose proof (seg_end_in_file 0) as Hse. destruct params_ok.
  rewrite Z.mod_0_l in Hse by lia. lia.
Qed.

Lemma XLByteAdvance_within (p : XLogRecPtr) (n : Z) :
  readable_recptr p -> 0 <= n -> xrecoff p + n <= XLogFileSize ->
  XLByteAdvance p n =
  if XLogFileSize <=? xrecoff p + n
  then {| xlogid := uint32 (xlogid p + 1); xrecoff := 0 |}
  else {| xlogid := xlogid p; xrecoff := xrecoff p + n |}.
Proof.
  intros [Hl Ho] Hn Hend. pose proof file_size_small as Hfs.
  unfold XLByteAdvance. rewrite (uint32_small (xrecoff p + n)) by lia.
  destruct (Z.leb_spec XLogFileSize (xrecoff p + n)) as [Hge | Hlt]; [| reflexivity].
  replace (xrecoff p + n - XLogFileSize) with 0 by lia. reflexivity.
Qed.

Lemma XLByteAdvance_readable (p : XLogRecPtr) (n : Z) :
  readable_recptr p -> 0 <= n -> xrecoff p + n <= XLogFileSize ->
  readable_recptr (XLByteAdvance p n).
Proof.
  intros Hp Hn Hend. rewrite XLByteAdvance_within by assumption.
  pose proof file_size_small as Hfs. destruct Hp as [Hl Ho].
  destruct (Z.leb_spec XLogFileSize (xrecoff p + n)); split; cbn; try lia.
  apply uint32_range.
Qed.

Lemma XLByteAdvance_0 (p : XLogRecPtr) : readable_recptr p -> XLByteAdvance p 0 = p.
Proof.
  intros Hp. rewrite XLByteAdvance_within; [| exact Hp | lia | destruct Hp; lia].
  destruct Hp as [_ Ho].
  destruct (Z.leb_spec XLogFileSize (xrecoff p + 0)); [lia |].
  destruct p. cbn. f_equal. lia.
Qed.

Lemma XLByteAdvance_compose (p : XLogRecPtr) (a b : Z) :
  readable_recptr p -> 0 <= a -> 0 <= b -> xrecoff p + a + b <= XLogFileSize ->
  XLByteAdvance (XLByteAdvance p a) b = XLByteAdvance p (a + b).
Proof.
  intros Hp Ha Hb Hend. pose proof file_size_small as Hfs.
  pose proof (XLByteAdvance_readable p a Hp Ha ltac:(lia)) as Hpa.
  rewrite (XLByteAdvance_within p (a + b)) by (try assumption; lia).
  rewrite (XLByteAdvance_within p a) in * by (try assumption; lia).
  destruct Hp as [Hl Ho].
  destruct (Z.leb_spec XLogFileSize (xrecoff p + a)) as [Hge | Hlt].
  - assert (b = 0) by lia. subst b. rewrite XLByteAdvance_0 by exact Hpa.
    destruct (Z.leb_spec XLogFileSize (xrecoff p + (a + 0))); [reflexivity | lia].
  - rewrite XLByteAdvance_within; [| exact Hpa | exact Hb | cbn; lia].
    cbn [xlogid xrecoff]. rewrite Z.add_assoc. reflexivity.
Qed.

Lemma file_bytes_length (wal : WalContent) (segment : Z * Z) (n : nat) :
  forall off, length (file_bytes wal segment off n) = n.
Proof. induction n as [| n IH]; intros off; cbn; [reflexivity | rewrite IH; reflexivity]. Qed.

Lemma file_bytes_take (wal : WalContent) (segment : Z * Z) (m : nat) :
  forall (n : nat) (off : Z),
    take m (file_bytes wal segment off n) = file_bytes wal segment off (min m n).
Proof.
  induction m as [| m IH]; intros [| n] off; try reflexivity.
  cbn. rewrite IH. reflexivity.
Qed.

(** The bytes of a segment file are the bytes of the WAL at the
    position. *)
Lemma file_bytes_wal_range (wal : WalContent) (k : nat) :
  forall recptr : XLogRecPtr,
    readable_recptr recptr ->
    xrecoff recptr mod XLogSegSize + Z.of_nat k <= XLogSegSize ->
    file_bytes wal (xlogid recptr, xrecoff recptr / XLogSegSize)
      (xrecoff recptr mod XLogSegSize) k =
    wal_range wal recptr k.
Proof.
  induction k as [| k IH]; intros recptr Hp Hk; [reflexivity |].
  cbn [file_bytes wal_range fst snd]. f_equal.
  destruct k as [| k]; [reflexivity |].
  destruct Hp as [Hl Ho].
  pose proof (seg_end_in_file (xrecoff recptr) Ho) as Hse.
  destruct (seg_step (xrecoff recptr) 1) as [Hdiv Hmod]; try lia.
  assert (Hmodb : 0 <= xrecoff recptr mod XLogSegSize).
  { destruct params_ok. apply Z.mod_pos_bound. lia. }
  assert (Hadv : XLByteAdvance recptr 1 =
                 {| xlogid := xlogid recptr; xrecoff := xrecoff recptr + 1 |}).
  { rewrite XLByteAdvance_within; [| split; assumption | lia | lia].
    destruct (Z.leb_spec XLogFileSize (xrecoff recptr + 1)); [lia | reflexivity]. }
  rewrite Hadv.
  rewrite <- (IH {| xlogid := xlogid recptr; xrecoff := xrecoff recptr + 1 |}).
  - cbn [xlogid xrecoff]. rewrite Hdiv, Hmod. reflexivity.
  - split; cbn; lia.
  - cbn [xrecoff]. rewrite Hmod. lia.
Qed.

Lemma wal_range_app (wal : WalContent) (a : nat) :
  forall (b : nat) (recptr : XLogRecPtr),
    readable_recptr recptr -> xrecoff recptr + Z.of_nat a <= XLogFileSize ->
    wal_range wal recptr (a + b) =
    wal_range wal recptr a ++ wal_range wal (XLByteAdvance recptr (Z.of_nat a)) b.
Proof.
  induction a as [| a IH]; intros b recptr Hp Hend.
  - cbn [wal_range app Nat.add Z.of_nat]. rewrite XLByteAdvance_0 by exact Hp. reflexivity.
  - cbn [wal_range app Nat.add]. f_equal.
    assert (Hp1 : readable_recptr (XLByteAdvance recptr 1)).
    { apply XLByteAdvance_readable; [exact Hp | lia | lia]. }
    assert (Hend1 : xrecoff (XLByteAdvance recptr 1) + Z.of_nat a <= XLogFileSize).
    { rewrite XLByteAdvance_within; [| exact Hp | lia | lia].
      pose proof file_size_small as Hfs.
      destruct (Z.leb_spec XLogFileSize (xrecoff recptr + 1)); cbn; lia. }
    rewrite (IH b _ Hp1 Hend1).
    rewrite XLByteAdvance_compose; [| exact Hp | lia | lia | lia].
    replace (1 + Z.of_nat a) with (Z.of_nat (S a)) by lia. reflexivity.
Qed.

Lemma kernel_after_snoc (k : Kernel) (calls : list SysCall) (sc : SysCall) :
  kernel_after k (calls ++ [sc]) = kernel_step (kernel_after k calls) sc.
Proof. unfold kernel_after. rewrite fold_left_app. reflexivity. Qed.

Lemma set_file_same (k : Kernel) (fd : Z) (f : option OpenFile) : set_file k fd f fd = f.
Proof. unfold set_file. rewrite Z.eqb_refl. reflexivity. Qed.

(** The descriptor the reader holds after the open and the seek of a
    turn: the kernel has it on the segment of the position, at the offset
    of the position. *)
Lemma XLogRead_turn_kernel (fs : FileSys) (wal : WalContent) (k0 : Kernel) (c : SendCursor)
    (calls : list SysCall) (recptr : XLogRecPtr) :
  serves_wal fs wal k0 -> cursor_agrees (kernel_after k0 calls) c -> readable_recptr recptr ->
  let log := xlogid recptr in
  let seg := xrecoff recptr / XLogSegSize in
  let startoff := xrecoff recptr mod XLogSegSize in
  let reopen := (sendFile c <? 0) || negb (XLByteInSeg recptr (sendId c) (sendSeg c)) in
  let calls0 :=
    calls ++ (if reopen && (0 <=? sendFile c) then [sys_close (sendFile c)] else []) in
  let ofd := fst (BasicOpenFile fs calls0 (ThisTimeLineID fs) log seg) in
  let errno := snd (BasicOpenFile fs calls0 (ThisTimeLineID fs) log seg) in
  let fd := if reopen then ofd else sendFile c in
  let off0 := if reopen then 0 else sendOff c in
  let calls1 := calls0 ++ (if reopen then [sys_open log seg ofd errno] else []) in
  let seek := negb (off0 =? startoff) in
  let calls2 :=
    calls1 ++ (if seek then [sys_lseek fd startoff (lseek fs calls1 fd startoff)] else []) in
  0 <= fd /\ (reopen && (ofd <? 0)) = false /\
  (seek && (lseek fs calls1 fd startoff <? 0)) = false /\
  kernel_after k0 calls2 fd = Some {| of_log := log; of_seg := seg; of_pos := startoff |}.
Proof.
  intros Hserved Hc [Hl Ho] log seg startoff reopen calls0 ofd errno fd off0 calls1 seek calls2.
  pose proof file_size_small as Hfs. destruct params_ok.
  pose proof (Z.mod_pos_bound (xrecoff recptr) XLogSegSize seg_pos0) as Hso.
  fold startoff in Hso.
  assert (Hseg : 0 <= seg < 4294967296).
  { subst seg. split; [apply Z.div_pos; lia |].
    apply Z.div_lt_upper_bound; [lia | nia]. }
  assert (H1 : 0 <= fd /\ (reopen && (ofd <? 0)) = false /\
               kernel_after k0 calls1 fd =
               Some {| of_log := log; of_seg := seg; of_pos := off0 |}).
  { subst fd off0 calls1. destruct reopen eqn:Hre.
    - assert (Hofd : 0 <= ofd) by (apply (sw_open _ _ _ Hserved); assumption).
      split; [exact Hofd |]. split; [cbn; apply Z.ltb_ge; exact Hofd |].
      rewrite kernel_after_snoc. cbn [kernel_step].
      destruct (Z.ltb_spec ofd 0); [lia |]. apply set_file_same.
    - subst reopen. apply orb_false_iff in Hre. destruct Hre as [Hf Hin].
      apply Z.ltb_ge in Hf. apply negb_false_iff in Hin. unfold XLByteInSeg in Hin.
      apply andb_true_iff in Hin. destruct Hin as [Hid Hsg].
      apply Z.eqb_eq in Hid, Hsg. split; [exact Hf |]. split; [reflexivity |].
      subst calls0. cbn [andb]. rewrite !app_nil_r.
      destruct Hc as [Hneg | Hc]; [lia |]. rewrite Hc. subst log seg. congruence. }
  destruct H1 as (Hfd & Hopen & Hk1).
  split; [exact Hfd |]. split; [exact Hopen |].
  subst calls2. destruct seek eqn:Hsk.
  - rewrite (sw_lseek _ _ _ Hserved calls1 fd _ startoff Hk1) by lia.
    split; [cbn; apply Z.ltb_ge; lia |].
    rewrite kernel_after_snoc. cbn [kernel_step]. rewrite Hk1.
    destruct (Z.ltb_spec startoff 0); [lia |]. apply set_file_same.
  - split; [reflexivity |]. rewrite app_nil_r. rewrite Hk1.
    subst seek. apply negb_false_iff, Z.eqb_eq in Hsk. rewrite Hsk. reflexivity.
Qed.

Lemma XLogRead_loop_content (fs : FileSys) (wal : WalContent) (k0 : Kernel) (fuel : nat) :
  serves_wal fs wal k0 ->
  forall (c : SendCursor) (buf : list Byte.byte) (calls : list SysCall)
         (recptr : XLogRecPtr) (nbytes : Z),
    (Z.to_nat nbytes <= fuel)%nat ->
    cursor_agrees (kernel_after k0 calls) c -> readable_recptr recptr ->
    exists c' calls',
      XLogRead_loop fuel fs c buf calls recptr nbytes =
        ReadOk (buf ++ wal_range wal recptr (Z.to_nat nbytes)) c' calls' /\
      cursor_agrees (kernel_after k0 calls') c'.
Proof.
  intros Hserved. pose proof file_size_small as Hfs.
  assert (Hdone : forall fuel c buf calls recptr nbytes, nbytes <= 0 ->
            XLogRead_loop fuel fs c buf calls recptr nbytes =
            ReadOk (buf ++ wal_range wal recptr (Z.to_nat nbytes)) c calls).
  { intros fuel0 c buf calls recptr nbytes Hle.
    replace (Z.to_nat nbytes) with 0%nat by lia. cbn [wal_range]. rewrite app_nil_r.
    destruct fuel0; cbn [XLogRead_loop];
      (destruct (Z.gtb_spec nbytes 0) as [Hpos | _]; [lia | reflexivity]). }
  induction fuel as [| fuel IH]; intros c buf calls recptr nbytes Hfuel Hc Hp.
  - exists c, calls. split; [apply Hdone; lia | exact Hc].
  - destruct (Z.le_gt_cases nbytes 0) as [Hle | Hpos].
    { exists c, calls. split; [apply Hdone; exact Hle | exact Hc]. }
    pose proof (XLogRead_loop_turn fuel fs c buf calls recptr nbytes Hpos) as Hturn.
    pose proof (XLogRead_turn_kernel fs wal k0 c calls recptr Hserved Hc Hp) as Hkern.
    cbv zeta in Hturn, Hkern. rewrite Hturn. clear Hturn.
    destruct Hkern as (Hfd & Hopen & Hseek & Hk2). rewrite Hopen, Hseek.
    destruct Hp as [Hl Ho]. destruct params_ok.
    pose proof (Z.mod_pos_bound (xrecoff recptr) XLogSegSize seg_pos0) as Hso.
    pose proof (seg_end_in_file (xrecoff recptr) Ho) as Hse.
    set (startoff := xrecoff recptr mod XLogSegSize) in *.
    set (seg := xrecoff recptr / XLogSegSize) in *.
    match type of Hk2 with kernel_after k0 ?l ?d = _ => set (calls2 := l) in *; set (fd := d) in * end.
    set (segbytes := Z.min nbytes (XLogSegSize - startoff)).
    assert (Hsb : 0 < segbytes /\ startoff + segbytes <= XLogSegSize) by (subst segbytes; lia).
    destruct (sw_read _ _ _ Hserved calls2 fd _ segbytes Hk2) as (n & Hn & Hread);
      cbn [of_pos]; try lia.
    cbn [of_log of_seg of_pos] in Hread.
    unfold read_call. rewrite Hread. cbn [fst snd].
    rewrite file_bytes_take, file_bytes_length.
    set (k := Nat.min (Z.to_nat segbytes) n).
    assert (Hk : (0 < k)%nat /\ Z.of_nat k <= segbytes) by (subst k; lia).
    destruct (Z.leb_spec (Z.of_nat k) 0) as [Hz | _]; [lia |].
    assert (Hpa : readable_recptr (XLByteAdvance recptr (Z.of_nat k))).
    { apply XLByteAdvance_readable; [split; assumption | lia | lia]. }
    pose proof seg_size_le_file as Hsf.
    match goal with
    | |- context [XLogRead_loop fuel fs ?c3 ?buf3 ?calls3 _ _] =>
        destruct (IH c3 buf3 calls3 (XLByteAdvance recptr (Z.of_nat k)) (nbytes - Z.of_nat k))
          as (c' & calls' & Hrun & Hc')
    end.
    + lia.
    + right. cbn [sendFile sendId sendSeg sendOff].
      rewrite kernel_after_snoc. cbn [kernel_step]. rewrite Hk2.
      destruct (Z.leb_spec (Z.of_nat k) 0); [lia |].
      rewrite set_file_same. cbn [of_log of_seg of_pos].
      rewrite uint32_small by lia. reflexivity.
    + exact Hpa.
    + exists c', calls'. split; [| exact Hc']. rewrite Hrun. f_equal.
      rewrite <- app_assoc. f_equal.
      replace (Z.to_nat nbytes) with (k + Z.to_nat (nbytes - Z.of_nat k))%nat by lia.
      rewrite wal_range_app; [| split; assumption | lia].
      f_equal. subst startoff seg. apply file_bytes_wal_range; [split; assumption | lia].
Qed.

(** X9. [XLogRead] returns the WAL: on a file system that holds the
    WAL, with a cursor on which the process and the kernel agree (no
    descriptor, or one open on the segment the cursor names with its file
    offset at [sendOff]), however few bytes each [read] delivers and
    however many segments (and log files) the range crosses, a read of
    [nbytes] bytes at a position inside a log file the segment of which has
    not been removed returns exactly the [nbytes] bytes of the WAL from
    that position on; and after the system calls of the call the process
    and the kernel agree on the cursor it leaves. *)
Theorem XLogRead_returns_the_wal (fs : FileSys) (wal : WalContent) (k0 : Kernel)
    (c : SendCursor) (recptr : XLogRecPtr) (nbytes : Z) :
  serves_wal fs wal k0 ->
  cursor_agrees k0 c -> readable_recptr recptr ->
  segment_removed (XLByteToSeg recptr) (XLogGetLastRemoved fs) = false ->
  exists c' calls,
    XLogRead fs c recptr nbytes = ReadOk (wal_range wal recptr (Z.to_nat nbytes)) c' calls /\
    cursor_agrees (kernel_after k0 calls) c'.
Proof.
  intros Hserved Hc Hp Hkept.
  destruct (XLogRead_loop_content fs wal k0 (Z.to_nat nbytes) Hserved
              c [] [] recptr nbytes (le_n _) Hc Hp) as (c' & calls & Hrun & Hc').
  exists c', calls. split; [| exact Hc'].
  unfold XLogRead. rewrite Hrun. cbn [app].
  unfold segment_removed, XLByteToSeg in *. cbn [fst snd] in Hkept.
  destruct (XLogGetLastRemoved fs) as [lastRemovedLog lastRemovedSeg]. cbn [fst snd] in Hkept.
  rewrite Hkept. reflexivity.
Qed.

Lemma XLogRead_loop_done (fuel : nat) (fs : FileSys) (c : SendCursor) (buf : list Byte.byte)
    (calls : list SysCall) (recptr : XLogRecPtr) (nbytes : Z) :
  nbytes <= 0 -> XLogRead_loop fuel fs c buf calls recptr nbytes = ReadOk buf c calls.
Proof.
  intros Hle. destruct fuel; cbn [XLogRead_loop];
    (destruct (Z.gtb_spec nbytes 0) as [Hpos | _]; [lia | reflexivity]).
Qed.

(** The cursor after a read of [k] bytes that ends before the end of
    the segment. *)
Lemma positioned_after_read (fd : Z) (recptr : XLogRecPtr) (k : Z) :
  0 <= fd -> readable_recptr recptr -> 0 <= k ->
  xrecoff recptr mod XLogSegSize + k < XLogSegSize ->
  positioned {| sendFile := fd; sendId := xlogid recptr;
                sendSeg := xrecoff recptr / XLogSegSize;
                sendOff := uint32 (xrecoff recptr mod XLogSegSize + k) |}
             (XLByteAdvance recptr k).
Proof.
  intros Hfd [Hl Ho] Hk Hlt. pose proof file_size_small as Hfs. destruct params_ok.
  pose proof (Z.mod_pos_bound (xrecoff recptr) XLogSegSize seg_pos0) as Hso.
  pose proof (seg_end_in_file (xrecoff recptr) Ho) as Hse.
  destruct (seg_step (xrecoff recptr) k) as [Hdiv Hmod]; try lia.
  rewrite XLByteAdvance_within; [| split; assumption | lia | lia].
  destruct (Z.leb_spec XLogFileSize (xrecoff recptr + k)); [lia |].
  pose proof (Z.mod_le (xrecoff recptr) XLogSegSize ltac:(lia) seg_pos0) as Hle.
  unfold positioned, XLByteInSeg. cbn [sendFile sendId sendSeg sendOff xlogid xrecoff].
  rewrite Hdiv, Hmod, !Z.eqb_refl, uint32_small by lia. auto.
Qed.

Lemma XLogRead_loop_positioned (fs : FileSys) (fuel : nat) :
  forall (c : SendCursor) (buf : list Byte.byte) (calls : list SysCall)
         (recptr : XLogRecPtr) (nbytes : Z),
    (Z.to_nat nbytes <= fuel)%nat -> readable_recptr recptr -> positioned c recptr ->
    0 <= nbytes -> xrecoff recptr mod XLogSegSize + nbytes <= XLogSegSize ->
    (exists reads,
       calls_of (XLogRead_loop fuel fs c buf calls recptr nbytes) = calls ++ reads /\
       forallb is_read reads = true) /\
    (forall buf' c' calls',
       XLogRead_loop fuel fs c buf calls recptr nbytes = ReadOk buf' c' calls' ->
       xrecoff recptr mod XLogSegSize + nbytes < XLogSegSize ->
       positioned c' (XLByteAdvance recptr nbytes)).
Proof.
  pose proof file_size_small as Hfs.
  assert (Hstop : forall fuel c buf calls recptr nbytes,
            readable_recptr recptr -> positioned c recptr -> nbytes = 0 ->
            (exists reads,
               calls_of (XLogRead_loop fuel fs c buf calls recptr nbytes) = calls ++ reads /\
               forallb is_read reads = true) /\
            (forall buf' c' calls',
               XLogRead_loop fuel fs c buf calls recptr nbytes = ReadOk buf' c' calls' ->
               xrecoff recptr mod XLogSegSize + nbytes < XLogSegSize ->
               positioned c' (XLByteAdvance recptr nbytes))).
  { intros fuel0 c buf calls recptr nbytes Hp Hc ->.
    rewrite XLogRead_loop_done by lia. split.
    - exists []. rewrite app_nil_r. split; reflexivity.
    - intros buf' c' calls' E _. inversion E; subst. rewrite XLByteAdvance_0 by exact Hp.
      exact Hc. }
  induction fuel as [| fuel IH]; intros c buf calls recptr nbytes Hfuel Hp Hc Hn Hin.
  - apply Hstop; [exact Hp | exact Hc | lia].
  - destruct (Z.eq_dec nbytes 0) as [Hz | Hnz]; [apply Hstop; assumption |].
    assert (Hpos : 0 < nbytes) by lia.
    pose proof (XLogRead_loop_turn fuel fs c buf calls recptr nbytes Hpos) as Hturn.
    cbv zeta in Hturn. rewrite Hturn. clear Hturn.
    destruct Hc as (Hfile & Hseg & Hoff).
    assert (Hre : (sendFile c <? 0) || negb (XLByteInSeg recptr (sendId c) (sendSeg c)) = false).
    { rewrite Hseg. cbn. rewrite orb_false_r. apply Z.ltb_ge. exact Hfile. }
    rewrite Hre. cbn [andb]. rewrite Hoff, Z.eqb_refl. cbn [negb andb]. rewrite !app_nil_r.
    destruct Hp as [Hl Ho]. destruct params_ok.
    pose proof (Z.mod_pos_bound (xrecoff recptr) XLogSegSize seg_pos0) as Hso.
    pose proof (seg_end_in_file (xrecoff recptr) Ho) as Hse.
    pose proof seg_size_le_file as Hsf.
    set (startoff := xrecoff recptr mod XLogSegSize) in *.
    replace (Z.min nbytes (XLogSegSize - startoff)) with nbytes by lia.
    pose proof (read_call_bound fs calls (sendFile c) nbytes Hpos) as Hbound.
    destruct (read_call fs calls (sendFile c) nbytes) as [k data]. cbn [fst snd] in *.
    destruct (Z.leb_spec k 0) as [Hk | Hk].
    { split.
      - exists [sys_read (sendFile c) recptr nbytes nbytes k]. split; reflexivity.
      - intros buf' c' calls' E. discriminate. }
    assert (Hpa : readable_recptr (XLByteAdvance recptr k)).
    { apply XLByteAdvance_readable; [split; assumption | lia | lia]. }
    destruct (Z.eq_dec k nbytes) as [Hall | Hpart].
    + subst k. rewrite XLogRead_loop_done by lia. split.
      * exists [sys_read (sendFile c) recptr nbytes nbytes nbytes]. split; reflexivity.
      * intros buf' c' calls' E Hlt. inversion E; subst buf' c' calls'.
        apply positioned_after_read; [exact Hfile | split; assumption | lia | exact Hlt].
    + assert (Hc3 : positioned
                      {| sendFile := sendFile c; sendId := xlogid recptr;
                         sendSeg := xrecoff recptr / XLogSegSize;
                         sendOff := uint32 (startoff + k) |} (XLByteAdvance recptr k)).
      { apply positioned_after_read; [exact Hfile | split; assumption | lia |].
        fold startoff. lia. }
      assert (Hoff3 : xrecoff (XLByteAdvance recptr k) mod XLogSegSize = startoff + k).
      { destruct Hc3 as (_ & _ & Hoff3). cbn [sendOff] in Hoff3. rewrite <- Hoff3.
        apply uint32_small. lia. }
      match goal with
      | |- context [XLogRead_loop fuel fs ?c3 ?buf3 ?calls3 _ _] =>
          destruct (IH c3 buf3 calls3 (XLByteAdvance recptr k) (nbytes - k))
            as [(reads & Hcalls & Hreads) Hend]
      end; try assumption; try lia.
      split.
      * exists (sys_read (sendFile c) recptr nbytes nbytes k :: reads).
        rewrite Hcalls, <- app_assoc. split; [reflexivity | exact Hreads].
      * intros buf' c' calls' E Hlt.
        replace (XLByteAdvance recptr nbytes)
          with (XLByteAdvance (XLByteAdvance recptr k) (nbytes - k)).
        2: { rewrite XLByteAdvance_compose; [| split; assumption | lia | lia | lia].
             f_equal. lia. }
        apply (Hend buf' c' calls' E). lia.
Qed.

(** X10. [XLogRead] keeps the segment open for the next call: after a
    read that went well and ended before the end of a segment, the cursor
    holds a descriptor for the segment of the position after the last
    byte read, with [sendOff] at the offset of that position, whatever the
    cursor was before and however the reads were cut. *)
Theorem XLogRead_keeps_segment_open (fs : FileSys) (c : SendCursor) (recptr : XLogRecPtr)
    (nbytes : Z) (buf : list Byte.byte) (c' : SendCursor) (calls : list SysCall) :
  readable_recptr recptr -> 0 < nbytes ->
  xrecoff recptr mod XLogSegSize + nbytes < XLogSegSize ->
  XLogRead fs c recptr nbytes = ReadOk buf c' calls ->
  positioned c' (XLByteAdvance recptr nbytes).
Proof.
  intros Hp Hpos Hin Hrun. pose proof file_size_small as Hfs.
  assert (Hloop : XLogRead_loop (Z.to_nat nbytes) fs c [] [] recptr nbytes = ReadOk buf c' calls).
  { unfold XLogRead in Hrun.
    destruct (XLogRead_loop (Z.to_nat nbytes) fs c [] [] recptr nbytes)
      as [buf0 c0 calls0 | |]; try discriminate.
    destruct (XLogGetLastRemoved fs) as [lastRemovedLog lastRemovedSeg].
    destruct (XLByteToSeg recptr) as [log seg].
    destruct ((log <? lastRemovedLog) || ((log =? lastRemovedLog) && (seg <=? lastRemovedSeg)));
      [discriminate | exact Hrun]. }
  clear Hrun. destruct (Z.to_nat nbytes) as [| fuel] eqn:Hfuel; [lia |].
  pose proof (XLogRead_loop_turn fuel fs c [] [] recptr nbytes Hpos) as Hturn.
  cbv zeta in Hturn. rewrite Hturn in Hloop. clear Hturn.
  destruct Hp as [Hl Ho]. destruct params_ok.
  pose proof (Z.mod_pos_bound (xrecoff recptr) XLogSegSize seg_pos0) as Hso.
  pose proof (seg_end_in_file (xrecoff recptr) Ho) as Hse.
  pose proof seg_size_le_file as Hsf.
  set (startoff := xrecoff recptr mod XLogSegSize) in *.
  set (reopen := (sendFile c <? 0) || negb (XLByteInSeg recptr (sendId c) (sendSeg c))) in *.
  set (calls0 := [] ++ (if reopen && (0 <=? sendFile c) then [sys_close (sendFile c)]
                        else [])) in *.
  set (ofd := fst (BasicOpenFile fs calls0 (ThisTimeLineID fs) (xlogid recptr)
                     (xrecoff recptr / XLogSegSize))) in *.
  set (fd := if reopen then ofd else sendFile c) in *.
  replace (Z.min nbytes (XLogSegSize - startoff)) with nbytes in Hloop by lia.
  destruct (reopen && (ofd <? 0)) eqn:Hopen; [discriminate |].
  match type of Hloop with
  | (if ?b then _ else _) = _ => destruct b; [discriminate |]
  end.
  match type of Hloop with
  | context [read_call fs ?cl fd nbytes] =>
      pose proof (read_call_bound fs cl fd nbytes Hpos) as Hbound;
      destruct (read_call fs cl fd nbytes) as [k data]
  end.
  cbn [fst snd] in *.
  destruct (Z.leb_spec k 0) as [Hk | Hk]; [discriminate |].
  assert (Hfd : 0 <= fd).
  { subst fd. destruct reopen eqn:Hre.
    - cbn in Hopen. apply Z.ltb_ge. exact Hopen.
    - subst reopen. apply orb_false_iff in Hre. destruct Hre as [Hf _].
      apply Z.ltb_ge. exact Hf. }
  assert (Hc3 : positioned
                  {| sendFile := fd; sendId := xlogid recptr;
                     sendSeg := xrecoff recptr / XLogSegSize;
                     sendOff := uint32 (startoff + k) |} (XLByteAdvance recptr k)).
  { apply positioned_after_read; [exact Hfd | split; assumption | lia |].
    fold startoff. lia. }
  assert (Hoff3 : xrecoff (XLByteAdvance recptr k) mod XLogSegSize = startoff + k).
  { destruct Hc3 as (_ & _ & Hoff3). cbn [sendOff] in Hoff3. rewrite <- Hoff3.
    apply uint32_small. lia. }
  match type of Hloop with
  | XLogRead_loop fuel fs ?c3 ?buf3 ?calls3 _ _ = _ =>
      destruct (XLogRead_loop_positioned fs fuel c3 buf3 calls3
                  (XLByteAdvance recptr k) (nbytes - k)) as [_ Hend]
  end; try assumption; try lia.
  - apply XLByteAdvance_readable; [split; assumption | lia | lia].
  - replace (XLByteAdvance recptr nbytes)
      with (XLByteAdvance (XLByteAdvance recptr k) (nbytes - k)).
    2: { rewrite XLByteAdvance_compose; [| split; assumption | lia | lia | lia].
         f_equal. lia. }
    apply (Hend buf c' calls Hloop). lia.
Qed.

(** X11. A read through a cursor that is in place costs reads only:
    when the cursor holds the segment of the position open at the offset
    of the position, and the bytes asked for lie in that segment,
    [XLogRead] opens no file and seeks nowhere; every system call it
    issues is a [read], whether it succeeds or fails. *)
Theorem XLogRead_positioned_only_reads (fs : FileSys) (c : SendCursor) (recptr : XLogRecPtr)
    (nbytes : Z) :
  readable_recptr recptr -> positioned c recptr ->
  0 <= nbytes -> xrecoff recptr mod XLogSegSize + nbytes <= XLogSegSize ->
  forallb is_read (calls_of (XLogRead fs c recptr nbytes)) = true.
Proof.
  intros Hp Hc Hn Hin.
  destruct (XLogRead_loop_positioned fs (Z.to_nat nbytes) c [] [] recptr nbytes
              (le_n _) Hp Hc Hn Hin) as [(reads & Hcalls & Hreads) _].
  assert (Hsame : calls_of (XLogRead fs c recptr nbytes) =
                  calls_of (XLogRead_loop (Z.to_nat nbytes) fs c [] [] recptr nbytes)).
  { unfold XLogRead.
    destruct (XLogRead_loop (Z.to_nat nbytes) fs c [] [] recptr nbytes)
      as [buf0 c0 calls0 | |]; try reflexivity.
    destruct (XLogGetLastRemoved fs) as [lastRemovedLog lastRemovedSeg].
    destruct (XLByteToSeg recptr) as [log seg].
    destruct ((log <? lastRemovedLog) || ((log =? lastRemovedLog) && (seg <=? lastRemovedSeg)));
      reflexivity. }
  rewrite Hsame, Hcalls. exact Hreads.
Qed.

End ReaderContent.

(** ** The spinlock discipline *)

Lemma lock_scan_app (evs1 evs2 : list Event) :
  forall held,
    lock_scan held (evs1 ++ evs2) =
    match lock_scan held evs1 with
    | Some held' => lock_scan held' evs2
    | None => None
    end.
Proof.
  induction evs1 as [| e evs1 IH]; intros held; [reflexivity |].
  cbn [app lock_scan].
  destruct e, held as [j |]; try reflexivity; try apply IH;
    (destruct (Nat.eqb _ j); [apply IH | reflexivity]).
Qed.

Lemma lock_scan_locked_and_skipped (count : nat) :
  forall from, lock_scan None (locked_and_skipped from count) = Some None.
Proof.
  induction count as [| count IH]; intros from; [reflexivity |].
  rewrite locked_and_skipped_S, lock_scan_app. cbn [lock_scan].
  rewrite Nat.eqb_refl. apply IH.
Qed.

Lemma lock_step_same (s s' : Sender) : trace s' = trace s -> lock_step s s'.
Proof. intros E. exists []. rewrite app_nil_r. split; [exact E | reflexivity]. Qed.

Lemma lock_step_refl (s : Sender) : lock_step s s.
Proof. apply lock_step_same. reflexivity. Qed.

Lemma lock_step_trans (s1 s2 s3 : Sender) : lock_step s1 s2 -> lock_step s2 s3 -> lock_step s1 s3.
Proof.
  intros (e1 & E1 & H1) (e2 & E2 & H2). exists (e1 ++ e2). split.
  - rewrite E2, E1, app_assoc. reflexivity.
  - rewrite lock_scan_app, H1. exact H2.
Qed.

Lemma lock_step_emit (e : Event) (s : Sender) : plain_event e = true -> lock_step s (emit e s).
Proof.
  intros He. exists [e]. split; [reflexivity |].
  destruct e; try discriminate; reflexivity.
Qed.

Lemma lock_step_WalSndSetState (st : WalSndState) (s : Sender) :
  lock_step s (WalSndSetState st s).
Proof.
  unfold WalSndSetState. destruct (MyWalSnd s) as [i |]; [| apply lock_step_refl].
  destruct (my_slot s) as [w |]; [| apply lock_step_refl].
  destruct (WalSndState_eqb (ws_state w) st); [apply lock_step_refl |].
  exists [SpinLockAcquire i; StoreState i st; SpinLockRelease i]. split.
  - cbn [trace emit set_WalSndCtl]. rewrite <- !app_assoc. reflexivity.
  - cbn [lock_scan]. rewrite Nat.eqb_refl. reflexivity.
Qed.

Lemma lock_step_publish_sentPtr (s : Sender) : lock_step s (publish_sentPtr s).
Proof.
  eexists. split; [apply trace_publish_sentPtr |].
  destruct (MyWalSnd s) as [i |]; [| reflexivity].
  cbn [lock_scan]. rewrite Nat.eqb_refl. reflexivity.
Qed.

Lemma lock_step_InitWalSnd (s : Sender) :
  MyWalSnd s = None -> lock_step s (final_state (InitWalSnd s)).
Proof.
  intros Hnone. destruct (InitWalSnd_cases s Hnone) as [(k & w & ->) | ->];
    cbn [final_state]; eexists; (split; [reflexivity |]).
  - rewrite lock_scan_app, lock_scan_locked_and_skipped. cbn [lock_scan].
    rewrite Nat.eqb_refl. reflexivity.
  - apply lock_scan_locked_and_skipped.
Qed.


(** ** The own slot and the other slots *)

Lemma registered_step_extends (s s' : Sender) (evs : list Event) :
  MyWalSnd s' = MyWalSnd s -> trace s' = trace s ++ evs -> registered_step s s'.
Proof.
  intros Hm Ht Hreg Hset. rewrite Ht, existsb_app, Hreg by congruence. reflexivity.
Qed.

Lemma registered_step_WalSndSetState (st : WalSndState) (s : Sender) :
  registered_step s (WalSndSetState st s).
Proof.
  unfold WalSndSetState. destruct (MyWalSnd s) as [i |] eqn:Hm; [| exact (fun H => H)].
  destruct (my_slot s) as [w |]; [| exact (fun H => H)].
  destruct (WalSndState_eqb (ws_state w) st); [exact (fun H => H) |].
  apply (registered_step_extends _ _ [SpinLockAcquire i; StoreState i st; SpinLockRelease i]).
  - reflexivity.
  - cbn [trace emit set_WalSndCtl]. rewrite <- !app_assoc. reflexivity.
Qed.

Lemma registered_step_InitWalSnd (s : Sender) :
  MyWalSnd s = None -> registered_step s (final_state (InitWalSnd s)).
Proof.
  intros Hnone _. destruct (InitWalSnd_cases s Hnone) as [(k & w & ->) | ->];
    cbn [final_state]; intros Hset.
  - cbn [trace with_slots]. rewrite !existsb_app. cbn. rewrite !orb_true_r. reflexivity.
  - cbn [MyWalSnd with_slots] in Hset. contradiction.
Qed.

(** The elementary steps keep the callback registered. *)
Ltac registered_step_basics :=
  first [ exact (fun s0 (H : registered s0) => H)
        | exact (fun s1 s2 s3 (H1 : registered_step s1 s2) (H2 : registered_step s2 s3)
                     (H : registered s1) => H2 (H1 H))
        | exact registered_step_WalSndSetState
        | exact registered_step_InitWalSnd
        | intros s0; apply (registered_step_extends _ _ _ (MyWalSnd_publish_sentPtr s0)
                              (trace_publish_sentPtr s0))
        | intros e s0 _ _; apply (registered_step_extends _ _ [e]); reflexivity
        | intros e s0 _; apply (registered_step_extends _ _ [e]); reflexivity
        | intros; apply (registered_step_extends _ _ []);
            [reflexivity | rewrite app_nil_r; reflexivity] ].

Lemma registered_WalSenderMain `{P : XLogParams} (env : MainEnv) (s : Sender) :
  MyWalSnd s = None -> registered (final_state (WalSenderMain env s)).
Proof.
  intros Hnone.
  apply (R_WalSenderMain registered_step); try exact Hnone; try registered_step_basics.
  intros Hset. contradiction.
Qed.


Lemma WalSndSetState_table (state : WalSndState) (s : Sender) (i : nat) (w : WalSnd) :
  MyWalSnd s = Some i -> WalSndCtl s !! i = Some w ->
  WalSndCtl (WalSndSetState state s) = <[i := store_state w state]> (WalSndCtl s).
Proof.
  intros Hm Hi. unfold WalSndSetState, my_slot. rewrite Hm, Hi.
  destruct (WalSndState_eqb (ws_state w) state) eqn:Heq.
  - apply WalSndState_eqb_eq in Heq. symmetry. apply list_insert_id. rewrite Hi. f_equal.
    destruct w. cbn in *. subst. reflexivity.
  - cbn [WalSndCtl emit set_WalSndCtl].
    apply (alter_as_insert (fun w0 => store_state w0 state) _ i w Hi).
Qed.

(** X14. The state a turn of the streaming loop publishes: when a turn
    of [WalSndLoop] ends and the loop goes on, the slot of the sender is in
    state [STREAMING] or [CATCHUP] according to [caughtup]; and
    [STREAMING] is published only when [sentPtr] has reached the flush
    position that the last [XLogSend] of the turn read. *)
Theorem WalSndLoop_turn_publishes_state `{P : XLogParams} (env : LoopEnv) (caughtup : bool)
    (s : Sender) (caughtup' : bool) (s' : Sender) (i : nat) :
  MyWalSnd s = Some i -> (i < length (WalSndCtl s))%nat ->
  WalSndLoop_turn env caughtup s = Return (Continue caughtup') s' ->
  (exists w, WalSndCtl s' !! i = Some w /\
     ws_state w = if caughtup' then WALSNDSTATE_STREAMING else WALSNDSTATE_CATCHUP) /\
  (caughtup' = true -> XLByteLE (GetFlushRecPtr (send env)) (sentPtr s') = true).
Proof.
  intros Hm Hi Hrun.
  destruct (own_step_WalSndLoop_turn env caughtup s caughtup' s' Hrun)
    as (sa & sb & s4 & Ha & Hsend & Hb & Hq & ->).
  assert (H4 : own_step s s4).
  { eapply own_step_trans; [exact Ha |]. eapply own_step_trans; [| exact Hb].
    pose proof (own_step_XLogSend (send env) sa) as Hx.
    rewrite Hsend in Hx. exact Hx. }
  destruct H4 as [_ Hl4 Hm4 _ _].
  assert (Hmine : MyWalSnd s4 = Some i) by (destruct Hm4; congruence).
  destruct (lookup_lt_is_Some_2 (WalSndCtl s4) i ltac:(lia)) as [w Hw].
  split.
  - rewrite (WalSndSetState_table _ s4 i w Hmine Hw). eexists. split.
    + apply list_lookup_insert_eq. eapply lookup_lt_Some. exact Hw.
    + reflexivity.
  - intros ->. apply XLogSend_caughtup in Hsend.
    destruct Hq as (_ & Hsp & _).
    destruct (quiet_WalSndSetState WALSNDSTATE_STREAMING s4) as (_ & Hsp' & _).
    rewrite Hsp', Hsp. exact Hsend.
Qed.

(** ** Signals *)

Lemma handle_signal_Return (sig : Signal) (s : Sender) :
  sig <> SIGQUIT ->
  exists s1, handle_signal sig s = Return tt s1 /\
    (got_SIGHUP s1 = true <-> got_SIGHUP s = true \/ sig = SIGHUP) /\
    (walsender_shutdown_requested s1 = true <->
     walsender_shutdown_requested s = true \/ sig = SIGTERM) /\
    (walsender_ready_to_stop s1 = true <-> walsender_ready_to_stop s = true \/ sig = SIGUSR2) /\
    trace s1 = trace s /\ sentPtr s1 = sentPtr s /\ cursor s1 = cursor s /\
    MyWalSnd s1 = MyWalSnd s /\
    WalSndCtl s1 = match MyWalSnd s with
                   | Some i => alter (set_latch true) i (WalSndCtl s)
                   | None => WalSndCtl s
                   end.
Proof.
  intros Hsig.
  destruct sig; try congruence; (eexists; split; [reflexivity |]);
    unfold SetLatch_mine;
    cbn [MyWalSnd set_got_SIGHUP set_shutdown_requested set_ready_to_stop];
    destruct (MyWalSnd s) as [i |] eqn:Hm;
    cbn [got_SIGHUP walsender_shutdown_requested walsender_ready_to_stop trace sentPtr cursor
         MyWalSnd WalSndCtl set_WalSndCtl set_got_SIGHUP set_shutdown_requested
         set_ready_to_stop];
    repeat split; auto; try (intros [E | E]; [exact E | discriminate]).
Qed.

Lemma alter_set_latch_twice (b : bool) (i : nat) (table : list WalSnd) :
  alter (set_latch b) i (alter (set_latch b) i table) = alter (set_latch b) i table.
Proof.
  revert i. induction table as [| w table IH]; intros [| i]; try reflexivity.
  cbn. f_equal. apply IH.
Qed.

(** A sequence of signals without [SIGQUIT] returns. *)
Lemma deliver_Return (sigs : list Signal) :
  forall s,
    SIGQUIT ∉ sigs ->
    exists s', deliver sigs s = Return tt s' /\
      (got_SIGHUP s' = true <-> got_SIGHUP s = true \/ SIGHUP ∈ sigs) /\
      (walsender_shutdown_requested s' = true <->
       walsender_shutdown_requested s = true \/ SIGTERM ∈ sigs) /\
      (walsender_ready_to_stop s' = true <->
       walsender_ready_to_stop s = true \/ SIGUSR2 ∈ sigs) /\
      trace s' = trace s /\ sentPtr s' = sentPtr s /\ cursor s' = cursor s /\
      MyWalSnd s' = MyWalSnd s /\
      WalSndCtl s' = match sigs, MyWalSnd s with
                     | _ :: _, Some i => alter (set_latch true) i (WalSndCtl s)
                     | _, _ => WalSndCtl s
                     end.
Proof.
  induction sigs as [| sig sigs IH]; intros s Hnot.
  - exists s. cbn [deliver].
    repeat split; auto; try (intros [E | E]; [exact E | apply elem_of_nil in E; contradiction]).
  - cbn [deliver].
    assert (Hsig : sig <> SIGQUIT) by (intros ->; apply Hnot; left).
    destruct (handle_signal_Return sig s Hsig)
      as (s1 & -> & Hhup & Hterm & Husr2 & Htr & Hsp & Hcur & Hmine & Htable).
    cbn [bind].
    destruct (IH s1) as (s' & -> & Hhup' & Hterm' & Husr2' & Htr' & Hsp' & Hcur' & Hmine' & Htable').
    { intros Hin. apply Hnot. right. exact Hin. }
    exists s'. split; [reflexivity |].
    split; [rewrite Hhup', Hhup, elem_of_cons; intuition congruence |].
    split; [rewrite Hterm', Hterm, elem_of_cons; intuition congruence |].
    split; [rewrite Husr2', Husr2, elem_of_cons; intuition congruence |].
    split; [congruence |]. split; [congruence |]. split; [congruence |].
    split; [congruence |].
    rewrite Htable', Hmine, Htable.
    destruct sigs as [| sig' sigs], (MyWalSnd s) as [i |]; try reflexivity.
    apply alter_set_latch_twice.
Qed.

(** X15. What signals do to a walsender. [SIGQUIT] ends the process at
    once with status 2 and nothing is put on the trace, so the handler
    sends no message. Any other sequence of signals returns: it only raises
    flags ([SIGHUP], [SIGTERM] and [SIGUSR2] one flag each, [SIGUSR1] none)
    and never lowers one; it leaves the trace, [sentPtr], the cursor,
    [MyWalSnd], the size of the table, every slot of another process and
    the pid, state, sent position and latch owner of the own slot as they
    were; and after [SIGHUP], [SIGTERM] or [SIGUSR2] the latch of the own
    slot is set. *)
Theorem deliver_signals (sigs : list Signal) (s : Sender) :
  (SIGQUIT ∈ sigs -> exists s', deliver sigs s = Exit 2 s' /\ trace s' = trace s) /\
  (SIGQUIT ∉ sigs ->
   exists s', deliver sigs s = Return tt s' /\
     (got_SIGHUP s' = true <-> got_SIGHUP s = true \/ SIGHUP ∈ sigs) /\
     (walsender_shutdown_requested s' = true <->
      walsender_shutdown_requested s = true \/ SIGTERM ∈ sigs) /\
     (walsender_ready_to_stop s' = true <->
      walsender_ready_to_stop s = true \/ SIGUSR2 ∈ sigs) /\
     trace s' = trace s /\ sentPtr s' = sentPtr s /\ cursor s' = cursor s /\
     MyWalSnd s' = MyWalSnd s /\
     length (WalSndCtl s') = length (WalSndCtl s) /\
     (forall j w, WalSndCtl s !! j = Some w ->
        exists w', WalSndCtl s' !! j = Some w' /\
          ws_pid w' = ws_pid w /\ ws_state w' = ws_state w /\
          ws_sentPtr w' = ws_sentPtr w /\
          owner_pid (ws_latch w') = owner_pid (ws_latch w) /\
          (MyWalSnd s <> Some j -> w' = w) /\
          (MyWalSnd s = Some j -> SIGHUP ∈ sigs \/ SIGTERM ∈ sigs \/ SIGUSR2 ∈ sigs ->
           is_set (ws_latch w') = true))).
Proof.
  split.
  - revert s. induction sigs as [| sig sigs IH]; intros s Hin.
    + apply elem_of_nil in Hin. contradiction.
    + cbn [deliver].
      assert (Hdec : sig = SIGQUIT \/ sig <> SIGQUIT)
        by (destruct sig; auto; right; discriminate).
      destruct Hdec as [-> | Hsig].
      { exists s. split; reflexivity. }
      apply elem_of_cons in Hin. destruct Hin as [E | Hin]; [congruence |].
      destruct (handle_signal_Return sig s Hsig) as (s1 & -> & _ & _ & _ & Htr & _).
      cbn [bind]. destruct (IH s1 Hin) as (s' & -> & Htr').
      exists s'. split; [reflexivity | congruence].
  - intros Hnot.
    destruct (deliver_Return sigs s Hnot)
      as (s' & Hrun & Hhup & Hterm & Husr2 & Htr & Hsp & Hcur & Hmine & Htable).
    exists s'. split; [exact Hrun |]. split; [exact Hhup |]. split; [exact Hterm |].
    split; [exact Husr2 |]. split; [exact Htr |]. split; [exact Hsp |].
    split; [exact Hcur |]. split; [exact Hmine |].
    assert (Hsame : WalSndCtl s' = WalSndCtl s ->
              forall j w, WalSndCtl s !! j = Some w ->
                (MyWalSnd s = Some j -> SIGHUP ∈ sigs \/ SIGTERM ∈ sigs \/ SIGUSR2 ∈ sigs ->
                 False) ->
                exists w', WalSndCtl s' !! j = Some w' /\
                  ws_pid w' = ws_pid w /\ ws_state w' = ws_state w /\
                  ws_sentPtr w' = ws_sentPtr w /\
                  owner_pid (ws_latch w') = owner_pid (ws_latch w) /\
                  (MyWalSnd s <> Some j -> w' = w) /\
                  (MyWalSnd s = Some j ->
                   SIGHUP ∈ sigs \/ SIGTERM ∈ sigs \/ SIGUSR2 ∈ sigs ->
                   is_set (ws_latch w') = true)).
    { intros E j w Hj Hno. exists w. rewrite E.
      split; [exact Hj |]. split; [reflexivity |]. split; [reflexivity |].
      split; [reflexivity |]. split; [reflexivity |]. split; [reflexivity |].
      intros Hm Hin. destruct (Hno Hm Hin). }
    destruct sigs as [| sig sigs].
    { split; [rewrite Htable; reflexivity |]. intros j w Hj.
      apply (Hsame Htable j w Hj). intros _ [H | [H | H]]; apply elem_of_nil in H; exact H. }
    destruct (MyWalSnd s) as [i |] eqn:Hm.
    2: { split; [rewrite Htable; reflexivity |]. intros j w Hj.
         apply (Hsame Htable j w Hj). intros E. discriminate. }
    rewrite Htable. split; [apply length_alter |].
    intros j w Hj. destruct (Nat.eq_dec j i) as [-> | Hne].
    + exists (set_latch true w). rewrite list_lookup_alter_eq, Hj.
      repeat split; auto. intros Hx. congruence.
    + exists w. rewrite list_lookup_alter_ne by congruence.
      repeat split; auto. intros Hx. congruence.
Qed.

(** ** The order of the messages over a run *)

Lemma copy_scan_app (evs1 evs2 : list Event) :
  forall started,
    copy_scan started (evs1 ++ evs2) =
    match copy_scan started evs1 with
    | Some started' => copy_scan started' evs2
    | None => None
    end.
Proof.
  induction evs1 as [| e evs1 IH]; intros started; [reflexivity |].
  cbn [app copy_scan].
  destruct (is_copy_both e); [apply IH |].
  destruct (is_wal_data e); [| apply IH].
  destruct started; [apply IH | reflexivity].
Qed.

Lemma copy_scan_started (evs : list Event) : copy_scan true evs = Some true.
Proof.
  induction evs as [| e evs IH]; [reflexivity |]. cbn [copy_scan].
  destruct (is_copy_both e); [exact IH |]. destruct (is_wal_data e); exact IH.
Qed.

Lemma copy_scan_no_data (evs : list Event) :
  forallb (fun e => negb (is_wal_data e)) evs = true ->
  forall started, copy_scan started evs = Some (started || existsb is_copy_both evs).
Proof.
  induction evs as [| e evs IH]; intros Hno started.
  - cbn. rewrite orb_false_r. reflexivity.
  - cbn [forallb] in Hno. apply andb_true_iff in Hno. destruct Hno as [He Hno].
    apply negb_true_iff in He. cbn [copy_scan existsb]. rewrite He.
    destruct (is_copy_both e).
    + rewrite (IH Hno). cbn. rewrite orb_true_r. reflexivity.
    + rewrite (IH Hno). reflexivity.
Qed.

Lemma streaming_step_extends (s s' : Sender) (evs : list Event) :
  trace s' = trace s ++ evs -> streaming_step s s'.
Proof. intros E. exists evs. split; [exact E | apply copy_scan_started]. Qed.

Lemma handshake_step_same (s s' : Sender) : trace s' = trace s -> handshake_step s s'.
Proof. intros E. exists []. rewrite app_nil_r. split; [exact E | reflexivity]. Qed.

Lemma handshake_step_refl (s : Sender) : handshake_step s s.
Proof. apply handshake_step_same. reflexivity. Qed.

Lemma handshake_step_trans (s1 s2 s3 : Sender) :
  handshake_step s1 s2 -> handshake_step s2 s3 -> handshake_step s1 s3.
Proof.
  intros (e1 & E1 & H1) (e2 & E2 & H2). exists (e1 ++ e2). split.
  - rewrite E2, E1, app_assoc. reflexivity.
  - rewrite forallb_app, H1, H2. reflexivity.
Qed.

Lemma handshake_step_emit (e : Event) (s : Sender) :
  is_wal_data e = false -> handshake_step s (emit e s).
Proof. intros He. exists [e]. split; [reflexivity |]. cbn. rewrite He. reflexivity. Qed.

Lemma handshake_step_WalSndSetState (st : WalSndState) (s : Sender) :
  handshake_step s (WalSndSetState st s).
Proof.
  unfold WalSndSetState. destruct (MyWalSnd s) as [i |]; [| apply handshake_step_refl].
  destruct (my_slot s) as [w |]; [| apply handshake_step_refl].
  destruct (WalSndState_eqb (ws_state w) st); [apply handshake_step_refl |].
  exists [SpinLockAcquire i; StoreState i st; SpinLockRelease i]. split; [| reflexivity].
  cbn [trace emit set_WalSndCtl]. rewrite <- !app_assoc. reflexivity.
Qed.

Lemma no_data_locked_and_skipped (count : nat) :
  forall from,
    forallb (fun e => negb (is_wal_data e)) (locked_and_skipped from count) = true.
Proof.
  induction count as [| count IH]; intros from; [reflexivity |].
  rewrite locked_and_skipped_S, forallb_app, IH. reflexivity.
Qed.

Lemma handshake_step_InitWalSnd (s : Sender) :
  MyWalSnd s = None -> handshake_step s (final_state (InitWalSnd s)).
Proof.
  intros Hnone. destruct (InitWalSnd_cases s Hnone) as [(k & w & ->) | ->];
    cbn [final_state]; eexists; (split; [reflexivity |]).
  - rewrite forallb_app, no_data_locked_and_skipped. reflexivity.
  - apply no_data_locked_and_skipped.
Qed.

(** The elementary steps of the handshake put no WAL data. *)
Ltac handshake_step_basics :=
  first [ exact handshake_step_refl | exact handshake_step_trans
        | exact handshake_step_WalSndSetState
        | intros e s0 _ He; apply handshake_step_emit; exact He
        | intros; apply handshake_step_same; reflexivity ].

Lemma handshake_step_deliver (sigs : list Signal) (s : Sender) :
  handshake_step s (final_state (deliver sigs s)).
Proof. apply (R_deliver handshake_step); handshake_step_basics. Qed.

Lemma handshake_step_turn (env : HandshakeEnv) (s : Sender) :
  handshake_step s (final_state (WalSndHandshake_turn env s)).
Proof. apply (R_WalSndHandshake_turn handshake_step); handshake_step_basics. Qed.

(** A turn of the handshake that starts the replication has put the
    CopyBothResponse. *)
Lemma WalSndHandshake_turn_opens (env : HandshakeEnv) (s s' : Sender) :
  WalSndHandshake_turn env s = Return true s' ->
  exists evs, trace s' = trace s ++ evs /\
    forallb (fun e => negb (is_wal_data e)) evs = true /\
    existsb is_copy_both evs = true.
Proof.
  unfold WalSndHandshake_turn.
  set (s0 := emit set_ps_display_idle (WalSndSetState WALSNDSTATE_STARTUP s)).
  assert (H0 : handshake_step s s0).
  { subst s0. eapply handshake_step_trans; [apply handshake_step_WalSndSetState |].
    apply handshake_step_emit. reflexivity. }
  clearbody s0.
  pose proof (handshake_step_deliver (hs_signals env) s0) as Hd.
  destruct (deliver (hs_signals env) s0) as [[] s1 | | |]; cbn [bind final_state] in *;
    try discriminate.
  assert (H1 : handshake_step s s1) by (eapply handshake_step_trans; eassumption).
  clear Hd H0 s0.
  destruct (negb (hs_PostmasterIsAlive env)); [discriminate |].
  set (s2 := if got_SIGHUP s1 then _ else s1).
  assert (H2 : handshake_step s s2).
  { eapply handshake_step_trans; [exact H1 |]. subst s2.
    destruct (got_SIGHUP s1); [| apply handshake_step_refl].
    apply (handshake_step_trans _ (set_got_SIGHUP false s1));
      [apply handshake_step_same; reflexivity |].
    apply (handshake_step_emit ProcessConfigFile). reflexivity. }
  clearbody s2. clear H1 s1.
  set (firstchar := if negb (pq_getbyte env =? EOF) then _ else pq_getbyte env).
  clearbody firstchar.
  unfold handshake_dispatch.
  destruct (firstchar =? 81).
  - unfold HandleReplicationCommand.
    destruct (negb (replication_yyparse env =? 0)); [discriminate |].
    destruct (replication_parse_result env) as [| startpoint | label progress fast |];
      try discriminate.
    unfold StartReplication. destruct (wal_level_is_minimal env); [discriminate |].
    cbn [bind]. intros Hr. inversion Hr; subst s'.
    destruct H2 as (evs0 & E0 & Hno).
    exists (evs0 ++ [MarkPostmasterChildWalSender; pq_putmessage "W" (CopyBothBody 0 0);
                     pq_flush_called (hs_pq_flush env)]).
    split; [| split].
    + cbn [trace set_sentPtr emit]. rewrite E0, <- !app_assoc. reflexivity.
    + rewrite forallb_app, Hno. reflexivity.
    + rewrite existsb_app. cbn. apply orb_true_r.
  - destruct (firstchar =? 88); [discriminate |].
    destruct (firstchar =? EOF); discriminate.
Qed.

Lemma WalSndHandshake_events (envs : list HandshakeEnv) :
  forall s,
    handshake_step s (final_state (WalSndHandshake envs s)) /\
    (forall s', WalSndHandshake envs s = Return tt s' ->
       exists evs, trace s' = trace s ++ evs /\
         forallb (fun e => negb (is_wal_data e)) evs = true /\
         existsb is_copy_both evs = true).
Proof.
  induction envs as [| env envs IH]; intros s; cbn [WalSndHandshake].
  - split; [apply handshake_step_refl | intros s' E; discriminate].
  - pose proof (handshake_step_turn env s) as Hturn.
    pose proof (WalSndHandshake_turn_opens env s) as Hopens.
    destruct (WalSndHandshake_turn env s) as [started s1 | | |]; cbn [bind final_state] in *;
      try (split; [exact Hturn | intros s' E; discriminate]).
    destruct started.
    + split; [exact Hturn |]. intros s' E. inversion E; subst s'. apply Hopens. reflexivity.
    + destruct (IH s1) as [IHstep IHret]. split.
      * eapply handshake_step_trans; eassumption.
      * intros s' E. destruct (IHret s' E) as (evs2 & E2 & Hno2 & Hcb).
        destruct Hturn as (evs1 & E1 & Hno1).
        exists (evs1 ++ evs2). split; [| split].
        -- rewrite E2, E1, app_assoc. reflexivity.
        -- rewrite forallb_app, Hno1, Hno2. reflexivity.
        -- rewrite existsb_app, Hcb. apply orb_true_r.
Qed.

Lemma streaming_step_WalSndLoop `{P : XLogParams} (envs : list LoopEnv) (s : Sender) :
  streaming_step s (final_state (WalSndLoop envs (publish_sentPtr s))).
Proof.
  assert (Hbasic : forall s1 s2, (exists evs, trace s2 = trace s1 ++ evs) -> streaming_step s1 s2).
  { intros s1 s2 (evs & E). apply (streaming_step_extends s1 s2 evs E). }
  assert (Htrans : forall s1 s2 s3,
            streaming_step s1 s2 -> streaming_step s2 s3 -> streaming_step s1 s3).
  { intros s1 s2 s3 (e1 & E1 & _) (e2 & E2 & _). apply Hbasic. exists (e1 ++ e2).
    rewrite E2, E1, app_assoc. reflexivity. }
  apply (Htrans _ (publish_sentPtr s)).
  - apply Hbasic. eexists. apply trace_publish_sentPtr.
  - unfold WalSndLoop. apply (R_WalSndLoop_from streaming_step);
      first [ exact Htrans
            | intros; apply Hbasic; exists []; rewrite app_nil_r; reflexivity
            | intros; apply Hbasic; eexists; reflexivity
            | intros st s0; destruct (handshake_step_WalSndSetState st s0) as (evs & E & _);
              apply Hbasic; exists evs; exact E
            | intros s0; apply Hbasic; eexists; apply trace_publish_sentPtr ].
Qed.

(** X16. No WAL before the stream is opened: along the events of a
    whole run of [WalSenderMain], however it ends, every WAL data message
    (type 'd') comes after a CopyBothResponse (type 'W'). The events of the
    run are those of the acquisition of the slot and of the handshake,
    followed, when the handshake returns, by those of the streaming loop;
    the acquisition of the slot and the handshake put no WAL data message
    at all, and a handshake that returns has put the CopyBothResponse. *)
Theorem WalSenderMain_streams_after_CopyBoth `{P : XLogParams} (env : MainEnv) (s : Sender) :
  MyWalSnd s = None ->
  let evs := events_since s (final_state (WalSenderMain env s)) in
  let startup :=
    bind (InitWalSnd s) (fun _ s1 => WalSndHandshake (handshake env) (emit ReadyForQuery s1)) in
  let before := events_since s (final_state startup) in
  (exists started, copy_scan false evs = Some started) /\
  (RecoveryInProgress env = true -> evs = []) /\
  (RecoveryInProgress env = false ->
   forallb (fun e => negb (is_wal_data e)) before = true /\
   match startup with
   | Return _ s2 =>
       existsb is_copy_both before = true /\
       evs = before ++
             events_since s2 (final_state (WalSndLoop (streaming env) (publish_sentPtr s2)))
   | _ => evs = before
   end).
Proof.
  intros Hnone evs startup before.
  pose proof (handshake_step_InitWalSnd s Hnone) as Hinit.
  assert (Hquiet : forall s', handshake_step s s' ->
            exists started, copy_scan false (events_since s s') = Some started).
  { intros s' (l & E & Hno). rewrite (events_since_app _ _ _ E).
    rewrite (copy_scan_no_data l Hno). eauto. }
  assert (Hnodata : forall s', handshake_step s s' ->
            forallb (fun e => negb (is_wal_data e)) (events_since s s') = true).
  { intros s' (l & E & Hno). rewrite (events_since_app _ _ _ E). exact Hno. }
  subst evs before startup. unfold WalSenderMain.
  destruct (RecoveryInProgress env).
  { cbn [final_state]. rewrite events_since_refl.
    split; [exists false; reflexivity |]. split; [reflexivity | discriminate]. }
  destruct (InitWalSnd s) as [[] s1 | | |]; cbn [bind final_state] in *;
    try (split; [apply Hquiet; exact Hinit |]; split; [discriminate |];
         intros _; split; [apply Hnodata; exact Hinit | reflexivity]).
  assert (H1 : handshake_step s (emit ReadyForQuery s1)).
  { eapply handshake_step_trans; [exact Hinit |]. apply handshake_step_emit. reflexivity. }
  destruct (WalSndHandshake_events (handshake env) (emit ReadyForQuery s1)) as [Hstep Hret].
  assert (Hall : handshake_step s
                   (final_state (WalSndHandshake (handshake env) (emit ReadyForQuery s1))))
    by (eapply handshake_step_trans; eassumption).
  destruct (WalSndHandshake (handshake env) (emit ReadyForQuery s1)) as [[] s2 | | |];
    cbn [bind final_state] in *;
    try (split; [apply Hquiet; exact Hall |]; split; [discriminate |];
         intros _; split; [apply Hnodata; exact Hall | reflexivity]).
  destruct (Hret s2 eq_refl) as (evs2 & E2 & Hno2 & Hcb).
  destruct H1 as (evs1 & E1 & Hno1).
  destruct (streaming_step_WalSndLoop (streaming env) s2) as (evs3 & E3 & Hscan).
  assert (E12 : trace s2 = trace s ++ (evs1 ++ evs2)) by (rewrite E2, E1, app_assoc; reflexivity).
  assert (E123 : trace (final_state (WalSndLoop (streaming env) (publish_sentPtr s2))) =
                 trace s ++ ((evs1 ++ evs2) ++ evs3))
    by (rewrite E3, E12, <- !app_assoc; reflexivity).
  rewrite (events_since_app s _ _ E123), (events_since_app s s2 _ E12),
    (events_since_app s2 _ _ E3).
  split; [| split; [discriminate |]].
  - exists true. rewrite copy_scan_app, (copy_scan_no_data (evs1 ++ evs2)).
    + rewrite existsb_app, Hcb, orb_true_r. cbn [orb]. exact Hscan.
    + rewrite forallb_app, Hno1, Hno2. reflexivity.
  - intros _. split; [rewrite forallb_app, Hno1, Hno2; reflexivity |].
    split; [rewrite existsb_app, Hcb; apply orb_true_r | reflexivity].
Qed.

(** ** The statistics view *)

Lemma pg_stat_get_wal_senders_loop_spec (table : list WalSnd) (n : nat) :
  forall (i : nat) (evs : list Event) (tupstore : list StatRow),
    length table = (i + n)%nat ->
    pg_stat_get_wal_senders_loop n i table evs tupstore =
    (evs ++ stat_locks i (drop i table),
     tupstore ++ (stat_row <$> filter (fun w => ws_pid w <> 0) (drop i table))).
Proof.
  induction n as [| n IH]; intros i evs tupstore Hlen.
  - cbn [pg_stat_get_wal_senders_loop]. rewrite drop_ge by lia. cbn.
    rewrite !app_nil_r. reflexivity.
  - cbn [pg_stat_get_wal_senders_loop].
    destruct (table !! i) as [walsnd |] eqn:Hi.
    2: { apply lookup_ge_None in Hi. lia. }
    rewrite (drop_S _ _ _ Hi). cbn [stat_locks].
    destruct (Z.eqb_spec (ws_pid walsnd) 0) as [Hz | Hnz].
    + rewrite IH by lia. rewrite filter_cons_False by (intros H; apply H; exact Hz).
      reflexivity.
    + rewrite IH by lia. rewrite filter_cons_True by exact Hnz.
      cbn [fmap list_fmap]. rewrite <- !app_assoc. reflexivity.
Qed.

Lemma stat_locks_scan (l : list WalSnd) :
  forall i, lock_scan None (stat_locks i l) = Some None.
Proof.
  induction l as [| w l IH]; intros i; [reflexivity |].
  cbn [stat_locks]. rewrite lock_scan_app.
  destruct (ws_pid w =? 0); cbn [lock_scan]; [apply IH |].
  rewrite Nat.eqb_refl. apply IH.
Qed.

Lemma stat_locks_acquire (l : list WalSnd) :
  forall i j,
    SpinLockAcquire j ∈ stat_locks i l <->
    exists w, (i <= j)%nat /\ l !! (j - i)%nat = Some w /\ ws_pid w <> 0.
Proof.
  induction l as [| w l IH]; intros i j; cbn [stat_locks].
  - split; [intros H; apply elem_of_nil in H; contradiction |].
    intros (w & _ & Hw & _). discriminate.
  - rewrite elem_of_app, IH. split.
    + intros [Hhere | (w' & Hle & Hw' & Hpid)].
      * destruct (Z.eqb_spec (ws_pid w) 0) as [Hz | Hnz].
        { apply elem_of_nil in Hhere. contradiction. }
        apply elem_of_cons in Hhere. destruct Hhere as [E | Hhere].
        -- inversion E; subst j. exists w. rewrite Nat.sub_diag. auto.
        -- apply elem_of_cons in Hhere. destruct Hhere as [E | Hhere]; [discriminate |].
           apply elem_of_nil in Hhere. contradiction.
      * exists w'. split; [lia |]. split; [| exact Hpid].
        replace (j - i)%nat with (S (j - S i)) by lia. exact Hw'.
    + intros (w' & Hle & Hw' & Hpid).
      destruct (Nat.eq_dec j i) as [-> | Hne].
      * left. rewrite Nat.sub_diag in Hw'. inversion Hw'; subst w'.
        destruct (Z.eqb_spec (ws_pid w) 0) as [Hz | Hnz]; [contradiction |]. left.
      * right. exists w'. split; [lia |]. split; [| exact Hpid].
        replace (j - i)%nat with (S (j - S i)) in Hw' by lia. exact Hw'.
Qed.

(** X17. The rows of [pg_stat_get_wal_senders]: when the checks of the
    call pass, the view has one row for each slot in use (pid not 0), in
    the order of the slots, with the pid, the name of the state and the
    sent location of that slot, and no row for a free slot; the function
    takes the spinlock of exactly the slots in use, one at a time. It
    reports an error exactly when one of the three checks of the call
    fails. *)
Theorem pg_stat_get_wal_senders_rows (fcinfo : FunctionCallInfo) (table : list WalSnd) :
  match pg_stat_get_wal_senders fcinfo table with
  | inr (evs, rows) =>
      rsinfo_is_ReturnSetInfo fcinfo && allows_SFRM_Materialize fcinfo
        && result_type_is_composite fcinfo = true /\
      rows = stat_row <$> filter (fun w => ws_pid w <> 0) table /\
      lock_scan None evs = Some None /\
      (forall i, SpinLockAcquire i ∈ evs <->
                 exists w, table !! i = Some w /\ ws_pid w <> 0)
  | inl _ =>
      rsinfo_is_ReturnSetInfo fcinfo && allows_SFRM_Materialize fcinfo
        && result_type_is_composite fcinfo = false
  end.
Proof.
  unfold pg_stat_get_wal_senders.
  destruct (rsinfo_is_ReturnSetInfo fcinfo); [| reflexivity].
  destruct (allows_SFRM_Materialize fcinfo); [| reflexivity].
  destruct (result_type_is_composite fcinfo); [| reflexivity].
  cbn [negb andb]. rewrite pg_stat_get_wal_senders_loop_spec by reflexivity.
  rewrite drop_0. cbn [app].
  split; [reflexivity |]. split; [reflexivity |]. split; [apply stat_locks_scan |].
  intros i. rewrite stat_locks_acquire, Nat.sub_0_r. split.
  - intros (w & _ & Hw & Hpid). eauto.
  - intros (w & Hw & Hpid). exists w. split; [lia | auto].
Qed.

Lemma index_of_nth (n : nat) :
  (n < 16)%nat -> index_of (nth n hex_alphabet "0"%char) hex_alphabet = Some n.
Proof. intros Hn. do 16 (destruct n as [| n]; [reflexivity |]). lia. Qed.

Lemma hex_value_digit (d : Z) : 0 <= d < 16 -> hex_value (hex_digit d) = Some d.
Proof.
  intros Hd. unfold hex_value, hex_digit. rewrite index_of_nth by lia.
  cbn. f_equal. lia.
Qed.

Lemma hex_digit_not_slash (d : Z) : Ascii.eqb (hex_digit d) "/" = false.
Proof.
  unfold hex_digit. generalize (Z.to_nat d). intros n.
  do 16 (destruct n as [| n]; [reflexivity |]). destruct n; reflexivity.
Qed.

Lemma parse_X_from_format (fuel : nat) :
  forall (value : Z) (acc : list ascii),
    0 <= value < 16 ^ Z.of_nat fuel ->
    parse_X_from 0 (format_X_digits fuel value acc) = parse_X_from value acc.
Proof.
  induction fuel as [| fuel IH]; intros value acc Hv.
  - cbn in Hv. assert (value = 0) by lia. subst value. reflexivity.
  - cbn [format_X_digits].
    pose proof (Z.mod_pos_bound value 16 ltac:(lia)) as Hm.
    pose proof (Z_div_mod_eq_full value 16) as Hdm.
    destruct (Z.eqb_spec (value / 16) 0) as [Hz | Hnz].
    + cbn [parse_X_from]. rewrite hex_value_digit by exact Hm. f_equal. lia.
    + rewrite IH.
      * cbn [parse_X_from]. rewrite hex_value_digit by exact Hm. f_equal. lia.
      * split; [apply Z.div_pos; lia |].
        apply Z.div_lt_upper_bound; [lia |].
        replace (Z.of_nat (S fuel)) with (Z.succ (Z.of_nat fuel)) in Hv by lia.
        rewrite Z.pow_succ_r in Hv by lia. lia.
Qed.

Lemma format_X_digits_cons (fuel : nat) :
  forall (value : Z) (acc : list ascii),
    exists digits,
      format_X_digits (S fuel) value acc = digits ++ acc /\ digits <> [] /\
      Forall (fun c => Ascii.eqb c "/" = false) digits.
Proof.
  induction fuel as [| fuel IH]; intros value acc.
  - exists [hex_digit (value mod 16)]. cbn [format_X_digits].
    split; [destruct (value / 16 =? 0); reflexivity |]. split; [discriminate |].
    constructor; [apply hex_digit_not_slash | constructor].
  - cbn [format_X_digits]. destruct (value / 16 =? 0).
    + exists [hex_digit (value mod 16)]. split; [reflexivity |]. split; [discriminate |].
      constructor; [apply hex_digit_not_slash | constructor].
    + destruct (IH (value / 16) (hex_digit (value mod 16) :: acc)) as (digits & E & Hne & Hall).
      cbn [format_X_digits] in E. rewrite E.
      exists (digits ++ [hex_digit (value mod 16)]).
      rewrite <- app_assoc. split; [reflexivity |]. split.
      * destruct digits; discriminate.
      * apply Forall_app. split; [exact Hall |].
        constructor; [apply hex_digit_not_slash | constructor].
Qed.

Lemma parse_X_format_X (value : Z) :
  0 <= value < 4294967296 ->
  parse_X (format_X value) = Some value /\
  Forall (fun c => Ascii.eqb c "/" = false) (format_X value).
Proof.
  intros Hv. unfold format_X. rewrite uint32_small by exact Hv.
  destruct (format_X_digits_cons 7 value []) as (digits & E & Hne & Hall).
  rewrite app_nil_r in E. split.
  - unfold parse_X. rewrite E. destruct digits as [| c digits]; [contradiction |].
    rewrite <- E. rewrite parse_X_from_format; [reflexivity |].
    change (16 ^ Z.of_nat 8) with 4294967296. exact Hv.
  - rewrite E. exact Hall.
Qed.

Lemma split_slash_app (before after : list ascii) :
  Forall (fun c => Ascii.eqb c "/" = false) before ->
  split_slash (before ++ "/"%char :: after) = (before, after).
Proof.
  induction 1 as [| c before Hc Hall IH]; cbn [app split_slash].
  - reflexivity.
  - rewrite Hc, IH. reflexivity.
Qed.

(** X18. A row of the view can be read back: for a slot the sent
    position of which is a position a process can hold, parsing the name of
    the state and the two hexadecimal numbers around the "/" of the
    location gives back the pid, the state and the sent position of the
    slot. In particular slots that differ in one of the three give rows
    that differ. *)
Theorem parse_row_stat_row (w : WalSnd) :
  is_recptr (ws_sentPtr w) ->
  parse_row (stat_row w) = Some (ws_pid w, ws_state w, ws_sentPtr w).
Proof.
  intros [Hl Ho]. unfold parse_row, stat_row. cbn [row_pid row_state row_sent_location].
  assert (Hstate : parse_state (WalSndGetStateString (ws_state w)) = Some (ws_state w))
    by (destruct (ws_state w); reflexivity).
  rewrite Hstate.
  unfold parse_sent_location, format_sent_location.
  rewrite list_ascii_of_string_of_list_ascii.
  destruct (parse_X_format_X (xlogid (ws_sentPtr w)) Hl) as [Hpl Hnl].
  destruct (parse_X_format_X (xrecoff (ws_sentPtr w)) Ho) as [Hpo _].
  rewrite (split_slash_app _ _ Hnl), Hpl, Hpo.
  destruct (ws_sentPtr w). reflexivity.
Qed.

(** ** What a frame carries *)

Section FramerContent.
Context `{P : XLogParams}.
Hypothesis params_ok : XLogParamsOk.

Lemma XLogRead_ok_content (fs : FileSys) (wal : WalContent) (k0 : Kernel)
    (c : SendCursor) (recptr : XLogRecPtr) (nbytes : Z)
    (buf : list Byte.byte) (c' : SendCursor) (calls : list SysCall) :
  serves_wal fs wal k0 ->
  cursor_agrees k0 c -> readable_recptr recptr ->
  XLogRead fs c recptr nbytes = ReadOk buf c' calls ->
  buf = wal_range wal recptr (Z.to_nat nbytes) /\ cursor_agrees (kernel_after k0 calls) c'.
Proof.
  intros Hserved Hc Hp Hrun.
  destruct (XLogRead_loop_content params_ok fs wal k0 (Z.to_nat nbytes) Hserved
              c [] [] recptr nbytes (le_n _) Hc Hp) as (c1 & calls1 & Hloop & Hc1).
  unfold XLogRead in Hrun. rewrite Hloop in Hrun. cbn [app] in Hrun.
  destruct (XLogGetLastRemoved fs) as [lastRemovedLog lastRemovedSeg].
  destruct (XLByteToSeg recptr) as [log seg].
  destruct ((log <? lastRemovedLog) || ((log =? lastRemovedLog) && (seg <=? lastRemovedSeg)));
    [discriminate |].
  inversion Hrun; subst. split; [reflexivity | exact Hc1].
Qed.

Lemma cursor_frame_put (env : SendEnv) (startptr : XLogRecPtr) (data : list Byte.byte)
    (c : SendCursor) (s : Sender) :
  cursor (frame_put env startptr data c s) = c.
Proof. reflexivity. Qed.

Lemma cursor_frame_sent (env : SendEnv) (startptr endptr : XLogRecPtr) (data : list Byte.byte)
    (c : SendCursor) (s : Sender) :
  cursor (frame_sent env startptr endptr data c s) = c.
Proof.
  unfold frame_sent, publish_sentPtr.
  cbn [MyWalSnd set_sentPtr frame_put emit set_cursor].
  destruct (update_process_title env), (MyWalSnd s); reflexivity.
Qed.

(** X19. What [XLogSend] sends is the WAL: on a file system that holds
    the WAL, with a cursor on which the process and the kernel agree, the
    payload of the frame a call of [XLogSend] puts is, byte for byte, the
    WAL from [dataStart] on, whether the flush then succeeds or not. The
    payload is what [XLogRead] returned for [dataStart] and the length of
    the payload; after the system calls of that read the process and the
    kernel agree on the cursor the call leaves, so the same holds of the
    next call on a file system that goes on from there. *)
Theorem XLogSend_sends_the_wal (env : SendEnv) (wal : WalContent) (k0 : Kernel)
    (s : Sender) (r : bool * bool) (s' : Sender)
    (hdr : WalDataMessageHeader) (data : list Byte.byte) :
  is_recptr (sentPtr s) -> valid_recptr (GetFlushRecPtr env) ->
  serves_wal (filesys env) wal k0 -> cursor_agrees k0 (cursor s) ->
  XLogSend env s = Return r s' ->
  pq_putmessage "d" (WalDataBody "w" hdr data) ∈ events_since s s' ->
  data = wal_range wal (dataStart hdr) (length data) /\
  exists calls,
    XLogRead (filesys env) (cursor s) (dataStart hdr) (Z.of_nat (length data)) =
      ReadOk data (cursor s') calls /\
    cursor_agrees (kernel_after k0 calls) (cursor s').
Proof.
  intros Hsent Hreq Hserved Hc Hrun Hin.
  apply XLogSend_Return_inv in Hrun.
  destruct Hrun as [(_ & _ & ->) | (Hle & startptr & endptr & caughtup & data' & c & calls
                                     & Hslice & Hread & Hflush)].
  { rewrite events_since_refl in Hin. apply not_elem_of_nil in Hin. contradiction. }
  pose proof (XLogSend_slice_facts params_ok _ _ Hsent Hreq Hle _ _ _ Hslice) as Hf.
  assert (Hput : dataStart hdr = startptr /\ data = data' /\ cursor s' = c).
  { destruct Hflush as [(_ & _ & ->) | (_ & _ & ->)].
    - rewrite (events_since_app _ _ _ (trace_frame_put env startptr data' c s)) in Hin.
      rewrite cursor_frame_put. elem_cases Hin; inversion Hin; auto.
    - rewrite (events_since_app _ _ _ (trace_frame_sent env startptr endptr data' c s)) in Hin.
      rewrite cursor_frame_sent. elem_cases Hin; inversion Hin; auto. }
  destruct Hput as (Hst & -> & ->). rewrite Hst.
  destruct (XLogRead_ok_content (filesys env) wal k0 (cursor s) startptr
              (uint32 (xrecoff endptr - xrecoff startptr)) data' c calls)
    as [Hdata Hc']; try assumption.
  { destruct Hf. exact sf_start_range0. }
  assert (Hlen : Z.of_nat (length data') = uint32 (xrecoff endptr - xrecoff startptr)).
  { pose proof (XLogRead_cases (filesys env) (cursor s) startptr
                  (uint32 (xrecoff endptr - xrecoff startptr))) as Hcases.
    rewrite Hread in Hcases. cbn in Hcases. destruct Hcases as (_ & _ & _ & Hl & _).
    pose proof (uint32_range (xrecoff endptr - xrecoff startptr)). lia. }
  split.
  - replace (length data') with (Z.to_nat (uint32 (xrecoff endptr - xrecoff startptr))) by lia.
    exact Hdata.
  - exists calls. rewrite Hlen. split; [exact Hread | exact Hc'].
Qed.

(** X25. Frames are nearly full while the sender is behind: a frame
    after which the sender has not caught up, and that starts at least
    [MAX_SEND_SIZE] bytes before the end of its log file, carries more than
    [MAX_SEND_SIZE - XLOG_BLCKSZ] bytes (and at most [MAX_SEND_SIZE]); it
    ends at the last page boundary that [MAX_SEND_SIZE] bytes reach. *)
Theorem XLogSend_frame_nearly_full (env : SendEnv) (s : Sender) (r : bool * bool)
    (s' : Sender) (hdr : WalDataMessageHeader) (data : list Byte.byte) :
  is_recptr (sentPtr s) -> valid_recptr (GetFlushRecPtr env) ->
  XLogSend env s = Return r s' ->
  pq_putmessage "d" (WalDataBody "w" hdr data) ∈ events_since s s' ->
  snd r = false -> xrecoff (dataStart hdr) + MAX_SEND_SIZE <= XLogFileSize ->
  MAX_SEND_SIZE - XLOG_BLCKSZ < Z.of_nat (length data) <= MAX_SEND_SIZE /\
  xrecoff (frame_end hdr data) =
    xrecoff (dataStart hdr) + MAX_SEND_SIZE
    - (xrecoff (dataStart hdr) + MAX_SEND_SIZE) mod XLOG_BLCKSZ.
Proof.
  intros Hsent Hreq Hrun Hin Hbehind Hroom.
  destruct (XLogSend_frame params_ok env s r s' hdr data Hsent Hreq Hrun Hin)
    as (startptr & endptr & _ & _ & Hf & Hhdr & Hlen & Hend & _).
  rewrite Hend, Hlen. rewrite Hhdr in Hroom |- *. cbn [dataStart] in *.
  destruct Hf. destruct (sf_behind0 Hbehind) as (_ & _ & _ & Hform).
  rewrite Z.min_l in Hform by lia.
  destruct params_ok.
  pose proof (Z.mod_pos_bound (xrecoff startptr + MAX_SEND_SIZE) XLOG_BLCKSZ blcksz_pos0).
  split; [lia | exact Hform].
Qed.

End FramerContent.

(** ** The ways the process ends *)

(** X20. [SIGTERM] stops the stream at once: in a turn of the
    streaming loop with the postmaster alive, when a shutdown was asked for
    ([SIGTERM] among the signals received, or the flag already up) and no
    last cycle ([SIGUSR2]) nor [SIGQUIT], the walsender reloads the
    configuration if [SIGHUP] asks for it, puts "COPY 0", flushes and exits
    with status 0. It does not call [XLogSend]: the WAL still outstanding
    is not sent, whether the sender had caught up or not, and [sentPtr]
    stays. *)
Theorem WalSndLoop_turn_SIGTERM `{P : XLogParams} (env : LoopEnv) (caughtup : bool)
    (s : Sender) :
  SIGTERM ∈ signals_before env \/ walsender_shutdown_requested s = true ->
  SIGQUIT ∉ signals_before env -> SIGUSR2 ∉ signals_before env ->
  walsender_ready_to_stop s = false -> PostmasterIsAlive env = true ->
  exists s' reload,
    WalSndLoop_turn env caughtup s = Exit 0 s' /\
    sentPtr s' = sentPtr s /\
    events_since s s' =
      reload ++ [pq_putmessage "C" (TextBody "COPY 0"); pq_flush_called (copy_done_flush env)] /\
    (((got_SIGHUP s = true \/ SIGHUP ∈ signals_before env) /\ reload = [ProcessConfigFile]) \/
     (~ (got_SIGHUP s = true \/ SIGHUP ∈ signals_before env) /\ reload = [])).
Proof.
  intros Hterm Hquit Husr2 Hready Halive.
  destruct (deliver_Return (signals_before env) s Hquit)
    as (s1 & Hdel & Hhup1 & Hterm1 & Husr21 & Htr & Hsp & _).
  unfold WalSndLoop_turn. rewrite Hdel. cbn [bind]. rewrite Halive. cbn [negb].
  assert (Hr1 : walsender_ready_to_stop s1 = false).
  { destruct (walsender_ready_to_stop s1); [| reflexivity].
    destruct Husr21 as [Hx _]. destruct (Hx eq_refl) as [E | E]; [congruence | contradiction]. }
  assert (Hs1 : walsender_shutdown_requested s1 = true).
  { apply Hterm1. destruct Hterm; auto. }
  destruct (got_SIGHUP s1) eqn:Hh.
  - cbn [walsender_ready_to_stop emit set_got_SIGHUP]. rewrite Hr1. cbn [bind].
    cbn [walsender_shutdown_requested emit set_got_SIGHUP]. rewrite Hs1.
    eexists. exists [ProcessConfigFile]. split; [reflexivity |]. split; [exact Hsp |]. split.
    + apply events_since_app. cbn [trace emit set_got_SIGHUP]. rewrite Htr, <- !app_assoc.
      reflexivity.
    + left. split; [apply Hhup1; reflexivity | reflexivity].
  - rewrite Hr1. cbn [bind]. rewrite Hs1.
    eexists. exists []. split; [reflexivity |]. split; [exact Hsp |]. split.
    + apply events_since_app. cbn [trace emit]. rewrite Htr, <- !app_assoc. reflexivity.
    + right. split; [| reflexivity]. intros Hx. apply Hhup1 in Hx. congruence.
Qed.

Lemma exits_for_bind {A B : Type} (died quit : Prop) (m : outcome A)
    (k : A -> Sender -> outcome B) :
  exits_for died quit m -> (forall a s, exits_for died quit (k a s)) ->
  exits_for died quit (bind m k).
Proof. intros Hm Hk. destruct m; cbn [bind exits_for] in *; auto. Qed.

Lemma exits_for_weaken {A : Type} (died quit died' quit' : Prop) (o : outcome A) :
  (died -> died') -> (quit -> quit') -> exits_for died quit o -> exits_for died' quit' o.
Proof. intros Hd Hq. destruct o; cbn [exits_for]; tauto. Qed.

Lemma exits_for_deliver (sigs : list Signal) (s : Sender) :
  exits_for False (SIGQUIT ∈ sigs) (deliver sigs s).
Proof.
  revert s. induction sigs as [| sig sigs IH]; intros s; cbn [deliver]; [exact I |].
  apply exits_for_bind.
  - destruct sig; cbn [handle_signal exits_for]; try exact I.
    right. right. split; [reflexivity | left].
  - intros _ s1. eapply exits_for_weaken; [| | apply IH]; [tauto |].
    intros Hin. right. exact Hin.
Qed.

Lemma exits_for_XLogSend `{P : XLogParams} (died quit : Prop) (env : SendEnv) (s : Sender) :
  exits_for died quit (XLogSend env s).
Proof.
  destruct (XLogSend_total env s) as [(r & s' & ->) | (e & s' & ->)]; cbn; auto.
Qed.

Lemma exits_for_HandleReplicationCommand (died quit : Prop) (env : HandshakeEnv) (s : Sender) :
  exits_for died quit (HandleReplicationCommand env s).
Proof.
  unfold HandleReplicationCommand.
  destruct (negb (replication_yyparse env =? 0)); [cbn; auto |].
  destruct (replication_parse_result env); cbn [exits_for]; auto.
  unfold StartReplication. destruct (wal_level_is_minimal env); cbn; auto.
Qed.

Lemma exits_for_WalSndHandshake_turn (env : HandshakeEnv) (s : Sender) :
  exits_for (hs_PostmasterIsAlive env = false) (SIGQUIT ∈ hs_signals env)
    (WalSndHandshake_turn env s).
Proof.
  unfold WalSndHandshake_turn. apply exits_for_bind.
  { eapply exits_for_weaken; [| | apply exits_for_deliver]; tauto. }
  intros _ s1. destruct (hs_PostmasterIsAlive env); cbn [negb].
  2: { cbn. right. left. auto. }
  unfold handshake_dispatch.
  match goal with |- context [if ?fc =? 81 then _ else _] => destruct (fc =? 81) end.
  { apply exits_for_HandleReplicationCommand. }
  match goal with |- context [if ?fc =? 88 then _ else _] => destruct (fc =? 88) end.
  { cbn. auto. }
  match goal with |- context [if ?fc =? EOF then _ else _] => destruct (fc =? EOF) end;
    cbn; auto.
Qed.

Lemma exits_for_WalSndHandshake (envs : list HandshakeEnv) :
  forall s,
    exits_for (exists h, h ∈ envs /\ hs_PostmasterIsAlive h = false)
              (exists h, h ∈ envs /\ SIGQUIT ∈ hs_signals h)
              (WalSndHandshake envs s).
Proof.
  induction envs as [| env envs IH]; intros s; cbn [WalSndHandshake]; [exact I |].
  apply exits_for_bind.
  - eapply exits_for_weaken; [| | apply exits_for_WalSndHandshake_turn].
    + intros H. exists env. split; [left | exact H].
    + intros H. exists env. split; [left | exact H].
  - intros started s1. destruct started; [exact I |].
    eapply exits_for_weaken; [| | apply IH].
    + intros (h & Hin & H). exists h. split; [right; exact Hin | exact H].
    + intros (h & Hin & H). exists h. split; [right; exact Hin | exact H].
Qed.

Lemma exits_for_CheckClosedConnection (died quit : Prop) (r firstchar : Z) (s : Sender) :
  exits_for died quit (CheckClosedConnection r firstchar s).
Proof.
  unfold CheckClosedConnection.
  destruct (r <? 0); [cbn; auto |]. destruct (r =? 0); [exact I |].
  destruct (firstchar =? 88); cbn; auto.
Qed.

Lemma exits_for_WalSndLoop_turn `{P : XLogParams} (env : LoopEnv) (caughtup : bool)
    (s : Sender) :
  exits_for (PostmasterIsAlive env = false) (SIGQUIT ∈ signals_of env)
    (WalSndLoop_turn env caughtup s).
Proof.
  assert (Hsig : forall sigs s0,
            (forall sig, sig ∈ sigs -> sig ∈ signals_of env) ->
            exits_for (PostmasterIsAlive env = false) (SIGQUIT ∈ signals_of env)
              (deliver sigs s0)).
  { intros sigs s0 Hsub. eapply exits_for_weaken; [| | apply exits_for_deliver];
      [tauto | apply Hsub]. }
  assert (Hbefore : forall sig, sig ∈ signals_before env -> sig ∈ signals_of env).
  { intros sig H. unfold signals_of. rewrite !elem_of_app. auto. }
  assert (Hfinal : forall sig, sig ∈ signals_in_final_send env -> sig ∈ signals_of env).
  { intros sig H. unfold signals_of. rewrite !elem_of_app. auto. }
  assert (Hsend : forall sig, sig ∈ signals_in_send env -> sig ∈ signals_of env).
  { intros sig H. unfold signals_of. rewrite !elem_of_app. auto. }
  assert (Hsleep : forall sig, sig ∈ signals_in_sleep env -> sig ∈ signals_of env).
  { intros sig H. unfold signals_of. rewrite !elem_of_app. auto. }
  unfold WalSndLoop_turn.
  apply exits_for_bind; [apply Hsig; exact Hbefore |]. intros _ s1.
  destruct (PostmasterIsAlive env); cbn [negb].
  2: { cbn. right. left. auto. }
  apply exits_for_bind.
  - match goal with |- context [walsender_ready_to_stop ?x] =>
      destruct (walsender_ready_to_stop x) end; [| exact I].
    apply exits_for_bind; [apply exits_for_XLogSend |]. intros r s3.
    apply exits_for_bind; [apply Hsig; exact Hfinal |]. intros _ s4.
    destruct (negb (fst r)); [exact I |]. destruct (snd r); exact I.
  - intros step s3. destruct step as [caughtup1 |]; [| exact I].
    destruct (walsender_shutdown_requested s3); [cbn; auto |].
    apply exits_for_bind.
    + destruct caughtup1.
      * apply exits_for_bind; [apply exits_for_XLogSend |]. intros r s5.
        apply exits_for_bind; [apply Hsig; exact Hsend |]. intros _ s6.
        destruct (negb (fst r)); [exact I |].
        apply exits_for_bind.
        -- match goal with |- context [if ?b then _ else Return tt s6] => destruct b end;
             [apply Hsig; exact Hsleep | exact I].
        -- intros _ s7. apply exits_for_bind; [apply exits_for_CheckClosedConnection |].
           intros _ s8. exact I.
      * apply exits_for_bind; [apply exits_for_XLogSend |]. intros r s5.
        apply exits_for_bind; [apply Hsig; exact Hsend |]. intros _ s6.
        destruct (negb (fst r)); exact I.
    + intros step s4. destruct step; exact I.
Qed.

Lemma exits_for_WalSndLoop_from `{P : XLogParams} (envs : list LoopEnv) :
  forall caughtup s,
    exits_for (exists l, l ∈ envs /\ PostmasterIsAlive l = false)
              (exists l, l ∈ envs /\ SIGQUIT ∈ signals_of l)
              (WalSndLoop_from envs caughtup s) /\
    never_returns (WalSndLoop_from envs caughtup s).
Proof.
  induction envs as [| env envs IH]; intros caughtup s; cbn [WalSndLoop_from];
    [split; exact I |].
  split.
  - apply exits_for_bind.
    + eapply exits_for_weaken; [| | apply exits_for_WalSndLoop_turn].
      * intros H. exists env. split; [left | exact H].
      * intros H. exists env. split; [left | exact H].
    + intros step s1. destruct step as [caughtup' |]; [| cbn; auto].
      eapply exits_for_weaken; [| | apply IH].
      * intros (l & Hin & H). exists l. split; [right; exact Hin | exact H].
      * intros (l & Hin & H). exists l. split; [right; exact Hin | exact H].
  - destruct (WalSndLoop_turn env caughtup s) as [step s1 | | |]; cbn [bind never_returns];
      try exact I.
    destruct step as [caughtup' |]; [apply IH | exact I].
Qed.

(** X21. How a walsender ends. [WalSenderMain] never returns to its
    caller: a run ends with an [ERROR] or [FATAL] report or with an exit,
    or it is still running. The exit status is 0, 1 or 2; it is 1 only when
    the postmaster was found dead in a turn of the handshake or of the
    streaming loop, and 2 only when [SIGQUIT] was delivered. *)
Theorem WalSenderMain_never_returns `{P : XLogParams} (env : MainEnv) (s : Sender) :
  never_returns (WalSenderMain env s) /\
  exits_for (postmaster_died env) (quit_signalled env) (WalSenderMain env s).
Proof.
  unfold WalSenderMain.
  destruct (RecoveryInProgress env); [split; cbn; auto |].
  split.
  - destruct (InitWalSnd s) as [[] s1 | | |]; cbn [bind never_returns]; try exact I.
    destruct (WalSndHandshake (handshake env) (emit ReadyForQuery s1)) as [[] s2 | | |];
      cbn [bind never_returns]; try exact I.
    apply exits_for_WalSndLoop_from.
  - apply exits_for_bind.
    + unfold InitWalSnd.
      destruct (MyWalSnd (InitWalSnd_scan (length (WalSndCtl s)) 0 s)); cbn; auto.
    + intros _ s1. apply exits_for_bind.
      * eapply exits_for_weaken; [| | apply exits_for_WalSndHandshake].
        -- intros H. left. exact H.
        -- intros H. left. exact H.
      * intros _ s2. unfold WalSndLoop.
        eapply exits_for_weaken; [| | apply exits_for_WalSndLoop_from].
        -- intros H. right. exact H.
        -- intros H. right. exact H.
Qed.

(** ** A walsender in the statistics view *)

Lemma pg_stat_rows (table : list WalSnd) :
  pg_stat_get_wal_senders
    {| rsinfo_is_ReturnSetInfo := true; allows_SFRM_Materialize := true;
       result_type_is_composite := true |} table =
  inr (stat_locks 0 table, stat_row <$> filter (fun w => ws_pid w <> 0) table).
Proof.
  unfold pg_stat_get_wal_senders. cbn [negb rsinfo_is_ReturnSetInfo allows_SFRM_Materialize
                                       result_type_is_composite].
  rewrite pg_stat_get_wal_senders_loop_spec by reflexivity. rewrite drop_0. reflexivity.
Qed.

Lemma filter_insert_split (used : WalSnd -> Prop) `{!forall w, Decision (used w)}
    (table : list WalSnd) (k : nat) (w x : WalSnd) :
  table !! k = Some w ->
  filter used (<[k := x]> table) =
  filter used (take k table) ++ filter used [x] ++ filter used (drop (S k) table).
Proof.
  intros Hk.
  assert (Hlt : (k < length table)%nat) by (eapply lookup_lt_Some; exact Hk).
  rewrite insert_take_drop by exact Hlt.
  rewrite filter_app. f_equal.
  change (x :: drop (S k) table) with ([x] ++ drop (S k) table).
  apply filter_app.
Qed.

(** X22. The life of a walsender in the view: [InitWalSnd], taking
    slot [k], adds to the rows of [pg_stat_get_wal_senders] one row, at the
    place of its slot among the slots in use (after the rows of the slots
    before slot [k], before the rows of the slots after it), with the pid
    of the process, the state "STARTUP" and the location "0/0", and changes
    no other row; the exit hook [WalSndKill] takes that row away again and
    leaves the rows as they were before the walsender started. *)
Theorem walsender_row_life_cycle (s s1 : Sender) (k : nat) :
  MyWalSnd s = None -> MyProcPid s <> 0 -> InitWalSnd s = Return tt s1 ->
  MyWalSnd s1 = Some k ->
  let view := pg_stat_get_wal_senders
                {| rsinfo_is_ReturnSetInfo := true; allows_SFRM_Materialize := true;
                   result_type_is_composite := true |} in
  let rows_of (slots : list WalSnd) := stat_row <$> filter (fun w => ws_pid w <> 0) slots in
  let before := rows_of (take k (WalSndCtl s)) in
  let after := rows_of (drop (S k) (WalSndCtl s)) in
  exists evs0 evs1 evs2,
    view (WalSndCtl s) = inr (evs0, before ++ after) /\
    view (WalSndCtl s1) =
      inr (evs1, before ++ [{| row_pid := MyProcPid s; row_state := "STARTUP";
                               row_sent_location := "0/0" |}] ++ after) /\
    view (WalSndCtl (WalSndKill s1)) = inr (evs2, before ++ after).
Proof.
  intros Hnone Hpid Hrun Hmine view rows_of before after.
  destruct (InitWalSnd_Return_inv s s1 Hnone Hrun) as (k' & w & Hk & Hfree & _ & ->).
  cbn [MyWalSnd with_slots] in Hmine. inversion Hmine; subst k'. clear Hmine.
  assert (Hlt : (k < length (WalSndCtl s))%nat) by (eapply lookup_lt_Some; exact Hk).
  eexists _, _, _. subst view before after rows_of. rewrite !pg_stat_rows.
  split; [| split]; f_equal; f_equal.
  - rewrite <- fmap_app. f_equal.
    rewrite <- (list_insert_id (WalSndCtl s) k w Hk) at 1.
    rewrite (filter_insert_split _ _ k w w Hk).
    rewrite (filter_cons_False _ w []) by (intros H; apply H; exact Hfree).
    reflexivity.
  - cbn [WalSndCtl with_slots].
    rewrite (filter_insert_split _ _ k w _ Hk).
    rewrite (filter_cons_True _ (acquired_slot (MyProcPid s) w) []) by exact Hpid.
    rewrite !fmap_app. reflexivity.
  - unfold WalSndKill. cbn [MyWalSnd WalSndCtl with_slots set_MyWalSnd set_WalSndCtl].
    rewrite (alter_as_insert release_slot _ k (acquired_slot (MyProcPid s) w))
      by (apply list_lookup_insert_eq; exact Hlt).
    rewrite list_insert_insert_eq.
    rewrite (filter_insert_split _ _ k w _ Hk).
    rewrite (filter_cons_False _ (release_slot (acquired_slot (MyProcPid s) w)) [])
      by (intros H; apply H; reflexivity).
    rewrite <- fmap_app. reflexivity.
Qed.

(** ** The answers of the handshake *)

Lemma mute_step_same (s s' : Sender) : trace s' = trace s -> mute_step s s'.
Proof. intros E. exists []. rewrite app_nil_r. split; [exact E | reflexivity]. Qed.

Lemma mute_step_trans (s1 s2 s3 : Sender) : mute_step s1 s2 -> mute_step s2 s3 -> mute_step s1 s3.
Proof.
  intros (e1 & E1 & H1) (e2 & E2 & H2). exists (e1 ++ e2). split.
  - rewrite E2, E1, app_assoc. reflexivity.
  - rewrite forallb_app, H1, H2. reflexivity.
Qed.

Lemma mute_step_emit (e : Event) (s : Sender) : is_reply e = false -> mute_step s (emit e s).
Proof. intros He. exists [e]. split; [reflexivity |]. cbn. rewrite He. reflexivity. Qed.

Lemma mute_step_WalSndSetState (st : WalSndState) (s : Sender) :
  mute_step s (WalSndSetState st s).
Proof.
  unfold WalSndSetState. destruct (MyWalSnd s) as [i |]; [| apply mute_step_same; reflexivity].
  destruct (my_slot s) as [w |]; [| apply mute_step_same; reflexivity].
  destruct (WalSndState_eqb (ws_state w) st); [apply mute_step_same; reflexivity |].
  exists [SpinLockAcquire i; StoreState i st; SpinLockRelease i]. split; [| reflexivity].
  cbn [trace emit set_WalSndCtl]. rewrite <- !app_assoc. reflexivity.
Qed.

Lemma mute_step_deliver (sigs : list Signal) (s : Sender) :
  mute_step s (final_state (deliver sigs s)).
Proof.
  apply (R_deliver mute_step);
    first [ exact mute_step_trans | intros; apply mute_step_same; reflexivity ].
Qed.

(** X23. The answers of the handshake. A turn of [WalSndHandshake]
    returns only when the postmaster is alive, the byte read is ['Q'], the
    message that follows was read and the parser accepted the command.
    Before the answer the client is shown nothing. The answer to
    IDENTIFY_SYSTEM is a row description, a data row with the system
    identifier and the timeline, CommandComplete "SELECT" and
    ReadyForQuery; the answer to BASE_BACKUP ends with CommandComplete
    "SELECT" and ReadyForQuery; both leave the handshake going.
    START_REPLICATION ends the handshake, only when [wal_level] is
    above minimal: the process is marked as a walsender, the
    CopyBothResponse is put and flushed, and [sentPtr] is the start point
    asked for. No other command lets the turn return. *)
Theorem WalSndHandshake_turn_answers (env : HandshakeEnv) (s : Sender)
    (started : bool) (s' : Sender) :
  WalSndHandshake_turn env s = Return started s' ->
  hs_PostmasterIsAlive env = true /\ pq_getbyte env = 81 /\ pq_getmessage env = 0 /\
  replication_yyparse env = 0 /\
  exists pre,
    forallb (fun e => negb (is_reply e)) pre = true /\
    match replication_parse_result env with
    | T_IdentifySystemCmd =>
        started = false /\
        events_since s s' =
          pre ++ [pq_putmessage "T" (RowDescriptionBody ["systemid"%string; "timeline"%string]);
                  pq_putmessage "D" (DataRowBody (GetSystemIdentifier env) (hs_ThisTimeLineID env));
                  pq_putmessage "C" (TextBody "SELECT"); ReadyForQuery]
    | T_StartReplicationCmd startpoint =>
        started = true /\ wal_level_is_minimal env = false /\ sentPtr s' = startpoint /\
        events_since s s' =
          pre ++ [MarkPostmasterChildWalSender; pq_putmessage "W" (CopyBothBody 0 0);
                  pq_flush_called (hs_pq_flush env)]
    | T_BaseBackupCmd _ _ _ =>
        started = false /\
        events_since s s' =
          pre ++ [SendBaseBackup; pq_putmessage "C" (TextBody "SELECT"); ReadyForQuery]
    | T_Other => False
    end.
Proof.
  unfold WalSndHandshake_turn.
  set (s0 := emit set_ps_display_idle (WalSndSetState WALSNDSTATE_STARTUP s)).
  assert (H0 : mute_step s s0).
  { subst s0. eapply mute_step_trans; [apply mute_step_WalSndSetState |].
    apply mute_step_emit. reflexivity. }
  clearbody s0.
  pose proof (mute_step_deliver (hs_signals env) s0) as Hd.
  destruct (deliver (hs_signals env) s0) as [[] s1 | | |]; cbn [bind final_state] in *;
    try discriminate.
  assert (H1 : mute_step s s1) by (eapply mute_step_trans; eassumption).
  clear Hd H0 s0.
  destruct (hs_PostmasterIsAlive env); cbn [negb]; [| discriminate].
  set (s2 := if got_SIGHUP s1 then _ else s1).
  assert (H2 : mute_step s s2).
  { eapply mute_step_trans; [exact H1 |]. subst s2.
    destruct (got_SIGHUP s1); [| apply mute_step_same; reflexivity].
    apply (mute_step_trans _ (set_got_SIGHUP false s1));
      [apply mute_step_same; reflexivity |].
    apply (mute_step_emit ProcessConfigFile). reflexivity. }
  clearbody s2. clear H1 s1.
  set (firstchar := if negb (pq_getbyte env =? EOF) then _ else pq_getbyte env).
  assert (Hfc : firstchar = 81 -> pq_getbyte env = 81 /\ pq_getmessage env = 0).
  { subst firstchar. unfold EOF.
    destruct (Z.eqb_spec (pq_getbyte env) (-1)) as [E | E]; cbn [negb]; [lia |].
    destruct (Z.eqb_spec (pq_getmessage env) 0) as [E' | E']; cbn [negb]; [auto | lia]. }
  clearbody firstchar.
  unfold handshake_dispatch.
  destruct (Z.eqb_spec firstchar 81) as [HQ | HQ].
  2: { destruct (firstchar =? 88); [discriminate |].
       destruct (firstchar =? EOF); discriminate. }
  destruct (Hfc HQ) as [Hbyte Hmsg]. clear Hfc.
  unfold HandleReplicationCommand.
  destruct (Z.eqb_spec (replication_yyparse env) 0) as [Hparse | Hparse]; cbn [negb];
    [| discriminate].
  intros Hrun. split; [reflexivity |]. split; [exact Hbyte |]. split; [exact Hmsg |].
  split; [exact Hparse |].
  destruct H2 as (pre & Epre & Hmute). exists pre. split; [exact Hmute |].
  destruct (replication_parse_result env) as [| startpoint | label progress fast |].
  - inversion Hrun; subst. split; [reflexivity |].
    apply events_since_app. unfold IdentifySystem. cbn [trace emit].
    rewrite Epre, <- !app_assoc. reflexivity.
  - unfold StartReplication in Hrun.
    destruct (wal_level_is_minimal env); [discriminate |].
    cbn [bind] in Hrun. inversion Hrun; subst.
    split; [reflexivity |]. split; [reflexivity |]. split; [reflexivity |].
    apply events_since_app. cbn [trace emit set_sentPtr].
    rewrite Epre, <- !app_assoc. reflexivity.
  - inversion Hrun; subst. split; [reflexivity |].
    apply events_since_app. cbn [trace emit].
    rewrite Epre, <- !app_assoc. reflexivity.
  - discriminate.
Qed.

(** ** The end of a lost connection *)

(** X24. A lost connection ends the walsender quietly. When the
    streaming loop starts a turn with no flag up and no signal arriving,
    the sender is behind the flush position and the flush of the frame
    fails, then either [XLogRead] has reported its [ERROR] and nothing was
    sent, or the process exits with status 0 after exactly three events:
    the frame put, the failed flush and the suppression of further
    output. No "COPY 0" is sent, no later turn is run, and [sentPtr] and
    the slot table are as before the turn. *)
Theorem WalSndLoop_send_failure `{P : XLogParams} (env : LoopEnv) (rest : list LoopEnv)
    (s : Sender) :
  signals_before env = [] -> signals_in_send env = [] -> PostmasterIsAlive env = true ->
  got_SIGHUP s = false -> walsender_ready_to_stop s = false ->
  walsender_shutdown_requested s = false ->
  XLByteLE (GetFlushRecPtr (send env)) (sentPtr s) = false -> pq_flush (send env) <> 0 ->
  match WalSndLoop (env :: rest) s with
  | Exit code s' =>
      code = 0 /\ sentPtr s' = sentPtr s /\ WalSndCtl s' = WalSndCtl s /\
      exists hdr data,
        events_since s s' =
        [pq_putmessage "d" (WalDataBody "w" hdr data);
         pq_flush_called (pq_flush (send env)); SuppressOutput]
  | Raise lvl e s' => lvl = ERROR /\ events_since s s' = []
  | Return _ _ | OutOfFuel _ => False
  end.
Proof.
  intros Hbefore Hsend Halive Hhup Hready Hshut Hbehind Hflush.
  unfold WalSndLoop. cbn [WalSndLoop_from]. unfold WalSndLoop_turn.
  rewrite Hbefore. cbn [deliver bind]. rewrite Halive. cbn [negb].
  rewrite Hhup, Hready. cbn [bind]. rewrite Hshut.
  destruct (XLogSend (send env) s) as [r s1 | lvl e s1 | code s1 | s1] eqn:Hrun;
    cbn [bind].
  - apply XLogSend_Return_inv in Hrun.
    destruct Hrun as [(Hle & _) | (_ & startptr & endptr & caughtup & data & c & calls
                                   & _ & _ & [(_ & -> & ->) | (Hz & _)])];
      [congruence | | contradiction].
    rewrite Hsend. cbn [deliver bind fst negb].
    split; [reflexivity |]. split; [reflexivity |]. split; [reflexivity |].
    eexists _, data. apply events_since_app.
    cbn [trace emit]. rewrite trace_frame_put, <- app_assoc. reflexivity.
  - destruct (XLogSend_total (send env) s) as [(r & s2 & E) | (e2 & s2 & E)];
      rewrite E in Hrun; inversion Hrun; subst.
    split; [reflexivity |].
    unfold XLogSend in E. rewrite Hbehind in E.
    destruct (XLogSend_slice (sentPtr s) (GetFlushRecPtr (send env))) as [[startptr endptr] cu].
    destruct (XLogRead (filesys (send env)) (cursor s) startptr
                (uint32 (xrecoff endptr - xrecoff startptr))) as [data c calls | e3 c calls |];
      try discriminate.
    + destruct (negb (pq_flush (send env) =? 0)); discriminate.
    + inversion E; subst. apply events_since_app. cbn [trace set_cursor].
      rewrite app_nil_r. reflexivity.
  - destruct (XLogSend_total (send env) s) as [(r & s2 & E) | (e2 & s2 & E)];
      rewrite E in Hrun; discriminate.
  - destruct (XLogSend_total (send env) s) as [(r & s2 & E) | (e2 & s2 & E)];
      rewrite E in Hrun; discriminate.
Qed.

(** * The further properties at concrete inputs *)

(** The sample file system holds the sample WAL, whatever descriptors
    the process enters the call with. *)
Lemma wal_fs_serves (k0 : Kernel) : @serves_wal small_params (wal_fs k0) sample_wal k0.
Proof.
  constructor.
  - intros calls log seg Hlog Hseg. cbn. lia.
  - intros calls fd f off Hk Hoff. cbn [lseek wal_fs]. rewrite Hk. reflexivity.
  - intros calls fd f count Hk Hpos Hcount Hend. exists (Z.to_nat (Z.min count 5)).
    split; [lia |]. cbn [read wal_fs]. rewrite Hk. reflexivity.
Qed.

(** X1 at an input: a sender in state [CATCHUP] that moves to
    [STREAMING]. *)
Lemma WalSndSetState_spec_witness :
  let p := {| xlogid := 0; xrecoff := 512 |} in
  let s := sender_at p in
  WalSndCtl (WalSndSetState WALSNDSTATE_STREAMING s) =
    [{| ws_pid := 4242; ws_state := WALSNDSTATE_STREAMING; ws_sentPtr := p;
        ws_latch := {| is_set := false; owner_pid := 4242 |} |}] /\
  events_since s (WalSndSetState WALSNDSTATE_STREAMING s) =
    [SpinLockAcquire 0; StoreState 0 WALSNDSTATE_STREAMING; SpinLockRelease 0].
Proof.
  intros p s.
  destruct (WalSndSetState_spec WALSNDSTATE_STREAMING s 0%nat
              {| ws_pid := 4242; ws_state := WALSNDSTATE_CATCHUP; ws_sentPtr := p;
                 ws_latch := {| is_set := false; owner_pid := 4242 |} |}
              eq_refl eq_refl) as (Htable & _ & Hevents & _).
  split; [exact Htable | apply Hevents; discriminate].
Defined.

(** X2 at an input: a table with slot 0 taken; the walsender takes
    slot 1, releases it, and would take it again. *)
Lemma InitWalSnd_WalSndKill_round_trip_witness :
  let s := fresh_sender 4242 [taken_slot; free_slot; free_slot] in
  let s1 := final_state (InitWalSnd s) in
  MyWalSnd (WalSndKill s1) = None /\
  ws_pid <$> WalSndCtl (WalSndKill s1) = [77; 0; 0].
Proof.
  intros s s1.
  destruct (InitWalSnd_WalSndKill_round_trip s s1) as (Hmine & Hpids & _).
  - reflexivity.
  - vm_compute. reflexivity.
  - split; [exact Hmine |]. rewrite Hpids. reflexivity.
Defined.

(** X3 at an input: two walsenders, one after the other, on a table
    with slot 0 taken. *)
Lemma InitWalSnd_distinct_slots_witness :
  let sA := fresh_sender 4242 [taken_slot; free_slot; free_slot] in
  let sA' := final_state (InitWalSnd sA) in
  let sB := fresh_sender 4343 (WalSndCtl sA') in
  let sB' := final_state (InitWalSnd sB) in
  exists a b, MyWalSnd sA' = Some a /\ MyWalSnd sB' = Some b /\ a <> b.
Proof.
  intros sA sA' sB sB'.
  destruct (InitWalSnd_distinct_slots sA sA' sB sB') as (a & b & Ha & Hb & Hne & _).
  - reflexivity.
  - discriminate.
  - vm_compute. reflexivity.
  - reflexivity.
  - reflexivity.
  - vm_compute. reflexivity.
  - exists a, b. split; [exact Ha |]. split; [exact Hb | exact Hne].
Defined.

(** X4 at an input: three walsenders on a table of two slots. *)
Lemma WalSndShmemInit_capacity_witness :
  acquire_all [11; 12; 13] (WalSndShmemInit false 2 []) = [Some 0%nat; Some 1%nat; None].
Proof.
  apply (WalSndShmemInit_capacity 2 [] [11; 12; 13]).
  repeat constructor; discriminate.
Defined.

(** X6 at an input: a default build, a sender at the start of segment 1
    and 300 bytes flushed beyond it. *)
Lemma XLogSend_progress_witness :
  let start := {| xlogid := 0; xrecoff := 16777216 |} in
  let flushed := {| xlogid := 0; xrecoff := 16777516 |} in
  let s' := final_state (@XLogSend default_params (send_env flushed 0) (sender_at start)) in
  XLByteLT start (sentPtr s') = true /\ XLByteLE (sentPtr s') flushed = true.
Proof.
  intros start flushed s'.
  destruct (@XLogSend_progress default_params default_params_ok (send_env flushed 0)
              (sender_at start) (true, true) s') as (_ & _ & Hmoved).
  - split; cbn; lia.
  - split; cbn; lia.
  - vm_compute. reflexivity.
  - apply Hmoved; reflexivity.
Defined.

(** X7 at an input: a build with 8-byte pages and 16-byte frames, a
    sender at offset 67 and 100 bytes flushed beyond it: the first frame
    ends at the page boundary 80, where the second starts. *)
Lemma XLogSend_frames_contiguous_witness :
  let start := {| xlogid := 0; xrecoff := 67 |} in
  let flushed := {| xlogid := 0; xrecoff := 167 |} in
  let hdr1 := {| dataStart := start; walEnd := flushed; sendTime := 0 |} in
  let hdr2 := {| dataStart := {| xlogid := 0; xrecoff := 80 |}; walEnd := flushed;
                 sendTime := 0 |} in
  dataStart hdr2 = frame_end hdr1 (repeat Byte.x00 13).
Proof.
  intros start flushed hdr1 hdr2.
  pose (env := send_env flushed 0).
  pose (s1 := final_state (@XLogSend small_params env (sender_at start))).
  pose (s2 := final_state (@XLogSend small_params env s1)).
  destruct (@XLogSend_frames_contiguous small_params small_params_ok env env
              (sender_at start) s1 s2 false (true, false)
              hdr1 hdr2 (repeat Byte.x00 13) (repeat Byte.x00 16)) as [[_ H] | [H _]].
  - split; cbn; lia.
  - split; cbn; lia.
  - split; cbn; lia.
  - vm_compute. reflexivity.
  - vm_compute. apply list_elem_of_here.
  - vm_compute. reflexivity.
  - vm_compute. apply list_elem_of_here.
  - exact H.
  - vm_compute in H. discriminate.
Defined.

(** X8 at an input: a sender 3 bytes behind catches up; a second call
    against the same flush position changes nothing. *)
Lemma XLogSend_caught_up_is_stable_witness :
  let env := send_env {| xlogid := 0; xrecoff := 70 |} 0 in
  let s' := final_state (@XLogSend small_params env (sender_at {| xlogid := 0; xrecoff := 67 |})) in
  @XLogSend small_params env s' = Return (true, true) s'.
Proof.
  intros env s'.
  apply (@XLogSend_caught_up_is_stable small_params env env
           (sender_at {| xlogid := 0; xrecoff := 67 |}) s').
  - vm_compute. reflexivity.
  - reflexivity.
Defined.

(** X9 at an input: 100 bytes from offset 67, over three segments of 64
    bytes, served five bytes at a time, by a process that holds no
    descriptor yet. *)
Lemma XLogRead_returns_the_wal_witness :
  let recptr := {| xlogid := 0; xrecoff := 67 |} in
  exists c' calls,
    @XLogRead small_params (wal_fs no_files) initial_cursor recptr 100 =
    ReadOk (@wal_range small_params sample_wal recptr 100) c' calls.
Proof.
  intros recptr.
  destruct (@XLogRead_returns_the_wal small_params small_params_ok (wal_fs no_files) sample_wal
              no_files initial_cursor recptr 100) as (c' & calls & Hrun & _).
  - apply wal_fs_serves.
  - left. cbn. lia.
  - split; cbn; lia.
  - reflexivity.
  - exists c', calls. exact Hrun.
Defined.

(** X10 at an input: 13 bytes from offset 67 leave the cursor on
    segment 1 at offset 16. *)
Lemma XLogRead_keeps_segment_open_witness :
  @positioned small_params {| sendFile := 3; sendId := 0; sendSeg := 1; sendOff := 16 |}
    (@XLByteAdvance small_params {| xlogid := 0; xrecoff := 67 |} 13).
Proof.
  refine (@XLogRead_keeps_segment_open small_params small_params_ok (wal_fs no_files)
            initial_cursor {| xlogid := 0; xrecoff := 67 |} 13 _ _ _ _ _ _ _).
  - split; cbn; lia.
  - lia.
  - vm_compute. reflexivity.
  - vm_compute. reflexivity.
Defined.

(** X11 at an input: the next 16 bytes, read through that cursor. *)
Lemma XLogRead_positioned_only_reads_witness :
  forallb is_read
    (calls_of (@XLogRead small_params
                 (wal_fs (set_file no_files 3
                            (Some {| of_log := 0; of_seg := 1; of_pos := 16 |})))
                 {| sendFile := 3; sendId := 0; sendSeg := 1; sendOff := 16 |}
                 {| xlogid := 0; xrecoff := 80 |} 16)) = true.
Proof.
  apply (@XLogRead_positioned_only_reads small_params small_params_ok).
  - split; cbn; lia.
  - split; [cbn; lia |]. split; reflexivity.
  - lia.
  - vm_compute. discriminate.
Defined.



(** X14 at an input: a sender 3 bytes behind catches up in one turn
    and shows as [STREAMING]. *)
Lemma WalSndLoop_turn_publishes_state_witness :
  let env := loop_env {| xlogid := 0; xrecoff := 70 |} in
  let s := sender_at {| xlogid := 0; xrecoff := 67 |} in
  let s' := final_state (@WalSndLoop_turn small_params env false s) in
  exists w, WalSndCtl s' !! 0%nat = Some w /\ ws_state w = WALSNDSTATE_STREAMING.
Proof.
  intros env s s'.
  destruct (@WalSndLoop_turn_publishes_state small_params env false s true s' 0%nat)
    as [Hstate _].
  - reflexivity.
  - cbn. lia.
  - vm_compute. reflexivity.
  - exact Hstate.
Defined.

(** X16 at an input: the same run as for X12. *)
Lemma WalSenderMain_streams_after_CopyBoth_witness :
  let env := {| RecoveryInProgress := false;
                handshake := [start_replication {| xlogid := 0; xrecoff := 67 |}];
                streaming := [loop_env {| xlogid := 0; xrecoff := 167 |}] |} in
  let s := fresh_sender 4242 [taken_slot; free_slot] in
  let startup :=
    bind (InitWalSnd s) (fun _ s1 => WalSndHandshake (handshake env) (emit ReadyForQuery s1)) in
  (exists started,
     copy_scan false (events_since s (final_state (@WalSenderMain small_params env s))) =
     Some started) /\
  forallb (fun e => negb (is_wal_data e)) (events_since s (final_state startup)) = true.
Proof.
  intros env s startup.
  destruct (@WalSenderMain_streams_after_CopyBoth small_params env s eq_refl)
    as (Hscan & _ & Hsplit).
  destruct (Hsplit eq_refl) as (Hno & _).
  split; [exact Hscan | exact Hno].
Defined.

(** X18 at an input: the row of a streaming sender at offset 512. *)
Lemma parse_row_stat_row_witness :
  parse_row (stat_row taken_slot) =
  Some (77, WALSNDSTATE_STREAMING, {| xlogid := 0; xrecoff := 512 |}).
Proof.
  apply (parse_row_stat_row taken_slot). split; cbn; lia.
Defined.

(** X19 at an input: the first frame of a sender at offset 67 carries
    the 13 bytes of the WAL up to the page boundary. *)
Lemma XLogSend_sends_the_wal_witness :
  let start := {| xlogid := 0; xrecoff := 67 |} in
  let flushed := {| xlogid := 0; xrecoff := 167 |} in
  let hdr := {| dataStart := start; walEnd := flushed; sendTime := 0 |} in
  let data := @wal_range small_params sample_wal start 13 in
  data = @wal_range small_params sample_wal (dataStart hdr) (length data).
Proof.
  intros start flushed hdr data.
  pose (s' := final_state (@XLogSend small_params (wal_send_env flushed) (sender_at start))).
  destruct (@XLogSend_sends_the_wal small_params small_params_ok (wal_send_env flushed)
              sample_wal no_files (sender_at start) (true, false) s' hdr data)
    as [Hdata _].
  - split; cbn; lia.
  - split; cbn; lia.
  - apply wal_fs_serves.
  - left. cbn. lia.
  - vm_compute. reflexivity.
  - vm_compute. apply list_elem_of_here.
  - exact Hdata.
Defined.

(** X20 at an input: [SIGTERM] reaches a sender that is 100 bytes
    behind. *)
Lemma WalSndLoop_turn_SIGTERM_witness :
  let env := sigterm_env {| xlogid := 0; xrecoff := 167 |} in
  let s := sender_at {| xlogid := 0; xrecoff := 67 |} in
  exists s',
    @WalSndLoop_turn small_params env false s = Exit 0 s' /\
    events_since s s' = [pq_putmessage "C" (TextBody "COPY 0"); pq_flush_called 0].
Proof.
  intros env s.
  destruct (@WalSndLoop_turn_SIGTERM small_params env false s)
    as (s' & reload & Hrun & _ & Hevents & [[[E | E] _] | [_ ->]]).
  - left. apply list_elem_of_here.
  - intros H. apply list_elem_of_singleton in H. discriminate.
  - intros H. apply list_elem_of_singleton in H. discriminate.
  - reflexivity.
  - reflexivity.
  - discriminate.
  - apply list_elem_of_singleton in E. discriminate.
  - exists s'. split; [exact Hrun | exact Hevents].
Defined.

(** X22 at an input: a table with slot 0 taken by a streaming sender;
    the walsender takes slot 1 and its row comes after the row of
    slot 0. *)
Lemma walsender_row_life_cycle_witness :
  let s := fresh_sender 4242 [taken_slot; free_slot; free_slot] in
  let s1 := final_state (InitWalSnd s) in
  let view := pg_stat_get_wal_senders
                {| rsinfo_is_ReturnSetInfo := true; allows_SFRM_Materialize := true;
                   result_type_is_composite := true |} in
  let row0 := {| row_pid := 77; row_state := "STREAMING"; row_sent_location := "0/200" |} in
  exists evs0 evs1 evs2,
    view (WalSndCtl s) = inr (evs0, [row0]) /\
    view (WalSndCtl s1) =
      inr (evs1, [row0; {| row_pid := 4242; row_state := "STARTUP";
                           row_sent_location := "0/0" |}]) /\
    view (WalSndCtl (WalSndKill s1)) = inr (evs2, [row0]).
Proof.
  intros s s1 view row0.
  apply (walsender_row_life_cycle s s1 1%nat); [reflexivity | discriminate | |].
  - vm_compute. reflexivity.
  - vm_compute. reflexivity.
Defined.

(** X23 at an input: a START_REPLICATION command from offset 67. *)
Lemma WalSndHandshake_turn_answers_witness :
  let p := {| xlogid := 0; xrecoff := 67 |} in
  let s := fresh_sender 4242 [free_slot] in
  sentPtr (final_state (WalSndHandshake_turn (start_replication p) s)) = p.
Proof.
  intros p s.
  destruct (WalSndHandshake_turn_answers (start_replication p) s true
              (final_state (WalSndHandshake_turn (start_replication p) s)))
    as (_ & _ & _ & _ & pre & _ & Hanswer).
  - vm_compute. reflexivity.
  - cbn [replication_parse_result start_replication] in Hanswer.
    destruct Hanswer as (_ & _ & Hsent & _). exact Hsent.
Defined.

(** X24 at an input: a sender 100 bytes behind, the flush fails. *)
Lemma WalSndLoop_send_failure_witness :
  let env := lost_connection_env {| xlogid := 0; xrecoff := 167 |} in
  let s := sender_at {| xlogid := 0; xrecoff := 67 |} in
  exists s', @WalSndLoop small_params [env] s = Exit 0 s' /\ sentPtr s' = sentPtr s.
Proof.
  intros env s.
  pose proof (@WalSndLoop_send_failure small_params env [] s eq_refl eq_refl eq_refl
                eq_refl eq_refl eq_refl eq_refl ltac:(discriminate)) as Hend.
  destruct (@WalSndLoop small_params [env] s) as [[] s' | lvl e s' | code s' | s'] eqn:Hrun.
  - contradiction.
  - vm_compute in Hrun. discriminate.
  - destruct Hend as (-> & Hsent & _). exists s'. split; [reflexivity | exact Hsent].
  - contradiction.
Defined.

(** X25 at an input: a build with 8-byte pages and 16-byte frames, a
    sender at offset 64 with 100 bytes pending: a full frame of 16
    bytes. *)
Lemma XLogSend_frame_nearly_full_witness :
  @MAX_SEND_SIZE small_params - @XLOG_BLCKSZ small_params <
  Z.of_nat (length (repeat Byte.x00 16)).
Proof.
  pose (start := {| xlogid := 0; xrecoff := 64 |}).
  pose (flushed := {| xlogid := 0; xrecoff := 164 |}).
  pose (hdr := {| dataStart := start; walEnd := flushed; sendTime := 0 |}).
  destruct (@XLogSend_frame_nearly_full small_params small_params_ok
              (send_env flushed 0) (sender_at start) (true, false)
              (final_state (@XLogSend small_params (send_env flushed 0) (sender_at start)))
              hdr (repeat Byte.x00 16)) as [[Hlow _] _].
  - split; cbn; lia.
  - split; cbn; lia.
  - vm_compute. reflexivity.
  - vm_compute. apply list_elem_of_here.
  - reflexivity.
  - vm_compute. discriminate.
  - exact Hlow.
Defined.
